(* ===== verification/_CoqProject ===== *)
-Q . S2P
Prelude.v
GoStrings.v
Wire.v
BadVersion.v
Topology.v
Counter.v
Hook.v
PanelTypes.v
Sync.v
Client.v
MinHTTP.v
StatsAPI.v
RateLimit.v
Inbounds.v
UserManager.v
Rules.v
RuleBuild.v
Headless.v
Srs.v
Geosite.v
RuleSet.v
Sniff.v
TLSFragment.v
DNSClient.v
DNSUDP.v
Hosts.v
DNSRules.v
DNSRouter.v
Lifecycle.v
Dependencies.v
Outbounds.v
Router.v
PreMatch.v
V2RayStats.v
SSM.v
Relay.v
Trojan.v
Obfs.v
Plugin.v
GunLite.v
Groups.v
Managers.v
DNSTransports.v
Box.v
LimitedConn.v
TopologyPanel.v
MultiPanel.v
Store.v
Server.v
ControlPlane.v
NodeConfig.v
Config.v
Exits.v
Startup.v
DNSLock.v
