(* ===== verification/Prelude.v ===== *)
(** * Verification of mini-sb-agent

    mini-sb-agent runs a fork of sing-box as a proxy node that a panel controls.  The agent
    fetches users from the panel, gives them to the VLESS and Hysteria2 inbounds, counts and
    limits their traffic, and reports the traffic back.  In topology mode one process serves
    several panel nodes, each with its own inbound, users and exit.  A small control panel
    (panelserver) keeps topologies and usage for such agents.

    ** Parts and files

    - [Prelude], [GoStrings]: results with errors, 64-bit wrap-around, the iteration order of Go
      maps, folds; the functions of Go's strings and strconv the code uses.
    - [Counter], [Hook]: src/counter/counter.go and the Hook of src/cmd/mini-sb-agent/main.go.
      Counters are a heap of storages shared by pointer; a hook maps inbound tags to counters.
    - [RateLimit], [LimitedConn]: src/counter/ratelimit.go and the connection wrappers of both
      counter files, composed as RoutedConnection and RoutedPacketConnection compose them.
    - [PanelTypes], [Client], [MinHTTP], [Sync], [MultiPanel]: src/panelapi.  [Panel] is the
      interface of the source as a record of operations, [PanelLaws] the accounting contract the
      sync loop is verified against and each panel is shown to satisfy.
    - [Topology], [NodeConfig], [ControlPlane]: topology validation, node configuration and the
      control-plane client of src/panelapi.
    - [Inbounds]: the user tables of src/fork/sing-box/protocol/vless and hysteria2.
    - [UserManager], [TopologyPanel]: src/cmd/mini-sb-agent/user_manager.go, user_delta.go,
      user_apply_*.go and topology_panel.go.
    - [Config], [Startup], [StatsAPI]: configuration generation and build capabilities, start-up
      and the local stats API of src/cmd/mini-sb-agent.
    - [Rules], [RuleBuild], [Outbounds], [Router], [PreMatch], [Exits]: the routing of the fork, from
      src/fork/sing-box/route, adapter/outbound and box.go; [PreMatch] is the reject action and the
      matching before a connection is accepted.
    - [Lifecycle], [Dependencies]: the start stages of adapter/lifecycle.go, and the start of objects
      in the order of their dependencies ([Startable]), which outbounds and DNS transports share.
    - [Managers], [DNSTransports], [Box]: adapter/inbound, endpoint and service/manager.go,
      dns/transport_manager.go, and the start and close of box.go.
    - [Groups]: protocol/group, common/interrupt and common/urltest.
    - [Relay]: the connection manager, route/conn.go: a relay as a machine of interleaved steps.
    - [Wire], [Headless], [Srs], [RuleSet]: rule sets.  [Wire] is a reader monad over bytes and the
      encodings it reads; the others are route/rule/rule_headless.go, common/srs and
      route/rule/rule_set_local.go.
    - [Sniff], [TLSFragment]: the sniff action of route/route.go with common/sniff, and the
      splitting of client hellos in common/tlsfragment.
    - [Trojan], [Obfs], [GunLite], [Plugin]: transport/trojan, transport/simple-obfs and
      transport/v2raygrpclite, byte by byte, and the plugins of transport/sip003.
    - [SSM]: the managed users of service/ssmapi.
    - [Geosite], [BadVersion], [V2RayStats]: common/geosite, common/badversion and
      experimental/v2rayapi/stats.go.
    - [DNSClient], [DNSLock], [DNSRules], [DNSRouter]: dns/client.go, with the lock per question on its
      own, route/rule/rule_dns.go and dns/router.go.
    - [DNSUDP], [Hosts]: dns/transport/udp.go, whose goroutines are interleaved steps, and
      dns/transport/hosts.
    - [Store], [Server]: src/panelserver.

    ** How the code is modelled

    Pointers to shared objects are locations in a heap or identity numbers; goroutines that run
    beside an operation are explicit: traffic and limiter changes between any two steps are
    arguments ([env], [gaps], [evs]) over which the theorems quantify, or steps of a machine with the
    others ([Relay], [DNSUDP], [DNSLock], [Managers]).  Locks make the modelled operations atomic
    where the code holds them.  Go maps are finite maps, and every loop over one
    goes through [go_range], whose order is an arbitrary function of the loop ([MapOrder]).
    Integers are [Z] with [wrap64] where the code can overflow; float64 token amounts are rationals
    rounded by an abstract [Float64] with its error bound.  Errors are values; their texts are
    given without the quoting of the format verb q.  A panic is an error value, or [None] where
    noted.

    Code outside the repository is a parameter: HTTP transport and JSON decoding ([Net],
    [NodeConfigJSON], [Marshaller]), the dialer ([Dialer]), the file system and certificates
    ([Host]), the protocol services of sing-vmess and sing-quic, domain, IP-set and regular
    expression matching ([RuleLibs]), sniffing and resolving ([RouterLibs]), creation and start of
    outbounds ([OutboundLibs]), Unicode tables ([UnicodeTables]), compression and the encoding of
    lists in rule-set files ([Srs]), the protocol decoders of the sniffers ([Sniff]), the LRU cache
    and DNS messages ([FreeLRU], [DNSLibs]), the objects the managers and the box start and close
    ([ItemLibs], [BoxLibs]), the encoding of addresses and SHA-224 ([TrojanLibs], with [TrojanLaws]),
    the encoding of geosite items ([GeositeLibs], with [GeositeLaws]), DNS messages on the wire
    ([UDPLibs]), canonical names and addresses ([HostsLibs]).  Theorems with hypotheses on
    them have examples in the module at the end of the file, which instantiate them.

    ** What is shown

    - Billing.  Over any run of the sync loop, with traffic at any point and pushes that fail or
      succeed in part, every byte of a user's connections is booked, pending, or was carried after
      the counters had dropped its user, and only what an unacknowledged push had booked is booked
      again, in topology mode ([TopologyPanel]) and in the legacy modes ([MultiPanel]); the shutdown
      sequence leaves nothing pending.  The bytes are those of the connections, remembered beside the
      state by whom they were opened for, and the service may book any part of a push it fails.
      Wrapped connections book exactly what they move, but for buffers whose call failed
      ([LimitedConn]); the panel's store refines a ledger in which every batch counts once, also
      under retries ([Store], [ControlPlane]).
    - Users.  Applying user lists without shared credentials leaves every inbound with exactly the
      credentials of its own list, keeps unchanged Hysteria2 sessions, keeps limiters stable and closes those of removed
      users ([UserManager], [TopologyPanel]); conflicting lists apply nothing.
    - Limits.  The bytes a limiter releases are bounded by burst and rate, from every change of the
      rate anew, with an allowance for rounding; waiting ends; a closed limiter stops writes ([RateLimit], [LimitedConn]).
    - Configuration and routing.  Validation accepts exactly the well-formed topologies
      ([Topology]); the generated configuration has one inbound per node and rules to the node's own
      exit ([Config]); a box that runs it routes every connection there ([Exits]).  Built rules
      have their documented meaning in spite of the flags they share ([RuleBuild]); outbounds start
      after their dependencies, and start exactly when such an order exists ([Outbounds], and
      [DNSTransports] for DNS servers).  Rejected connections are dropped exactly when they flood
      ([PreMatch]).
    - Lifecycle.  A box that starts takes every part through the stages in order, and one that fails
      has closed every part once ([Box]); managers close no object twice and forget none, whatever
      runs outside their locks ([Managers]); a URL-test group uses a member that no other beats by more than the tolerance ([Groups]).
    - Rule sets.  A set compiled to a binary file and loaded behaves as the same rules inline;
      reading a file ends whatever it claims; a set's rules and metadata are always those of one
      load ([Srs], [RuleSet]).
    - Streams.  Sniffing loses and reorders nothing and a sniffer's verdict stands for longer
      streams ([Sniff]); fragmenting the first packet keeps its content ([TLSFragment]).  Trojan
      streams and packets arrive as they were sent, for the user whose key was sent ([Trojan]); an
      obfuscated stream arrives whole behind a valid client hello ([Obfs]), and so does one inside
      gRPC messages ([GunLite]); escaped plugin options are parsed back ([Plugin]).
    - Statistics and data.  The counters of the V2Ray statistics account for the traffic of the
      inbounds, outbounds and users they are named for under resets ([V2RayStats]), and so do those of managed users, whose server has exactly the users it
      accepted ([SSM]); a geosite file is read back as written ([Geosite]); versions are parsed
      as printed and compared consistently ([BadVersion]).
    - DNS.  The cache serves genuine answers no longer than they live and none across client
      subnets ([DNSClient]); queries that wait for each other return ([DNSLock]); rules choose a server in order, and
      every query ends ([DNSRouter]); queries that share an UDP connection get their own answers
      ([DNSUDP]); hosts files are served as they were less than five seconds ago ([Hosts]).
    - Relays.  Under every interleaving of a relay's goroutines and every answer of the network, what
      is written is what was read, whole and in order until a call fails; a relay can always end, and when it has, its
      connections are closed and forgotten ([Relay]).
    - Protocols.  The HTTP client ends on every input and bounds what it reads, chunked bodies are
      read back, the stats API's answers are understood ([MinHTTP], [StatsAPI]); the panel changes
      nothing without credentials and shows no secret ([Server]).
    - Defects, as theorems and examples: bytes of a connection that outlives its user's counters are
      lost, and an ambiguous push is billed twice ([TopologyPanel]); a shared credential is dropped with
      either of its users ([UserManager]); a failed buffer is not billed ([LimitedConn]); a removal
      during a start skips an object ([Managers]); a transport that asks its own question waits for
      ever ([DNSLock]); VLESS removals close no connection and a stale index attributes traffic
      to another user ([Inbounds]); a padded outbound type escapes the capability check ([Config]);
      rule sets mix their rules ([Rules]); removing an outbound others need reports an error but
      removes it ([Outbounds]); rule sets drop their query types ([RuleSet]); sniffing twice keeps
      packets twice ([Sniff]); an empty server name panics the fragmenting write ([TLSFragment]); an
      OPT record that is replaced lengthens a cached answer's life ([DNSClient]); a rule that accepted
      one family's addresses accepts the other's unchecked ([DNSRouter]); a failed early handshake
      reports a connection's end more than once, and a packet connection whose report failed has its
      end not reported ([Relay]); a manager panics when used after its close ([Managers]); removed
      DNS servers stay default ([DNSTransports]); the first bytes of a multiplexed Trojan stream are
      lost and a key that arrives in two reads is refused ([Trojan]); an obfuscated stream whose
      response head is split ends ([Obfs]); a counter two patterns match is reported twice
      ([V2RayStats]); a query for larger responses fails the others, and a closed UDP transport
      keeps its socket ([DNSUDP]); a refused user is kept, and traffic of a user who returns is lost
      ([SSM]); a message of a huge length panics its reader ([GunLite]).

    ** Fuel

    Loops over a list or a stream are structural or take fuel that is proved enough:
    [Wait] n iterations for n bytes, chunked bodies and headers one more than the bytes left, a
    request one more than the bytes it may have, [startObjects] two more than the objects and
    [lint] two more than the tags.  [Srs.Read] takes one more than the bytes of its input,
    the loops of [Sniff] one more than the bytes or attempts left, the extension loop of
    [TLSFragment] the length it walks, and the loops of [DNSRouter] one more than the rules.
    [Sync.Run] consumes the list of events it is given.

    ** Not modelled

    Flag parsing, signals and the start of goroutines; the diagnostics log (runtime_debug.go); the
    panel's entry point; the accept loop of the stats API.  Of the fork: the other protocols and transports,
    TLS, TUN, remote rule sets, the QUIC sniffer, the other DNS transports, and the log descriptions of rules:
    these are drivers of other libraries (gVisor, quic-go, utls, Tailscale, gRPC, D-Bus) whose
    behaviour lies outside the repository.  Options are taken as decoded, and
    an absent list is not told from an empty one.  Deadlines show only as read errors, and memory exhaustion not at
    all. *)

From Stdlib Require Export ZArith Lia.
From stdpp Require Export base gmap strings fin_maps option list.

(** ** Notations and automation *)

Declare Scope agent_scope.
Delimit Scope agent_scope with agent.
#[export] Set Default Goal Selector "!".

Create HintDb agent.

(** Go's [(value, error)] pairs whose value is meaningless on error. *)
Inductive res (E A : Type) : Type :=
| Ok (a : A)
| Err (e : E).
Arguments Ok {E A} _.
Arguments Err {E A} _.

#[export] Instance res_ret {E} : MRet (res E) := @Ok E.
#[export] Instance res_bind {E} : MBind (res E) := fun A B f r =>
  match r with Ok a => f a | Err e => Err e end.
#[export] Instance res_fmap {E} : FMap (res E) := fun A B f r =>
  match r with Ok a => Ok (f a) | Err e => Err e end.

Definition is_Ok {E A} (r : res E A) : Prop := exists a, r = Ok a.
Definition is_Err {E A} (r : res E A) : Prop := exists e, r = Err e.

#[export] Instance res_eq_dec {E A} `{EqDecision E, EqDecision A} : EqDecision (res E A).
Proof. solve_decision. Defined.

Lemma bind_Ok {E A B} (r : res E A) (f : A -> res E B) b :
  (r ≫= f) = Ok b <-> exists a, r = Ok a /\ f a = Ok b.
Proof. destruct r; simpl; naive_solver congruence. Qed.

Lemma bind_Err {E A B} (r : res E A) (f : A -> res E B) e :
  (r ≫= f) = Err e <-> r = Err e \/ exists a, r = Ok a /\ f a = Err e.
Proof. destruct r; simpl; naive_solver congruence. Qed.

(** [len(l) > 0]. *)
Definition nonempty {A} (l : list A) : bool := match l with [] => false | _ => true end.

(** A guard of the source: [if cond { return err }]. *)
Definition reject_if {E} (b : bool) (e : E) : res E unit :=
  if b then Err e else Ok tt.

Lemma reject_if_Ok {E} b (e : E) u : reject_if b e = Ok u <-> b = false.
Proof. destruct b, u; simpl; naive_solver. Qed.

Lemma reject_if_Err {E} b (e e' : E) : reject_if b e = Err e' <-> b = true /\ e = e'.
Proof. destruct b; simpl; naive_solver. Qed.

(** Split every successful bind and guard among the hypotheses. *)
Ltac res_inv :=
  repeat match goal with
  | H : mbind _ _ = Ok _ |- _ => apply bind_Ok in H as (? & ? & ?)
  | H : reject_if _ _ = Ok _ |- _ => apply reject_if_Ok in H
  | H : mret _ = Ok _ |- _ => progress (unfold mret, res_ret in H)
  | H : Ok _ = Ok _ |- _ => injection H as H; subst
  | H : Err _ = Err _ |- _ => injection H as H; subst
  | H : Ok _ = Err _ |- _ => discriminate H
  | H : Err _ = Ok _ |- _ => discriminate H
  end.

(** Turn the boolean tests of the source among the hypotheses into propositions. *)
Ltac bool_inv :=
  repeat match goal with
  | H : negb _ = false |- _ => apply negb_false_iff in H
  | H : negb _ = true |- _ => apply negb_true_iff in H
  | H : _ || _ = false |- _ => apply orb_false_iff in H as [??]
  | H : _ && _ = true |- _ => apply andb_true_iff in H as [??]
  | H : bool_decide _ = true |- _ => apply bool_decide_eq_true in H
  | H : bool_decide _ = false |- _ => apply bool_decide_eq_false in H
  | H : (_ =? _)%Z = true |- _ => apply Z.eqb_eq in H
  | H : (_ =? _)%Z = false |- _ => apply Z.eqb_neq in H
  | H : (_ <? _)%Z = true |- _ => apply Z.ltb_lt in H
  | H : (_ <? _)%Z = false |- _ => apply Z.ltb_ge in H
  | H : (_ <=? _)%Z = true |- _ => apply Z.leb_le in H
  | H : (_ <=? _)%Z = false |- _ => apply Z.leb_gt in H
  end.

(** Decide a proposition by an equivalent one. *)
Definition dec_iff {P Q : Prop} (d : Decision P) (E : P <-> Q) : Decision Q :=
  match d with left p => left (proj1 E p) | right n => right (fun q => n (proj2 E q)) end.

(** Prove a closed decidable proposition by evaluating its decision. *)
Ltac decide_vm := apply (bool_decide_unpack _); vm_compute; exact I.

(** ** Machine integers *)

Definition int64_min : Z := - 2 ^ 63.
Definition int64_max : Z := 2 ^ 63 - 1.
Definition in_int64 (z : Z) : Prop := (int64_min <= z <= int64_max)%Z.
Definition wrap64 (z : Z) : Z := ((z + 2 ^ 63) mod 2 ^ 64 - 2 ^ 63)%Z.

#[export] Instance in_int64_dec z : Decision (in_int64 z).
Proof. unfold in_int64. apply _. Defined.

Ltac unfold64 := unfold wrap64, in_int64, int64_min, int64_max in *.

Lemma wrap64_range z : in_int64 (wrap64 z).
Proof. unfold64. pose proof (Z.mod_pos_bound (z + 2 ^ 63) (2 ^ 64)). lia. Qed.

Lemma wrap64_id z : in_int64 z -> wrap64 z = z.
Proof. unfold64. intros H. rewrite Z.mod_small by lia. lia. Qed.

Lemma wrap64_add_l a b : wrap64 (wrap64 a + b) = wrap64 (a + b).
Proof.
  unfold wrap64.
  replace ((a + 2 ^ 63) mod 2 ^ 64 - 2 ^ 63 + b + 2 ^ 63)%Z
    with ((a + 2 ^ 63) mod 2 ^ 64 + b)%Z by lia.
  rewrite Zplus_mod_idemp_l. do 2 f_equal. lia.
Qed.

Lemma wrap64_add_r a b : wrap64 (a + wrap64 b) = wrap64 (a + b).
Proof. rewrite Z.add_comm, wrap64_add_l. f_equal. lia. Qed.

#[export] Hint Resolve wrap64_range : agent.

(** ** Go maps

    A Go map is a [gmap]; its iteration order is unspecified and may differ at every
    [range] statement.  [MapOrder] is that choice: [go_range site m] lists the entries of
    [m] in the order the [range] statement [site] visits them.  Every theorem quantifies
    over the instance and uses only [go_range_perm]. *)
Class MapOrder := {
  go_range : forall (site : nat) {K V} `{Countable K}, gmap K V -> list (K * V);
  go_range_perm : forall site K V `{Countable K} (m : gmap K V),
    go_range site m ≡ₚ map_to_list m
}.

(** The order used by the executable examples. *)
Definition canonical_order : MapOrder.
Proof. by refine {| go_range := fun _ K V _ _ m => map_to_list m |}. Defined.

Section MapOrderLemmas.
Context `{MapOrder} {K V : Type} `{Countable K}.
Implicit Types m : gmap K V.

Lemma elem_of_go_range site m k v : (k, v) ∈ go_range site m <-> m !! k = Some v.
Proof. by rewrite go_range_perm, elem_of_map_to_list. Qed.

Lemma NoDup_fst_go_range site m : NoDup (go_range site m).*1.
Proof. rewrite go_range_perm. apply NoDup_fst_map_to_list. Qed.

Lemma NoDup_go_range site m : NoDup (go_range site m).
Proof. rewrite go_range_perm. apply NoDup_map_to_list. Qed.

Lemma list_to_map_go_range site m : list_to_map (go_range site m) = m.
Proof.
  rewrite <- (list_to_map_to_list m) at 2.
  apply list_to_map_proper; [apply NoDup_fst_go_range | apply go_range_perm].
Qed.

Lemma go_range_empty site : go_range site (∅ : gmap K V) = [].
Proof. apply Permutation_nil_r. by rewrite go_range_perm, map_to_list_empty. Qed.
End MapOrderLemmas.

(** ** Loops

    A [range] loop is a [foldl].  [foldl_frame]: a part of the state no iteration touches is
    unchanged.  [foldl_once]: a part that exactly one iteration touches is changed by that
    iteration alone, whatever the order. *)
Lemma foldl_invariant {S A : Type} (step : S -> A -> S) (P : S -> Prop) es s :
  P s -> (forall s a, a ∈ es -> P s -> P (step s a)) -> P (foldl step s es).
Proof.
  revert s. induction es as [|a es IH]; intros s Hs HP; simpl; [done|].
  apply IH; [apply HP; set_solver | intros; apply HP; set_solver].
Qed.

(** What one iteration establishes and every other keeps holds at the end. *)
Lemma foldl_reaches {S A : Type} (step : S -> A -> S) (P : S -> Prop) es s a :
  a ∈ es -> (forall s, P (step s a)) -> (forall s b, P s -> P (step s b)) -> P (foldl step s es).
Proof.
  intros Hin Ha Hb. apply list_elem_of_split in Hin as (l1 & l2 & ->).
  rewrite foldl_app; simpl. by apply foldl_invariant; [apply Ha | intros; apply Hb].
Qed.

Section Loops.
Context {S A V : Type} (step : S -> A -> S) (view : S -> V).

Lemma foldl_frame es s :
  (forall s a, a ∈ es -> view (step s a) = view s) -> view (foldl step s es) = view s.
Proof.
  revert s. induction es as [|a es IH]; intros s Hf; simpl; [done|].
  rewrite IH; [|intros; apply Hf; set_solver]. apply Hf; set_solver.
Qed.

Lemma foldl_once g es s a :
  NoDup es -> a ∈ es ->
  (forall s, view (step s a) = g (view s)) ->
  (forall s b, b ∈ es -> b <> a -> view (step s b) = view s) ->
  view (foldl step s es) = g (view s).
Proof.
  intros Hnd Hin Ha Hother.
  apply list_elem_of_split in Hin as (l1 & l2 & ->).
  apply NoDup_app in Hnd as (_ & Hd & [Hn _]%NoDup_cons).
  rewrite foldl_app; simpl.
  rewrite foldl_frame by (intros; apply Hother; [set_solver | naive_solver]).
  rewrite Ha. f_equal. apply foldl_frame.
  intros ? b Hb. apply Hother; [set_solver|].
  intros ->. by eapply Hd; [done | left].
Qed.

(** The same under an invariant of the loop. *)
Lemma foldl_frame_inv (I : S -> Prop) es s :
  I s -> (forall s a, a ∈ es -> I s -> I (step s a)) ->
  (forall s a, a ∈ es -> I s -> view (step s a) = view s) -> view (foldl step s es) = view s.
Proof.
  revert s. induction es as [|a es IH]; intros s Hs HI Hf; simpl; [done|].
  rewrite IH; [apply Hf; set_solver | apply HI; set_solver | |]; intros; (apply HI || apply Hf); set_solver.
Qed.

Lemma foldl_once_inv (I : S -> Prop) g es s a :
  NoDup es -> a ∈ es -> I s -> (forall s a, a ∈ es -> I s -> I (step s a)) ->
  (forall s, I s -> view (step s a) = g (view s)) ->
  (forall s b, b ∈ es -> b <> a -> I s -> view (step s b) = view s) ->
  view (foldl step s es) = g (view s).
Proof.
  intros Hnd Hin Hs HI Ha Hother.
  apply list_elem_of_split in Hin as (l1 & l2 & ->).
  apply NoDup_app in Hnd as (_ & Hd & [Hn _]%NoDup_cons).
  rewrite foldl_app; simpl.
  assert (I (foldl step s l1)) as H1.
  { apply foldl_invariant; [done|]. intros; apply HI; set_solver. }
  rewrite (foldl_frame_inv I); [|apply HI; set_solver | intros; apply HI; set_solver
    | intros; apply Hother; [set_solver | naive_solver | done]].
  rewrite Ha by done. f_equal. apply (foldl_frame_inv I); [done | intros; apply HI; set_solver |].
  intros ? b Hb. apply Hother; [set_solver|].
  intros ->. by eapply Hd; [done | left].
Qed.
End Loops.

(** ** Lists of pairs *)

Lemma NoDup_fmap_eq {A B} (f : A -> B) l x y : NoDup (f <$> l) -> x ∈ l -> y ∈ l -> f x = f y -> x = y.
Proof.
  intros Hnd [i Hi]%list_elem_of_lookup_1 [j Hj]%list_elem_of_lookup_1 E.
  assert (i = j) as ->; [|congruence].
  eapply (NoDup_lookup (f <$> l)); [done | by rewrite list_lookup_fmap, Hi | rewrite list_lookup_fmap, Hj; simpl; congruence].
Qed.

(** Objects told apart by a number: a slice without the first one that has it ([None]: not there). *)
Fixpoint removeById {A : Type} (id : A -> nat) (n : nat) (l : list A) : option (list A) :=
  match l with
  | [] => None
  | x :: l => if bool_decide (id x = n) then Some l else (cons x) <$> removeById id n l
  end.

Lemma removeById_spec {A : Type} (id : A -> nat) (o : A) (l : list A) :
  NoDup (id <$> l) -> o ∈ l -> exists l', removeById id (id o) l = Some l' /\ l ≡ₚ o :: l'.
Proof.
  induction l as [|x l IH]; intros Hnd Ho; [by apply not_elem_of_nil in Ho|]. cbn [removeById].
  cbn [fmap list_fmap] in Hnd. apply NoDup_cons in Hnd as [Hx Hnd]. case_bool_decide as E.
  - apply elem_of_cons in Ho as [->|Ho]; [by eexists|]. exfalso. apply Hx. rewrite E. by apply list_elem_of_fmap_2.
  - apply elem_of_cons in Ho as [->|Ho]; [done|]. destruct (IH Hnd Ho) as (l' & -> & Hp). eexists. split; [done|].
    rewrite Hp. constructor.
Qed.


Lemma NoDup_snd {A B} (l : list (A * B)) :
  NoDup l.*1 -> (forall a b q, (a, q) ∈ l -> (b, q) ∈ l -> a = b) -> NoDup l.*2.
Proof.
  intros Hnd Hinj. apply NoDup_alt. intros i j q Hi Hj.
  apply list_lookup_fmap_Some in Hi as ([a q'] & -> & Hi).
  apply list_lookup_fmap_Some in Hj as ([b q''] & E & Hj). simpl in E. subst q''.
  assert (a = b) as ->.
  { eapply Hinj; by eapply list_elem_of_lookup_2. }
  apply (NoDup_lookup _ i j b Hnd).
  - by rewrite list_lookup_fmap, Hi.
  - by rewrite list_lookup_fmap, Hj.
Qed.

Lemma filter_none {A} (P : A -> Prop) `{forall x, Decision (P x)} (l : list A) :
  (forall x, x ∈ l -> ~ P x) -> filter P l = [].
Proof.
  induction l as [|x l IH]; intros Hn; [done|].
  rewrite filter_cons_False by (apply Hn; set_solver). apply IH. intros; apply Hn; set_solver.
Qed.
