(* ===== verification/GoStrings.v ===== *)
(** * The parts of Go's strings and strconv packages the program uses

    A Go string is a sequence of bytes, here [string].  Functions that look at Unicode code
    points are given on the UTF-8 bytes.  Case mapping outside ASCII depends on the Unicode
    tables of the Go release; [UnicodeTables] is that part, and [UnicodeLaws] the one fact about
    it some theorems use: lower-casing commutes with trimming. *)

From Stdlib Require Export Ascii.
From stdpp Require Import pretty.
From S2P Require Import Prelude.

(** Go errors: a message and the errors it wraps. *)
#[warnings="-register-all"]
Inductive error := Error (msg : string) (causes : list error).
Definition New (msg : string) : error := Error msg [].

(** The text of an error, a wrapped cause following its prefix. *)
Fixpoint errorText (e : error) : string :=
  match e with
  | Error msg causes => foldl (fun acc t => acc +:+ ": " +:+ t) msg (map errorText causes)
  end.

Abbreviation bytes := String.list_ascii_of_string.
Abbreviation ofBytes := String.string_of_list_ascii.

Definition code (c : ascii) : N := N_of_ascii c.

Definition in_range (lo hi : N) (c : ascii) : bool := (lo <=? code c)%N && (code c <=? hi)%N.

Definition isDigit (c : ascii) : bool := in_range 48 57 c.
Definition isUpper (c : ascii) : bool := in_range 65 90 c.
Definition isLower (c : ascii) : bool := in_range 97 122 c.
Definition isASCII (c : ascii) : bool := (code c <? 128)%N.

Class UnicodeTables := {
  lowerNonASCII : string -> string;
  foldNonASCII : string -> string -> bool
}.

Definition lowerByte (c : ascii) : ascii :=
  if isUpper c then ascii_of_N (code c + 32) else c.

Definition lowerASCII (s : string) : string := ofBytes (lowerByte <$> bytes s).

(** The instance of the executable examples, which changes ASCII letters only. *)
Definition ascii_tables : UnicodeTables :=
  {| lowerNonASCII := lowerASCII; foldNonASCII := fun s t => bool_decide (lowerASCII s = lowerASCII t) |}.

Section Unicode.
Context `{UnicodeTables}.

Definition ToLower (s : string) : string :=
  if forallb isASCII (bytes s) then lowerASCII s else lowerNonASCII s.

Definition EqualFold (s t : string) : bool :=
  if forallb isASCII (bytes s) && forallb isASCII (bytes t)
  then bool_decide (lowerASCII s = lowerASCII t)
  else foldNonASCII s t.
End Unicode.

(** ** Trimming *)

(** [unicode.IsSpace] on the one-, two- and three-byte encodings of the space code points. *)
Definition space1 (a : ascii) : bool := in_range 9 13 a || in_range 32 32 a.
Definition space2 (a b : ascii) : bool :=
  in_range 194 194 a && (in_range 133 133 b || in_range 160 160 b).
Definition space3 (a b c : ascii) : bool :=
  in_range 225 225 a && in_range 154 154 b && in_range 128 128 c ||
  in_range 226 226 a && in_range 128 128 b &&
    (in_range 128 138 c || in_range 168 169 c || in_range 175 175 c) ||
  in_range 226 226 a && in_range 129 129 b && in_range 159 159 c ||
  in_range 227 227 a && in_range 128 128 b && in_range 128 128 c.

(** Drop the leading spaces; the predicates say what a space looks like from this end. *)
Fixpoint stripSpaces (p2 : ascii -> ascii -> bool) (p3 : ascii -> ascii -> ascii -> bool)
    (l : list ascii) : list ascii :=
  match l with
  | [] => []
  | a :: t =>
      if space1 a then stripSpaces p2 p3 t else
      match t with
      | [] => l
      | b :: t1 =>
          if p2 a b then stripSpaces p2 p3 t1 else
          match t1 with
          | [] => l
          | c :: t2 => if p3 a b c then stripSpaces p2 p3 t2 else l
          end
      end
  end.

Definition trimLeftSpace (l : list ascii) : list ascii := stripSpaces space2 space3 l.
Definition trimRightSpace (l : list ascii) : list ascii :=
  rev (stripSpaces (fun b a => space2 a b) (fun c b a => space3 a b c) (rev l)).

Definition TrimSpace (s : string) : string := ofBytes (trimRightSpace (trimLeftSpace (bytes s))).

(** Lower case neither makes nor unmakes a space. *)
Class UnicodeLaws `{UnicodeTables} : Prop :=
  ToLower_TrimSpace : forall s, ToLower (TrimSpace s) = TrimSpace (ToLower s).

(** [strings.Trim], [TrimLeft] and [TrimRight] with a cutset of ASCII bytes. *)
Fixpoint dropIn (cut : ascii -> bool) (l : list ascii) : list ascii :=
  match l with
  | [] => []
  | a :: t => if cut a then dropIn cut t else l
  end.
Definition dropRightIn (cut : ascii -> bool) (l : list ascii) : list ascii :=
  rev (dropIn cut (rev l)).
Definition TrimCut (cut : ascii -> bool) (s : string) : string :=
  ofBytes (dropRightIn cut (dropIn cut (bytes s))).
Definition TrimRightCut (cut : ascii -> bool) (s : string) : string :=
  ofBytes (dropRightIn cut (bytes s)).

(** ** Searching *)

Definition HasPrefix (s pre : string) : bool := String.prefix pre s.

Definition TrimPrefix (s pre : string) : string :=
  if HasPrefix s pre then String.substring (String.length pre) (String.length s - String.length pre) s
  else s.

Fixpoint Contains (s sub : string) : bool :=
  String.prefix sub s || match s with EmptyString => false | String _ s' => Contains s' sub end.

(** ** Numbers *)

(** [strconv.Itoa] and [fmt.Sprint] of an integer. *)
Definition Itoa (z : Z) : string := pretty z.

Fixpoint parseDigits (acc : Z) (s : string) : option Z :=
  match s with
  | EmptyString => Some acc
  | String c s' => if isDigit c then parseDigits (acc * 10 + (Z.of_N (code c) - 48)) s' else None
  end.

(** [strconv.Atoi] and base-10 [strconv.ParseInt] to 64 bits: an optional sign, at least one
    digit, no other byte, and a value in range. *)
Definition Atoi (s : string) : option Z :=
  let (sign, digits) :=
    match s with
    | String c s' =>
        if decide (c = "-"%char) then ((-1)%Z, s')
        else if decide (c = "+"%char) then (1%Z, s') else (1%Z, s)
    | EmptyString => (1%Z, s)
    end in
  if decide (digits = "") then None else
  v ← parseDigits 0 digits;
  let z := (sign * v)%Z in
  if decide (in_int64 z) then Some z else None.

(** ** Lemmas *)

Lemma bytes_app a b : bytes (a +:+ b) = bytes a ++ bytes b.
Proof. induction a as [|c a IH]; simpl; [done|]. by rewrite IH. Qed.

Lemma bytes_ofBytes l : bytes (ofBytes l) = l.
Proof. apply String.list_ascii_of_string_of_list_ascii. Qed.

Lemma ofBytes_bytes s : ofBytes (bytes s) = s.
Proof. apply String.string_of_list_ascii_of_string. Qed.

Lemma parseDigits_char acc x s :
  (x < 10)%N ->
  parseDigits acc (String (pretty_N_char x) s) = parseDigits (acc * 10 + Z.of_N x) s.
Proof.
  intros Hx.
  assert (x = 0 \/ x = 1 \/ x = 2 \/ x = 3 \/ x = 4 \/ x = 5 \/ x = 6 \/ x = 7 \/ x = 8 \/ x = 9)%N
    as Hcase by lia.
  repeat destruct Hcase as [->|Hcase]; [..|subst x]; reflexivity.
Qed.

Lemma parseDigits_pretty_go x s : parseDigits 0 (pretty_N_go x s) = parseDigits (Z.of_N x) s.
Proof.
  revert s. induction (N.lt_wf_0 x) as [x _ IH]; intros s.
  assert (x = 0 \/ 0 < x)%N as [->|Hx] by lia; [by rewrite pretty_N_go_0|].
  rewrite pretty_N_go_step by done. rewrite IH by (by apply N.div_lt).
  rewrite parseDigits_char by (apply N.mod_lt; lia).
  f_equal. pose proof (N.div_mod x 10 ltac:(done)). lia.
Qed.

Lemma parseDigits_pretty (n : N) : parseDigits 0 (pretty n) = Some (Z.of_N n).
Proof.
  unfold pretty, pretty_N. case_decide; [by subst|]. by rewrite parseDigits_pretty_go.
Qed.

Lemma pretty_N_nonempty (n : N) : pretty n <> "".
Proof. intros E. pose proof (parseDigits_pretty n) as H. rewrite E in H. simplify_eq/=.
  assert (n = 0)%N as -> by lia. done. Qed.

Lemma pretty_N_head (n : N) c s : pretty n = String c s -> isDigit c = true.
Proof.
  intros E. pose proof (parseDigits_pretty n) as H. rewrite E in H; simpl in H.
  by destruct (isDigit c).
Qed.

Lemma Itoa_N (n : N) : Itoa (Z.of_N n) = pretty n.
Proof. by destruct n. Qed.

Lemma Itoa_neg (p : positive) : Itoa (Z.neg p) = String "-" (pretty (N.pos p)).
Proof. done. Qed.

(** Printing an integer and reading it back. *)
Lemma Atoi_Itoa z : in_int64 z -> Atoi (Itoa z) = Some z.
Proof.
  intros Hz. destruct (decide (0 <= z)%Z) as [Hpos|Hneg].
  - assert (exists n, z = Z.of_N n) as [n ->] by (exists (Z.to_N z); lia). rewrite Itoa_N.
    destruct (pretty n) as [|c s] eqn:E; [by apply pretty_N_nonempty in E|].
    pose proof (pretty_N_head _ _ _ E) as Hc. unfold Atoi.
    rewrite (decide_False (P := c = "-"%char)) by (by intros ->).
    rewrite (decide_False (P := c = "+"%char)) by (by intros ->).
    rewrite (decide_False (P := String c s = "")) by done.
    rewrite <- E, parseDigits_pretty; cbn [mbind option_bind].
    cbv zeta. rewrite Z.mul_1_l. by rewrite decide_True.
  - destruct z as [| |p]; try lia. rewrite Itoa_neg. unfold Atoi; simpl.
    rewrite decide_False by apply pretty_N_nonempty.
    rewrite parseDigits_pretty; simpl. by rewrite decide_True.
Qed.

#[export] Instance Itoa_inj : Inj (=) (=) Itoa.
Proof. unfold Itoa. apply _. Qed.

Lemma parseDigits_digits acc s v : parseDigits acc s = Some v -> forallb isDigit (bytes s) = true.
Proof.
  revert acc. induction s as [|c s IH]; intros acc; simpl; [done|].
  destruct (isDigit c); [apply IH | done].
Qed.

(** A non-negative number prints as a non-empty run of digits. *)
Lemma Itoa_digits z : (0 <= z)%Z -> Itoa z <> "" /\ forallb isDigit (bytes (Itoa z)) = true.
Proof.
  intros Hz. assert (exists n, z = Z.of_N n) as [n ->] by (exists (Z.to_N z); lia). rewrite Itoa_N.
  split; [apply pretty_N_nonempty|]. eapply parseDigits_digits, parseDigits_pretty.
Qed.

Lemma prefix_app pre s : String.prefix pre (pre +:+ s) = true.
Proof.
  induction pre as [|c pre IH]; [by destruct s|]. simpl. by destruct (Ascii.ascii_dec c c).
Qed.

Lemma substring_all s : String.substring 0 (String.length s) s = s.
Proof. induction s as [|c s IH]; simpl; [done|]. by rewrite IH. Qed.

Lemma TrimPrefix_app pre s : TrimPrefix (pre +:+ s) pre = s.
Proof.
  unfold TrimPrefix, HasPrefix. rewrite prefix_app. induction pre as [|c pre IH].
  - change ("" +:+ s) with s. simpl. rewrite Nat.sub_0_r. apply substring_all.
  - exact IH.
Qed.

(** ** Trimming keeps bytes that are not part of a space *)

Definition spaceByte (c : ascii) : bool := space1 c || negb (isASCII c).

Lemma in_range_high lo hi c : (128 <= lo)%N -> in_range lo hi c = true -> isASCII c = false.
Proof.
  unfold in_range, isASCII. intros Hlo [H1 _]%andb_true_iff. apply N.leb_le in H1. apply N.ltb_ge. lia.
Qed.

(** Every byte of a multi-byte space is outside ASCII. *)
Ltac high_bytes :=
  repeat match goal with
  | H : (_ || _) = true |- _ => apply orb_true_iff in H as [H|H]
  | H : (_ && _) = true |- _ => apply andb_true_iff in H as [? H]
  end;
  split_and?; (eapply in_range_high; [|eassumption]; done).

Lemma space2_high a b : space2 a b = true -> isASCII a = false /\ isASCII b = false.
Proof. unfold space2. intros E. high_bytes. Qed.

Lemma space3_high a b c : space3 a b c = true -> isASCII a = false /\ isASCII b = false /\ isASCII c = false.
Proof. unfold space3. intros E. high_bytes. Qed.

Lemma stripSpaces_keeps p2 p3 l x :
  (forall a b, p2 a b = true -> isASCII a = false /\ isASCII b = false) ->
  (forall a b c, p3 a b c = true -> isASCII a = false /\ isASCII b = false /\ isASCII c = false) ->
  spaceByte x = false -> x ∈ l -> x ∈ stripSpaces p2 p3 l.
Proof.
  intros H2 H3 [Hx1 Hx2%negb_false_iff]%orb_false_iff. induction l as [l IH] using (induction_ltof1 _ (@length ascii)).
  assert (forall k, (length k < length l)%nat -> x ∈ k -> x ∈ stripSpaces p2 p3 k) as IH' by exact IH. clear IH.
  destruct l as [|a t]; [done|]. simpl. destruct (space1 a) eqn:E1.
  { intros [->|Hx]%elem_of_cons; [congruence|]. apply IH'; [simpl; lia | done]. }
  destruct t as [|b t]; [done|]. destruct (p2 a b) eqn:E2.
  { apply H2 in E2 as [? ?]. intros [->|[->|Hx]%elem_of_cons]%elem_of_cons; [congruence..|].
    apply IH'; [simpl; lia | done]. }
  destruct t as [|c t]; [done|]. destruct (p3 a b c) eqn:E3; [|done].
  apply H3 in E3 as (? & ? & ?). intros [->|[->|[->|Hx]%elem_of_cons]%elem_of_cons]%elem_of_cons; [congruence..|].
  apply IH'; [simpl; lia | done].
Qed.

Lemma TrimSpace_keeps s x : spaceByte x = false -> x ∈ bytes s -> x ∈ bytes (TrimSpace s).
Proof.
  intros Hx Hin. unfold TrimSpace, trimRightSpace, trimLeftSpace. rewrite bytes_ofBytes.
  apply list_elem_of_In, in_rev. rewrite rev_involutive. apply list_elem_of_In, stripSpaces_keeps; [| |done|].
  - intros a b [? ?]%space2_high. done.
  - intros a b c (? & ? & ?)%space3_high. done.
  - apply list_elem_of_In, in_rev. rewrite rev_involutive.
    apply list_elem_of_In, stripSpaces_keeps; [exact space2_high | exact space3_high | done | done].
Qed.

(** A one-byte substring. *)
Lemma Contains_byte s c : Contains s (String c "") = bool_decide (c ∈ bytes s).
Proof.
  induction s as [|a s IH]; simpl; [done|]. destruct (Ascii.ascii_dec c a) as [->|Hne]; simpl.
  - rewrite bool_decide_eq_true_2 by (by left). by destruct s.
  - rewrite IH. apply bool_decide_ext. rewrite elem_of_cons. naive_solver.
Qed.

(** ** The law for ASCII tables *)

Lemma lowerByte_space1 a : space1 (lowerByte a) = space1 a.
Proof. destruct a as [[] [] [] [] [] [] [] []]; reflexivity. Qed.

Lemma lowerByte_range lo hi a :
  (90 < lo)%N -> (122 < lo)%N -> in_range lo hi (lowerByte a) = in_range lo hi a.
Proof.
  intros H1 H2. unfold lowerByte. destruct (isUpper a) eqn:E; [|done]. unfold isUpper, in_range in *.
  apply andb_true_iff in E as [E1 E2]. apply N.leb_le in E1, E2.
  assert (code (ascii_of_N (code a + 32)) = code a + 32)%N as ->.
  { unfold code in *. apply N_ascii_embedding. lia. }
  rewrite (proj2 (N.leb_gt lo (code a + 32))) by lia. by rewrite (proj2 (N.leb_gt lo (code a))) by lia.
Qed.

Lemma lowerByte_space2 a b : space2 (lowerByte a) (lowerByte b) = space2 a b.
Proof. unfold space2. by rewrite !lowerByte_range by done. Qed.

Lemma lowerByte_space3 a b c : space3 (lowerByte a) (lowerByte b) (lowerByte c) = space3 a b c.
Proof. unfold space3. by rewrite !lowerByte_range by done. Qed.

Lemma stripSpaces_3 p2 p3 a b c l :
  stripSpaces p2 p3 (a :: b :: c :: l) =
  if space1 a then stripSpaces p2 p3 (b :: c :: l)
  else if p2 a b then stripSpaces p2 p3 (c :: l)
  else if p3 a b c then stripSpaces p2 p3 l else a :: b :: c :: l.
Proof. reflexivity. Qed.

Lemma stripSpaces_lower p2 p3 l :
  (forall a b, p2 (lowerByte a) (lowerByte b) = p2 a b) ->
  (forall a b c, p3 (lowerByte a) (lowerByte b) (lowerByte c) = p3 a b c) ->
  stripSpaces p2 p3 (lowerByte <$> l) = lowerByte <$> stripSpaces p2 p3 l.
Proof.
  intros H2 H3. induction l as [l IH] using (induction_ltof1 _ (@length ascii)).
  assert (forall k, (length k < length l)%nat ->
    stripSpaces p2 p3 (lowerByte <$> k) = lowerByte <$> stripSpaces p2 p3 k) as IH' by exact IH. clear IH.
  destruct l as [|a [|b [|c l]]].
  - done.
  - simpl. rewrite lowerByte_space1. by destruct (space1 a).
  - simpl. rewrite !lowerByte_space1, H2. destruct (space1 a); [by destruct (space1 b)|].
    by destruct (p2 a b).
  - rewrite !fmap_cons, !stripSpaces_3, lowerByte_space1, H2, H3. rewrite <- !fmap_cons.
    destruct (space1 a); [apply IH'; simpl; lia|]. destruct (p2 a b); [apply IH'; simpl; lia|].
    destruct (p3 a b c); [apply IH'; simpl; lia | done].
Qed.

#[export] Instance ascii_laws : UnicodeLaws (H := ascii_tables).
Proof.
  intros s. assert (forall s, @ToLower ascii_tables s = lowerASCII s) as E.
  { intros t. unfold ToLower. by destruct (forallb _ _). }
  rewrite !E. unfold TrimSpace, lowerASCII. rewrite !bytes_ofBytes. f_equal.
  unfold trimRightSpace, trimLeftSpace. rewrite stripSpaces_lower by (apply lowerByte_space2 || apply lowerByte_space3).
  assert (forall l : list ascii, rev (lowerByte <$> l) = lowerByte <$> rev l) as Hrev by
    (intros l; symmetry; apply map_rev).
  rewrite Hrev, stripSpaces_lower, Hrev; [done | |]; intros; (apply lowerByte_space2 || apply lowerByte_space3).
Qed.
