(* ===== verification/Wire.v ===== *)
(** * Reading bytes (Go's io and encoding/binary as the fork uses them)

    A [Source] is what a reader still delivers: bytes, and how it ends after them.  A [Parser]
    takes its result off a source; [None] stands for a recursion that was given too little fuel,
    which the components that recurse prove impossible. *)

From S2P Require Import Prelude GoStrings.

#[local] Open Scope Z_scope.

Create HintDb wire.

(** ** Bytes *)

Definition len {A} (l : list A) : Z := Z.of_nat (length l).

Lemma len_app {A} (l k : list A) : len (l ++ k) = len l + len k.
Proof. unfold len. rewrite length_app. lia. Qed.
Lemma len_nonneg {A} (l : list A) : 0 <= len l.
Proof. unfold len. lia. Qed.

Definition is_byte (b : Z) : Prop := 0 <= b < 256.
Notation is_bytes := (Forall is_byte).

#[export] Instance is_byte_dec b : Decision (is_byte b).
Proof. unfold is_byte. apply _. Defined.

(** [binary.BigEndian]: the number the bytes stand for, and the bytes of a number. *)
Definition beFold (l : list Z) (acc : Z) : Z := foldl (fun acc b => acc * 256 + b) acc l.
Definition be (l : list Z) : Z := beFold l 0.

Fixpoint bePut (n : nat) (v : Z) : list Z :=
  match n with O => [] | S n => bePut n (v / 256) ++ [v mod 256] end.

Lemma bePut_length n v : length (bePut n v) = n.
Proof. revert v. induction n as [|n IH]; intros v; simpl; [done|]. rewrite length_app, IH. simpl. lia. Qed.

Lemma bePut_bytes n v : is_bytes (bePut n v).
Proof.
  revert v. induction n as [|n IH]; intros v; simpl; [constructor|].
  apply Forall_app_2; [apply IH|]. apply Forall_singleton. apply Z.mod_pos_bound. lia.
Qed.

Lemma be_snoc l b : be (l ++ [b]) = be l * 256 + b.
Proof. unfold be, beFold. by rewrite foldl_snoc. Qed.

Lemma be_bePut n v : 0 <= v < 256 ^ Z.of_nat n -> be (bePut n v) = v.
Proof.
  revert v. induction n as [|n IH]; intros v Hv; [change (0 <= v < 1) in Hv; simpl; unfold be, beFold; simpl; lia|].
  cbn [bePut]. rewrite be_snoc, IH.
  - pose proof (Z.div_mod v 256). lia.
  - rewrite Nat2Z.inj_succ, Z.pow_succ_r in Hv by lia. split; [apply Z.div_pos; lia|]. apply Z.div_lt_upper_bound; lia.
Qed.

Lemma be_range l : is_bytes l -> 0 <= be l < 256 ^ Z.of_nat (length l).
Proof.
  induction l as [|b l IH] using rev_ind; [done|]. rewrite Forall_app, Forall_singleton. intros [Hl Hb].
  rewrite be_snoc, length_app. simpl. rewrite Nat2Z.inj_add, Z.pow_add_r by lia. specialize (IH Hl).
  change (256 ^ Z.of_nat 1) with 256. unfold is_byte in Hb. lia.
Qed.

(** ** Sources and parsers *)

Record Source := mkSource { rest : list Z; ending : option error }.

Definition EOF : error := New "EOF".
Definition ErrUnexpectedEOF : error := New "unexpected EOF".

Definition isEOF (e : error) : bool :=
  match e with Error msg [] => bool_decide (msg = "EOF") | _ => false end.

Definition Parser (A : Type) : Type := Source -> option (res error (A * Source)).

#[export] Instance Parser_ret : MRet Parser := fun A a s => Some (Ok (a, s)).
#[export] Instance Parser_bind : MBind Parser := fun A B f p s =>
  match p s with
  | None => None
  | Some (Err e) => Some (Err e)
  | Some (Ok (a, s)) => f a s
  end.

(** A reader of another package, which always returns. *)
Definition lift {A} (f : Source -> res error (A * Source)) : Parser A := fun s => Some (f s).
Definition fail {A} (e : error) : Parser A := fun _ => Some (Err e).

(** [E.Cause]: a failure under a label. *)
Definition cause {A} (label : string) (p : Parser A) : Parser A := fun s =>
  match p s with Some (Err e) => Some (Err (Error label [e])) | r => r end.

(** [io.ReadFull] into [n] bytes. *)
Definition readFull (n : nat) : Parser (list Z) := fun s =>
  Some (if (n <=? length (rest s))%nat
        then Ok (take n (rest s), mkSource (drop n (rest s)) (ending s))
        else Err (match ending s with
                  | Some e => e
                  | None => if bool_decide (rest s = []) then EOF else ErrUnexpectedEOF
                  end)).

Definition readByte : Parser Z := fun s =>
  Some (match rest s with
        | b :: l => Ok (b, mkSource l (ending s))
        | [] => Err (default EOF (ending s))
        end).

(** [binary.Read] of an unsigned integer of [n] bytes, and of a [bool]. *)
Definition readUint (n : nat) : Parser Z := l ← readFull n; mret (be l).
Definition readBool : Parser bool := b ← readUint 1; mret (negb (b =? 0)).
Definition putBool (b : bool) : list Z := [if b then 1 else 0].

(** [binary.ReadUvarint]: at most ten bytes, [shift] of the value read so far. *)
Fixpoint uvarintLoop (k : nat) (x shift : Z) : Parser Z := fun s =>
  match k with
  | O => Some (Err (New "binary: varint overflows a 64-bit integer"))
  | S k =>
      match readByte s with
      | Some (Ok (b, s)) =>
          if b <? 128
          then if (k =? 0)%nat && (1 <? b) then Some (Err (New "binary: varint overflows a 64-bit integer"))
               else Some (Ok (Z.lor x (Z.shiftl b shift mod 2 ^ 64), s))
          else uvarintLoop k (Z.lor x (Z.shiftl (Z.land b 127) shift mod 2 ^ 64)) (shift + 7) s
      | Some (Err er) => Some (Err (if (0 <? shift) && isEOF er then ErrUnexpectedEOF else er))
      | None => None
      end
  end.
Definition ReadUvarint : Parser Z := uvarintLoop 10 0 0.

(** [binary.AppendUvarint]. *)
Fixpoint uvarintBytes (k : nat) (v : Z) : list Z :=
  match k with
  | O => []
  | S k => if v <? 128 then [v] else Z.lor (v mod 256) 128 :: uvarintBytes k (Z.shiftr v 7)
  end.
Definition putUvarint (v : Z) : list Z := uvarintBytes 10 v.

(** A loop of [n] rounds over a source; [fuel] bounds the rounds that are run. *)
Fixpoint readN {A} (fuel : nat) (p : Z -> Parser A) (i n : Z) : Parser (list A) := fun s =>
  if n <=? i then Some (Ok ([], s)) else
  match fuel with
  | O => None
  | S fuel => (x ← p i; xs ← readN fuel p (i + 1) n; mret (x :: xs)) s
  end.

(** ** What parsers do *)

(** The parser delivers [a] from a source that starts with [l] and leaves what follows. *)
Definition reads {A} (p : Parser A) (l : list Z) (a : A) : Prop :=
  forall tl en, p (mkSource (l ++ tl) en) = Some (Ok (a, mkSource tl en)).

(** The parser returns from [s], and on success at least [d] bytes are gone. *)
Definition yields {A} (d : nat) (p : Parser A) (s : Source) : Prop :=
  match p s with
  | None => False
  | Some (Err _) => True
  | Some (Ok (_, s')) => (length (rest s') + d <= length (rest s))%nat
  end.

Lemma reads_ret {A} (a : A) : reads (mret a) [] a.
Proof. done. Qed.

Lemma reads_bind {A B} (p : Parser A) (f : A -> Parser B) l k a b :
  reads p l a -> reads (f a) k b -> reads (p ≫= f) (l ++ k) b.
Proof.
  intros Hp Hf tl en. unfold mbind, Parser_bind. rewrite <- app_assoc, Hp. apply Hf.
Qed.

Lemma reads_cause {A} label (p : Parser A) l a : reads p l a -> reads (cause label p) l a.
Proof. intros Hp tl en. unfold cause. by rewrite Hp. Qed.

Lemma reads_readFull l : reads (readFull (length l)) l l.
Proof.
  intros tl en. unfold readFull. simpl. rewrite length_app, (proj2 (Nat.leb_le _ _)) by lia.
  by rewrite take_app_length, drop_app_length.
Qed.

Lemma reads_readByte b : reads readByte [b] b.
Proof. done. Qed.

Lemma reads_readUint n v : 0 <= v < 256 ^ Z.of_nat n -> reads (readUint n) (bePut n v) v.
Proof.
  intros Hv. rewrite <- (app_nil_r (bePut n v)). eapply reads_bind.
  - rewrite <- (bePut_length n v) at 1. apply reads_readFull.
  - rewrite be_bePut by done. apply reads_ret.
Qed.

Lemma reads_readBool b : reads readBool (putBool b) b.
Proof. by destruct b. Qed.

Lemma lor_shiftl x b k : 0 <= k -> 0 <= x < 2 ^ k -> Z.lor x (Z.shiftl b k) = x + b * 2 ^ k.
Proof.
  intros Hk Hx. rewrite Z.shiftl_mul_pow2 by done. rewrite <- Z.lxor_lor; [rewrite <- Z.add_nocarry_lxor; [done|]|];
  apply Z.bits_inj'; intros n Hn; rewrite Z.land_spec, Z.bits_0;
  (destruct (decide (n < k)) as [Hlt|Hge];
   [rewrite (Z.mul_pow2_bits_low b) by lia; apply andb_false_r
   | rewrite <- (Z.mod_small x (2 ^ k)), Z.mod_pow2_bits_high by lia; done]).
Qed.

Lemma lor128 v : 0 <= v -> 128 <= Z.lor (v mod 256) 128 /\ Z.land (Z.lor (v mod 256) 128) 127 = v mod 128.
Proof.
  intros Hv. split.
  - pose proof (Z.mod_pos_bound v 256) as Hm. assert (forallb (fun a => 128 <=? Z.lor a 128) (seqZ 0 256) = true) as Hall by done.
    rewrite forallb_forall in Hall. apply Z.leb_le, (Hall (v mod 256)). apply list_elem_of_In, elem_of_seqZ. lia.
  - apply Z.bits_inj'. intros n Hn. rewrite Z.land_spec, Z.lor_spec. change 256 with (2 ^ 8). change 127 with (Z.ones 7).
    change 128 with (2 ^ 7). rewrite Z.testbit_ones by lia.
    destruct (decide (n < 7)) as [Hlt|Hge].
    + rewrite !Z.mod_pow2_bits_low, Z.pow2_bits_false by lia. rewrite orb_false_r. replace (0 <=? n) with true by (symmetry; lia).
      replace (n <? 7) with true by (symmetry; lia). apply andb_true_r.
    + rewrite (Z.mod_pow2_bits_high v 7) by lia. replace (n <? 7) with false by (symmetry; lia). by rewrite !andb_false_r.
Qed.

Lemma reads_uvarintLoop k x shift v :
  0 <= shift -> shift + 7 * Z.of_nat (S k) = 70 -> 0 <= x < 2 ^ shift -> 0 <= v -> x + v * 2 ^ shift < 2 ^ 64 ->
  reads (uvarintLoop (S k) x shift) (uvarintBytes (S k) v) (x + v * 2 ^ shift).
Proof.
  revert x shift v. induction k as [|k IH]; intros x shift v Hs Hk Hx Hv H64 tl en.
  - replace shift with 63 in * by lia. cbn [uvarintBytes uvarintLoop].
    replace (v <? 128) with true by lia. cbn. replace (v <? 128) with true by lia. replace (1 <? v) with false by lia.
    simpl. rewrite Z.mod_small by (rewrite Z.shiftl_mul_pow2 by lia; lia). by rewrite lor_shiftl by lia.
  - assert (0 < 2 ^ shift) by (apply Z.pow_pos_nonneg; lia).
    change (uvarintBytes (S (S k)) v) with (if v <? 128 then [v] else Z.lor (v mod 256) 128 :: uvarintBytes (S k) (Z.shiftr v 7)).
    destruct (v <? 128) eqn:E.
    + cbn. rewrite E. rewrite Z.mod_small by (rewrite Z.shiftl_mul_pow2 by lia; nia). by rewrite lor_shiftl by lia.
    + destruct (lor128 v Hv) as [H1 H2]. rewrite Z.shiftr_div_pow2 by lia. change (2 ^ 7) with 128.
      assert (2 ^ (shift + 7) = 2 ^ shift * 128) as Hp by (by rewrite Z.pow_add_r by lia).
      pose proof (Z.mod_pos_bound v 128 ltac:(lia)). pose proof (Z.div_mod v 128 ltac:(lia)).
      remember (v / 128) as q. remember (v mod 128) as r. remember (2 ^ shift) as P.
      assert (0 <= q) by lia. assert (x + r * P < P * 128) by nia. assert (0 <= r * P) by nia.
      assert (x + r * P + q * (P * 128) = x + v * P) as Hsum by nia.
      specialize (IH (x + r * P) (shift + 7) q ltac:(lia) ltac:(lia) ltac:(lia) ltac:(lia) ltac:(lia)). revert IH. generalize (S k). intros k1 IH.
      cbn -[Z.lor Z.land Z.shiftl Z.modulo Z.pow uvarintBytes].
      replace (Z.lor (v mod 256) 128 <? 128) with false by lia. rewrite H2.
      assert (Z.lor x (Z.shiftl r shift mod 2 ^ 64) = x + r * P) as ->.
      { rewrite Z.mod_small; [subst P; by apply lor_shiftl|]. rewrite Z.shiftl_mul_pow2, <- HeqP by lia. nia. }
      rewrite <- Hsum, <- Hp. apply IH.
Qed.

Lemma reads_ReadUvarint v : 0 <= v < 2 ^ 64 -> reads ReadUvarint (putUvarint v) v.
Proof.
  intros Hv. pose proof (reads_uvarintLoop 9 0 0 v) as H. rewrite Z.mul_1_r, Z.add_0_l in H.
  apply H; simpl; lia.
Qed.

Lemma reads_lift {A} (f : Source -> res error (A * Source)) l a :
  (forall tl en, f (mkSource (l ++ tl) en) = Ok (a, mkSource tl en)) -> reads (lift f) l a.
Proof. intros Hf tl en. unfold lift. by rewrite Hf. Qed.

(** A loop reads the elements one after the other. *)
Lemma reads_readN {A} fuel (p : Z -> Parser A) i n ls xs :
  Forall2 (fun l x => forall j, reads (p j) l x) ls xs -> n = i + Z.of_nat (length xs) -> (length xs <= fuel)%nat ->
  reads (readN fuel p i n) (concat ls) xs.
Proof.
  intros Hls. revert i fuel. induction Hls as [|l x ls xs Hx _ IH]; intros i fuel Hn Hf.
  - destruct fuel; intros tl en; simpl; by replace (n <=? i) with true by (simpl in Hn; lia).
  - destruct fuel as [|fuel]; simpl in *; [lia|]. intros tl en. simpl. replace (n <=? i) with false by lia.
    unfold mbind, Parser_bind. rewrite <- app_assoc, Hx, IH by lia. done.
Qed.

Lemma yields_le {A} d d' (p : Parser A) s : (d' <= d)%nat -> yields d p s -> yields d' p s.
Proof. unfold yields. intros Hd. destruct (p s) as [[[a s']|]|]; [lia | done | done]. Qed.

Lemma yields_ret {A} (a : A) s : yields 0 (mret a) s.
Proof. unfold yields. simpl. lia. Qed.

Lemma yields_fail {A} d er s : yields d (@fail A er) s.
Proof. done. Qed.

Lemma yields_bind {A B} d k (p : Parser A) (f : A -> Parser B) s :
  yields d p s -> (forall a s', (length (rest s') + d <= length (rest s))%nat -> yields k (f a) s') ->
  yields (d + k) (p ≫= f) s.
Proof.
  unfold yields, mbind, Parser_bind. intros Hp Hf. destruct (p s) as [[[a s']|]|]; [|done|done].
  specialize (Hf a s' Hp). destruct (f a s') as [[[b s2]|]|]; [lia | done | done].
Qed.

Lemma yields_cause {A} d label (p : Parser A) s : yields d p s -> yields d (cause label p) s.
Proof. unfold yields, cause. by destruct (p s) as [[[a s']|]|]. Qed.

Lemma yields_readFull n s : yields n (readFull n) s.
Proof.
  unfold yields, readFull. destruct (n <=? length (rest s))%nat eqn:E; [|done]. simpl.
  apply Nat.leb_le in E. rewrite length_drop. lia.
Qed.

Lemma yields_readByte s : yields 1 readByte s.
Proof. unfold yields, readByte. destruct (rest s); simpl; [done | lia]. Qed.

Lemma yields_readUint n s : yields n (readUint n) s.
Proof. unfold readUint. replace n with (n + 0)%nat at 1 by lia. apply yields_bind; [apply yields_readFull|]. intros. apply yields_ret. Qed.

Lemma yields_readBool s : yields 1 readBool s.
Proof. unfold readBool. apply (yields_bind 1 0); [apply yields_readUint|]. intros. apply yields_ret. Qed.

Lemma yields_uvarintLoop k x shift s : yields 1 (uvarintLoop k x shift) s.
Proof.
  revert x shift s. induction k as [|k IH]; intros x shift s; [done|]. unfold yields. simpl. unfold readByte.
  destruct (rest s) as [|b l] eqn:E; [done|]. destruct (b <? 128).
  - destruct (_ && _); simpl; [done | lia].
  - specialize (IH (Z.lor x (Z.shiftl (Z.land b 127) shift mod 2 ^ 64)) (shift + 7) (mkSource l (ending s))). revert IH. unfold yields.
    destruct (uvarintLoop k _ _ _) as [[[v s']|]|]; simpl; [lia | done | done].
Qed.

Lemma yields_ReadUvarint s : yields 1 ReadUvarint s.
Proof. apply yields_uvarintLoop. Qed.

(** A loop returns when each round takes something off the source and there is fuel for a round
    per byte. *)
Lemma yields_readN {A} fuel (p : Z -> Parser A) i n s :
  (forall j s', (length (rest s') <= length (rest s))%nat -> yields 1 (p j) s') -> (length (rest s) < fuel)%nat ->
  yields 0 (readN fuel p i n) s.
Proof.
  revert i s. induction fuel as [|fuel IH]; intros i s Hp Hf; [lia|]. unfold yields. simpl.
  destruct (n <=? i); [simpl; lia|].
  assert (yields 0 (x ← p i; xs ← readN fuel p (i + 1) n; mret (x :: xs)) s) as Hy; [|exact Hy].
  apply (yields_le (1 + 0)); [lia|]. apply yields_bind; [by apply Hp|]. intros a s' Hs'.
  apply (yields_bind 0 0).
  - apply IH; [|lia]. intros j s2 Hs2. apply Hp. lia.
  - intros. apply yields_ret.
Qed.

#[export] Hint Resolve yields_ret yields_fail yields_readByte yields_readBool yields_ReadUvarint yields_readUint yields_readFull : wire.
#[export] Hint Resolve reads_ret reads_readByte reads_readBool reads_readFull : wire.
