(* ===== verification/BadVersion.v ===== *)
(** * Version numbers (src/fork/sing-box/common/badversion/version.go)

    Integers are Go's 64-bit int.  [semver.IsValid] of another package is a parameter. *)

From S2P Require Import Prelude GoStrings.

#[local] Open Scope Z_scope.

Record Version := mkVersion {
  Major : Z; Minor : Z; Patch : Z;
  Commit : string;
  PreReleaseIdentifier : string;
  PreReleaseVersion : Z
}.

#[export] Instance Version_eq_dec : EqDecision Version.
Proof. solve_decision. Defined.

Definition parsePreReleaseIdentifier (identifier : string) : Z :=
  if HasPrefix identifier "rc" then 1
  else if HasPrefix identifier "beta" then 2
  else if HasPrefix identifier "alpha" then 3
  else 0.

Definition GreaterThan (v a : Version) : bool :=
  if Major a <? Major v then true else if Major v <? Major a then false else
  if Minor a <? Minor v then true else if Minor v <? Minor a then false else
  if Patch a <? Patch v then true else if Patch v <? Patch a then false else
  let vId := PreReleaseIdentifier v in
  let aId := PreReleaseIdentifier a in
  if bool_decide (vId = "") && bool_decide (aId <> "") then true
  else if bool_decide (vId <> "") && bool_decide (aId = "") then false
  else if bool_decide (vId <> "") && bool_decide (aId <> "") then
    if bool_decide (vId = aId) && (PreReleaseVersion a <? PreReleaseVersion v) then true
    else if bool_decide (vId = aId) && (PreReleaseVersion v <? PreReleaseVersion a) then false
    else if parsePreReleaseIdentifier vId <? parsePreReleaseIdentifier aId then true
    else false
  else false.

Definition GreaterThanOrEqual (v a : Version) : bool := bool_decide (v = a) || GreaterThan v a.
Definition LessThanOrEqual (v a : Version) : bool := bool_decide (v = a) || GreaterThan a v.
Definition LessThan (v a : Version) : bool := negb (GreaterThanOrEqual v a).

Definition VersionString (v : Version) : string := Itoa (Major v) +:+ "." +:+ Itoa (Minor v) +:+ "." +:+ Itoa (Patch v).
Definition toString (v : Version) : string :=
  if bool_decide (PreReleaseIdentifier v <> "")
  then VersionString v +:+ "-" +:+ PreReleaseIdentifier v +:+ "." +:+ Itoa (PreReleaseVersion v)
  else VersionString v.

Definition BadString (v : Version) : string :=
  let version := Itoa (Major v) +:+ "." +:+ Itoa (Minor v) in
  let version := if 0 <? Patch v then version +:+ "." +:+ Itoa (Patch v) else version in
  if bool_decide (PreReleaseIdentifier v <> "") then
    let version := version +:+ "-" +:+ PreReleaseIdentifier v in
    if 0 <? PreReleaseVersion v then version +:+ Itoa (PreReleaseVersion v) else version
  else version.

Definition IsValid (semverIsValid : string -> bool) (versionName : string) : bool := semverIsValid ("v" +:+ versionName).

(** [strings.Split] at one byte. *)
Fixpoint splitBytes (c : ascii) (cur l : list ascii) : list (list ascii) :=
  match l with
  | [] => [cur]
  | b :: l => if bool_decide (b = c) then cur :: splitBytes c [] l else splitBytes c (cur ++ [b]) l
  end.
Definition Split (s : string) (c : ascii) : list string := ofBytes <$> splitBytes c [] (bytes s).

(** [strconv.ParseUint]: [None] for a byte that is no digit, the greatest number as soon as the
    digits so far are past it. *)
Fixpoint scanDigits (acc : Z) (s : string) : option Z :=
  match s with
  | EmptyString => Some acc
  | String c s =>
      if isDigit c then
        let n := acc * 10 + Z.of_N (code c - 48) in
        if 2 ^ 64 <=? n then Some (2 ^ 64 - 1) else scanDigits n s
      else None
  end.

(** The number [strconv.Atoi] returns with its error dropped: 0 for a malformed one, the nearest
    one for one out of range. *)
Definition atoiValue (s : string) : Z :=
  match Atoi s with
  | Some z => z
  | None =>
      let (negative, digits) :=
        match s with
        | String c s' => if decide (c = "-"%char) then (true, s') else if decide (c = "+"%char) then (false, s') else (false, s)
        | EmptyString => (false, s)
        end in
      if bool_decide (digits = "") then 0 else
      match scanDigits 0 digits with
      | None => 0
      | Some _ => if negative then - 2 ^ 63 else 2 ^ 63 - 1
      end
  end.

Definition dropBytes (n : nat) (s : string) : string := ofBytes (drop n (bytes s)).

(** The part after the dash: identifier, version and commit. *)
Definition parseIdentifier (identifier : string) : string * Z * string :=
  if Contains identifier "." then
    let parts := Split identifier "." in
    (default "" (parts !! 0%nat), match parts !! 1%nat with Some p => atoiValue p | None => 0 end, "")
  else if HasPrefix identifier "alpha" then ("alpha", atoiValue (dropBytes 5 identifier), "")
  else if HasPrefix identifier "beta" then ("beta", atoiValue (dropBytes 4 identifier), "")
  else ("", 0, identifier).

Definition parseNumbers (versionName : string) (pre : string * Z * string) : Version :=
  let elements := Split versionName "." in
  let number i := match elements !! i with Some e => atoiValue e | None => 0 end in
  mkVersion (number 0%nat) (number 1%nat) (number 2%nat) pre.2 pre.1.1 pre.1.2.

Definition Parse (versionName : string) : Version :=
  let versionName := if HasPrefix versionName "v" then dropBytes 1 versionName else versionName in
  if Contains versionName "-" then
    let parts := Split versionName "-" in
    parseNumbers (default "" (parts !! 0%nat)) (parseIdentifier (default "" (parts !! 1%nat)))
  else parseNumbers versionName ("", 0, "").

(** ** Printing and parsing *)

Lemma splitBytes_none c cur l : c ∉ l -> splitBytes c cur l = [cur ++ l].
Proof.
  revert cur. induction l as [|b l IH]; intros cur Hc; [by rewrite app_nil_r|]. apply not_elem_of_cons in Hc as [Hb Hl]. cbn.
  rewrite bool_decide_eq_false_2 by congruence. rewrite IH by done. by rewrite <-(assoc_L (++)).
Qed.
Lemma splitBytes_first c cur l k : c ∉ l -> splitBytes c cur (l ++ c :: k) = (cur ++ l) :: splitBytes c [] k.
Proof.
  revert cur. induction l as [|b l IH]; intros cur Hc; [cbn; by rewrite bool_decide_eq_true_2, app_nil_r by done|].
  apply not_elem_of_cons in Hc as [Hb Hl]. cbn. rewrite bool_decide_eq_false_2 by congruence. rewrite IH by done. by rewrite <-(assoc_L (++)).
Qed.

Lemma Split_none s c : c ∉ bytes s -> Split s c = [s].
Proof. intros Hc. unfold Split. rewrite splitBytes_none by done. cbn. by rewrite ofBytes_bytes. Qed.
Lemma Split_first s c t : c ∉ bytes s -> Split (s +:+ String c "" +:+ t) c = s :: Split t c.
Proof. intros Hc. unfold Split. rewrite !bytes_app. cbn [bytes String.list_ascii_of_string app]. rewrite splitBytes_first by done. cbn. by rewrite ofBytes_bytes. Qed.

(** Digits only. *)
Lemma Itoa_no_byte z c : 0 <= z -> isDigit c = false -> c ∉ bytes (Itoa z).
Proof.
  intros Hz Hc Hin. destruct (Itoa_digits z Hz) as [_ Hd]. apply list_elem_of_In in Hin. rewrite forallb_forall in Hd. specialize (Hd c Hin). congruence.
Qed.

Lemma atoiValue_Itoa z : in_int64 z -> atoiValue (Itoa z) = z.
Proof. intros Hz. unfold atoiValue. by rewrite Atoi_Itoa. Qed.

(** Versions as releases have them. *)
Record printable (v : Version) : Prop := {
  pr_numbers : Forall (fun z => 0 <= z <= int64_max) [Major v; Minor v; Patch v; PreReleaseVersion v];
  pr_commit : Commit v = "";
  pr_identifier : "."%char ∉ bytes (PreReleaseIdentifier v) /\ "-"%char ∉ bytes (PreReleaseIdentifier v);
  pr_release : PreReleaseIdentifier v = "" -> PreReleaseVersion v = 0
}.

Lemma nonneg_int64 z : 0 <= z <= int64_max -> in_int64 z.
Proof. unfold in_int64, int64_min. lia. Qed.

Lemma VersionString_no_dash v : printable v -> "-"%char ∉ bytes (VersionString v).
Proof.
  intros [[H1 [H2 [H3 _]%Forall_cons]%Forall_cons]%Forall_cons _ _ _]. unfold VersionString. rewrite !bytes_app, !elem_of_app. cbn.
  intros [Hm|[Hd|[Hm|[Hd|Hm]]]]; try (apply list_elem_of_singleton in Hd; done); revert Hm; apply Itoa_no_byte; (done || lia).
Qed.

Lemma parseNumbers_VersionString v pre : printable v ->
  parseNumbers (VersionString v) pre = mkVersion (Major v) (Minor v) (Patch v) pre.2 pre.1.1 pre.1.2.
Proof.
  intros [[H1 [H2 [H3 _]%Forall_cons]%Forall_cons]%Forall_cons _ _ _]. unfold parseNumbers, VersionString.
  rewrite (Split_first (Itoa (Major v))) by (apply Itoa_no_byte; (done || lia)). rewrite (Split_first (Itoa (Minor v))) by (apply Itoa_no_byte; (done || lia)).
  rewrite Split_none by (apply Itoa_no_byte; (done || lia)). cbn. by rewrite !atoiValue_Itoa by (by apply nonneg_int64).
Qed.

Lemma no_v_prefix v s : 0 <= Major v -> HasPrefix (VersionString v +:+ s) "v" = false.
Proof.
  intros Hm. destruct (Itoa_digits (Major v) Hm) as [Hne Hd]. unfold VersionString, HasPrefix. destruct (Itoa (Major v)) as [|c t]; [done|]. cbn in *.
  apply andb_true_iff in Hd as [Hc _]. change (String.prefix "v" (String c ((t +:+ "." +:+ Itoa (Minor v) +:+ "." +:+ Itoa (Patch v)) +:+ s)) = false).
  cbn [String.prefix]. destruct (Ascii.ascii_dec "v" c) as [<-|Hn]; done.
Qed.

Lemma string_app_nil s : s +:+ "" = s.
Proof. induction s as [|c s IH]; [done|]. change (String c (s +:+ "") = String c s). by rewrite IH. Qed.

(** Printing a version and parsing it gives it back. *)
Theorem version_roundtrip v : printable v -> Parse (toString v) = v.
Proof.
  intros Hv. pose proof (VersionString_no_dash v Hv) as Hdash. pose proof Hv as [[H1 [_ [_ [H4 _]%Forall_cons]%Forall_cons]%Forall_cons]%Forall_cons Hc [Hdot Hid] Hr].
  unfold Parse, toString. destruct (decide (PreReleaseIdentifier v = "")) as [E|E].
  - rewrite bool_decide_eq_false_2 by (by intros ?).
    assert (HasPrefix (VersionString v) "v" = false) as -> by (rewrite <-(string_app_nil (VersionString v)); apply no_v_prefix; lia). cbv zeta.
    change (Contains ?s "-") with (Contains s (String "-" "")). rewrite Contains_byte, bool_decide_eq_false_2 by done. rewrite parseNumbers_VersionString by done.
    specialize (Hr E). destruct v; cbn in *. by subst.
  - rewrite bool_decide_eq_true_2 by done. rewrite no_v_prefix by lia. cbv zeta. change (Contains ?s "-") with (Contains s (String "-" "")).
    rewrite Contains_byte, bool_decide_eq_true_2 by (rewrite !bytes_app, !elem_of_app; right; left; by left).
    rewrite Split_first by done. rewrite (Split_none (_ +:+ _)).
    2: { rewrite !bytes_app, !elem_of_app. intros [Hx|[Hx|Hx]]; [done|by apply list_elem_of_singleton in Hx|revert Hx; apply Itoa_no_byte; (done || lia)]. }
    cbn [lookup list_lookup default from_option id]. rewrite parseNumbers_VersionString by done. unfold parseIdentifier.
    change (Contains ?s ".") with (Contains s (String "." "")).
    rewrite Contains_byte, bool_decide_eq_true_2 by (rewrite !bytes_app, !elem_of_app; right; left; by left).
    rewrite Split_first by done.
    rewrite Split_none by (apply Itoa_no_byte; (done || lia)). cbn. rewrite atoiValue_Itoa by (by apply nonneg_int64). destruct v; cbn in *. by subst.
Qed.

(** ** Comparing *)

(** The kinds of pre-releases, in order; a release comes after all of them. *)
Definition rank (identifier : string) : Z := if bool_decide (identifier = "") then 0 else parsePreReleaseIdentifier identifier.
Definition comparable (v : Version) : Prop :=
  Commit v = "" /\ PreReleaseIdentifier v ∈ [""; "rc"; "beta"; "alpha"] /\ (PreReleaseIdentifier v = "" -> PreReleaseVersion v = 0).

(** The numbers a version is compared by, the most important first. *)
Definition orderKey (v : Version) : list Z := [Major v; Minor v; Patch v; 3 - rank (PreReleaseIdentifier v); PreReleaseVersion v].
Fixpoint lexLess (a b : list Z) : bool :=
  match a, b with
  | x :: a, y :: b => (x <? y) || ((x =? y) && lexLess a b)
  | _, _ => false
  end.

Lemma lexLess_irreflexive a : lexLess a a = false.
Proof. induction a as [|x a IH]; [done|]. cbn. by rewrite Z.ltb_irrefl, Z.eqb_refl, IH. Qed.
Lemma lexLess_transitive a b c : lexLess a b = true -> lexLess b c = true -> lexLess a c = true.
Proof.
  revert b c. induction a as [|x a IH]; intros [|y b] [|z c]; cbn; try done. rewrite !orb_true_iff, !andb_true_iff, !Z.ltb_lt, !Z.eqb_eq.
  intros [?|[-> ?]] [?|[-> ?]]; [left; lia..|]. right. split; [done|]. by eapply IH.
Qed.
Lemma lexLess_asymmetric a b : lexLess a b = true -> lexLess b a = false.
Proof. intros Hab. apply not_true_iff_false. intros Hba. pose proof (lexLess_transitive _ _ _ Hab Hba) as Ha. by rewrite lexLess_irreflexive in Ha. Qed.
Lemma lexLess_total a b : length a = length b -> a = b \/ lexLess a b = true \/ lexLess b a = true.
Proof.
  revert b. induction a as [|x a IH]; intros [|y b]; cbn; try done; [by left|]. intros [= Hl]. rewrite !orb_true_iff, !andb_true_iff, !Z.ltb_lt, !Z.eqb_eq.
  destruct (Z.lt_trichotomy x y) as [?|[->|?]]; [right; left; by left| |right; right; by left].
  destruct (IH b Hl) as [->|[?|?]]; [by left|right; left; by right|right; right; by right].
Qed.

Lemma orderKey_inj v a : comparable v -> comparable a -> orderKey v = orderKey a -> v = a.
Proof.
  intros (Hc & Hi & _) (Hc' & Hi' & _) [= E1 E2 E3 E4 E5]. assert (PreReleaseIdentifier v = PreReleaseIdentifier a) as E; [|destruct v, a; cbn in *; congruence].
  repeat (apply elem_of_cons in Hi as [Hi|Hi]; [|]); try (by apply elem_of_nil in Hi);
    repeat (apply elem_of_cons in Hi' as [Hi'|Hi']; [|]); try (by apply elem_of_nil in Hi'); rewrite Hi, Hi' in *; try done; vm_compute in E4; lia.
Qed.

Lemma GreaterThan_key v a : comparable v -> comparable a -> GreaterThan v a = lexLess (orderKey a) (orderKey v).
Proof.
  intros (_ & Hi & Hr) (_ & Hi' & Hr'). unfold GreaterThan, orderKey. cbn [lexLess]. rewrite andb_false_r, orb_false_r.
  destruct (Z.lt_trichotomy (Major v) (Major a)) as [H|[->|H]];
    [rewrite (proj2 (Z.ltb_ge (Major a) _)), (proj2 (Z.ltb_lt (Major v) _)), (proj2 (Z.eqb_neq _ _)) by lia; done| |rewrite (proj2 (Z.ltb_lt (Major a) _)) by lia; done].
  rewrite Z.ltb_irrefl, Z.eqb_refl. cbn [orb andb].
  destruct (Z.lt_trichotomy (Minor v) (Minor a)) as [H|[->|H]];
    [rewrite (proj2 (Z.ltb_ge (Minor a) _)), (proj2 (Z.ltb_lt (Minor v) _)), (proj2 (Z.eqb_neq _ _)) by lia; done| |rewrite (proj2 (Z.ltb_lt (Minor a) _)) by lia; done].
  rewrite Z.ltb_irrefl, Z.eqb_refl. cbn [orb andb].
  destruct (Z.lt_trichotomy (Patch v) (Patch a)) as [H|[->|H]];
    [rewrite (proj2 (Z.ltb_ge (Patch a) _)), (proj2 (Z.ltb_lt (Patch v) _)), (proj2 (Z.eqb_neq _ _)) by lia; done| |rewrite (proj2 (Z.ltb_lt (Patch a) _)) by lia; done].
  rewrite Z.ltb_irrefl, Z.eqb_refl. cbn [orb andb].
  repeat (apply elem_of_cons in Hi as [Hi|Hi]; [|]); try (by apply elem_of_nil in Hi);
    repeat (apply elem_of_cons in Hi' as [Hi'|Hi']; [|]); try (by apply elem_of_nil in Hi'); rewrite ?Hi, ?Hi' in *;
    first [by rewrite Hr, Hr' by done|cbn; try done].
  all: destruct (Z.ltb_spec (PreReleaseVersion a) (PreReleaseVersion v)), (Z.ltb_spec (PreReleaseVersion v) (PreReleaseVersion a)); try done; lia.
Qed.

(** Versions of releases and of rc, beta and alpha builds are compared by their numbers, the kind
    of build after the patch number: a strict total order, of which [LessThan], [LessThanOrEqual]
    and [GreaterThanOrEqual] are the rest. *)
Theorem versions_ordered v a b : comparable v -> comparable a -> comparable b ->
  GreaterThan v a = lexLess (orderKey a) (orderKey v) /\
  (v = a \/ GreaterThan v a = true \/ GreaterThan a v = true) /\
  (GreaterThan v a = true -> GreaterThan a b = true -> GreaterThan v b = true) /\
  LessThan v a = GreaterThan a v /\ LessThanOrEqual v a = negb (GreaterThan v a) /\ GreaterThanOrEqual v a = negb (GreaterThan a v).
Proof.
  intros Hv Ha Hb. rewrite !GreaterThan_key by done. pose proof (lexLess_total (orderKey v) (orderKey a) eq_refl) as Ht.
  assert (GreaterThanOrEqual v a = negb (lexLess (orderKey v) (orderKey a))) as Hge.
  { unfold GreaterThanOrEqual. rewrite GreaterThan_key by done. case_bool_decide as E; [subst; by rewrite lexLess_irreflexive|]. cbn [orb].
    destruct Ht as [Ht|[Ht|Ht]]; [by apply orderKey_inj in Ht|..]; by rewrite Ht, (lexLess_asymmetric _ _ Ht). }
  split_and!; [done| | | | |done].
  - destruct Ht as [Ht|[Ht|Ht]]; [left; by apply orderKey_inj|right; by right|right; by left].
  - intros H1 H2. by eapply lexLess_transitive.
  - unfold LessThan. by rewrite Hge, negb_involutive.
  - unfold LessThanOrEqual. rewrite GreaterThan_key by done. case_bool_decide as E; [subst; by rewrite lexLess_irreflexive|]. cbn [orb].
    destruct Ht as [Ht|[Ht|Ht]]; [by apply orderKey_inj in Ht|..]; by rewrite Ht, (lexLess_asymmetric _ _ Ht).
Qed.

Module VersionSample.
Definition beta : Version := mkVersion 1 3 0 "" "beta" 1.
Definition release : Version := mkVersion 1 3 0 "" "" 0.
Definition alpha : Version := mkVersion 1 3 0 "" "alpha" 7.

Lemma version_roundtrip_witness : toString beta = "1.3.0-beta.1" /\ Parse (toString beta) = beta.
Proof. split; [reflexivity|]. apply version_roundtrip. constructor; [repeat constructor; vm_compute; congruence|done|split; compute_done|done]. Defined.

Lemma versions_ordered_witness : GreaterThan release beta = true /\ GreaterThan beta alpha = true /\ GreaterThan release alpha = true.
Proof.
  split; [reflexivity|]. split; [reflexivity|]. refine (proj1 (proj2 (proj2 (versions_ordered release beta alpha _ _ _))) _ _); try reflexivity;
    (split; [reflexivity|]; split; [compute_done|done]).
Defined.

Example short_beta : Parse "v1.3.0-beta1" = beta /\ BadString beta = "1.3-beta1" /\ GreaterThan (Parse "1.3.0") (Parse "1.3-beta1") = true.
Proof. by vm_compute. Qed.

(** A release candidate in the short form is taken for a commit, and so for none of the two. *)
Example short_rc : Parse "1.3.0-rc1" = mkVersion 1 3 0 "rc1" "" 0 /\ GreaterThan release (Parse "1.3.0-rc1") = false /\
  LessThan release (Parse "1.3.0-rc1") = true /\ LessThan (Parse "1.3.0-rc1") release = true.
Proof. by vm_compute. Qed.
End VersionSample.
