(* ===== verification/Topology.v ===== *)
(** * Node topology (src/panelapi/topology.go)

    The topology names the nodes one agent runs.  A validated topology gives every node its
    own key, inbound tag and outbound tag; isolation between nodes rests on that. *)

From S2P Require Import Prelude GoStrings.

#[local] Open Scope Z_scope.

Record OutboundSpec := mkOutbound {
  Outbound_Type : string;
  Server : string;
  ServerPort : Z;
  Method : string;
  Outbound_Password : string;
  Plugin : string;
  PluginOpts : string
}.

Record NodeSpec := mkNode {
  NodeID : string;
  NodeType : string;
  Tag : string;
  Outbound : OutboundSpec
}.

Record Topology := mkTopology { Nodes : list NodeSpec }.

(** The regular expression [[^a-zA-Z0-9_-]+] replaced by a dash: every maximal run of other
    bytes becomes one dash. *)
Definition tagSafe (c : ascii) : bool :=
  isLower c || isUpper c || isDigit c || bool_decide (c = "_"%char) || bool_decide (c = "-"%char).

Fixpoint replaceUnsafe (inRun : bool) (l : list ascii) : list ascii :=
  match l with
  | [] => []
  | c :: t =>
      if tagSafe c then c :: replaceUnsafe false t
      else if inRun then replaceUnsafe true t
      else "-"%char :: replaceUnsafe true t
  end.

Definition isDash (c : ascii) : bool := bool_decide (c = "-"%char).

Definition safeTagPart (value : string) : string :=
  TrimCut isDash (ofBytes (replaceUnsafe false (bytes (TrimSpace value)))).

Definition validateNodeID (id : string) : res error unit :=
  let id := TrimSpace id in
  reject_if (bool_decide (id = "") || Contains id "/" || Contains id "\" || Contains id "..")
    (New ("invalid or unsafe node_id: " +:+ id)).

Section Topology.
Context `{UnicodeTables}.

Definition normalizeNodeType (nodeType : string) : string :=
  let t := ToLower (TrimSpace nodeType) in
  if bool_decide (t ∈ ["vless"; "vless-reality"; "reality"]) then "vless"
  else if bool_decide (t ∈ ["hy2"; "hysteria"; "hysteria2"]) then "hysteria"
  else t.

Definition NodeKey (nodeType nodeID : string) : string :=
  normalizeNodeType nodeType +:+ ":" +:+ TrimSpace nodeID.

Definition Key (n : NodeSpec) : string := NodeKey (NodeType n) (NodeID n).

Definition protocolTag (n : NodeSpec) : string :=
  let protocol := normalizeNodeType (NodeType n) in
  if bool_decide (protocol = "hysteria") then "hy2" else protocol.

Definition InboundTag (n : NodeSpec) : string :=
  let tag := safeTagPart (Tag n) in
  if bool_decide (tag <> "") then tag
  else protocolTag n +:+ "-" +:+ safeTagPart (NodeID n) +:+ "-in".

Definition OutboundTag (n : NodeSpec) : string :=
  "node-" +:+ protocolTag n +:+ "-" +:+ safeTagPart (NodeID n) +:+ "-out".

(** The outbound switch of [Validate]. *)
Definition validateOutbound (i : Z) (o : OutboundSpec) : res error unit :=
  let t := ToLower (TrimSpace (Outbound_Type o)) in
  if bool_decide (t = "direct") then Ok tt
  else if bool_decide (t ∈ ["shadowsocks"; "ss"]) then
    reject_if
      (bool_decide (Server o = "") || (ServerPort o <=? 0) || (65535 <? ServerPort o) ||
       bool_decide (Method o = "") || bool_decide (Outbound_Password o = ""))
      (New ("nodes[" +:+ Itoa i +:+ "] shadowsocks outbound requires server, valid server_port, method and password"))
  else Err (New ("nodes[" +:+ Itoa i +:+ "] outbound type is unsupported")).

Record seen := mkSeen {
  seenKeys : gset string;
  seenTags : gset string;
  seenOutboundTags : gset string
}.

(** One iteration of the loop of [Validate]. *)
Definition validateNode (i : Z) (n : NodeSpec) (s : seen) : res error seen :=
  match validateNodeID (NodeID n) with
  | Err e => Err (Error ("nodes[" +:+ Itoa i +:+ "]") [e])
  | Ok _ =>
      reject_if (negb (bool_decide (normalizeNodeType (NodeType n) ∈ ["vless"; "hysteria"])))
        (New ("nodes[" +:+ Itoa i +:+ "].node_type is unsupported")) ;;
      reject_if (bool_decide (Key n ∈ seenKeys s)) (New ("duplicate node key " +:+ Key n)) ;;
      reject_if (bool_decide (InboundTag n ∈ seenTags s))
        (New ("duplicate inbound tag " +:+ InboundTag n)) ;;
      reject_if (bool_decide (OutboundTag n ∈ seenOutboundTags s))
        (New ("duplicate outbound tag " +:+ OutboundTag n)) ;;
      validateOutbound i (Outbound n) ;;
      mret (mkSeen ({[Key n]} ∪ seenKeys s) ({[InboundTag n]} ∪ seenTags s)
        ({[OutboundTag n]} ∪ seenOutboundTags s))
  end.

Fixpoint validateNodes (i : Z) (ns : list NodeSpec) (s : seen) : res error unit :=
  match ns with
  | [] => Ok tt
  | n :: ns => s' ← validateNode i n s; validateNodes (i + 1) ns s'
  end.

Definition Validate (t : Topology) : res error unit :=
  if bool_decide (Nodes t = []) then Err (New "topology contains no nodes")
  else validateNodes 0 (Nodes t) (mkSeen ∅ ∅ ∅).

(** [LoadTopology] after reading and decoding the file. *)
Definition LoadTopology (decoded : res error Topology) : res error Topology :=
  t ← decoded; Validate t ;; mret t.

Definition PanelNodeType (n : NodeSpec) : string :=
  if bool_decide (normalizeNodeType (NodeType n) = "hysteria") then "hysteria" else "vless".

Definition NumericID (n : NodeSpec) : Z * bool :=
  match Atoi (NodeID n) with Some id => (id, true) | None => (0, false) end.

(** ** What a valid node is *)

Definition ss_ready (o : OutboundSpec) : Prop :=
  Server o <> "" /\ 0 < ServerPort o <= 65535 /\ Method o <> "" /\ Outbound_Password o <> "".

Definition outbound_ok (o : OutboundSpec) : Prop :=
  let t := ToLower (TrimSpace (Outbound_Type o)) in
  t = "direct" \/ (t = "shadowsocks" \/ t = "ss") /\ ss_ready o.

Definition node_id_ok (id : string) : Prop :=
  let id := TrimSpace id in
  id <> "" /\ Contains id "/" = false /\ Contains id "\" = false /\ Contains id ".." = false.

Definition node_ok (n : NodeSpec) : Prop :=
  node_id_ok (NodeID n) /\
  (normalizeNodeType (NodeType n) = "vless" \/ normalizeNodeType (NodeType n) = "hysteria") /\
  outbound_ok (Outbound n).

Lemma validateNodeID_ok id u : validateNodeID id = Ok u <-> node_id_ok id.
Proof.
  unfold validateNodeID, node_id_ok. cbv zeta. rewrite reject_if_Ok, !orb_false_iff, bool_decide_eq_false.
  tauto.
Qed.

Lemma validateOutbound_ok i o u : validateOutbound i o = Ok u <-> outbound_ok o.
Proof.
  unfold validateOutbound, outbound_ok, ss_ready. cbv zeta.
  destruct (decide (ToLower (TrimSpace (Outbound_Type o)) = "direct")) as [E|E].
  - rewrite bool_decide_eq_true_2 by done. destruct u. naive_solver.
  - rewrite bool_decide_eq_false_2 by done. case_bool_decide as Hss.
    + rewrite reject_if_Ok, !orb_false_iff, !bool_decide_eq_false, Z.leb_gt, Z.ltb_ge.
      assert (ToLower (TrimSpace (Outbound_Type o)) = "shadowsocks" \/
              ToLower (TrimSpace (Outbound_Type o)) = "ss") as H' by set_solver.
      split; [intros [[[[? ?] ?] ?] ?]; right; split_and!; try done; lia |].
      intros [?|[_ (? & [? ?] & ? & ?)]]; [done|]. split_and!; done || lia.
    + split; [done|]. intros [?|[? _]]; [done|]. exfalso. apply Hss. set_solver.
Qed.

Definition see (n : NodeSpec) (s : seen) : seen :=
  mkSeen ({[Key n]} ∪ seenKeys s) ({[InboundTag n]} ∪ seenTags s)
    ({[OutboundTag n]} ∪ seenOutboundTags s).

Definition unseen (n : NodeSpec) (s : seen) : Prop :=
  (Key n ∉ seenKeys s) /\ (InboundTag n ∉ seenTags s) /\ (OutboundTag n ∉ seenOutboundTags s).

Lemma validateNode_ok i n s s' :
  validateNode i n s = Ok s' <-> node_ok n /\ unseen n s /\ s' = see n s.
Proof.
  unfold validateNode, node_ok, unseen, see.
  destruct (validateNodeID (NodeID n)) as [u|e] eqn:Hid.
  - apply validateNodeID_ok in Hid.
    split.
    + intros Hv. res_inv. bool_inv.
      match goal with H' : validateOutbound _ _ = _ |- _ => apply validateOutbound_ok in H' end.
      split_and!; try done. set_solver.
    + intros ((_ & Ht & Ho) & (Hk & Hi & Hob) & ->).
      rewrite (bool_decide_eq_true_2 (normalizeNodeType _ ∈ _)) by (rewrite !elem_of_cons; tauto).
      rewrite !bool_decide_eq_false_2 by done; simpl.
      apply (validateOutbound_ok i _ tt) in Ho. by rewrite Ho.
  - split; [done|]. intros ((Hok & _) & _).
    apply (validateNodeID_ok _ tt) in Hok. congruence.
Qed.

Definition fresh_for (s : seen) (ns : list NodeSpec) : Prop := Forall (fun n => unseen n s) ns.

Definition distinct_nodes (ns : list NodeSpec) : Prop :=
  NoDup (Key <$> ns) /\ NoDup (InboundTag <$> ns) /\ NoDup (OutboundTag <$> ns).

Lemma fresh_for_see n s ns :
  fresh_for (see n s) ns <->
  fresh_for s ns /\ (Key n ∉ Key <$> ns) /\ (InboundTag n ∉ InboundTag <$> ns) /\
  (OutboundTag n ∉ OutboundTag <$> ns).
Proof.
  unfold fresh_for, unseen, see; simpl. rewrite !Forall_forall. setoid_rewrite list_elem_of_fmap.
  setoid_rewrite not_elem_of_union. setoid_rewrite not_elem_of_singleton.
  split.
  - intros H'. split_and!; [intros m Hm; specialize (H' m Hm); tauto|..];
      intros (m & Hk & Hm); specialize (H' m Hm); naive_solver.
  - intros (Hs & Hk & Ht & Ho) m Hm. specialize (Hs m Hm) as (? & ? & ?).
    split_and!; try done; intros E; [apply Hk | apply Ht | apply Ho]; eauto.
Qed.

Lemma validateNodes_ok i ns s u :
  validateNodes i ns s = Ok u <-> Forall node_ok ns /\ fresh_for s ns /\ distinct_nodes ns.
Proof.
  destruct u. revert i s. induction ns as [|n ns IH]; intros i s; simpl.
  - unfold fresh_for, distinct_nodes; simpl. rewrite !Forall_nil. split; [|done].
    intros _. split_and!; try done; constructor.
  - rewrite bind_Ok. setoid_rewrite validateNode_ok. setoid_rewrite IH.
    unfold distinct_nodes; rewrite !fmap_cons, !NoDup_cons.
    unfold fresh_for at 2. rewrite !Forall_cons. fold (fresh_for s ns).
    split.
    + intros (s' & (? & ? & ->) & ? & (? & ? & ? & ?)%fresh_for_see & ? & ? & ?). tauto.
    + intros ([? ?] & [? ?] & [? ?] & [? ?] & ? & ?). exists (see n s).
      rewrite fresh_for_see. unfold distinct_nodes. tauto.
Qed.

Lemma Validate_Ok t :
  Validate t = Ok tt <->
  Nodes t <> [] /\ Forall node_ok (Nodes t) /\ distinct_nodes (Nodes t).
Proof.
  unfold Validate. case_bool_decide as E; [naive_solver|].
  rewrite validateNodes_ok. unfold fresh_for, unseen; simpl.
  split; [tauto|]. intros (? & ? & ?). split_and!; try done.
  apply Forall_forall. intros n _; simpl. split_and!; apply not_elem_of_empty.
Qed.

(** ** Tags of validated nodes *)

Definition all_safe (s : string) : Prop := Forall (fun c => tagSafe c = true) (bytes s).

Lemma all_safe_app a b : all_safe (a +:+ b) <-> all_safe a /\ all_safe b.
Proof.
  unfold all_safe. by rewrite bytes_app, Forall_app.
Qed.

Lemma all_safe_ofBytes l : all_safe (ofBytes l) <-> Forall (fun c => tagSafe c = true) l.
Proof. unfold all_safe. by rewrite bytes_ofBytes. Qed.

Lemma replaceUnsafe_safe b l : Forall (fun c => tagSafe c = true) (replaceUnsafe b l).
Proof.
  revert b. induction l as [|c l IH]; intros b; simpl; [constructor|].
  destruct (tagSafe c) eqn:E; [by constructor|]. destruct b; [done | by constructor].
Qed.

Lemma dropIn_Forall P cut l : Forall P l -> Forall P (dropIn cut l).
Proof. induction 1; simpl; [done|]. case_match; [done | by constructor]. Qed.

Lemma safeTagPart_safe v : all_safe (safeTagPart v).
Proof.
  unfold safeTagPart, TrimCut, dropRightIn. apply all_safe_ofBytes.
  apply Forall_rev, dropIn_Forall, Forall_rev, dropIn_Forall.
  rewrite bytes_ofBytes. apply replaceUnsafe_safe.
Qed.

Lemma protocolTag_cases n : node_ok n -> protocolTag n = "vless" \/ protocolTag n = "hy2".
Proof.
  intros (_ & Ht & _). unfold protocolTag.
  destruct Ht as [-> | ->]; [left | right]; reflexivity.
Qed.

(** Exactly which topologies are accepted: at least one node, every node with a safe id, a
    known protocol and a complete outbound, and no two nodes with the same key, inbound tag
    or outbound tag. *)
Theorem Validate_spec t :
  Validate t = Ok tt <->
  Nodes t <> [] /\ Forall node_ok (Nodes t) /\ distinct_nodes (Nodes t).
Proof. apply Validate_Ok. Qed.
End Topology.
