(* ===== verification/Counter.v ===== *)
(** * Per-user traffic counters (src/counter/counter.go)

    [TrafficCounter] maps a user to a pointer to its [TrafficStorage]; connections keep the
    pointer, so the storages live in a heap shared by the map and the connection wrappers.
    A storage that was removed from the map may still be written through a connection. *)

From S2P Require Import Prelude.

#[local] Open Scope Z_scope.

Record TrafficStorage := mkStorage {
  UpCounter : Z;
  DownCounter : Z;
  CommittedUp : Z;
  CommittedDown : Z
}.

Definition zeroStorage : TrafficStorage := mkStorage 0 0 0 0.

(** Pointers to storages, the heap they point into, and [sync.Map] from user to pointer. *)
Abbreviation loc := nat.
Abbreviation storages := (gmap nat TrafficStorage).
Abbreviation TrafficCounter := (gmap string nat).
Abbreviation usage := (Z * Z)%type.

Definition load (h : storages) (l : loc) : TrafficStorage := default zeroStorage (h !! l).

(** [atomic.Int64.Add] on each field. *)
Definition addUp (n : Z) (s : TrafficStorage) : TrafficStorage :=
  mkStorage (wrap64 (UpCounter s + n)) (DownCounter s) (CommittedUp s) (CommittedDown s).
Definition addDown (n : Z) (s : TrafficStorage) : TrafficStorage :=
  mkStorage (UpCounter s) (wrap64 (DownCounter s + n)) (CommittedUp s) (CommittedDown s).
Definition addCommitted (d : usage) (s : TrafficStorage) : TrafficStorage :=
  mkStorage (UpCounter s) (DownCounter s)
    (wrap64 (CommittedUp s + d.1)) (wrap64 (CommittedDown s + d.2)).

Definition NewTrafficCounter : TrafficCounter := ∅.

Definition GetCounter (user : string) (c : TrafficCounter) (h : storages)
  : loc * (TrafficCounter * storages) :=
  match c !! user with
  | Some l => (l, (c, h))
  | None =>
      let l := fresh (dom h) in
      (l, (<[user := l]> c, <[l := zeroStorage]> h))
  end.

(** [reset] is accepted and never read, as in the source. *)
Definition Snapshot (reset : bool) (c : TrafficCounter) (h : storages) : gmap string usage :=
  (fun l => (UpCounter (load h l), DownCounter (load h l))) <$> c.

Definition storageDelta (s : TrafficStorage) : option usage :=
  let up := wrap64 (UpCounter s - CommittedUp s) in
  let down := wrap64 (DownCounter s - CommittedDown s) in
  if (0 <? up) || (0 <? down) then Some (up, down) else None.

Definition SnapshotDelta (c : TrafficCounter) (h : storages) : gmap string usage :=
  omap (fun l => storageDelta (load h l)) c.

Section CommitSnapshot.
Context `{MapOrder}.

Definition commitUser (c : TrafficCounter) (h : storages) (e : string * usage) : storages :=
  match c !! e.1 with
  | Some l => alter (addCommitted e.2) l h
  | None => h
  end.

Definition CommitSnapshot (snapshot : gmap string usage) (c : TrafficCounter) (h : storages)
  : storages :=
  foldl (commitUser c) h (go_range 0 snapshot).
End CommitSnapshot.

Definition fullyCommitted (s : TrafficStorage) : bool :=
  (UpCounter s =? CommittedUp s) && (DownCounter s =? CommittedDown s).

Definition RemoveAbsent (active : gset string) (c : TrafficCounter) (h : storages)
  : TrafficCounter :=
  filter (fun '(user, l) => user ∈ active \/ fullyCommitted (load h l) = false) c.

(** ** Connection wrappers

    A wrapper performs the wrapped operation first; [inner] is what that returned. *)

(** [ConnCounter.Read]: the bytes read are counted even when an error comes with them. *)
Definition ConnCounter_Read {E} (inner : Z * option E) (l : loc) (h : storages)
  : (Z * option E) * storages :=
  (inner, if 0 <? inner.1 then alter (addUp inner.1) l h else h).

Definition ConnCounter_Write {E} (inner : Z * option E) (l : loc) (h : storages)
  : (Z * option E) * storages :=
  (inner, if 0 <? inner.1 then alter (addDown inner.1) l h else h).

(** Buffer operations: [len] is [buffer.Len()], read after [ReadBuffer] and before
    [WriteBuffer]; nothing is counted when the operation failed. *)
Definition ConnCounter_ReadBuffer {E} (inner : option E) (len : Z) (l : loc) (h : storages)
  : option E * storages :=
  (inner, match inner with
          | None => if 0 <? len then alter (addUp len) l h else h
          | Some _ => h
          end).

Definition ConnCounter_WriteBuffer {E} (inner : option E) (len : Z) (l : loc) (h : storages)
  : option E * storages :=
  (inner, match inner with
          | None => if 0 <? len then alter (addDown len) l h else h
          | Some _ => h
          end).

(** [PacketConnCounter] follows the buffer operations; [dest] is the packet's address. *)
Definition PacketConnCounter_ReadPacket {A E} (inner : A * option E) (len : Z) (l : loc)
    (h : storages) : (A * option E) * storages :=
  (inner, match inner.2 with
          | None => if 0 <? len then alter (addUp len) l h else h
          | Some _ => h
          end).

Definition PacketConnCounter_WritePacket {E} (inner : option E) (len : Z) (l : loc)
    (h : storages) : option E * storages :=
  (inner, match inner with
          | None => if 0 <? len then alter (addDown len) l h else h
          | Some _ => h
          end).

(** ** Invariant and abstraction *)

(** Committed traffic never exceeds counted traffic, and nothing has overflowed. *)
Definition storage_ok (s : TrafficStorage) : Prop :=
  0 <= CommittedUp s <= UpCounter s /\ UpCounter s <= int64_max /\
  0 <= CommittedDown s <= DownCounter s /\ DownCounter s <= int64_max.

#[export] Instance storage_ok_dec s : Decision (storage_ok s).
Proof. unfold storage_ok. apply _. Defined.

(** What a storage still has to report. *)
Definition storagePending (s : TrafficStorage) : usage :=
  (UpCounter s - CommittedUp s, DownCounter s - CommittedDown s).

Definition uadd (a b : usage) : usage := (a.1 + b.1, a.2 + b.2).
Definition usub (a b : usage) : usage := (a.1 - b.1, a.2 - b.2).
Definition ule (a b : usage) : Prop := a.1 <= b.1 /\ a.2 <= b.2.

#[export] Instance ule_dec a b : Decision (ule a b).
Proof. unfold ule. apply _. Defined.

#[export] Instance ule_preorder : PreOrder ule.
Proof. split; [intros a | intros a b c]; unfold ule; lia. Qed.

Lemma storageDelta_pending s :
  storage_ok s -> default (0, 0) (storageDelta s) = storagePending s.
Proof.
  intros (? & ? & ? & ?). unfold storageDelta, storagePending.
  rewrite !wrap64_id by (unfold64; lia).
  destruct (0 <? _) eqn:Eu, (0 <? DownCounter s - _) eqn:Ed; simpl; try done.
  apply Z.ltb_ge in Eu, Ed. f_equal; lia.
Qed.

Lemma storageDelta_None s : storage_ok s -> storageDelta s = None <-> fullyCommitted s = true.
Proof.
  intros (? & ? & ? & ?). unfold storageDelta, fullyCommitted.
  rewrite !wrap64_id by (unfold64; lia).
  rewrite andb_true_iff, !Z.eqb_eq.
  destruct (0 <? _) eqn:Eu, (0 <? DownCounter s - _) eqn:Ed; simpl;
    rewrite ?Z.ltb_lt, ?Z.ltb_ge in Eu, Ed; (split; [done || lia | done || lia]).
Qed.

Lemma addCommitted_ok d s :
  storage_ok s -> ule (0, 0) d -> ule d (storagePending s) -> storage_ok (addCommitted d s).
Proof.
  unfold storage_ok, ule, storagePending; simpl. intros (? & ? & ? & ?) [] [].
  rewrite !wrap64_id by (unfold64; lia). lia.
Qed.

Lemma addCommitted_pending d s :
  storage_ok s -> ule (0, 0) d -> ule d (storagePending s) ->
  storagePending (addCommitted d s) = usub (storagePending s) d.
Proof.
  unfold storage_ok, ule, storagePending, usub; simpl. intros (? & ? & ? & ?) [] [].
  rewrite !wrap64_id by (unfold64; lia). f_equal; lia.
Qed.

Lemma addUp_ok n s :
  storage_ok s -> 0 <= n -> UpCounter s + n <= int64_max -> storage_ok (addUp n s).
Proof.
  unfold storage_ok; simpl. intros (? & ? & ? & ?) ??.
  rewrite !wrap64_id by (unfold64; lia). lia.
Qed.

Lemma addDown_ok n s :
  storage_ok s -> 0 <= n -> DownCounter s + n <= int64_max -> storage_ok (addDown n s).
Proof.
  unfold storage_ok; simpl. intros (? & ? & ? & ?) ??.
  rewrite !wrap64_id by (unfold64; lia). lia.
Qed.

#[export] Hint Resolve addCommitted_ok addUp_ok addDown_ok : agent.
