(* ===== verification/Hook.v ===== *)
(** * Per-inbound traffic accounting (the [Hook] of src/cmd/mini-sb-agent/main.go)

    One [TrafficCounter] per inbound tag.  The file ends with the abstraction the panel
    synchronisation relies on: [pending hk tag user] is the traffic counted for a user on an
    inbound and not yet committed, and every operation of the hook is described by its effect
    on it. *)

From S2P Require Import Prelude Counter.

#[local] Open Scope Z_scope.

(** Traffic per inbound tag and user: Go's [map[string]map[string][2]int64]. *)
Abbreviation delta := (gmap string (gmap string usage)).

Record Hook := mkHook {
  byInbound : gmap string TrafficCounter;
  heap : storages
}.

Definition NewHook : Hook := mkHook ∅ ∅.

(** [Hook.tc]: the counter of a tag, created on first use; an empty tag is "default". *)
Definition tagOf (tag : string) : string := if decide (tag = "") then "default" else tag.

Definition tc (tag : string) (hk : Hook) : TrafficCounter * Hook :=
  match byInbound hk !! tagOf tag with
  | Some c => (c, hk)
  | None => (NewTrafficCounter, mkHook (<[tagOf tag := NewTrafficCounter]> (byInbound hk)) (heap hk))
  end.

(** [h.tc(inbound).GetCounter(user)], the storage a routed connection is bound to. *)
Definition userStorage (tag user : string) (hk : Hook) : loc * Hook :=
  let '(c, hk1) := tc tag hk in
  let '(l, (c', h')) := GetCounter user c (heap hk1) in
  (l, mkHook (<[tagOf tag := c']> (byInbound hk1)) h').

Definition Hook_Snapshot (reset : bool) (hk : Hook) : delta :=
  (fun c => Snapshot reset c (heap hk)) <$> byInbound hk.

Definition Hook_SnapshotDelta (hk : Hook) : delta :=
  omap (fun c => let d := SnapshotDelta c (heap hk) in
                 if decide (d = ∅) then None else Some d) (byInbound hk).

Section WithOrder.
Context `{MapOrder}.

Definition commitInbound (m : gmap string TrafficCounter) (h : storages)
    (e : string * gmap string usage) : storages :=
  match m !! e.1 with
  | Some c => CommitSnapshot e.2 c h
  | None => h
  end.

Definition Hook_CommitSnapshot (snapshot : delta) (hk : Hook) : Hook :=
  mkHook (byInbound hk) (foldl (commitInbound (byInbound hk)) (heap hk) (go_range 1 snapshot)).
End WithOrder.

Definition Hook_RemoveAbsent (active : gset string) (hk : Hook) : Hook :=
  mkHook ((fun c => RemoveAbsent active c (heap hk)) <$> byInbound hk) (heap hk).

(** Traffic through a connection bound to the storage [l]. *)
Definition trafficUp (l : loc) (n : Z) (hk : Hook) : Hook :=
  mkHook (byInbound hk) (alter (addUp n) l (heap hk)).
Definition trafficDown (l : loc) (n : Z) (hk : Hook) : Hook :=
  mkHook (byInbound hk) (alter (addDown n) l (heap hk)).

(** ** Invariant and abstraction *)

Definition ptr (hk : Hook) (tag user : string) : option loc :=
  byInbound hk !! tag ≫= fun c => c !! user.

Record hook_ok (hk : Hook) : Prop := {
  ok_storage : forall tag user l, ptr hk tag user = Some l ->
    exists s, heap hk !! l = Some s /\ storage_ok s;
  ok_inj : forall t1 u1 t2 u2 l,
    ptr hk t1 u1 = Some l -> ptr hk t2 u2 = Some l -> t1 = t2 /\ u1 = u2
}.

(** The traffic of a delta for one inbound and user; absent entries count as none. *)
Definition at2 (d : delta) (tag user : string) : usage :=
  default (0, 0) (d !! tag ≫= fun m => m !! user).

Definition pending (hk : Hook) (tag user : string) : usage :=
  from_option (fun l => storagePending (load (heap hk) l)) (0, 0) (ptr hk tag user).

(** A delta that can be committed: no entry exceeds what is pending. *)
Definition committable (d : delta) (hk : Hook) : Prop :=
  forall tag user, ule (0, 0) (at2 d tag user) /\ ule (at2 d tag user) (pending hk tag user).

(** ** The counter's commit *)

Section CommitLemmas.
Context `{MapOrder}.

Lemma CommitSnapshot_lookup snap (c : TrafficCounter) (h : storages) u l :
  (forall u', c !! u' = Some l -> u' = u) -> c !! u = Some l ->
  CommitSnapshot snap c h !! l =
    (match snap !! u with Some d => addCommitted d | None => id end) <$> h !! l.
Proof.
  intros Hinj Hu. unfold CommitSnapshot.
  assert (forall s e, e.1 <> u -> commitUser c s e !! l = s !! l) as Hframe.
  { intros s [u' d'] Hne; unfold commitUser; simpl in *. destruct (c !! u') as [l'|] eqn:E; [|done].
    apply lookup_alter_ne. intros ->. by apply Hne, Hinj. }
  destruct (snap !! u) as [d|] eqn:Hd.
  - apply (foldl_once (commitUser c) (fun h => h !! l) (fmap (addCommitted d)) _ h (u, d)).
    + apply NoDup_go_range.
    + by apply elem_of_go_range.
    + intros s. unfold commitUser; simpl. rewrite Hu. by rewrite lookup_alter_eq.
    + intros s [u' d'] Hb Hne. apply Hframe; simpl. intros ->.
      apply elem_of_go_range in Hb. congruence.
  - rewrite option_fmap_id.
    apply (foldl_frame (commitUser c) (fun h => h !! l)).
    intros s [u' d'] Hb%elem_of_go_range. apply Hframe; simpl. congruence.
Qed.

Lemma CommitSnapshot_frame snap (c : TrafficCounter) (h : storages) l :
  (forall u, c !! u <> Some l) -> CommitSnapshot snap c h !! l = h !! l.
Proof.
  intros Hl. apply (foldl_frame (commitUser c) (fun h => h !! l)).
  intros s [u d] _. unfold commitUser; simpl. destruct (c !! u) as [l'|] eqn:E; [|done].
  apply lookup_alter_ne. intros ->. by apply (Hl u).
Qed.

Lemma ptr_Some hk tag user l :
  ptr hk tag user = Some l <-> exists c, byInbound hk !! tag = Some c /\ c !! user = Some l.
Proof. unfold ptr. rewrite bind_Some. done. Qed.

(** The hook's commit changes the storage of [(tag, user)] by its entry of the delta. *)
Lemma Hook_CommitSnapshot_lookup snap hk tag user l :
  hook_ok hk -> ptr hk tag user = Some l ->
  heap (Hook_CommitSnapshot snap hk) !! l =
    (match snap !! tag ≫= fun m => m !! user with
     | Some d => addCommitted d | None => id end) <$> heap hk !! l.
Proof.
  intros Hok Hp. pose proof Hp as (c & Hc & Hu)%ptr_Some.
  assert (forall tag' c' u', byInbound hk !! tag' = Some c' -> c' !! u' = Some l ->
            tag' = tag /\ u' = user) as Hinj.
  { intros tag' c' u' H1 H2. apply (ok_inj hk Hok tag' u' tag user l); [|done].
    apply ptr_Some. eauto. }
  unfold Hook_CommitSnapshot; simpl.
  assert (forall s e, e.1 <> tag -> commitInbound (byInbound hk) s e !! l = s !! l) as Hframe.
  { intros s [t m] Hne. unfold commitInbound; simpl in *.
    destruct (byInbound hk !! t) as [c'|] eqn:E; [|done].
    apply CommitSnapshot_frame. intros u' Hu'. by edestruct (Hinj t c' u'). }
  destruct (snap !! tag) as [m|] eqn:Hm; simpl.
  - apply (foldl_once (commitInbound (byInbound hk)) (fun h => h !! l)
             (fmap (match m !! user with Some d => addCommitted d | None => id end))
             _ (heap hk) (tag, m)).
    + apply NoDup_go_range.
    + by apply elem_of_go_range.
    + intros s. unfold commitInbound; simpl. rewrite Hc.
      apply CommitSnapshot_lookup; [|done]. intros u' Hu'. by apply (Hinj tag c u').
    + intros s [t m'] Hb%elem_of_go_range Hne. apply Hframe; simpl. intros ->. congruence.
  - rewrite option_fmap_id.
    apply (foldl_frame (commitInbound (byInbound hk)) (fun h => h !! l)).
    intros s [t m'] Hb%elem_of_go_range. apply Hframe; simpl. congruence.
Qed.
End CommitLemmas.

(** ** Effect of every operation on what is pending *)

Lemma pending_ptr hk tag user l s :
  ptr hk tag user = Some l -> heap hk !! l = Some s -> pending hk tag user = storagePending s.
Proof. intros Hp Hs. unfold pending. rewrite Hp; simpl. unfold load. by rewrite Hs. Qed.

Lemma pending_nonneg hk tag user : hook_ok hk -> ule (0, 0) (pending hk tag user).
Proof.
  intros Hok. destruct (ptr hk tag user) as [l|] eqn:Hp.
  - destruct (ok_storage hk Hok _ _ _ Hp) as (s & Hs & Hsok).
    rewrite (pending_ptr _ _ _ _ _ Hp Hs). destruct Hsok as (? & ? & ? & ?).
    unfold ule, storagePending; simpl. lia.
  - unfold pending. rewrite Hp. unfold ule; simpl. lia.
Qed.

(** What the hook reports is exactly what is pending. *)
Lemma at2_SnapshotDelta hk tag user :
  hook_ok hk -> at2 (Hook_SnapshotDelta hk) tag user = pending hk tag user.
Proof.
  intros Hok. unfold at2, Hook_SnapshotDelta, pending, ptr. rewrite lookup_omap.
  destruct (byInbound hk !! tag) as [c|] eqn:Hc; simpl; [|done].
  assert (default (0, 0) (SnapshotDelta c (heap hk) !! user)
          = from_option (fun l => storagePending (load (heap hk) l)) (0, 0) (c !! user)) as Heq.
  { unfold SnapshotDelta. rewrite lookup_omap.
    destruct (c !! user) as [l|] eqn:Hu; simpl; [|done].
    destruct (ok_storage hk Hok tag user l) as (s & Hs & Hsok); [apply ptr_Some; eauto|].
    unfold load; rewrite Hs. by apply storageDelta_pending. }
  case_decide as Hd; simpl; [|done]. by rewrite <- Heq, Hd, lookup_empty.
Qed.

Lemma SnapshotDelta_entry hk tag m user d :
  hook_ok hk -> Hook_SnapshotDelta hk !! tag = Some m -> m !! user = Some d ->
  d = pending hk tag user.
Proof.
  intros Hok Hm Hd. rewrite <- at2_SnapshotDelta by done. unfold at2. by rewrite Hm; simpl; rewrite Hd.
Qed.

Lemma SnapshotDelta_ptr hk tag m user d :
  Hook_SnapshotDelta hk !! tag = Some m -> m !! user = Some d -> is_Some (ptr hk tag user).
Proof.
  unfold Hook_SnapshotDelta, ptr. rewrite lookup_omap.
  destruct (byInbound hk !! tag) as [c|]; simpl; [|done]. case_decide; [done|]. intros [= <-].
  unfold SnapshotDelta. rewrite lookup_omap. destruct (c !! user); simpl; [eauto | done].
Qed.

Lemma pending_le hk tag user : hook_ok hk -> ule (pending hk tag user) (int64_max, int64_max).
Proof.
  intros Hok. unfold pending. destruct (ptr hk tag user) as [l|] eqn:Hp; simpl.
  - destruct (ok_storage hk Hok _ _ _ Hp) as (s & Hs & ?). unfold load. rewrite Hs; simpl.
    unfold storage_ok, storagePending, ule in *; simpl. lia.
  - unfold ule; simpl. unfold64. lia.
Qed.

Lemma SnapshotDelta_committable hk : hook_ok hk -> committable (Hook_SnapshotDelta hk) hk.
Proof.
  intros Hok tag user. rewrite at2_SnapshotDelta by done.
  split; [by apply pending_nonneg | unfold ule; lia].
Qed.

Section CommitPending.
Context `{MapOrder}.

Lemma ptr_CommitSnapshot d hk tag user :
  ptr (Hook_CommitSnapshot d hk) tag user = ptr hk tag user.
Proof. done. Qed.

Lemma Hook_CommitSnapshot_storage d hk tag user l s :
  hook_ok hk -> ptr hk tag user = Some l -> heap hk !! l = Some s ->
  heap (Hook_CommitSnapshot d hk) !! l = Some (addCommitted (at2 d tag user) s) \/
  heap (Hook_CommitSnapshot d hk) !! l = Some s /\ at2 d tag user = (0, 0).
Proof.
  intros Hok Hp Hs. rewrite (Hook_CommitSnapshot_lookup d hk tag user l Hok Hp), Hs.
  unfold at2. destruct (d !! tag ≫= _) as [x|]; simpl; auto.
Qed.

Lemma Hook_CommitSnapshot_ok d hk :
  hook_ok hk -> committable d hk -> hook_ok (Hook_CommitSnapshot d hk).
Proof.
  intros Hok Hd. split; [|apply (ok_inj hk Hok)].
  intros tag user l Hp. rewrite ptr_CommitSnapshot in Hp.
  destruct (ok_storage hk Hok _ _ _ Hp) as (s & Hs & Hsok).
  destruct (Hd tag user) as [H0 Hle]. rewrite (pending_ptr _ _ _ _ _ Hp Hs) in Hle.
  destruct (Hook_CommitSnapshot_storage d hk tag user l s) as [->|[-> _]];
    eauto using addCommitted_ok.
Qed.

Lemma pending_CommitSnapshot d hk tag user :
  hook_ok hk -> committable d hk ->
  pending (Hook_CommitSnapshot d hk) tag user = usub (pending hk tag user) (at2 d tag user).
Proof.
  intros Hok Hd. destruct (Hd tag user) as [H0 Hle].
  destruct (ptr hk tag user) as [l|] eqn:Hp.
  - destruct (ok_storage hk Hok _ _ _ Hp) as (s & Hs & Hsok).
    pose proof (pending_ptr _ _ _ _ _ Hp Hs) as Hps. rewrite Hps in Hle |- *.
    destruct (Hook_CommitSnapshot_storage d hk tag user l s) as [Hs'|[Hs' Hz]]; try done;
      rewrite (pending_ptr (Hook_CommitSnapshot d hk) tag user l _ Hp Hs').
    + by apply addCommitted_pending.
    + rewrite Hz. unfold usub, storagePending; simpl. f_equal; lia.
  - unfold pending in *. rewrite ptr_CommitSnapshot, Hp in *; simpl in *.
    destruct H0 as [H1 H2], Hle as [H3 H4]; simpl in *.
    unfold usub; simpl. f_equal; lia.
Qed.
End CommitPending.

Lemma ptr_RemoveAbsent active hk tag user l :
  ptr (Hook_RemoveAbsent active hk) tag user = Some l <->
  ptr hk tag user = Some l /\ (user ∈ active \/ fullyCommitted (load (heap hk) l) = false).
Proof.
  rewrite !ptr_Some. unfold Hook_RemoveAbsent; simpl. setoid_rewrite lookup_fmap_Some.
  split.
  - intros (c' & (c & <- & Hc) & Hu). unfold RemoveAbsent in Hu.
    apply map_lookup_filter_Some in Hu as [??]. eauto.
  - intros [(c & Hc & Hu) Hor]. eexists; split; [eauto|].
    by apply map_lookup_filter_Some.
Qed.

Lemma Hook_RemoveAbsent_ok active hk : hook_ok hk -> hook_ok (Hook_RemoveAbsent active hk).
Proof.
  intros Hok. split.
  - intros tag user l [Hp _]%ptr_RemoveAbsent. by apply (ok_storage hk Hok tag user l).
  - intros t1 u1 t2 u2 l [H1 _]%ptr_RemoveAbsent [H2 _]%ptr_RemoveAbsent.
    by apply (ok_inj hk Hok t1 u1 t2 u2 l).
Qed.

(** Pruning never drops traffic that still has to be reported. *)
Lemma pending_RemoveAbsent active hk tag user :
  hook_ok hk -> pending (Hook_RemoveAbsent active hk) tag user = pending hk tag user.
Proof.
  intros Hok. destruct (ptr (Hook_RemoveAbsent active hk) tag user) as [l|] eqn:Hp'.
  - pose proof Hp' as [Hp _]%ptr_RemoveAbsent. unfold pending. by rewrite Hp, Hp'.
  - unfold pending at 1. rewrite Hp'; simpl.
    destruct (ptr hk tag user) as [l|] eqn:Hp; [|unfold pending; by rewrite Hp].
    destruct (ok_storage hk Hok _ _ _ Hp) as (s & Hs & Hsok).
    rewrite (pending_ptr _ _ _ _ _ Hp Hs), <- storageDelta_pending by done.
    destruct (fullyCommitted s) eqn:Hf; [by apply storageDelta_None in Hf as ->|].
    exfalso. assert (ptr (Hook_RemoveAbsent active hk) tag user = Some l) as Hc; [|congruence].
    apply ptr_RemoveAbsent. unfold load. rewrite Hs. auto.
Qed.

(** ** New connections and traffic *)

Lemma userStorage_ptr tag user hk l hk' :
  userStorage tag user hk = (l, hk') ->
  ptr hk' (tagOf tag) user = Some l /\
  (ptr hk (tagOf tag) user = Some l /\ heap hk' = heap hk \/
   ptr hk (tagOf tag) user = None /\ (l ∉ dom (heap hk)) /\
   heap hk' = <[l := zeroStorage]> (heap hk)) /\
  (forall t u, (t, u) <> (tagOf tag, user) -> ptr hk' t u = ptr hk t u).
Proof.
  unfold userStorage, tc, ptr, GetCounter, NewTrafficCounter.
  destruct (byInbound hk !! tagOf tag) as [c|] eqn:Hc; simpl.
  - destruct (c !! user) as [l0|] eqn:Hu; simpl; intros [= <- <-]; simpl.
    + rewrite insert_id by done. rewrite Hc; simpl. auto.
    + rewrite lookup_insert_eq; simpl. rewrite lookup_insert_eq. split; [done|]. split.
      * right. split_and!; try done. apply is_fresh.
      * intros t u Hne. destruct (decide (t = tagOf tag)) as [->|].
        -- rewrite lookup_insert_eq, Hc; simpl. rewrite lookup_insert_ne; congruence.
        -- by rewrite lookup_insert_ne.
  - rewrite lookup_empty; simpl. intros [= <- <-]; simpl.
    rewrite insert_insert_eq, lookup_insert_eq; simpl. rewrite lookup_insert_eq. split; [done|].
    split.
    + right. split_and!; try done. apply is_fresh.
    + intros t u Hne. destruct (decide (t = tagOf tag)) as [->|].
      * rewrite lookup_insert_eq, Hc; simpl. rewrite lookup_insert_ne; [done | congruence].
      * by rewrite lookup_insert_ne.
Qed.

Lemma zeroStorage_ok : storage_ok zeroStorage.
Proof. unfold storage_ok; simpl; unfold64. lia. Qed.

Lemma userStorage_ok tag user hk l hk' :
  hook_ok hk -> userStorage tag user hk = (l, hk') -> hook_ok hk'.
Proof.
  intros Hok HS. apply userStorage_ptr in HS as (Hp & Hcase & Hother).
  assert (forall t u l', ptr hk' t u = Some l' ->
     (t, u) = (tagOf tag, user) /\ l' = l \/ ptr hk t u = Some l') as Hback.
  { intros t u l' Hl'. destruct (decide ((t, u) = (tagOf tag, user))) as [Heq|Hne].
    - left. split; [done|]. naive_solver congruence.
    - right. by rewrite <- Hother. }
  destruct Hcase as [[Hold Hheap]|(Hnone & Hfresh & Hheap)].
  - assert (forall t u l', ptr hk' t u = Some l' -> ptr hk t u = Some l') as Hsub.
    { intros t u l' Hl'. destruct (Hback t u l' Hl') as [[Heq ->]|]; naive_solver. }
    split.
    + intros t u l' Hl'. rewrite Hheap. eauto using ok_storage.
    + intros. eapply (ok_inj hk Hok); eauto.
  - assert (forall t u l', ptr hk t u = Some l' -> l' <> l) as Hnl.
    { intros t u l' Hl' ->. destruct (ok_storage hk Hok _ _ _ Hl') as (s & Hs & _).
      apply Hfresh, elem_of_dom. eauto. }
    split.
    + intros t u l' Hl'. rewrite Hheap. destruct (Hback t u l' Hl') as [[_ ->]|Hl].
      * rewrite lookup_insert_eq. eauto using zeroStorage_ok.
      * rewrite lookup_insert_ne by (intros <-; by eapply Hnl). eauto using ok_storage.
    + intros t1 u1 t2 u2 l' H1 H2.
      destruct (Hback _ _ _ H1) as [[E1 ->]|H1'].
      * destruct (Hback _ _ _ H2) as [[E2 _]|H2']; [by simplify_eq | exfalso; by eapply Hnl].
      * destruct (Hback _ _ _ H2) as [[E2 ->]|H2']; [exfalso; by eapply Hnl|].
        by eapply (ok_inj hk Hok).
Qed.

Lemma pending_userStorage tag user hk l hk' t u :
  hook_ok hk -> userStorage tag user hk = (l, hk') -> pending hk' t u = pending hk t u.
Proof.
  intros Hok HS. apply userStorage_ptr in HS as (Hp & Hcase & Hother).
  destruct (decide ((t, u) = (tagOf tag, user))) as [Heq|Hne].
  - simplify_eq. destruct Hcase as [[Hold Hheap]|(Hnone & Hfresh & Hheap)]; unfold pending, load.
    + by rewrite Hp, Hold, Hheap.
    + rewrite Hp, Hnone; simpl. by rewrite Hheap, lookup_insert_eq.
  - unfold pending. rewrite Hother by done. destruct (ptr hk t u) as [l'|] eqn:Hl'; [|done]; simpl.
    destruct Hcase as [[_ ->]|(_ & Hfresh & ->)]; [done|].
    unfold load. rewrite lookup_insert_ne; [done|]. intros <-.
    destruct (ok_storage hk Hok _ _ _ Hl') as (s & Hs & _). apply Hfresh, elem_of_dom. eauto.
Qed.

(** What happens between two reports: connections are opened and move traffic. *)
Inductive hook_event :=
| EvOpen (tag user : string)
| EvUp (l : loc) (n : Z)
| EvDown (l : loc) (n : Z).

Definition hook_step (hk : Hook) (e : hook_event) : Hook :=
  match e with
  | EvOpen tag user => (userStorage tag user hk).2
  | EvUp l n => trafficUp l n hk
  | EvDown l n => trafficDown l n hk
  end.

(** A connection moves a non-negative number of bytes into an allocated storage, whose
    counter does not overflow. *)
Definition event_ok (hk : Hook) (e : hook_event) : Prop :=
  match e with
  | EvOpen _ _ => True
  | EvUp l n => 0 <= n /\ l ∈ dom (heap hk) /\ UpCounter (load (heap hk) l) + n <= int64_max
  | EvDown l n => 0 <= n /\ l ∈ dom (heap hk) /\ DownCounter (load (heap hk) l) + n <= int64_max
  end.

Fixpoint events_ok (hk : Hook) (evs : list hook_event) : Prop :=
  match evs with
  | [] => True
  | e :: evs => event_ok hk e /\ events_ok (hook_step hk e) evs
  end.

Definition run (evs : list hook_event) (hk : Hook) : Hook := foldl hook_step hk evs.

(** The bytes a sequence of events moved through one storage. *)
Definition moved1 (l : loc) (e : hook_event) : usage :=
  match e with
  | EvOpen _ _ => (0, 0)
  | EvUp l' n => if decide (l' = l) then (n, 0) else (0, 0)
  | EvDown l' n => if decide (l' = l) then (0, n) else (0, 0)
  end.
Definition moved (evs : list hook_event) (l : loc) : usage :=
  foldr (fun e acc => uadd (moved1 l e) acc) (0, 0) evs.

Lemma load_alter f h l l' :
  l ∈ dom h -> load (alter f l h) l' = if decide (l = l') then f (load h l') else load h l'.
Proof.
  intros [s Hs]%elem_of_dom. unfold load. rewrite lookup_alter.
  destruct (decide (l = l')) as [->|]; [by rewrite Hs | done].
Qed.

Lemma hook_alter_ok f l hk :
  hook_ok hk -> (storage_ok (load (heap hk) l) -> storage_ok (f (load (heap hk) l))) ->
  hook_ok (mkHook (byInbound hk) (alter f l (heap hk))).
Proof.
  intros Hok Hf. split; [|apply (ok_inj hk Hok)].
  intros tag user l' Hp. destruct (ok_storage hk Hok tag user l' Hp) as (s & Hs & Hsok); simpl.
  rewrite lookup_alter. case_decide; simplify_eq; rewrite Hs; simpl; [|eauto].
  unfold load in Hf. rewrite Hs in Hf. eauto.
Qed.

Lemma hook_step_ok hk e : hook_ok hk -> event_ok hk e -> hook_ok (hook_step hk e).
Proof.
  intros Hok He. destruct e as [tag user|l n|l n]; simpl in *.
  - destruct (userStorage tag user hk) as [l hk'] eqn:E. by eapply userStorage_ok.
  - apply hook_alter_ok; [done|]. intros. apply addUp_ok; tauto.
  - apply hook_alter_ok; [done|]. intros. apply addDown_ok; tauto.
Qed.

Lemma uadd_0_r a : uadd a (0, 0) = a.
Proof. destruct a; unfold uadd; simpl. by rewrite !Z.add_0_r. Qed.

Lemma uadd_assoc a b c : uadd a (uadd b c) = uadd (uadd a b) c.
Proof. unfold uadd; simpl. by rewrite !Z.add_assoc. Qed.

Lemma pending_alter f l d hk tag user :
  hook_ok hk -> l ∈ dom (heap hk) ->
  (storage_ok (load (heap hk) l) ->
   storagePending (f (load (heap hk) l)) = uadd (storagePending (load (heap hk) l)) d) ->
  pending (mkHook (byInbound hk) (alter f l (heap hk))) tag user =
  uadd (pending hk tag user)
    (from_option (fun l' => if decide (l = l') then d else (0, 0)) (0, 0) (ptr hk tag user)).
Proof.
  intros Hok Hl Hf. unfold pending.
  change (ptr (mkHook (byInbound hk) _) tag user) with (ptr hk tag user).
  destruct (ptr hk tag user) as [l'|] eqn:Hp; simpl; [|done].
  rewrite load_alter by done. case_decide as E; [subst l'|by rewrite uadd_0_r].
  destruct (ok_storage hk Hok _ _ _ Hp) as (s & Hs & Hsok).
  unfold load in *. rewrite Hs in *; simpl in *. auto.
Qed.

(** One event changes what is pending by the bytes it moved through the user's storage. *)
Lemma pending_step hk e tag user :
  hook_ok hk -> event_ok hk e ->
  pending (hook_step hk e) tag user =
  uadd (pending hk tag user) (from_option (fun l => moved1 l e) (0, 0) (ptr (hook_step hk e) tag user)).
Proof.
  intros Hok He. destruct e as [t u|l n|l n]; simpl in *.
  - destruct (userStorage t u hk) as [l hk'] eqn:E; simpl.
    rewrite (pending_userStorage _ _ _ _ _ _ _ Hok E).
    destruct (ptr hk' tag user); simpl; by rewrite uadd_0_r.
  - apply (pending_alter (addUp n) l (n, 0) hk tag user); [done | tauto |].
    intros (? & ? & ? & ?). unfold storagePending, uadd; simpl.
    rewrite wrap64_id by (unfold64; lia). f_equal; lia.
  - apply (pending_alter (addDown n) l (0, n) hk tag user); [done | tauto |].
    intros (? & ? & ? & ?). unfold storagePending, uadd; simpl.
    rewrite wrap64_id by (unfold64; lia). f_equal; lia.
Qed.

(** Storages of the map are never rebound while connections open and move traffic. *)
Lemma ptr_step hk e tag user l :
  ptr hk tag user = Some l -> ptr (hook_step hk e) tag user = Some l.
Proof.
  intros Hp. destruct e as [t u|l' n|l' n]; simpl; [|done|done].
  destruct (userStorage t u hk) as [l' hk'] eqn:E; simpl.
  apply userStorage_ptr in E as (Hp' & Hcase & Hother).
  destruct (decide ((tag, user) = (tagOf t, u))) as [Heq|Hne]; [|by rewrite Hother].
  simplify_eq. destruct Hcase as [[]|(? & _)]; congruence.
Qed.

Lemma ptr_run evs hk tag user l :
  ptr hk tag user = Some l -> ptr (run evs hk) tag user = Some l.
Proof. revert hk. induction evs; simpl; auto using ptr_step. Qed.

Lemma run_ok evs hk : hook_ok hk -> events_ok hk evs -> hook_ok (run evs hk).
Proof. revert hk. induction evs; simpl; [done | naive_solver eauto using hook_step_ok]. Qed.

(** A storage allocated later was not written before. *)
Lemma moved1_unallocated hk e tag user l :
  hook_ok hk -> event_ok hk e -> ptr (hook_step hk e) tag user = None ->
  forall evs, events_ok (hook_step hk e) evs -> ptr (run evs (hook_step hk e)) tag user = Some l ->
  moved1 l e = (0, 0).
Proof.
  intros Hok He Hnone evs Hevs Hl.
  assert (forall evs hk0, ptr hk0 tag user = None -> hook_ok hk0 -> events_ok hk0 evs ->
            ptr (run evs hk0) tag user = Some l -> l ∉ dom (heap hk0)) as Hfresh.
  { clear. induction evs as [|e evs IH]; intros hk0 Hn Hok0 Hevs Hl; simpl in *; [congruence|].
    destruct Hevs as [He Hevs].
    destruct (ptr (hook_step hk0 e) tag user) as [l1|] eqn:Hl1.
    - destruct e as [t u|l' n|l' n]; simpl in *;
        try (change (ptr hk0 tag user = Some l1) in Hl1; congruence).
      apply (ptr_run evs) in Hl1 as Hl1'. assert (l1 = l) as -> by congruence.
      destruct (userStorage t u hk0) as [l2 hk2] eqn:E; simpl in *.
      apply userStorage_ptr in E as (Hp' & Hcase & Hother).
      destruct (decide ((tag, user) = (tagOf t, u))) as [Heq|Hne];
        [simplify_eq | rewrite Hother in Hl1 by done; congruence].
      destruct Hcase as [[]|(_ & ? & _)]; congruence.
    - specialize (IH _ Hl1 (hook_step_ok _ _ Hok0 He) Hevs Hl).
      intros Hin. apply IH. destruct e as [t u|l' n|l' n]; simpl; rewrite ?dom_alter; try done.
      destruct (userStorage t u hk0) as [l2 hk2] eqn:E; simpl.
      apply userStorage_ptr in E as (_ & [[_ ->]|(_ & _ & ->)] & _); [done|].
      rewrite dom_insert. set_solver. }
  specialize (Hfresh evs _ Hnone (hook_step_ok _ _ Hok He) Hevs Hl).
  destruct e as [t u|l' n|l' n]; simpl in *; [done| |]; case_decide; simplify_eq; try done;
    exfalso; apply Hfresh; rewrite dom_alter; tauto.
Qed.

(** A run changes what is pending by the bytes moved through the user's storage. *)
Lemma pending_run evs hk tag user :
  hook_ok hk -> events_ok hk evs ->
  pending (run evs hk) tag user =
  uadd (pending hk tag user) (from_option (moved evs) (0, 0) (ptr (run evs hk) tag user)).
Proof.
  revert hk. induction evs as [|e evs IH]; intros hk Hok Hevs; simpl in *.
  - destruct (ptr hk tag user); simpl; by rewrite uadd_0_r.
  - destruct Hevs as [He Hevs]. rewrite IH by eauto using hook_step_ok.
    rewrite pending_step, <- uadd_assoc by done. f_equal.
    destruct (ptr (hook_step hk e) tag user) as [l|] eqn:Hl; simpl.
    + by rewrite (ptr_run evs _ _ _ _ Hl).
    + destruct (ptr (run evs (hook_step hk e)) tag user) as [l|] eqn:Hl'; simpl; [|done].
      rewrite (moved1_unallocated hk e tag user l Hok He Hl evs Hevs Hl'). by destruct (moved evs l).
Qed.

(** ** Properties *)

Section HookProperties.
Context `{MapOrder}.

(** Reporting protocol of the hook: take a delta, let connections open and move traffic,
    then commit the delta.  The invariant holds afterwards and the next delta is, for every
    inbound and user, exactly the bytes moved since the first one. *)
Theorem report_cycle_exact hk evs :
  hook_ok hk -> events_ok hk evs ->
  let hk' := Hook_CommitSnapshot (Hook_SnapshotDelta hk) (run evs hk) in
  hook_ok hk' /\
  forall tag user, at2 (Hook_SnapshotDelta hk') tag user =
    from_option (moved evs) (0, 0) (ptr (run evs hk) tag user).
Proof.
  intros Hok Hevs hk'. pose proof (run_ok evs hk Hok Hevs) as Hrun.
  assert (forall tag user,
    ule (0, 0) (from_option (moved evs) (0, 0) (ptr (run evs hk) tag user))) as Hmoved.
  { intros tag user. destruct (ptr (run evs hk) tag user) as [l|]; simpl; [|unfold ule; simpl; lia].
    clear -Hevs. revert hk Hevs. induction evs as [|e evs IH]; intros hk Hevs; simpl in *;
      [unfold ule; simpl; lia|].
    destruct Hevs as [He Hevs]. specialize (IH _ Hevs). revert IH. unfold ule, uadd.
    destruct e; simpl in *; try case_decide; simpl; lia. }
  assert (committable (Hook_SnapshotDelta hk) (run evs hk)) as Hd.
  { intros tag user. rewrite at2_SnapshotDelta, pending_run by done.
    split; [by apply pending_nonneg|]. specialize (Hmoved tag user).
    unfold ule, uadd in *; simpl in *. lia. }
  assert (hook_ok hk') as Hok' by by apply Hook_CommitSnapshot_ok.
  split; [done|]. intros tag user. unfold hk'.
  rewrite at2_SnapshotDelta, pending_CommitSnapshot, at2_SnapshotDelta, pending_run by done.
  unfold uadd, usub; simpl. destruct (from_option _ _ _); simpl. f_equal; lia.
Qed.
End HookProperties.

Lemma NewHook_ok : hook_ok NewHook.
Proof. split; intros *; unfold ptr, NewHook; simpl; by rewrite lookup_empty. Qed.

#[export] Instance event_ok_dec hk e : Decision (event_ok hk e).
Proof. destruct e; simpl; apply _. Defined.

#[export] Instance events_ok_dec hk evs : Decision (events_ok hk evs).
Proof. revert hk. induction evs; intros hk; simpl; apply _. Defined.

(** Two users of one inbound, of which one moves traffic after the report. *)
Definition sampleHook : Hook :=
  run [EvOpen "vless-in" "7"; EvOpen "vless-in" "8"; EvUp 0 100; EvDown 1 50] NewHook.

Lemma report_cycle_exact_witness :
  let _ := canonical_order in
  let hk' := Hook_CommitSnapshot (Hook_SnapshotDelta sampleHook) (run [EvUp 0 11; EvDown 0 22] sampleHook) in
  at2 (Hook_SnapshotDelta sampleHook) "vless-in" "7" = (100, 0) /\
  hook_ok hk' /\
  forall tag user, at2 (Hook_SnapshotDelta hk') tag user =
    from_option (moved [EvUp 0 11; EvDown 0 22]) (0, 0)
      (ptr (run [EvUp 0 11; EvDown 0 22] sampleHook) tag user).
Proof.
  intros ord hk'. split; [vm_compute; reflexivity|].
  apply (report_cycle_exact sampleHook [EvUp 0 11; EvDown 0 22]).
  - apply run_ok; [apply NewHook_ok | decide_vm].
  - decide_vm.
Defined.
