(* ===== verification/PanelTypes.v ===== *)
(** * Panel data and the Panel interface (src/panelapi/types.go, src/panelapi/local.go)

    The [Panel] interface of the source is a record of operations over the state [W] of the
    whole system: the agent's own state and the remote services.  What an implementation
    promises to the synchronisation loop is the class [PanelLaws]; what the loop needs from
    the traffic counters is the class [TrafficLaws]. *)

From S2P Require Import Prelude GoStrings Counter Hook.

#[local] Open Scope Z_scope.

Record User := mkUser {
  ID : Z;
  UUID : string;
  Password : string;
  Name : string;
  SpeedLimit : Z
}.

#[export] Instance User_eq_dec : EqDecision User.
Proof. solve_decision. Defined.

Record UserList := mkUserList {
  UserList_Users : list User;
  UserList_Data : list User
}.

(** Acknowledged inbound tags: [map[string]bool]. *)
Abbreviation ackSet := (gmap string bool).

Record Panel (W : Type) := mkPanel {
  FetchUsers : W -> res error (list User) * W;
  PushTraffic : delta -> W -> (ackSet * option error) * W
}.
Arguments mkPanel {W} _ _.
Arguments FetchUsers {W} _ _.
Arguments PushTraffic {W} _ _ _.

(** ** Local users file *)

Record localUserFile := mkLocalUserFile {
  file_Users : list User;
  file_Data : list User;
  file_Inbounds : gmap string (list User)
}.

(** [ParseUsers] after [json.Unmarshal]; [decoded] is its result. *)
Definition ParseUsers `{MapOrder} (decoded : res error localUserFile) : res error (list User) :=
  list ← decoded;
  if decide (0 < length (file_Users list))%nat then Ok (file_Users list) else
  if decide (0 < length (file_Data list))%nat then Ok (file_Data list) else
  Ok (concat (go_range 2 (file_Inbounds list)).*2).

(** [LocalUsers]: the file is read and decoded at every fetch; pushes are accepted and
    dropped. *)
Definition LocalUsers {W} `{MapOrder} (readFile : W -> res error localUserFile) : Panel W :=
  mkPanel (fun w => (ParseUsers (readFile w), w)) (fun _ w => ((∅, None), w)).

(** ** Users that are billed *)

(** [isNumericUser]: a user key is a panel user id when it is a non-empty run of digits. *)
Definition isNumericUser (user : string) : bool :=
  if decide (user = "") then false else forallb isDigit (bytes user).

(** The key of a panel user as [fmt.Sprint] prints its id. *)
Definition panelUser (u : string) : Prop := exists id, 0 <= id <= int64_max /\ u = Itoa id.

Lemma isNumericUser_Itoa id : 0 <= id -> isNumericUser (Itoa id) = true.
Proof.
  intros Hid. destruct (Itoa_digits id Hid). unfold isNumericUser. by rewrite decide_False.
Qed.

(** ** Contracts *)

(** A pushed tag counts as accepted when there was no error, or when it was acknowledged. *)
Definition accepted (acked : ackSet) (err : option error) (tag : string) : bool :=
  match err with None => true | Some _ => bool_decide (acked !! tag = Some true) end.

(** The deltas the agent produces: every billed key is a panel user id, traffic is not
    negative and fits 64 bits. *)
Definition wf_delta (d : delta) : Prop :=
  forall tag m user v, d !! tag = Some m -> m !! user = Some v ->
    (isNumericUser user = true -> panelUser user) /\ ule (0, 0) v /\ ule v (int64_max, int64_max).

(** Observations of the whole system: an invariant of the agent; the traffic of a user on an
    inbound that is counted and not committed; what the panel has booked for it and
    acknowledged; and all the traffic of that user's connections that the counters saw. *)
Record Accounts (W : Type) := mkAccounts {
  consistent : W -> Prop;
  pend : W -> string -> string -> usage;
  booked : W -> string -> string -> usage;
  total : W -> string -> string -> usage
}.
Arguments mkAccounts {W} _ _ _ _.
Arguments consistent {W} _ _.
Arguments pend {W} _ _ _ _.
Arguments booked {W} _ _ _ _.
Arguments total {W} _ _ _ _.

Section Contracts.
Context {W : Type} (A : Accounts W).

(** What the synchronisation loop needs from the source of traffic. *)
Class TrafficLaws (snapshot : W -> delta) (commit : delta -> W -> W) : Prop := {
  snapshot_exact : forall w t u, consistent A w -> at2 (snapshot w) t u = pend A w t u;
  snapshot_wf : forall w, consistent A w -> wf_delta (snapshot w);
  commit_pend : forall d w, consistent A w ->
    (forall t u, ule (0, 0) (at2 d t u) /\ ule (at2 d t u) (pend A w t u)) ->
    consistent A (commit d w) /\
    forall t u, pend A (commit d w) t u = usub (pend A w t u) (at2 d t u);
  commit_frame : forall d w t u,
    booked A (commit d w) t u = booked A w t u /\ total A (commit d w) t u = total A w t u
}.

(** An action of the agent that moves no traffic and books none: fetching and applying
    users, pruning counters. *)
Definition neutral (f : W -> W) : Prop :=
  forall w, consistent A w -> consistent A (f w) /\
    forall t u, pend A (f w) t u = pend A w t u /\ booked A (f w) t u = booked A w t u /\
      total A (f w) t u = total A w t u.

(** What a panel promises: for the inbounds in its scope, the traffic of a panel user is
    booked exactly when the push of its inbound was accepted, and neither a push nor a fetch
    changes what the agent has counted. *)
Class PanelLaws (scope : string -> Prop) (p : Panel W) : Prop := {
  fetch_neutral : neutral (fun w => (FetchUsers p w).2);
  push_frame : forall d w, consistent A w -> consistent A (PushTraffic p d w).2 /\
    forall t u, pend A (PushTraffic p d w).2 t u = pend A w t u /\
      total A (PushTraffic p d w).2 t u = total A w t u;
  push_books : forall d w t u, consistent A w -> wf_delta d -> scope t -> isNumericUser u = true ->
    let '((acked, err), w') := PushTraffic p d w in
    booked A w' t u = uadd (booked A w t u) (if accepted acked err t then at2 d t u else (0, 0))
}.

(** The environment of the loop only moves traffic. *)
Definition traffic_only (f : W -> W) : Prop :=
  forall w, consistent A w -> consistent A (f w) /\
    forall t u, exists g, ule (0, 0) g /\ pend A (f w) t u = uadd (pend A w t u) g /\
      total A (f w) t u = uadd (total A w t u) g /\ booked A (f w) t u = booked A w t u.

(** Every byte the counters saw is either acknowledged by the panel or still pending in the
    agent, never both. *)
Definition accounted (scope : string -> Prop) (w : W) : Prop :=
  forall t u, scope t -> isNumericUser u = true ->
    total A w t u = uadd (booked A w t u) (pend A w t u).
End Contracts.
