(* ===== verification/Sync.v ===== *)
(** * The synchronisation loop (src/panelapi/sync.go)

    [Syncer] holds optional callbacks, [nil] in Go being [None]. *)

From S2P Require Import Prelude GoStrings Counter Hook PanelTypes.

#[local] Open Scope Z_scope.

Record Syncer (W : Type) := mkSyncer {
  Syncer_Panel : option (Panel W);
  Syncer_Snapshot : option (W -> delta);
  Syncer_Commit : option (delta -> W -> W);
  Syncer_Users : option (list User -> W -> option error * W);
  Syncer_Every : Z
}.
Arguments mkSyncer {W} _ _ _ _ _.
Arguments Syncer_Panel {W} _.
Arguments Syncer_Snapshot {W} _.
Arguments Syncer_Commit {W} _.
Arguments Syncer_Users {W} _.
Arguments Syncer_Every {W} _.

(** The scan of [flush] for a numeric user; it stops at the first one. *)
Definition hasTraffic (d : delta) : bool :=
  existsb (fun e => existsb (fun ue => isNumericUser ue.1) (map_to_list e.2)) (map_to_list d).

(** [commitDelta]: numeric users only, restricted to the given tags unless [only] is nil. *)
Definition numericUsers (m : gmap string usage) : option (gmap string usage) :=
  let m' := filter (fun '(user, _) => isNumericUser user = true) m in
  if decide (m' = ∅) then None else Some m'.

Definition tagAllowed (only : option ackSet) (tag : string) : bool :=
  match only with None => true | Some a => bool_decide (a !! tag = Some true) end.

Definition commitDelta (d : delta) (only : option ackSet) : delta :=
  omap numericUsers (filter (fun '(tag, _) => tagAllowed only tag = true) d).

(** [flatten]: per-user sums over the inbounds. *)
Definition flattenUser (out : gmap string usage) (e : string * usage) : gmap string usage :=
  if isNumericUser e.1
  then let old := default (0, 0) (out !! e.1) in
       <[e.1 := (wrap64 (old.1 + e.2.1), wrap64 (old.2 + e.2.2))]> out
  else out.

Definition flatten `{MapOrder} (d : delta) : gmap string usage :=
  foldl (fun out e => foldl flattenUser out (go_range 4 e.2)) ∅ (go_range 3 d).

(** The rest of the system runs concurrently: connections move traffic while a flush is in
    progress.  [env n] is what happens at the [n]-th point of an operation at which the
    goroutine holds no lock of the counters; [quiet] is the system at rest. *)
Abbreviation interleaving W := (nat -> W -> W).
Definition quiet {W} : interleaving W := fun _ w => w.
Definition later {W} (k : nat) (env : interleaving W) : interleaving W := fun n => env (k + n)%nat.

Section Syncer.
Context {W : Type}.
Implicit Types (s : Syncer W) (w : W) (env : interleaving W).

(** [flush]; the environment moves after the snapshot and after the push. *)
Definition flush s env w : W :=
  match Syncer_Panel s, Syncer_Snapshot s, Syncer_Commit s with
  | Some panel, Some snapshot, Some commit =>
      let d := snapshot w in
      let w0 := env 0%nat w in
      if decide (d = ∅) then w0 else
      if negb (hasTraffic d) then w0 else
      let '((acked, err), w1) := PushTraffic panel d w0 in
      let w2 := env 1%nat w1 in
      match err with
      | Some _ =>
          if decide (acked = ∅) then w2 else commit (commitDelta d (Some acked)) w2
      | None => commit (commitDelta d None) w2
      end
  | _, _, _ => w
  end.

Definition FinalFlush s env w : W := flush s env w.

(** [syncOnce]: errors of the fetch and of the callback are logged only. *)
Definition syncOnce s env w : W :=
  match Syncer_Panel s with
  | None => w
  | Some panel =>
      let (r, w1) := FetchUsers panel w in
      let w1 := env 0%nat w1 in
      let w2 := match r with
                | Err _ => w1
                | Ok users =>
                    match Syncer_Users s with
                    | Some f => (f users w1).2
                    | None => w1
                    end
                end in
      flush s (later 2 env) (env 1%nat w2)
  end.

(** [Run]: one synchronisation at once, then one per tick until the context is done.
    Before each of them the environment moves. *)
Inductive run_event := Tick | Done.

Definition every s : Z := if Syncer_Every s <=? 0 then 60 * 10 ^ 9 else Syncer_Every s.

Fixpoint runLoop s env (evs : list run_event) w : W :=
  match evs with
  | [] | Done :: _ => w
  | Tick :: evs => runLoop s (later 5 env) evs (syncOnce s (later 1 env) (env 0%nat w))
  end.

Definition Run s env (evs : list run_event) w : W :=
  runLoop s (later 4 env) evs (syncOnce s env w).
End Syncer.

(** ** What a committed delta holds *)

Lemma at2_numericUsers (d : delta) t u m :
  d !! t = Some m ->
  default (0, 0) (numericUsers m ≫= fun m' => m' !! u) =
  if isNumericUser u then at2 d t u else (0, 0).
Proof.
  intros Hm. unfold at2. rewrite Hm; simpl. unfold numericUsers.
  set (m' := filter _ m).
  assert (default (0, 0) (m' !! u) = if isNumericUser u then default (0, 0) (m !! u) else (0, 0)) as <-.
  { unfold m'. rewrite map_lookup_filter. destruct (m !! u) as [v|]; simpl; [|by destruct (isNumericUser u)].
    destruct (isNumericUser u); [by rewrite option_guard_True | by rewrite option_guard_False]. }
  case_decide as E; simpl; [by rewrite E, lookup_empty | done].
Qed.

Lemma at2_commitDelta d only t u :
  at2 (commitDelta d only) t u =
  if tagAllowed only t && isNumericUser u then at2 d t u else (0, 0).
Proof.
  unfold at2 at 1, commitDelta. rewrite lookup_omap, map_lookup_filter.
  destruct (d !! t) as [m|] eqn:Hm; simpl.
  - destruct (tagAllowed only t) eqn:Ht; simpl.
    + by apply at2_numericUsers.
    + done.
  - unfold at2. rewrite Hm; simpl. by destruct (_ && _).
Qed.

Lemma hasTraffic_false d t u :
  hasTraffic d = false -> isNumericUser u = true -> at2 d t u = (0, 0).
Proof.
  unfold hasTraffic, at2. intros Hf Hu.
  destruct (d !! t) as [m|] eqn:Hm; simpl; [|done].
  destruct (m !! u) as [v|] eqn:Hv; simpl; [|done].
  exfalso. apply not_true_iff_false in Hf. apply Hf, existsb_exists.
  exists (t, m). split; [by apply list_elem_of_In, elem_of_map_to_list|].
  apply existsb_exists. exists (u, v). split; [by apply list_elem_of_In, elem_of_map_to_list | done].
Qed.

Lemma commitDelta_bounded d only t u v :
  ule (0, 0) v -> at2 d t u = v ->
  ule (0, 0) (at2 (commitDelta d only) t u) /\ ule (at2 (commitDelta d only) t u) v.
Proof. intros ? <-. rewrite at2_commitDelta. destruct (_ && _); unfold ule in *; simpl in *; lia. Qed.

(** ** Exactly-once reporting

    Stated for any traffic source and any panel that meet their contracts. *)
Section Reporting.
Context {W : Type} (A : Accounts W) (scope : string -> Prop)
  (snapshot : W -> delta) (commit : delta -> W -> W) (panel : Panel W)
  `{!TrafficLaws A snapshot commit} `{!PanelLaws A scope panel}.

Definition env_ok (env : interleaving W) : Prop := forall n, traffic_only A (env n).

Lemma env_ok_later k env : env_ok env -> env_ok (later k env).
Proof. intros H n. apply H. Qed.

Lemma env_ok_quiet : env_ok quiet.
Proof.
  intros n w Hw. split; [done|]. intros t u. exists (0, 0).
  unfold quiet. rewrite !uadd_0_r. unfold ule; simpl. split_and!; done || lia.
Qed.

Lemma pend_nonneg w t u : consistent A w -> ule (0, 0) (pend A w t u).
Proof.
  intros Hw. pose proof (snapshot_wf A w Hw) as Hwf. rewrite <- (snapshot_exact A) by done.
  unfold at2. destruct (snapshot w !! t) as [m|] eqn:Hm; simpl; [|unfold ule; simpl; lia].
  destruct (m !! u) as [v|] eqn:Hv; simpl; [|unfold ule; simpl; lia].
  by destruct (Hwf t m u v Hm Hv) as (_ & ? & _).
Qed.

(** What one round does, whatever the panel answers. *)
Record round_spec (w w' : W) : Prop := {
  rs_consistent : consistent A w';
  rs_accounted : accounted A scope w -> accounted A scope w';
  rs_booked : forall t u, scope t -> isNumericUser u = true ->
    ule (booked A w t u) (booked A w' t u);
  rs_total : forall t u, ule (total A w t u) (total A w' t u)
}.

Lemma round_spec_trans w1 w2 w3 : round_spec w1 w2 -> round_spec w2 w3 -> round_spec w1 w3.
Proof.
  intros [_ Ha1 Hb1 Ht1] [? Ha2 Hb2 Ht2]. split; [done | auto | |].
  - intros t u Ht Hu. etrans; eauto.
  - intros t u. etrans; eauto.
Qed.

Lemma round_spec_neutral f w : neutral A f -> consistent A w -> round_spec w (f w).
Proof.
  intros Hf Hw. destruct (Hf w Hw) as [Hw' H]. split; [done| | |].
  - intros Hacc t u Ht Hu. destruct (H t u) as (-> & -> & ->). by apply Hacc.
  - intros t u _ _. destruct (H t u) as (_ & -> & _). unfold ule. lia.
  - intros t u. destruct (H t u) as (_ & _ & ->). unfold ule. lia.
Qed.

Lemma round_spec_traffic f w : traffic_only A f -> consistent A w -> round_spec w (f w).
Proof.
  intros Hf Hw. destruct (Hf w Hw) as [Hw' H]. split; [done| | |].
  - intros Hacc t u Ht Hu. destruct (H t u) as (g & _ & -> & -> & ->).
    rewrite (Hacc t u Ht Hu). by rewrite uadd_assoc.
  - intros t u _ _. destruct (H t u) as (g & _ & _ & _ & ->). unfold ule. lia.
  - intros t u. destruct (H t u) as (g & Hg & _ & -> & _). unfold ule, uadd in *; simpl in *. lia.
Qed.

(** The state in which a flush commits: after the push and whatever ran meanwhile. *)
Lemma pushed_state env w :
  consistent A w -> env_ok env ->
  let '((acked, err), w1) := PushTraffic panel (snapshot w) (env 0%nat w) in
  let w2 := env 1%nat w1 in
  consistent A w2 /\
  forall t u, exists g, ule (0, 0) g /\ pend A w2 t u = uadd (pend A w t u) g /\
    total A w2 t u = uadd (total A w t u) g /\
    (scope t -> isNumericUser u = true ->
     booked A w2 t u = uadd (booked A w t u) (if accepted acked err t then pend A w t u else (0, 0))).
Proof.
  intros Hw He. destruct (He 0%nat w Hw) as [Hw0 H0].
  destruct (push_frame A (snapshot w) (env 0%nat w) Hw0) as [Hw1 H1].
  pose proof (fun t u => push_books A (snapshot w) (env 0%nat w) t u Hw0 (snapshot_wf A w Hw)) as Hb.
  destruct (PushTraffic panel (snapshot w) (env 0%nat w)) as [[acked err] w1]; simpl in *.
  destruct (He 1%nat w1 Hw1) as [Hw2 H2]. split; [done|]. intros t u.
  destruct (H0 t u) as (g0 & ? & Hp0 & Ht0 & Hb0), (H2 t u) as (g2 & ? & Hp2 & Ht2 & Hb2).
  destruct (H1 t u) as [Hp1 Ht1]. exists (uadd g0 g2). split_and!.
  - unfold ule, uadd in *; simpl in *. lia.
  - by rewrite Hp2, Hp1, Hp0, uadd_assoc.
  - by rewrite Ht2, Ht1, Ht0, uadd_assoc.
  - intros Ht Hu. by rewrite Hb2, Hb, Hb0, (snapshot_exact A).
Qed.

Lemma flush_round s env w :
  Syncer_Panel s = Some panel -> Syncer_Snapshot s = Some snapshot ->
  Syncer_Commit s = Some commit -> consistent A w -> env_ok env ->
  round_spec w (flush s env w).
Proof.
  intros Hp Hs Hc Hw He. unfold flush. rewrite Hp, Hs, Hc. cbv zeta.
  case_decide; [by apply round_spec_traffic|]. destruct (negb _); [by apply round_spec_traffic|].
  pose proof (pushed_state env w Hw He) as Hpush.
  destruct (PushTraffic panel (snapshot w) (env 0%nat w)) as [[acked err] w1].
  set (w2 := env 1%nat w1) in *. destruct Hpush as (Hw2 & Hst).
  assert (forall only,
    (forall t, tagAllowed only t = accepted acked err t) ->
    round_spec w (commit (commitDelta (snapshot w) only) w2)) as Hcommit.
  { intros only Honly. pose proof (fun t u => pend_nonneg w t u Hw) as Hnn.
    destruct (commit_pend A (commitDelta (snapshot w) only) w2 Hw2) as [Hok' Hpend'].
    { intros t u. destruct (Hst t u) as (g & ? & -> & _). specialize (Hnn t u).
      rewrite at2_commitDelta, (snapshot_exact A) by done.
      destruct (_ && _); unfold ule, uadd in *; simpl in *; lia. }
    split; [done| | |].
    - intros Hacc t u Ht Hu. destruct (commit_frame A (commitDelta (snapshot w) only) w2 t u) as [-> ->].
      destruct (Hst t u) as (g & ? & Hp2 & -> & Hb2). rewrite Hb2, Hpend', Hp2 by done.
      rewrite at2_commitDelta, Hu, andb_true_r, Honly, (snapshot_exact A), (Hacc t u) by done.
      destruct (accepted _ _ _); unfold usub, uadd; simpl; f_equal; lia.
    - intros t u Ht Hu. destruct (commit_frame A (commitDelta (snapshot w) only) w2 t u) as [-> _].
      destruct (Hst t u) as (g & _ & _ & _ & ->); try done. specialize (Hnn t u).
      destruct (accepted _ _ _); unfold ule, uadd in *; simpl in *; lia.
    - intros t u. destruct (commit_frame A (commitDelta (snapshot w) only) w2 t u) as [_ ->].
      destruct (Hst t u) as (g & ? & _ & -> & _). unfold ule, uadd in *; simpl in *; lia. }
  destruct err as [e|]; [|by apply Hcommit].
  case_decide as Hempty; [|by apply Hcommit]. subst acked.
  split; [done| | |].
  - intros Hacc t u Ht Hu. destruct (Hst t u) as (g & _ & -> & -> & ->); try done.
    rewrite (Hacc t u) by done. simpl. rewrite lookup_empty, uadd_0_r; simpl. by rewrite uadd_assoc.
  - intros t u Ht Hu. destruct (Hst t u) as (g & _ & _ & _ & ->); try done.
    simpl. rewrite lookup_empty, uadd_0_r. unfold ule; lia.
  - intros t u. destruct (Hst t u) as (g & ? & _ & -> & _). unfold ule, uadd in *; simpl in *; lia.
Qed.

(** A flush whose push is accepted without error leaves only what arrived meanwhile. *)
Lemma flush_drains s w t u :
  Syncer_Panel s = Some panel -> Syncer_Snapshot s = Some snapshot ->
  Syncer_Commit s = Some commit -> consistent A w ->
  (PushTraffic panel (snapshot w) w).1.2 = None -> isNumericUser u = true ->
  pend A (flush s quiet w) t u = (0, 0).
Proof.
  intros Hp Hs Hc Hw Herr Hu. unfold flush, quiet. rewrite Hp, Hs, Hc. cbv zeta.
  pose proof (snapshot_exact A w t u Hw) as Hex.
  case_decide as He; [by rewrite <- Hex; unfold at2; rewrite He, lookup_empty|].
  destruct (hasTraffic (snapshot w)) eqn:Ht; simpl.
  2:{ rewrite <- Hex. by apply hasTraffic_false. }
  destruct (push_frame A (snapshot w) w Hw) as [Hw1 H1].
  destruct (PushTraffic panel (snapshot w) w) as [[acked err] w1]; simpl in *. subst err.
  destruct (commit_pend A (commitDelta (snapshot w) None) w1 Hw1) as [_ ->].
  - intros t' u'. destruct (H1 t' u') as [-> _]. pose proof (pend_nonneg w t' u' Hw).
    rewrite at2_commitDelta, (snapshot_exact A) by done.
    destruct (_ && _); unfold ule in *; simpl in *; lia.
  - destruct (H1 t u) as [-> _]. rewrite at2_commitDelta, Hu, Hex; simpl.
    unfold usub. f_equal; lia.
Qed.

Section Rounds.
Context (s : Syncer W) (Hp : Syncer_Panel s = Some panel)
  (Hs : Syncer_Snapshot s = Some snapshot) (Hc : Syncer_Commit s = Some commit)
  (Husers : forall f users, Syncer_Users s = Some f -> neutral A (fun w => (f users w).2)).

Lemma syncOnce_round env w : consistent A w -> env_ok env -> round_spec w (syncOnce s env w).
Proof.
  intros Hw He. unfold syncOnce. rewrite Hp.
  pose proof (round_spec_neutral _ w (fetch_neutral A) Hw) as R1. simpl in R1.
  destruct (FetchUsers panel w) as [r w1]; simpl in R1.
  pose proof (round_spec_traffic (env 0%nat) w1 (He _) (rs_consistent _ _ R1)) as R2.
  set (w1' := env 0%nat w1) in *.
  assert (forall w2, round_spec w1' w2 -> round_spec w (flush s (later 2 env) (env 1%nat w2))) as Hfin.
  { intros w2 R3. pose proof (round_spec_traffic (env 1%nat) w2 (He _) (rs_consistent _ _ R3)) as R4.
    eapply round_spec_trans; [exact R1|]. eapply round_spec_trans; [exact R2|].
    eapply round_spec_trans; [exact R3|]. eapply round_spec_trans; [exact R4|].
    apply flush_round; eauto using env_ok_later, rs_consistent. }
  pose proof (rs_consistent _ _ R2) as Hw1'.
  assert (round_spec w1' w1') as Hrefl.
  { split; [done | done | |]; intros; reflexivity. }
  destruct r as [users|e]; [|by apply Hfin].
  destruct (Syncer_Users s) as [f|] eqn:Hf; [|by apply Hfin].
  apply Hfin. apply (round_spec_neutral (fun w => (f users w).2)); eauto.
Qed.

(** Any number of rounds, with any answers of the panel and any traffic in between. *)
Lemma Run_round evs env w : consistent A w -> env_ok env -> round_spec w (Run s env evs w).
Proof.
  intros Hw He. unfold Run.
  pose proof (syncOnce_round env w Hw He) as R.
  eapply round_spec_trans; [exact R|].
  pose proof (rs_consistent _ _ R) as Hw1. revert Hw1. generalize (syncOnce s env w).
  apply (env_ok_later 4) in He. revert He. generalize (later 4 env). clear R w Hw env.
  induction evs as [|[|] evs IH]; intros env He w Hw; simpl;
    try (split; [done | done | |]; intros; reflexivity).
  pose proof (round_spec_traffic (env 0%nat) w (He _) Hw) as R1.
  pose proof (syncOnce_round (later 1 env) _ (rs_consistent _ _ R1) (env_ok_later 1 env He)) as R2.
  eapply round_spec_trans; [exact R1|]. eapply round_spec_trans; [exact R2|].
  apply IH; eauto using env_ok_later, rs_consistent.
Qed.
End Rounds.
End Reporting.
