(* ===== verification/Client.v ===== *)
(** * The panel client (src/panelapi/client.go)

    One [Client] speaks for one panel node.  The network and the remote panel are the
    parameter [Net] over the state [R] of the remote services; request bodies are given by
    the value their JSON encodes. *)

From S2P Require Import Prelude GoStrings Topology Counter Hook PanelTypes.

#[local] Open Scope Z_scope.

(** A parsed URL: everything but the query, and the query parameters. *)
Record URL := mkURL { url_base : string; url_query : gmap string string }.

Record response := mkResponse {
  StatusCode : Z;
  Status : string;
  Body : string
}.

(** [PushRequest], Go's [map[int][]int64] with two-element slices. *)
Abbreviation PushRequest := (gmap Z usage).

(** The remote side: URL parsing, one HTTP exchange, and decoding of a user list. *)
Class Net (R : Type) := {
  urlParse : string -> res error URL;
  http_do : string -> URL -> option PushRequest -> R -> res error response * R;
  unmarshalUsers : string -> res error UserList
}.

Record Client := mkClient {
  BaseURL : string;
  Token : string;
  Client_NodeID : string;
  Client_NodeType : string;
  Client_InboundTag : string
}.

Definition isSlash (c : ascii) : bool := bool_decide (c = "/"%char).

Definition NewClient (baseURL token nodeID nodeType : string) : Client :=
  mkClient (TrimRightCut isSlash baseURL) token nodeID nodeType "".

Definition NewNodeClient `{UnicodeTables} (baseURL token : string) (n : NodeSpec) : Client :=
  let c := NewClient baseURL token (NodeID n) (PanelNodeType n) in
  mkClient (BaseURL c) (Token c) (Client_NodeID c) (Client_NodeType c) (InboundTag n).

(** [q.Set(key, value)] unless the value is empty. *)
Definition setParam (key value : string) (q : gmap string string) : gmap string string :=
  if bool_decide (value <> "") then <[key := value]> q else q.

Definition is2xx (code : Z) : bool := Z.quot code 100 =? 2.

Section Client.
Context `{UnicodeTables} `{MapOrder} {R : Type} `{Net R}.
Implicit Types (c : Client) (r : R).

Definition endpoint c (path : string) : res error URL :=
  reject_if (bool_decide (BaseURL c = "")) (New "panel api base url is empty") ;;
  u ← urlParse (BaseURL c +:+ path);
  mret (mkURL (url_base u)
    (setParam "node_type" (Client_NodeType c)
      (setParam "node_id" (Client_NodeID c)
        (setParam "token" (Token c) (url_query u))))).

(** The defaults filled in for every fetched user. *)
Definition completeUser (u : User) : User :=
  mkUser (ID u) (UUID u)
    (if bool_decide (Password u = "") then UUID u else Password u)
    (if bool_decide (Name u = "") then Itoa (ID u) else Name u)
    (SpeedLimit u).

Definition Client_FetchUsers c r : res error (list User) * R :=
  match endpoint c "/api/v1/server/UniProxy/user" with
  | Err e => (Err e, r)
  | Ok ep =>
      let (resp, r') := http_do "GET" ep None r in
      (resp ← resp;
       reject_if (negb (is2xx (StatusCode resp))) (New ("panel api user status " +:+ Status resp)) ;;
       list ← unmarshalUsers (Body resp);
       let users := if bool_decide (UserList_Users list = []) then UserList_Data list
                    else UserList_Users list in
       mret (completeUser <$> users), r')
  end.

Definition matchesInbound c (tag : string) : bool :=
  if bool_decide (Client_InboundTag c <> "") then bool_decide (tag = Client_InboundTag c)
  else
    let t := ToLower (Client_NodeType c) in
    if bool_decide (t ∈ ["vless"; "vless-reality"; "reality"]) then bool_decide (tag = "vless-in")
    else if bool_decide (t ∈ ["hy2"; "hysteria"; "hysteria2"]) then bool_decide (tag = "hy2-in")
    else Contains (ToLower tag) t.

(** The accumulation loop of [PushTraffic]: per-user sums over the matching inbounds. *)
Definition flatUser (flat : gmap string usage) (e : string * usage) : gmap string usage :=
  if isNumericUser e.1
  then let old := default (0, 0) (flat !! e.1) in
       <[e.1 := (wrap64 (old.1 + e.2.1), wrap64 (old.2 + e.2.2))]> flat
  else flat.

Definition flatInbound c (st : gmap string usage * ackSet) (e : string * gmap string usage)
  : gmap string usage * ackSet :=
  if matchesInbound c e.1
  then (foldl flatUser st.1 (go_range 11 e.2), <[e.1 := true]> st.2)
  else st.

(** The payload: keys that are not 64-bit integers are skipped. *)
Definition payloadUser (p : PushRequest) (e : string * usage) : PushRequest :=
  match Atoi e.1 with Some uid => <[uid := e.2]> p | None => p end.

Definition payloadOf (flat : gmap string usage) : PushRequest :=
  foldl payloadUser ∅ (go_range 12 flat).

Definition Client_PushTraffic c (d : delta) r : (ackSet * option error) * R :=
  let '(flat, acked) := foldl (flatInbound c) (∅, ∅) (go_range 10 d) in
  if bool_decide (flat = ∅) then ((acked, None), r) else
  match endpoint c "/api/v1/server/UniProxy/push" with
  | Err e => ((∅, Some e), r)
  | Ok ep =>
      let payload := payloadOf flat in
      if bool_decide (payload = ∅) then ((acked, None), r) else
      let (resp, r') := http_do "POST" ep (Some payload) r in
      match resp with
      | Err e => ((∅, Some e), r')
      | Ok resp =>
          if negb (is2xx (StatusCode resp))
          then ((∅, Some (New ("panel api push status " +:+ Status resp))), r')
          else ((acked, None), r')
      end
  end.

(** ** Lemmas on the loops *)

(** A client bound to an inbound matches that inbound only. *)
Lemma matchesInbound_tag c tag :
  Client_InboundTag c <> "" -> matchesInbound c tag = bool_decide (tag = Client_InboundTag c).
Proof. intros E. unfold matchesInbound. by rewrite (bool_decide_eq_true_2 _ E). Qed.

Lemma flatInbounds_tag c (d : delta) :
  Client_InboundTag c <> "" ->
  foldl (flatInbound c) (∅, ∅) (go_range 10 d) =
  match d !! Client_InboundTag c with
  | Some m => (foldl flatUser ∅ (go_range 11 m), {[Client_InboundTag c := true]})
  | None => (∅, ∅)
  end.
Proof.
  intros Hc. set (t := Client_InboundTag c) in *.
  assert (forall s e, e.1 <> t -> flatInbound c s e = s) as Hframe.
  { intros s e Hne. unfold flatInbound. rewrite matchesInbound_tag by done.
    by rewrite bool_decide_eq_false_2. }
  destruct (d !! t) as [m|] eqn:Hm.
  - apply (foldl_once (flatInbound c) id
      (fun s => (foldl flatUser s.1 (go_range 11 m), <[t := true]> s.2)) _ (∅, ∅) (t, m));
      [apply NoDup_go_range | by apply elem_of_go_range | |].
    + intros s. unfold flatInbound, id; simpl. rewrite matchesInbound_tag by done.
      by rewrite bool_decide_eq_true_2.
    + intros s [t' m'] Hin%elem_of_go_range Hne. apply Hframe; simpl. intros ->. congruence.
  - apply (foldl_frame (flatInbound c) id). intros s [t' m'] Hin%elem_of_go_range.
    apply Hframe; simpl. congruence.
Qed.

Definition wrapUsage (v : usage) : usage := (wrap64 v.1, wrap64 v.2).

Lemma flatUsers_lookup (m : gmap string usage) u :
  foldl flatUser ∅ (go_range 11 m) !! u =
  if isNumericUser u then wrapUsage <$> m !! u else None.
Proof.
  assert (forall s e, e.1 <> u -> flatUser s e !! u = s !! u) as Hframe.
  { intros s e Hne. unfold flatUser. destruct (isNumericUser e.1); [|done].
    by rewrite lookup_insert_ne. }
  destruct (isNumericUser u) eqn:Hu.
  - destruct (m !! u) as [v|] eqn:Hv; simpl.
    + etrans; [apply (foldl_once flatUser (fun s => s !! u)
        (fun o => Some (wrap64 ((default (0, 0) o).1 + v.1), wrap64 ((default (0, 0) o).2 + v.2)))
        _ ∅ (u, v)) |];
        [apply NoDup_go_range | by apply elem_of_go_range | | | by rewrite lookup_empty].
      * intros s. unfold flatUser; simpl. by rewrite Hu, lookup_insert_eq.
      * intros s [u' v'] Hin%elem_of_go_range Hne. apply Hframe; simpl. intros ->. congruence.
    + rewrite <- (lookup_empty (M := gmap string) (A := usage) u).
      apply (foldl_frame flatUser (fun s => s !! u)).
      intros s [u' v'] Hin%elem_of_go_range. apply Hframe; simpl. congruence.
  - rewrite <- (lookup_empty (M := gmap string) (A := usage) u).
    apply (foldl_frame flatUser (fun s => s !! u)).
    intros s [u' v'] Hin. destruct (decide (u' = u)) as [->|]; [|by apply Hframe].
    unfold flatUser; simpl. by rewrite Hu.
Qed.

(** With panel user ids as keys, no two of them share a payload entry. *)
Lemma payloadOf_lookup (flat : gmap string usage) id :
  (forall u v, flat !! u = Some v -> panelUser u) -> 0 <= id <= int64_max ->
  payloadOf flat !! id = flat !! Itoa id.
Proof.
  intros Hpu Hid.
  assert (forall u v, flat !! u = Some v -> Atoi u = Some id -> u = Itoa id) as Hinj.
  { intros u v Hu Ha. destruct (Hpu u v Hu) as (id' & Hr & ->).
    rewrite Atoi_Itoa in Ha by (unfold64; lia). congruence. }
  assert (forall s u v, flat !! u = Some v -> u <> Itoa id -> payloadUser s (u, v) !! id = s !! id) as Hframe.
  { intros s u v Hu Hne. unfold payloadUser; simpl. destruct (Atoi u) as [id'|] eqn:Ha; [|done].
    apply lookup_insert_ne. intros ->. by eapply Hne, Hinj. }
  unfold payloadOf. destruct (flat !! Itoa id) as [v|] eqn:Hv.
  - apply (foldl_once payloadUser (fun s => s !! id) (fun _ => Some v) _ ∅ (Itoa id, v));
      [apply NoDup_go_range | by apply elem_of_go_range | |].
    + intros s. unfold payloadUser; simpl. rewrite Atoi_Itoa by (unfold64; lia).
      apply lookup_insert_eq.
    + intros s [u v'] Hin%elem_of_go_range Hne. apply Hframe; [done|]. intros ->. congruence.
  - rewrite <- (lookup_empty (M := gmap Z) (A := usage) id).
    apply (foldl_frame payloadUser (fun s => s !! id)).
    intros s [u v'] Hin%elem_of_go_range. apply Hframe; [done|]. congruence.
Qed.
End Client.
