(* ===== verification/MinHTTP.v ===== *)
(** * The HTTP client of the panel calls (src/panelapi/minhttp.go)

    The dialer, TLS and the clock are the parameter [Dialer] over a state [S].  What the server
    sends is a [Stream]: the bytes, and how the connection ends after them, with [None] for a
    clean end of file.  Deadlines show as an ending. *)

From S2P Require Import Prelude GoStrings Topology Counter Hook PanelTypes Client.

#[local] Open Scope Z_scope.

(** ** Streams *)

Record Stream := mkStream { input : list ascii; ending : option error }.

Definition EOF : error := New "EOF".
Definition ErrUnexpectedEOF : error := New "unexpected EOF".
Definition endError (s : Stream) : error := default EOF (ending s).

Definition LF : ascii := ascii_of_nat 10.
Definition CR : ascii := ascii_of_nat 13.
Definition CRLF : list ascii := [CR; LF].

(** [ReadString('\n')]: the line with its newline, or the error after the last full line. *)
Fixpoint cutLine (l : list ascii) : option (list ascii * list ascii) :=
  match l with
  | [] => None
  | a :: t => if bool_decide (a = LF) then Some ([a], t) else '(x, y) ← cutLine t; Some (a :: x, y)
  end.

Definition readLine (s : Stream) : res error (list ascii * Stream) :=
  match cutLine (input s) with
  | Some (line, rest) => Ok (line, mkStream rest (ending s))
  | None => Err (endError s)
  end.

(** [io.ReadFull] into a slice of [n] bytes. *)
Definition readFull (n : Z) (s : Stream) : res error (list ascii * Stream) :=
  let k := Z.to_nat n in
  if (k <=? length (input s))%nat
  then Ok (take k (input s), mkStream (drop k (input s)) (ending s))
  else Err (match ending s with
            | Some e => e
            | None => if bool_decide (input s = []) then EOF else ErrUnexpectedEOF
            end).

(** [io.ReadAll(io.LimitReader(reader, max))]. *)
Definition readAll (max : Z) (s : Stream) : res error (list ascii) :=
  if (Z.to_nat max <=? length (input s))%nat then Ok (take (Z.to_nat max) (input s))
  else match ending s with Some e => Err e | None => Ok (input s) end.

(** ** Parsing *)

(** [strings.Fields]; [cur] is the current field reversed. *)
Definition flushField (cur : list ascii) : list (list ascii) := if bool_decide (cur = []) then [] else [rev cur].

Fixpoint fieldsOf (cur l : list ascii) : list (list ascii) :=
  match l with
  | [] => flushField cur
  | a :: t =>
      if space1 a then flushField cur ++ fieldsOf [] t else
      match t with
      | b :: t1 =>
          if space2 a b then flushField cur ++ fieldsOf [] t1 else
          match t1 with
          | c :: t2 => if space3 a b c then flushField cur ++ fieldsOf [] t2 else fieldsOf (a :: cur) t
          | [] => fieldsOf (a :: cur) t
          end
      | [] => fieldsOf (a :: cur) t
      end
  end.

Definition Fields (s : string) : list string := ofBytes <$> fieldsOf [] (bytes s).

Definition joinSpace (parts : list string) : string :=
  match parts with [] => "" | p :: ps => foldl (fun acc q => acc +:+ " " +:+ q) p ps end.

(** [strings.IndexByte] as a split: the parts before and after the first occurrence. *)
Fixpoint cutByte (sep : ascii) (l : list ascii) : option (list ascii * list ascii) :=
  match l with
  | [] => None
  | a :: t => if bool_decide (a = sep) then Some ([], t) else '(x, y) ← cutByte sep t; Some (a :: x, y)
  end.

(** [strconv.ParseInt(text, 16, 64)]. *)
Definition hexDigit (c : ascii) : option Z :=
  let n := Z.of_N (code c) in
  if isDigit c then Some (n - 48)
  else if in_range 97 102 c then Some (n - 87)
  else if in_range 65 70 c then Some (n - 55)
  else None.

Fixpoint hexValue (acc : Z) (l : list ascii) : option Z :=
  match l with
  | [] => Some acc
  | c :: l => d ← hexDigit c; hexValue (acc * 16 + d) l
  end.

Definition ParseHex (l : list ascii) : option Z :=
  let (sign, digits) :=
    match l with
    | c :: t => if bool_decide (c = "-"%char) then (-1, t) else if bool_decide (c = "+"%char) then (1, t) else (1, l)
    | [] => (1, l)
    end in
  if bool_decide (digits = []) then None else
  v ← hexValue 0 digits;
  if decide (in_int64 (sign * v)) then Some (sign * v) else None.

Definition isCRLF (c : ascii) : bool := bool_decide (c = CR) || bool_decide (c = LF).

(** [strings.TrimRight(line, "\r\n")]. *)
Definition trimEOL (line : list ascii) : list ascii := dropRightIn isCRLF line.

(** ** Chunked bodies *)

Definition minHTTPMaxBody : Z := 16 * 2 ^ 20.

(** The trailer lines up to the empty one. *)
Fixpoint readTrailer (fuel : nat) (s : Stream) : option (res error Stream) :=
  match fuel with
  | O => None
  | S fuel =>
      match readLine s with
      | Err e => Some (Err e)
      | Ok (line, s) => if bool_decide (trimEOL line = []) then Some (Ok s) else readTrailer fuel s
      end
  end.

(** The size on a chunk's first line; extensions after a semicolon are dropped. *)
Definition chunkSize (line : list ascii) : res error Z :=
  let text := bytes (TrimSpace (ofBytes line)) in
  let text := match cutByte ";"%char text with Some (before, _) => before | None => text end in
  match ParseHex text with
  | None => Err (New ("malformed chunk size " +:+ ofBytes text))
  | Some size =>
      if size <? 0 then Err (New ("negative chunk size " +:+ ofBytes text)) else Ok size
  end.

(** One chunk after its size line: the data and the two bytes after it. *)
Definition readChunk (size : Z) (out : list ascii) (s : Stream) : res error (list ascii * Stream) :=
  if (minHTTPMaxBody <? size) || (minHTTPMaxBody <? Z.of_nat (length out) + size)
  then Err (New "panel chunked response too large") else
  '(chunk, s) ← readFull size s;
  '(_, s) ← readFull 2 s;
  Ok (out ++ chunk, s).

(** [readChunkedBody]; [None] is out of fuel. *)
Fixpoint readChunks (fuel : nat) (out : list ascii) (s : Stream) : option (res error (list ascii)) :=
  match fuel with
  | O => None
  | S fuel =>
      match readLine s with
      | Err e => Some (Err e)
      | Ok (line, s) =>
          match chunkSize line with
          | Err e => Some (Err e)
          | Ok size =>
              if size =? 0
              then match readTrailer fuel s with
                   | None => None
                   | Some (Err e) => Some (Err e)
                   | Some (Ok _) => Some (Ok out)
                   end
              else match readChunk size out s with
                   | Err e => Some (Err e)
                   | Ok (out, s) => readChunks fuel out s
                   end
          end
      end
  end.

Definition readChunkedBody (s : Stream) : option (res error (list ascii)) :=
  readChunks (S (length (input s))) [] s.

(** ** One exchange *)

Record HttpURL := mkHttpURL {
  Scheme : string;
  URL_Host : string;
  Hostname : string;
  Port : string;
  RequestURI : string
}.

Class Dialer (S : Type) := {
  parseURL : string -> res error HttpURL;
  dialContext : string -> S -> option error * S;
  timeNow : S -> Z;
  ctxDeadline : S -> option Z;
  setDeadline : Z -> S -> option error * S;
  tlsHandshake : string -> S -> option error * S;
  connWrite : string -> S -> option error * S;
  (** What the server answers to the bytes written so far. *)
  answer : S -> Stream
}.

Definition minHTTPTimeout : Z := 15 * 10 ^ 9.

(** [net.JoinHostPort]: a host with a colon or a zone is put in brackets. *)
Definition JoinHostPort (host port : string) : string :=
  if Contains host ":" || Contains host "%" then "[" +:+ host +:+ "]:" +:+ port else host +:+ ":" +:+ port.

Definition eol : string := ofBytes CRLF.

(** The request head. *)
Definition requestHead (order : list (string * string)) (method uri hostHeader : string) (bodyLen : nat) : string :=
  method +:+ " " +:+ uri +:+ " HTTP/1.1" +:+ eol +:+ "Host: " +:+ hostHeader +:+ eol +:+
  foldr (fun kv acc => kv.1 +:+ ": " +:+ kv.2 +:+ eol +:+ acc) "" order +:+
  (if (0 <? bodyLen)%nat then "Content-Length: " +:+ Itoa (Z.of_nat bodyLen) +:+ eol else "") +:+
  "Connection: close" +:+ eol +:+ eol.

(** The status line: the code and the status text. *)
Definition parseStatus (line : list ascii) : res error (Z * string) :=
  let text := TrimSpace (ofBytes line) in
  match Fields text with
  | proto :: code :: rest =>
      if negb (HasPrefix proto "HTTP/") then Err (New ("malformed panel response status line " +:+ text)) else
      match Atoi code with
      | None => Err (New ("malformed panel response status code in " +:+ text))
      | Some n => Ok (n, joinSpace (code :: rest))
      end
  | _ => Err (New ("malformed panel response status line " +:+ text))
  end.

Section Exchange.
Context `{UnicodeTables} `{MapOrder} {S : Type} `{Dialer S}.

(** A header line with a colon that is not its first byte; later lines win. *)
Definition addHeader (line : list ascii) (h : gmap string string) : gmap string string :=
  match cutByte ":"%char line with
  | Some (name, value) =>
      if bool_decide (name = []) then h
      else <[ToLower (TrimSpace (ofBytes name)) := TrimSpace (ofBytes value)]> h
  | None => h
  end.

Fixpoint readHeaders (fuel : nat) (h : gmap string string) (s : Stream) : option (res error (gmap string string * Stream)) :=
  match fuel with
  | O => None
  | Datatypes.S fuel =>
      match readLine s with
      | Err e => Some (Err e)
      | Ok (line, s) =>
          let line := trimEOL line in
          if bool_decide (line = []) then Some (Ok (h, s)) else readHeaders fuel (addHeader line h) s
      end
  end.

(** The body by transfer encoding, by length, or up to the end of the connection. *)
Definition readBody (h : gmap string string) (s : Stream) : option (res error (list ascii)) :=
  let get k := default "" (h !! k) in
  if Contains (get "transfer-encoding") "chunked" then readChunkedBody s
  else
    let cl := get "content-length" in
    if bool_decide (cl <> "") then
      Some match Atoi cl with
           | None => Err (New ("strconv.ParseInt: parsing " +:+ cl))
           | Some n =>
               if n <? 0 then Err (New ("negative content-length: " +:+ Itoa n))
               else if minHTTPMaxBody <? n then Err (New ("panel response too large: " +:+ Itoa n +:+ " bytes"))
               else fst <$> readFull n s
           end
    else Some (readAll minHTTPMaxBody s).

Definition readResponse (s : Stream) : option (res error response) :=
  match readLine s with
  | Err e => Some (Err e)
  | Ok (line, s) =>
      match parseStatus line with
      | Err e => Some (Err e)
      | Ok (code, status) =>
          match readHeaders (Datatypes.S (length (input s))) ∅ s with
          | None => None
          | Some (Err e) => Some (Err e)
          | Some (Ok (h, s)) =>
              match readBody h s with
              | None => None
              | Some (Err e) => Some (Err e)
              | Some (Ok body) => Some (Ok (mkResponse code status (ofBytes body)))
              end
          end
      end
  end.

Definition portOf (u : HttpURL) : string :=
  if bool_decide (Port u = "") then (if bool_decide (Scheme u = "https") then "443" else "80") else Port u.

(** The writes of a request: the head, and the body when there is one. *)
Definition writeAll (parts : list string) (st : S) : option error * S :=
  foldl (fun '(err, st) part => match err with Some _ => (err, st) | None => connWrite part st end) (None, st) parts.

(** [minHTTPClient.do]. *)
Definition do (timeout : Z) (method rawURL : string) (headers : gmap string string) (body : string) (st : S)
  : option (res error response) * S :=
  let timeout := if timeout <=? 0 then minHTTPTimeout else timeout in
  match parseURL rawURL with
  | Err e => (Some (Err e), st)
  | Ok u =>
      if negb (bool_decide (Scheme u = "http")) && negb (bool_decide (Scheme u = "https"))
      then (Some (Err (New ("unsupported panel url scheme " +:+ Scheme u))), st) else
      let (err, st) := dialContext (JoinHostPort (Hostname u) (portOf u)) st in
      match err with Some e => (Some (Err e), st) | None =>
      let deadline := match ctxDeadline st with
                      | Some dl => Z.min dl (timeNow st + timeout)
                      | None => timeNow st + timeout
                      end in
      let (err, st) := setDeadline deadline st in
      match err with Some e => (Some (Err e), st) | None =>
      let (err, st) := if bool_decide (Scheme u = "https") then tlsHandshake (Hostname u) st else (None, st) in
      match err with Some e => (Some (Err e), st) | None =>
      let hostHeader := if bool_decide (Port u <> "") then JoinHostPort (Hostname u) (Port u) else URL_Host u in
      let head := requestHead (go_range 20 headers) method (RequestURI u) hostHeader (String.length body) in
      let (err, st) := writeAll (head :: if bool_decide (body <> "") then [body] else []) st in
      match err with Some e => (Some (Err e), st) | None =>
      (readResponse (answer st), st)
      end end end end
  end.
End Exchange.

(** ** Reading always ends *)

Lemma cutLine_split l x y : cutLine l = Some (x, y) -> l = x ++ y /\ (0 < length x)%nat.
Proof.
  revert x. induction l as [|a l IH]; intros x; simpl; [done|]. case_bool_decide as E.
  - intros [= <- <-]. split; [done|]. simpl. lia.
  - destruct (cutLine l) as [[x' y']|]; [|done]. simpl. intros [= <- <-].
    destruct (IH x' eq_refl) as [-> _]. split; [done|]. simpl. lia.
Qed.

Lemma readLine_shorter s line s' : readLine s = Ok (line, s') -> (length (input s') < length (input s))%nat.
Proof.
  unfold readLine. destruct (cutLine (input s)) as [[x y]|] eqn:E; [|done]. intros [= <- <-].
  apply cutLine_split in E as [-> Hx]. simpl. rewrite length_app. lia.
Qed.

Lemma readFull_length n s data s' :
  readFull n s = Ok (data, s') -> length data = Z.to_nat n /\ input s = data ++ input s'.
Proof.
  unfold readFull. destruct (Nat.leb_spec (Z.to_nat n) (length (input s))); [|done]. intros [= <- <-]. simpl.
  rewrite length_take, take_drop. split; [lia | done].
Qed.

Lemma readTrailer_total fuel s : (length (input s) < fuel)%nat -> is_Some (readTrailer fuel s).
Proof.
  revert s. induction fuel as [|fuel IH]; intros s Hf; [lia|]. simpl.
  destruct (readLine s) as [[line s']|e] eqn:E; [|eauto]. apply readLine_shorter in E.
  case_bool_decide; [eauto|]. apply IH. lia.
Qed.

Lemma readHeaders_total `{UnicodeTables} fuel h s : (length (input s) < fuel)%nat -> is_Some (readHeaders fuel h s).
Proof.
  revert h s. induction fuel as [|fuel IH]; intros h s Hf; [lia|]. simpl.
  destruct (readLine s) as [[line s']|e] eqn:E; [|eauto]. apply readLine_shorter in E.
  case_bool_decide; [eauto|]. apply IH. lia.
Qed.


Lemma readChunk_bound size out s out' s' :
  0 <= size -> readChunk size out s = Ok (out', s') ->
  Z.of_nat (length out') <= minHTTPMaxBody /\ (length (input s') <= length (input s))%nat.
Proof.
  intros Hs. unfold readChunk. destruct (_ || _) eqn:E; [done|]. apply orb_false_iff in E as [_ E]. bool_inv.
  destruct (readFull size s) as [[chunk s1]|e] eqn:E1; [|done]. simpl.
  destruct (readFull 2 s1) as [[x s2]|e] eqn:E2; [|done]. simpl. intros [= <- <-].
  apply readFull_length in E1 as [L1 I1], E2 as [L2 I2]. rewrite I1, I2, !length_app. lia.
Qed.

Lemma chunkSize_nonneg line size : chunkSize line = Ok size -> 0 <= size.
Proof.
  unfold chunkSize. cbv zeta. destruct (ParseHex _) as [n|]; [|done].
  destruct (n <? 0) eqn:E; [done|]. bool_inv. intros [= <-]. lia.
Qed.

(** A reader's answer: there is one, and it is an error or a body within the limit. *)
Definition bounded_result (r : option (res error (list ascii))) : Prop :=
  match r with None => False | Some (Err _) => True | Some (Ok body) => Z.of_nat (length body) <= minHTTPMaxBody end.

Lemma readChunks_bounded fuel out s :
  Z.of_nat (length out) <= minHTTPMaxBody -> (length (input s) < fuel)%nat -> bounded_result (readChunks fuel out s).
Proof.
  revert out s. induction fuel as [|fuel IH]; intros out s Ho Hf; [lia|]. simpl.
  destruct (readLine s) as [[line s']|e] eqn:E; [|done]. apply readLine_shorter in E.
  destruct (chunkSize line) as [size|e] eqn:Es; [|done]. apply chunkSize_nonneg in Es.
  destruct (size =? 0).
  - destruct (readTrailer_total fuel s') as [r ->]; [lia|]. by destruct r.
  - destruct (readChunk size out s') as [[out' s'']|e] eqn:Ec; [|done].
    apply readChunk_bound in Ec as [Ho' Hl]; [|done]. apply IH; [done | lia].
Qed.

Lemma readAll_length max s body : 0 <= max -> readAll max s = Ok body -> Z.of_nat (length body) <= max.
Proof.
  intros H0. unfold readAll. destruct (Nat.leb_spec (Z.to_nat max) (length (input s))) as [Hl|Hl].
  - intros [= <-]. rewrite length_take. lia.
  - destruct (ending s); [done|]. intros [= <-]. lia.
Qed.

Lemma readBody_bounded h s : bounded_result (readBody h s).
Proof.
  unfold readBody. cbv zeta. destruct (Contains _ _).
  { apply readChunks_bounded; [done | lia]. }
  case_bool_decide; [|destruct (readAll minHTTPMaxBody s) as [body|] eqn:E; [by apply readAll_length in E | done]].
  destruct (Atoi _) as [n|]; [|done]. destruct (n <? 0) eqn:E1; [done|].
  destruct (minHTTPMaxBody <? n) eqn:E2; [done|]. bool_inv.
  destruct (readFull n s) as [[data s']|e] eqn:E; [|done]. apply readFull_length in E as [El _].
  simpl. rewrite El. lia.
Qed.

Lemma ofBytes_length l : String.length (ofBytes l) = length l.
Proof. induction l as [|a l IH]; simpl; [done|]. by rewrite IH. Qed.


Lemma bytes_length s : length (bytes s) = String.length s.
Proof. induction s as [|a s IH]; simpl; [done|]. by rewrite IH. Qed.

(** The digits [fmt.Sprintf("%x")] writes, most significant first. *)
Definition hexChar (d : Z) : ascii := ascii_of_N (Z.to_N (if d <? 10 then 48 + d else 87 + d)).

Fixpoint hexGo (fuel : nat) (n : Z) (acc : list ascii) : list ascii :=
  match fuel with
  | O => acc
  | S fuel => if n <? 16 then hexChar n :: acc else hexGo fuel (n / 16) (hexChar (n mod 16) :: acc)
  end.

(** Sixteen digits are enough for 64 bits. *)
Definition toHex (n : Z) : list ascii := hexGo 16 n [].

Lemma hexDigit_hexChar d : 0 <= d < 16 -> hexDigit (hexChar d) = Some d.
Proof.
  intros Hd. assert (d = Z.of_nat (Z.to_nat d)) as -> by lia.
  assert (Z.to_nat d < 16)%nat as Hn by lia. revert Hn. generalize (Z.to_nat d). intros n Hn.
  do 16 (destruct n as [|n]; [vm_compute; reflexivity|]). lia.
Qed.

Lemma hexValue_hexGo fuel n acc :
  0 <= n < 16 ^ Z.of_nat fuel -> (0 < fuel)%nat ->
  hexValue 0 (hexGo fuel n acc) = hexValue n acc.
Proof.
  revert n acc. induction fuel as [|fuel IH]; intros n acc Hn Hf; [lia|]. cbn [hexGo].
  destruct (Z.ltb_spec n 16) as [Hl|Hl].
  - cbn [hexValue]. rewrite hexDigit_hexChar by lia. done.
  - rewrite Nat2Z.inj_succ, Z.pow_succ_r in Hn by lia. destruct fuel as [|fuel]; [simpl in Hn; lia|].
    rewrite IH; [|split; [apply Z.div_pos; lia | apply Z.div_lt_upper_bound; lia] | lia].
    cbn [hexValue]. rewrite hexDigit_hexChar by (apply Z.mod_pos_bound; lia). simpl.
    f_equal. rewrite (Z.div_mod n 16) at 3 by lia. lia.
Qed.

Definition is_hex (c : ascii) : Prop := is_Some (hexDigit c).

(** What the readers need to know of a hexadecimal digit. *)
Lemma is_hex_plain c : is_hex c -> space1 c = false /\ isASCII c = true /\ c ∉ [";"; "-"; "+"; LF]%char.
Proof.
  intros [d Hd]. rewrite !not_elem_of_cons.
  destruct c as [[] [] [] [] [] [] [] []]; vm_compute in Hd; try discriminate Hd; repeat split; try done; apply not_elem_of_nil.
Qed.

Lemma hexGo_hex fuel n acc : 0 <= n -> (0 < fuel)%nat -> Forall is_hex acc -> Forall is_hex (hexGo fuel n acc) /\ hexGo fuel n acc <> [].
Proof.
  revert n acc. induction fuel as [|fuel IH]; intros n acc Hn Hf Ha; [lia|]. cbn [hexGo].
  destruct (Z.ltb_spec n 16) as [Hl|Hl].
  - split; [|done]. constructor; [|done]. unfold is_hex. rewrite hexDigit_hexChar by lia. eauto.
  - assert (Forall is_hex (hexChar (n mod 16) :: acc)).
    { constructor; [|done]. unfold is_hex. rewrite hexDigit_hexChar by (apply Z.mod_pos_bound; lia). eauto. }
    destruct fuel as [|fuel]; [done|]. apply IH; [apply Z.div_pos; lia | lia | done].
Qed.

Lemma toHex_hex n : 0 <= n -> Forall is_hex (toHex n) /\ toHex n <> [].
Proof. intros Hn. apply hexGo_hex; [done | lia | constructor]. Qed.

Lemma ParseHex_toHex n : 0 <= n < 2 ^ 63 -> ParseHex (toHex n) = Some n.
Proof.
  intros Hn. destruct (toHex_hex n) as [Hh Hne]; [lia|].
  assert (hexValue 0 (toHex n) = Some n) as Hv by (apply hexValue_hexGo; lia).
  unfold ParseHex. destruct (toHex n) as [|c t] eqn:E; [done|]. clear Hne.
  apply Forall_cons in Hh as [Hc _]. apply is_hex_plain in Hc as (_ & _ & Hc).
  rewrite !not_elem_of_cons in Hc. destruct Hc as (_ & Hm & Hp & _).
  rewrite !bool_decide_eq_false_2 by done. rewrite Hv. cbn [mbind option_bind]. rewrite Z.mul_1_l.
  rewrite decide_True; [done|]. unfold64. lia.
Qed.

(** A byte no trimming removes. *)
Definition solid (c : ascii) : Prop := space1 c = false /\ isASCII c = true.

#[export] Instance solid_dec c : Decision (solid c).
Proof. unfold solid. apply _. Defined.

Lemma stripSpaces_solid p2 p3 a l :
  solid a -> (forall b, p2 a b = true -> isASCII a = false) -> (forall b c, p3 a b c = true -> isASCII a = false) ->
  stripSpaces p2 p3 (a :: l) = a :: l.
Proof.
  intros [Hs Ha] H2 H3. cbn [stripSpaces]. rewrite Hs. destruct l as [|b l]; [done|].
  destruct (p2 a b) eqn:E2; [apply H2 in E2; congruence|]. destruct l as [|c l]; [done|].
  destruct (p3 a b c) eqn:E3; [apply H3 in E3; congruence | done].
Qed.

Lemma TrimSpace_line a l b sp :
  solid a -> solid b -> Forall (fun c => space1 c = true) sp ->
  forall mid, a :: l = mid ++ [b] -> bytes (TrimSpace (ofBytes ((a :: l) ++ sp))) = a :: l.
Proof.
  intros Ha Hb Hsp mid E. unfold TrimSpace, trimLeftSpace, trimRightSpace. rewrite !bytes_ofBytes. simpl app.
  rewrite stripSpaces_solid; [|done | intros x Hx; by apply space2_high in Hx as [] | intros x y Hx; by apply space3_high in Hx as []].
  change (a :: l ++ sp) with ((a :: l) ++ sp). rewrite E, <- app_assoc. simpl app.
  rewrite rev_app_distr. simpl rev. rewrite <- app_assoc.
  assert (forall p2 p3 k, stripSpaces p2 p3 (rev sp ++ k) = stripSpaces p2 p3 k) as Hdrop.
  { intros p2 p3 k. assert (Forall (fun c => space1 c = true) (rev sp)) as Hr by (by apply Forall_rev).
    induction Hr as [|x sp' Hx _ IH]; [done|]. cbn [app stripSpaces]. by rewrite Hx. }
  rewrite Hdrop. simpl app.
  rewrite stripSpaces_solid; [|done | intros x Hx; by apply space2_high in Hx as (_ & ?) | intros x y Hx; by apply space3_high in Hx as (_ & _ & ?)].
  simpl rev. rewrite rev_involutive. done.
Qed.

Lemma cutLine_line l rest : LF ∉ l -> cutLine (l ++ LF :: rest) = Some (l ++ [LF], rest).
Proof.
  induction l as [|a l IH]; [done|]. intros [Ha Hl]%not_elem_of_cons. cbn [app cutLine].
  rewrite bool_decide_eq_false_2 by done. by rewrite IH.
Qed.

Lemma cutByte_none sep l : sep ∉ l -> cutByte sep l = None.
Proof.
  induction l as [|a l IH]; [done|]. intros [Ha Hl]%not_elem_of_cons. cbn [cutByte].
  rewrite bool_decide_eq_false_2 by done. by rewrite IH.
Qed.

Lemma hex_not l x : Forall is_hex l -> x ∈ [";"; "-"; "+"; LF]%char -> x ∉ l.
Proof.
  intros Hl Hx Hin. rewrite Forall_forall in Hl. apply Hl, is_hex_plain in Hin as (_ & _ & Hin). done.
Qed.

Lemma chunkSize_toHex n : 0 <= n < 2 ^ 63 -> chunkSize (toHex n ++ CRLF) = Ok n.
Proof.
  intros Hn. destruct (toHex_hex n) as [Hh Hne]; [lia|]. unfold chunkSize.
  assert (bytes (TrimSpace (ofBytes (toHex n ++ CRLF))) = toHex n) as ->.
  { destruct (toHex n) as [|a l] eqn:E; [done|]. destruct (exists_last Hne) as (mid & b & Eb).
    rewrite Forall_forall in Hh. eapply (TrimSpace_line _ _ b); [| |by repeat constructor | exact Eb].
    - destruct (is_hex_plain a) as (? & ? & _); [apply Hh; left | done].
    - destruct (is_hex_plain b) as (? & ? & _); [apply Hh; rewrite Eb; apply elem_of_app; right; left | done]. }
  cbv zeta. rewrite cutByte_none by (apply (hex_not _ _ Hh); left). rewrite ParseHex_toHex by done.
  destruct (Z.ltb_spec n 0); [lia | done].
Qed.

(** ** The sender's side of chunked transfer encoding (RFC 9112, section 7.1) *)

Definition encodeChunk (data : list ascii) : list ascii := toHex (Z.of_nat (length data)) ++ CRLF ++ data ++ CRLF.
Definition encodeChunks (chunks : list (list ascii)) : list ascii :=
  concat (encodeChunk <$> chunks) ++ bytes "0" ++ CRLF ++ CRLF.

Lemma readFull_app data rest e :
  readFull (Z.of_nat (length data)) (mkStream (data ++ rest) e) = Ok (data, mkStream rest e).
Proof.
  unfold readFull. cbn [input ending]. rewrite Nat2Z.id, length_app.
  destruct (Nat.leb_spec (length data) (length data + length rest)); [|lia].
  by rewrite take_app_length, drop_app_length.
Qed.

Lemma readLine_CRLF l rest e : LF ∉ l -> readLine (mkStream (l ++ CRLF ++ rest) e) = Ok (l ++ CRLF, mkStream rest e).
Proof.
  intros Hl. unfold readLine. cbn [input]. unfold CRLF. rewrite app_assoc.
  replace ((l ++ [CR; LF]) ++ rest) with ((l ++ [CR]) ++ LF :: rest) by (by rewrite <- !app_assoc).
  rewrite cutLine_line; [by rewrite <- app_assoc|].
  rewrite not_elem_of_app, list_elem_of_singleton. split; [done|]. discriminate.
Qed.

Lemma encodeChunks_cons c chunks :
  encodeChunks (c :: chunks) = toHex (Z.of_nat (length c)) ++ CRLF ++ c ++ CRLF ++ encodeChunks chunks.
Proof. unfold encodeChunks, encodeChunk at 1. cbn [fmap list_fmap concat]. by rewrite <- !app_assoc. Qed.

Lemma readChunk_encoded c out rest e :
  Z.of_nat (length (out ++ c)) <= minHTTPMaxBody ->
  readChunk (Z.of_nat (length c)) out (mkStream (c ++ CRLF ++ rest) e) = Ok (out ++ c, mkStream rest e).
Proof.
  rewrite length_app. intros Hm. unfold readChunk.
  destruct (Z.ltb_spec minHTTPMaxBody (Z.of_nat (length c))); [lia|].
  destruct (Z.ltb_spec minHTTPMaxBody (Z.of_nat (length out) + Z.of_nat (length c))); [lia|]. cbn [orb].
  rewrite readFull_app. cbn [mbind res_bind]. change 2 with (Z.of_nat (length CRLF)). by rewrite readFull_app.
Qed.

Lemma readChunks_encoded fuel chunks out rest e :
  Forall (fun c => c <> []) chunks -> Z.of_nat (length (out ++ concat chunks)) <= minHTTPMaxBody ->
  (length chunks + 1 < fuel)%nat ->
  readChunks fuel out (mkStream (encodeChunks chunks ++ rest) e) = Some (Ok (out ++ concat chunks)).
Proof.
  revert fuel out. induction chunks as [|c chunks IH]; intros fuel out Hne Hmax Hf; (destruct fuel as [|fuel]; [simpl in Hf; lia|]).
  - destruct fuel as [|fuel]; [simpl in Hf; lia|]. unfold encodeChunks. rewrite app_nil_r. reflexivity.
  - apply Forall_cons in Hne as [Hc Hne]. cbn [concat] in Hmax. rewrite app_assoc in Hmax.
    assert (0 < length c)%nat by (destruct c; simpl; [done | lia]).
    assert (Z.of_nat (length (out ++ c)) <= minHTTPMaxBody) as Hoc by (rewrite length_app in Hmax; lia).
    assert (0 < Z.of_nat (length c) < 2 ^ 63) as Hn.
    { rewrite length_app in Hoc. assert (minHTTPMaxBody < 2 ^ 63) by done. lia. }
    rewrite encodeChunks_cons, <- !app_assoc. cbn [readChunks].
    rewrite readLine_CRLF by (destruct (toHex_hex (Z.of_nat (length c))) as [Hh _]; [lia | apply (hex_not _ _ Hh); do 3 right; left]).
    rewrite chunkSize_toHex by lia. destruct (Z.eqb_spec (Z.of_nat (length c)) 0); [lia|].
    rewrite readChunk_encoded by done. cbn [concat]. rewrite app_assoc. apply IH; [done | done | simpl in Hf; lia].
Qed.

Lemma encodeChunks_length chunks : (length chunks + 1 < S (length (encodeChunks chunks)))%nat.
Proof.
  induction chunks as [|c chunks IH]; [simpl; lia|]. rewrite encodeChunks_cons, !length_app. simpl in *. lia.
Qed.

(** A body sent in chunks of any sizes, at most 16 MB in all, is read back whole, whatever
    follows the last chunk on the connection. *)
Theorem chunked_roundtrip (chunks : list (list ascii)) rest e :
  Forall (fun c => c <> []) chunks -> Z.of_nat (length (concat chunks)) <= minHTTPMaxBody ->
  readChunkedBody (mkStream (encodeChunks chunks ++ rest) e) = Some (Ok (concat chunks)).
Proof.
  intros Hne Hmax. unfold readChunkedBody. apply (readChunks_encoded _ _ []); [done | done |].
  pose proof (encodeChunks_length chunks). cbn [input]. rewrite length_app. lia.
Qed.

Lemma chunked_roundtrip_witness :
  readChunkedBody (mkStream (encodeChunks [bytes "hello "; bytes "0123456789abcdef, world"] ++ bytes "HTTP/1.1") None) =
  Some (Ok (bytes "hello 0123456789abcdef, world")).
Proof.
  apply (chunked_roundtrip [bytes "hello "; bytes "0123456789abcdef, world"] (bytes "HTTP/1.1") None);
    [by repeat constructor | vm_compute; discriminate].
Defined.

(** ** The exchange *)

Section Bounds.
Context `{UnicodeTables} `{MapOrder} {S : Type} `{Dialer S}.

Lemma readResponse_bounded s :
  match readResponse s with
  | None => False
  | Some (Err _) => True
  | Some (Ok r) => Z.of_nat (String.length (Body r)) <= minHTTPMaxBody
  end.
Proof using Type.
  unfold readResponse. destruct (readLine s) as [[line s1]|]; [|done].
  destruct (parseStatus line) as [[n status]|]; [|done].
  destruct (readHeaders_total (Datatypes.S (length (input s1))) ∅ s1) as [r ->]; [lia|]. destruct r as [[h s2]|]; [|done].
  pose proof (readBody_bounded h s2) as Hb. destruct (readBody h s2) as [[body|e]|]; [|done|done].
  simpl in *. by rewrite ofBytes_length.
Qed.

(** Every call of the client ends, whatever the peer sends and however the connection ends, and
    a response it returns has a body of at most 16 MB. *)
Theorem exchange_ends_within_bound (timeout : Z) (method url : string) (headers : gmap string string) (body : string) (st : S) :
  match (do timeout method url headers body st).1 with
  | None => False
  | Some (Err _) => True
  | Some (Ok r) => Z.of_nat (String.length (Body r)) <= minHTTPMaxBody
  end.
Proof using Type.
  unfold do. destruct (parseURL url) as [u|]; [|done]. destruct (negb _ && negb _); [done|].
  destruct (dialContext _ st) as [[|] st1]; [done|]. destruct (setDeadline _ st1) as [[|] st2]; [done|].
  destruct (bool_decide (Scheme u = "https")); [destruct (tlsHandshake _ st2) as [[|] st3]; [done|]|];
    (destruct (writeAll _ _) as [[|] st4]; [done|]); apply readResponse_bounded.
Qed.
End Bounds.
