(* ===== verification/StatsAPI.v ===== *)
(** * The local stats API of the agent (src/cmd/mini-sb-agent/main.go, serveStats)

    One accepted connection: the request is read with bounded lines, answered from the hook's
    counters and the connection is closed.  JSON encoding is the parameter [Marshal].  The
    client side is [MinHTTP]: a request it writes is understood here and the answer is read back. *)

From S2P Require Import Prelude GoStrings Topology Counter Hook PanelTypes Client MinHTTP.

#[local] Open Scope Z_scope.

(** ** Reading a request *)

(** The size of the [bufio.Reader], which bounds a line, and the bound on the whole request. *)
Definition lineBuffer : nat := Z.to_nat 4096.
Definition maxRequest : Z := 16 * 2 ^ 10.

Definition errLineTooLong : error := New "request line too long".
Definition errTooLarge : error := New "request too large".
Definition errMalformed : error := New "malformed request".

(** [ReadSlice('\n')]: [bufio.ErrBufferFull] when the buffer holds no newline. *)
Inductive sliceError := ErrBufferFull | ReadError (e : error).

Definition readSlice (s : Stream) : res sliceError (list ascii * Stream) :=
  match cutLine (take lineBuffer (input s)) with
  | Some (line, _) => Ok (line, mkStream (drop (length line) (input s)) (ending s))
  | None => Err (if (lineBuffer <=? length (input s))%nat then ErrBufferFull else ReadError (endError s))
  end.

Definition isBlank (l : list ascii) : bool := bool_decide (TrimSpace (ofBytes l) = "").

(** The loop over the lines of the request; [None] is out of fuel. *)
Fixpoint requestLines (fuel : nat) (line : list ascii) (total : Z) (s : Stream) : option (res error (list ascii)) :=
  match fuel with
  | O => None
  | S fuel =>
      match readSlice s with
      | Err ErrBufferFull => Some (Err errLineTooLong)
      | Err (ReadError e) => Some (Err e)
      | Ok (chunk, s) =>
          let total := total + Z.of_nat (length chunk) in
          if maxRequest <? total then Some (Err errTooLarge) else
          let line := if bool_decide (line = []) then chunk else line in
          if isBlank chunk then Some (Ok line) else requestLines fuel line total s
      end
  end.

(** Every line has at least one byte, so the bound on the request bounds the iterations. *)
Definition requestFuel : nat := Z.to_nat maxRequest + 2.

Definition readHTTPRequest (s : Stream) : option (res error string) :=
  match requestLines requestFuel [] 0 s with
  | None => None
  | Some (Err e) => Some (Err e)
  | Some (Ok line) =>
      Some match Fields (TrimSpace (ofBytes line)) with
           | _ :: target :: _ => Ok target
           | _ => Err errMalformed
           end
  end.

(** ** Answering *)

Class Marshaller := { Marshal : delta -> res error string }.

Record Answer := mkAnswer { ans_status : string; ans_type : string; ans_body : string }.

Section Answering.
Context `{Marshaller}.

(** The status, content type and body for a target. *)
Definition answerTarget (target : string) (h : Hook) : Answer :=
  if HasPrefix target "/stats" then
    let reset := Contains target "reset=1" in
    let payload := if Contains target "delta=1" then Hook_SnapshotDelta h else Hook_Snapshot reset h in
    match Marshal payload with
    | Err e => mkAnswer "500 Internal Server Error" "text/plain" (errorText e)
    | Ok data => mkAnswer "200 OK" "application/json" data
    end
  else if HasPrefix target "/health" then mkAnswer "200 OK" "text/plain" "ok"
  else mkAnswer "404 Not Found" "text/plain" "not found".

Definition renderAnswer (a : Answer) : string :=
  "HTTP/1.1 " +:+ ans_status a +:+ eol +:+ "Content-Type: " +:+ ans_type a +:+ eol +:+
  "Content-Length: " +:+ Itoa (Z.of_nat (String.length (ans_body a))) +:+ eol +:+
  "Connection: close" +:+ eol +:+ eol +:+ ans_body a.

(** The bytes the handler of one connection writes before it closes it; the inner [None] is
    a request it gives no answer to. *)
Definition serveConn (h : Hook) (s : Stream) : option (option string) :=
  match readHTTPRequest s with
  | None => None
  | Some (Err _) => Some None
  | Some (Ok target) => Some (Some (renderAnswer (answerTarget target h)))
  end.
End Answering.

(** ** Bounds *)

Lemma readSlice_app pre x y e e' :
  (lineBuffer <= length pre)%nat ->
  match readSlice (mkStream (pre ++ x) e), readSlice (mkStream (pre ++ y) e') with
  | Ok (l1, s1), Ok (l2, s2) =>
      l1 = l2 /\ (0 < length l1 <= lineBuffer)%nat /\
      s1 = mkStream (drop (length l1) pre ++ x) e /\ s2 = mkStream (drop (length l1) pre ++ y) e'
  | Err e1, Err e2 => e1 = ErrBufferFull /\ e2 = ErrBufferFull
  | _, _ => False
  end.
Proof.
  intros Hl. unfold readSlice. cbn [input ending]. rewrite !take_app_le by lia.
  destruct (cutLine (take lineBuffer pre)) as [[line rest]|] eqn:E.
  - apply cutLine_split in E as [E Hp].
    assert (length line + length rest = lineBuffer)%nat as Hsum by (rewrite <- length_app, <- E, length_take; lia).
    rewrite !drop_app_le by lia. repeat split; lia.
  - rewrite !length_app. destruct (Nat.leb_spec lineBuffer (length pre + length x)); [|lia].
    destruct (Nat.leb_spec lineBuffer (length pre + length y)); [done | lia].
Qed.

Lemma readSlice_progress s line s' :
  readSlice s = Ok (line, s') -> (0 < length line)%nat.
Proof.
  unfold readSlice. destruct (cutLine _) as [[x y]|] eqn:E; [|done]. intros [= <- _]. by apply cutLine_split in E as [_ ?].
Qed.

Lemma requestLines_total fuel line total s :
  0 <= total <= maxRequest -> maxRequest - total < Z.of_nat fuel - 1 -> is_Some (requestLines fuel line total s).
Proof.
  revert line total s. induction fuel as [|fuel IH]; intros line total s Ht Hf; [lia|]. cbn [requestLines].
  destruct (readSlice s) as [[chunk s']|[|e]] eqn:E; [|eauto|eauto]. apply readSlice_progress in E.
  destruct (Z.ltb_spec maxRequest (total + Z.of_nat (length chunk))); [eauto|].
  destruct (isBlank chunk); [eauto|]. apply IH; lia.
Qed.

Lemma requestLines_prefix fuel line total pre x y e e' :
  0 <= total <= maxRequest -> maxRequest + Z.of_nat lineBuffer <= total + Z.of_nat (length pre) ->
  requestLines fuel line total (mkStream (pre ++ x) e) = requestLines fuel line total (mkStream (pre ++ y) e').
Proof.
  revert line total pre. induction fuel as [|fuel IH]; intros line total pre Ht Hp; [done|]. cbn [requestLines].
  pose proof (readSlice_app pre x y e e' ltac:(lia)) as Hs.
  destruct (readSlice (mkStream (pre ++ x) e)) as [[l1 s1]|e1], (readSlice (mkStream (pre ++ y) e')) as [[l2 s2]|e2];
    try contradiction; [|by destruct Hs as [-> ->]].
  destruct Hs as (<- & Hl & -> & ->). destruct (Z.ltb_spec maxRequest (total + Z.of_nat (length l1))); [done|].
  destruct (isBlank l1); [done|]. apply IH; [lia|]. rewrite length_drop. lia.
Qed.

(** Reading a request ends, and its outcome is settled by the first 20 KB a client sends: what
    follows them, and how or whether the connection goes on, changes nothing. *)
Theorem request_reading_bounded (pre x y : list ascii) (e e' : option error) :
  maxRequest + Z.of_nat lineBuffer <= Z.of_nat (length pre) ->
  is_Some (readHTTPRequest (mkStream (pre ++ x) e)) /\
  readHTTPRequest (mkStream (pre ++ x) e) = readHTTPRequest (mkStream (pre ++ y) e').
Proof.
  intros Hp. unfold readHTTPRequest. split.
  - destruct (requestLines_total requestFuel [] 0 (mkStream (pre ++ x) e)) as [r ->];
      [unfold maxRequest; lia | unfold requestFuel, maxRequest; lia | destruct r; eauto].
  - rewrite (requestLines_prefix _ _ _ pre x y e e'); [done | unfold maxRequest; lia | lia].
Qed.

Lemma request_reading_bounded_witness :
  readHTTPRequest (mkStream (replicate (Z.to_nat 20480) "a"%char ++ bytes "x") None) =
  readHTTPRequest (mkStream (replicate (Z.to_nat 20480) "a"%char ++ []) (Some (New "reset"))).
Proof.
  apply (request_reading_bounded (replicate (Z.to_nat 20480) "a"%char) (bytes "x") [] None (Some (New "reset"))).
  rewrite length_replicate. unfold maxRequest, lineBuffer. rewrite !Z2Nat.id by lia. lia.
Defined.

(** ** Requests of the client are understood *)

Lemma fieldsOf_solid cur a l : solid a -> fieldsOf cur (a :: l) = fieldsOf (a :: cur) l.
Proof.
  intros [Hs Ha]. cbn [fieldsOf]. rewrite Hs. destruct l as [|b l]; [done|].
  destruct (space2 a b) eqn:E2; [apply space2_high in E2 as []; congruence|]. destruct l as [|c l]; [done|].
  destruct (space3 a b c) eqn:E3; [apply space3_high in E3 as []; congruence | done].
Qed.

(** A word: a non-empty text without spaces. *)
Definition word (l : list ascii) : Prop := l <> [] /\ Forall solid l.

Lemma fieldsOf_word l rest : word l -> fieldsOf [] (l ++ " "%char :: rest) = l :: fieldsOf [] rest.
Proof.
  intros [Hne Hl]. assert (forall cur, cur <> [] \/ l <> [] -> fieldsOf cur (l ++ " "%char :: rest) = (rev cur ++ l) :: fieldsOf [] rest) as Hgen.
  { clear Hne. induction Hl as [|a l Ha _ IH]; intros cur Hc.
    - assert (cur <> []) by naive_solver. cbn [app fieldsOf]. change (space1 " ") with true. cbn iota.
      unfold flushField. rewrite bool_decide_eq_false_2 by done. by rewrite app_nil_r.
    - cbn [app]. rewrite fieldsOf_solid by done. rewrite IH by (by left). simpl. by rewrite <- app_assoc. }
  rewrite Hgen by (by right). done.
Qed.

(** The lines of a request head, without their ends. *)
Definition headLines (order : list (string * string)) (method uri host : string) (bodyLen : nat) : list (list ascii) :=
  [bytes method ++ bytes " " ++ bytes uri ++ bytes " HTTP/1.1"; bytes "Host: " ++ bytes host] ++
  ((fun kv => bytes kv.1 ++ bytes ": " ++ bytes kv.2) <$> order) ++
  (if (0 <? bodyLen)%nat then [bytes "Content-Length: " ++ bytes (Itoa (Z.of_nat bodyLen))] else []) ++
  [bytes "Connection: close"].

Definition renderLines (ls : list (list ascii)) : list ascii := concat ((fun l => l ++ CRLF) <$> ls).

Lemma renderLines_app a b : renderLines (a ++ b) = renderLines a ++ renderLines b.
Proof. unfold renderLines. by rewrite fmap_app, concat_app. Qed.

Lemma requestHead_lines order method uri host n :
  bytes (requestHead order method uri host n) = renderLines (headLines order method uri host n) ++ CRLF.
Proof.
  unfold requestHead, headLines. rewrite !renderLines_app, !bytes_app.
  replace (bytes (foldr _ "" order)) with (renderLines ((fun kv => bytes kv.1 ++ bytes ": " ++ bytes kv.2) <$> order)).
  2:{ induction order as [|kv order IH]; [done|]. cbn [fmap list_fmap foldr]. rewrite !bytes_app, <- IH.
      unfold renderLines. cbn [fmap list_fmap concat]. by rewrite <- !app_assoc. }
  unfold renderLines. cbn [fmap list_fmap concat].
  destruct (0 <? n)%nat; cbn [fmap list_fmap concat]; rewrite ?bytes_app, ?app_nil_r, <- !app_assoc; reflexivity.
Qed.

(** A line [readSlice] takes whole. *)
Definition line_fits (l : list ascii) : Prop := LF ∉ l /\ (length l + 2 <= lineBuffer)%nat /\ Exists solid l.

#[export] Instance line_fits_dec l : Decision (line_fits l).
Proof. unfold line_fits. apply _. Defined.

Lemma readSlice_line l rest e :
  line_fits l -> readSlice (mkStream (l ++ CRLF ++ rest) e) = Ok (l ++ CRLF, mkStream rest e).
Proof.
  intros (Hl & Hn & _). unfold readSlice. cbn [input ending].
  rewrite app_assoc, take_app. rewrite (take_ge (l ++ CRLF)) by (rewrite length_app; simpl; lia).
  assert (forall k, (l ++ CRLF) ++ k = (l ++ [CR]) ++ LF :: k) as Hk by (intros k; by rewrite <- !app_assoc).
  rewrite Hk, cutLine_line by (rewrite not_elem_of_app, list_elem_of_singleton; split; [done | discriminate]).
  rewrite <- (app_assoc l). change ([CR] ++ [LF]) with CRLF. by rewrite drop_app_length.
Qed.

Lemma line_not_blank l : line_fits l -> isBlank (l ++ CRLF) = false.
Proof.
  intros (_ & _ & (x & Hx & Hs & Ha)%Exists_exists). apply bool_decide_eq_false_2. intros E.
  assert (x ∈ bytes (TrimSpace (ofBytes (l ++ CRLF)))) as Hin.
  { apply TrimSpace_keeps; [|rewrite bytes_ofBytes; apply elem_of_app; by left].
    unfold spaceByte. by rewrite Hs, Ha. }
  rewrite E in Hin. by apply not_elem_of_nil in Hin.
Qed.

Lemma requestLines_lines fuel line total (ls : list (list ascii)) rest e :
  line <> [] -> Forall line_fits ls -> total + Z.of_nat (length (renderLines ls)) + 2 <= maxRequest ->
  (length ls < fuel)%nat ->
  requestLines fuel line total (mkStream (renderLines ls ++ CRLF ++ rest) e) = Some (Ok line).
Proof.
  intros Hl Hls. revert fuel total. induction Hls as [|l ls Hfit _ IH]; intros fuel total Ht Hf;
    (destruct fuel as [|fuel]; [simpl in Hf; lia|]); cbn [requestLines].
  - replace (readSlice _) with (Ok (E := sliceError) (CRLF, mkStream rest e)).
    2:{ unfold readSlice. cbn [input ending]. unfold renderLines. cbn [fmap list_fmap concat app].
        unfold lineBuffer. rewrite take_app_ge by (vm_compute; lia). reflexivity. }
    change (Z.of_nat (length CRLF)) with 2. unfold renderLines in Ht. simpl in Ht.
    destruct (Z.ltb_spec maxRequest (total + 2)); [lia|]. rewrite bool_decide_eq_false_2 by done. reflexivity.
  - unfold renderLines in *. cbn [fmap list_fmap concat] in *. rewrite <- !app_assoc in *. rewrite readSlice_line by done.
    rewrite !length_app in Ht. rewrite length_app.
    destruct (Z.ltb_spec maxRequest (total + Z.of_nat (length l + length CRLF))); [lia|].
    rewrite bool_decide_eq_false_2, line_not_blank by done. apply IH; [lia | simpl in Hf; lia].
Qed.

Lemma renderLines_length ls : (length ls <= length (renderLines ls))%nat.
Proof.
  induction ls as [|l ls IH]; [done|]. unfold renderLines in *. cbn [fmap list_fmap concat length].
  rewrite !length_app. simpl. lia.
Qed.

Lemma requestLines_head fuel (l : list ascii) ls rest e :
  Forall line_fits (l :: ls) -> Z.of_nat (length (renderLines (l :: ls))) + 2 <= maxRequest ->
  (length (l :: ls) < fuel)%nat ->
  requestLines fuel [] 0 (mkStream (renderLines (l :: ls) ++ CRLF ++ rest) e) = Some (Ok (l ++ CRLF)).
Proof.
  intros [Hl Hls]%Forall_cons Ht Hf. destruct fuel as [|fuel]; [simpl in Hf; lia|].
  change (renderLines (l :: ls)) with ((l ++ CRLF) ++ renderLines ls) in *.
  rewrite !length_app in Ht. rewrite <- !app_assoc. cbn [requestLines]. rewrite readSlice_line by done. rewrite length_app.
  destruct (Z.ltb_spec maxRequest (0 + Z.of_nat (length l + length CRLF))); [lia|].
  rewrite bool_decide_eq_true_2, line_not_blank by done.
  apply requestLines_lines; [by destruct l | done | lia | simpl in Hf; lia].
Qed.

Lemma requestLine_target method uri :
  word (bytes method) -> word (bytes uri) ->
  Fields (TrimSpace (ofBytes ((bytes method ++ bytes " " ++ bytes uri ++ bytes " HTTP/1.1") ++ CRLF))) = [method; uri; "HTTP/1.1"].
Proof.
  intros Hm Hu. unfold Fields. destruct (bytes method) as [|a m] eqn:Em; [by destruct Hm|].
  cbn [app]. change (a :: ?x ++ CRLF) with ((a :: x) ++ CRLF).
  rewrite (TrimSpace_line a _ "1"%char CRLF) with (mid := a :: m ++ bytes " " ++ bytes uri ++ bytes " HTTP/1.").
  - change (a :: m ++ bytes " " ++ ?x) with ((a :: m) ++ " "%char :: x). rewrite fieldsOf_word by done.
    change (bytes " HTTP/1.1") with (" "%char :: bytes "HTTP/1.1"). rewrite fieldsOf_word by done.
    rewrite <- Em. cbn [fmap list_fmap]. rewrite !ofBytes_bytes. reflexivity.
  - by destruct Hm as [_ [? _]%Forall_cons].
  - done.
  - by repeat constructor.
  - cbn [app]. by rewrite <- !app_assoc.
Qed.

(** A request head the client writes, its headers in any order and followed by anything, is read
    as a request for the URI the client was given. *)
Lemma request_roundtrip (order : list (string * string)) (method uri host : string) (n : nat) rest e :
  word (bytes method) -> word (bytes uri) ->
  Forall line_fits (headLines order method uri host n) ->
  Z.of_nat (String.length (requestHead order method uri host n)) <= maxRequest ->
  readHTTPRequest (mkStream (bytes (requestHead order method uri host n) ++ rest) e) = Some (Ok uri).
Proof.
  intros Hm Hu Hfit Hlen. rewrite <- bytes_length, requestHead_lines, length_app in Hlen.
  rewrite requestHead_lines, <- app_assoc. pose proof (renderLines_length (headLines order method uri host n)) as Hn.
  unfold readHTTPRequest, headLines in *. cbn [app] in *. change (length CRLF) with 2%nat in Hlen.
  rewrite requestLines_head; [|done | lia | unfold requestFuel; lia]. by rewrite requestLine_target.
Qed.

(** ** Answers are read back *)

Lemma dropIn_keep cut l : Forall (fun c => cut c = false) l -> dropIn cut l = l.
Proof. intros [|a t Ha _]; [done|]. simpl. by rewrite Ha. Qed.

(** The bytes of a header line. *)
Definition header_bytes (l : list ascii) : Prop := l <> [] /\ Forall (fun c => isCRLF c = false) l.

Lemma trimEOL_line l : Forall (fun c => isCRLF c = false) l -> trimEOL (l ++ CRLF) = l.
Proof.
  intros Hl. unfold trimEOL, dropRightIn. rewrite rev_app_distr. change (rev CRLF) with [LF; CR]. cbn [app dropIn].
  change (isCRLF LF) with true. change (isCRLF CR) with true. cbn iota.
  rewrite dropIn_keep by (by apply Forall_rev). apply rev_involutive.
Qed.

Lemma readHeaders_line `{UnicodeTables} fuel h l rest e :
  header_bytes l ->
  readHeaders (S fuel) h (mkStream (l ++ CRLF ++ rest) e) = readHeaders fuel (addHeader l h) (mkStream rest e).
Proof.
  intros [Hne Hl]. cbn [readHeaders]. rewrite readLine_CRLF.
  - cbv zeta. rewrite trimEOL_line by done. by rewrite bool_decide_eq_false_2 by done.
  - intros Hin. rewrite Forall_forall in Hl. by apply Hl in Hin.
Qed.

Lemma digit_solid c : isDigit c = true -> solid c /\ isCRLF c = false.
Proof. destruct c as [[] [] [] [] [] [] [] []]; vm_compute; intros E; try discriminate E; done. Qed.

Lemma TrimSpace_digits d : d <> [] -> forallb isDigit d = true -> TrimSpace (ofBytes (" "%char :: d)) = ofBytes d.
Proof.
  intros Hne Hd. assert (Forall solid d) as Hs.
  { rewrite forallb_forall in Hd. apply Forall_forall. intros x Hx. by apply digit_solid, Hd, list_elem_of_In. }
  destruct d as [|a d]; [done|]. destruct (exists_last Hne) as (mid & b & E).
  assert (solid b) as Hb by (rewrite E in Hs; by apply Forall_app in Hs as [_ [? _]%Forall_cons]).
  rewrite <- (ofBytes_bytes (TrimSpace _)). f_equal. apply Forall_cons in Hs as [Ha _].
  etrans; [|apply (TrimSpace_line a d b [] Ha Hb (Forall_nil_2 _) mid E)]. rewrite app_nil_r.
  unfold TrimSpace, trimLeftSpace. by rewrite !bytes_ofBytes.
Qed.

Section ReadBack.
Context `{UnicodeTables}.

Lemma addHeader_length d h :
  d <> [] -> forallb isDigit d = true -> addHeader (bytes "Content-Length: " ++ d) h = <["content-length" := ofBytes d]> h.
Proof using Type.
  intros Hne Hd. rewrite <- (TrimSpace_digits d) by done. reflexivity.
Qed.

Lemma readBody_length h len (body : list ascii) e :
  h !! "transfer-encoding" = None -> h !! "content-length" = Some len ->
  len <> "" -> Atoi len = Some (Z.of_nat (length body)) -> Z.of_nat (length body) <= minHTTPMaxBody ->
  readBody h (mkStream body e) = Some (Ok body).
Proof using Type.
  intros Ht Hl Hne Ha Hm. unfold readBody. rewrite Ht, Hl. cbn [default from_option]. change (Contains "" "chunked") with false.
  cbv zeta. cbn iota. rewrite bool_decide_eq_true_2 by done. unfold id. rewrite Ha.
  destruct (Z.ltb_spec (Z.of_nat (length body)) 0); [lia|]. destruct (Z.ltb_spec minHTTPMaxBody (Z.of_nat (length body))); [lia|].
  rewrite <- (app_nil_r body) at 2. by rewrite readFull_app.
Qed.

Lemma readResponse_answer status ct code body :
  header_bytes (bytes ("HTTP/1.1 " +:+ status)) -> parseStatus (bytes ("HTTP/1.1 " +:+ status) ++ CRLF) = Ok (code, status) ->
  header_bytes (bytes ("Content-Type: " +:+ ct)) ->
  (forall h, addHeader (bytes ("Content-Type: " +:+ ct)) h = <["content-type" := ct]> h) ->
  Z.of_nat (String.length body) <= minHTTPMaxBody ->
  readResponse (mkStream (bytes (renderAnswer (mkAnswer status ct body))) None) = Some (Ok (mkResponse code status body)).
Proof using Type.
  intros Hs Hp Hc Hadd Hm. unfold renderAnswer. cbn [ans_status ans_type ans_body].
  destruct (Itoa_digits (Z.of_nat (String.length body))) as [Hne Hd]; [lia|].
  assert (bytes (Itoa (Z.of_nat (String.length body))) <> []) as Hne'.
  { intros E. apply Hne. by rewrite <- (ofBytes_bytes (Itoa _)), E. }
  assert (header_bytes (bytes "Content-Length: " ++ bytes (Itoa (Z.of_nat (String.length body))))) as Hlen.
  { split; [done|]. apply Forall_app. split; [by repeat constructor|]. rewrite forallb_forall in Hd.
    apply Forall_forall. intros x Hx. by apply digit_solid, Hd, list_elem_of_In. }
  rewrite !bytes_app in *. change (bytes eol) with CRLF. rewrite (app_assoc (bytes "HTTP/1.1 ")), (app_assoc (bytes "Content-Type: ")), (app_assoc (bytes "Content-Length: ")).
  unfold readResponse. rewrite readLine_CRLF by (intros Hin; destruct Hs as [_ Hs]; rewrite Forall_forall in Hs; by apply Hs in Hin).
  rewrite Hp. match goal with |- context [readHeaders (S ?n)] => assert (exists f, n = S (S (S f))) as [f ->] end.
  { cbn [input]. rewrite !length_app. simpl. eexists. rewrite <- !plus_n_Sm. reflexivity. }
  rewrite readHeaders_line by done. rewrite readHeaders_line by done.
  rewrite readHeaders_line by (by split; [|repeat constructor]).
  rewrite Hadd, addHeader_length by done. rewrite ofBytes_bytes.
  change (addHeader (bytes "Connection: close") ?h) with (<["connection" := "close"]> h).
  cbn [readHeaders]. change (CRLF ++ bytes body) with ([] ++ CRLF ++ bytes body).
  rewrite readLine_CRLF by apply not_elem_of_nil. change (trimEOL ([] ++ CRLF)) with (@nil ascii). cbv zeta.
  rewrite bool_decide_eq_true_2 by done.
  rewrite readBody_length with (len := Itoa (Z.of_nat (String.length body))); [by rewrite ofBytes_bytes | | | | |].
  - by simplify_map_eq.
  - by simplify_map_eq.
  - done.
  - rewrite bytes_length. apply Atoi_Itoa. unfold64. unfold minHTTPMaxBody in Hm. lia.
  - by rewrite bytes_length.
Qed.

(** The status code of an answer. *)
Definition answerCode `{Marshaller} (target : string) (h : Hook) : Z :=
  if HasPrefix target "/stats" then
    match Marshal (if Contains target "delta=1" then Hook_SnapshotDelta h else Hook_Snapshot (Contains target "reset=1") h) with
    | Ok _ => 200 | Err _ => 500 end
  else if HasPrefix target "/health" then 200 else 404.

(** The client's code reads the answer to any target back: the status code, the status text and
    the body, whenever the body is within the client's limit. *)
Lemma answer_roundtrip `{Marshaller} (target : string) (h : Hook) :
  let a := answerTarget target h in
  Z.of_nat (String.length (ans_body a)) <= minHTTPMaxBody ->
  readResponse (mkStream (bytes (renderAnswer a)) None) =
    Some (Ok (mkResponse (answerCode target h) (ans_status a) (ans_body a))).
Proof using Type.
  intros a. subst a. unfold answerTarget, answerCode. destruct (HasPrefix target "/stats").
  - destruct (Marshal _) as [data|e]; intros Hm; (apply readResponse_answer; [| | | |exact Hm]); try done; by split; [|repeat constructor].
  - destruct (HasPrefix target "/health"); intros Hm; (apply readResponse_answer; [| | | |exact Hm]); try done; by split; [|repeat constructor].
Qed.
End ReadBack.

(** ** A whole exchange *)

Section LocalExchange.
Context `{UnicodeTables} `{MapOrder} `{Marshaller}.

(** A connection of the client to the stats API: the state is what the client has written. *)
Definition localDialer (parse : string -> res error HttpURL) (h : Hook) : Dialer string :=
  {| parseURL := parse;
     dialContext _ st := (None, st);
     timeNow _ := 0;
     ctxDeadline _ := None;
     setDeadline _ st := (None, st);
     tlsHandshake _ st := (None, st);
     connWrite part st := (None, st +:+ part);
     answer st := mkStream (bytes (default "" (mjoin (serveConn h (mkStream (bytes st) None))))) None |}.

Definition hostOf (u : HttpURL) : string :=
  if bool_decide (Port u <> "") then JoinHostPort (Hostname u) (Port u) else URL_Host u.

(** C34. A GET of any URI with the client of the panel calls, sent to the stats API, returns the code,
    status and body the handler chose for that URI. *)
Theorem stats_exchange (parse : string -> res error HttpURL) (h : Hook) (url : string) (u : HttpURL)
    (headers : gmap string string) (timeout : Z) :
  parse url = Ok u -> Scheme u = "http" -> word (bytes (RequestURI u)) ->
  let order := go_range 20 headers in
  let a := answerTarget (RequestURI u) h in
  Forall line_fits (headLines order "GET" (RequestURI u) (hostOf u) 0) ->
  Z.of_nat (String.length (requestHead order "GET" (RequestURI u) (hostOf u) 0)) <= maxRequest ->
  Z.of_nat (String.length (ans_body a)) <= minHTTPMaxBody ->
  (@do _ _ string (localDialer parse h) timeout "GET" url headers "" "").1 =
    Some (Ok (mkResponse (answerCode (RequestURI u) h) (ans_status a) (ans_body a))).
Proof using Type.
  intros Hp Hs Hu order a Hfit Hlen Hbody. unfold do. cbn [parseURL localDialer]. rewrite Hp, Hs.
  cbn -[requestHead serveConn readResponse]. fold (hostOf u). rewrite (bool_decide_eq_true_2 ("http" = "http")) by done.
  rewrite (bool_decide_eq_false_2 ("http" = "https")), (bool_decide_eq_false_2 ("" <> "")) by naive_solver.
  cbn -[requestHead serveConn readResponse]. unfold serveConn. change ("" +:+ ?x) with x.
  rewrite <- (app_nil_r (bytes (requestHead _ _ _ _ _))), request_roundtrip; [|by split; [|repeat constructor]|done..].
  by apply answer_roundtrip.
Qed.
End LocalExchange.

(** ** Example *)

Module Local.
#[local] Instance order : MapOrder := canonical_order.
#[local] Instance tables : UnicodeTables := ascii_tables.
#[local] Instance marshal : Marshaller := {| Marshal d := Ok (if bool_decide (d = ∅) then "{}" else "{...}") |}.

Definition local : HttpURL := mkHttpURL "http" "127.0.0.1:8080" "127.0.0.1" "8080" "/stats?delta=1".

Lemma stats_exchange_witness :
  (@do _ _ string (localDialer (fun _ => Ok local) NewHook) 0 "GET" "http://127.0.0.1:8080/stats?delta=1" ∅ "" "").1 =
  Some (Ok (mkResponse 200 "200 OK" "{}")).
Proof.
  etrans; [apply (stats_exchange (fun _ => Ok local) NewHook "http://127.0.0.1:8080/stats?delta=1" local ∅ 0) | vm_compute; reflexivity].
  - reflexivity.
  - reflexivity.
  - split; [done|]. by repeat constructor.
  - decide_vm.
  - vm_compute. discriminate.
  - vm_compute. discriminate.
Defined.
End Local.
