(* ===== verification/RateLimit.v ===== *)
(** * Token-bucket rate limiter (src/counter/ratelimit.go)

    Token amounts are [float64] in the source.  They are rationals here, and every float
    operation is the exact operation followed by the rounding [rnd] of [Float64]; the class
    states what IEEE 754 gives for the magnitudes that occur (no overflow to infinity).
    The bound on the long-run rate holds for every such rounding, with an explicit allowance for
    the rounding errors. *)

From Stdlib Require Import QArith Qround Qabs Lqa.
From S2P Require Import Prelude GoStrings.

#[local] Open Scope Z_scope.

(** Half a unit in the last place of 1. *)
Definition halfUlp : Q := 1 # 9007199254740992.

Class Float64 := {
  rnd : Q -> Q;
  (** Whether the compiler contracts [x*y + z] into one rounding, as Go permits. *)
  fused : bool;
  rnd_proper :: Proper (Qeq ==> Qeq) rnd;
  rnd_mono : forall x y, (x <= y)%Q -> (rnd x <= rnd y)%Q;
  rnd_idem : forall x, (rnd (rnd x) == rnd x)%Q;
  rnd_int : forall z, Z.abs z <= 2 ^ 53 -> (rnd (inject_Z z) == inject_Z z)%Q;
  (** The relative error of a rounding; the absolute term covers the subnormal numbers. *)
  rnd_err : forall x, (Qabs (rnd x - x) <= halfUlp * (Qabs x + 1))%Q
}.

(** Exact arithmetic. *)
Definition exact_float : Float64.
Proof.
  refine {| rnd := fun x => x; fused := false |}; auto with qarith; try solve_proper.
  intros x. assert (x - x == 0)%Q as -> by ring. apply Qmult_le_0_compat; [done|].
  pose proof (Qabs_nonneg x). lra.
Defined.

Definition Qltb (x y : Q) : bool := negb (Qle_bool y x).

Section Float.
Context `{Float64}.
Definition ofInt (z : Z) : Q := rnd (inject_Z z).
Definition fadd (x y : Q) : Q := rnd (x + y).
Definition fsub (x y : Q) : Q := rnd (x - y).
Definition fmul (x y : Q) : Q := rnd (x * y).
Definition fdiv (x y : Q) : Q := rnd (x / y).
(** [z + x*y] as one expression. *)
Definition fmadd (x y z : Q) : Q := if fused then rnd (x * y + z) else fadd (fmul x y) z.
(** Conversion to an integer truncates toward zero. *)
Definition toInt (x : Q) : Z := Z.quot (Qnum x) (Zpos (Qden x)).
End Float.

(** Times and durations are nanoseconds. *)
Definition Second : Z := 1000000000.
Definition defaultBurstWindow : Z := 200 * 1000000.
Definition maxWriteChunk : Z := 64 * 1024.
Definition maxReadChunk : Z := 64 * 1024.

(** [last] is [None] for Go's zero time. *)
Record RateLimiter := mkLimiter {
  rate : Z;
  burst : Z;
  tokens : Q;
  last : option Z;
  disabled : bool;
  closed : bool
}.

Definition ErrLimiterClosed : error := New "rate limiter closed".

Section Limiter.
Context `{Float64}.
Implicit Types (l : RateLimiter) (n now : Z).

(** [Time.Sub] saturates, [Duration.Seconds] splits seconds and nanoseconds. *)
Definition timeSub (a b : Z) : Z := Z.max int64_min (Z.min int64_max (a - b)).
Definition seconds (d : Z) : Q :=
  fadd (ofInt (Z.quot d Second)) (fdiv (ofInt (Z.rem d Second)) (ofInt Second)).

Definition burstOf (bytesPerSecond : Z) : Z :=
  let b := Z.quot (wrap64 (bytesPerSecond * defaultBurstWindow)) Second in
  if b <? maxWriteChunk then maxWriteChunk else b.

Definition SetRate (bytesPerSecond now : Z) l : RateLimiter :=
  let b := burstOf bytesPerSecond in
  if bytesPerSecond <=? 0
  then mkLimiter bytesPerSecond b 0 (last l) true (closed l)
  else
    let t := if Qltb (tokens l) 0 || Qltb (ofInt b) (tokens l) then 0%Q else tokens l in
    mkLimiter bytesPerSecond b t (Some now) false false.

Definition NewRateLimiter (bytesPerSecond now : Z) : RateLimiter :=
  SetRate bytesPerSecond now (mkLimiter 0 0 0 (Some now) false false).

Definition Close l : RateLimiter := mkLimiter 0 0 0 (last l) true true.

(** A nil limiter counts as closed. *)
Definition Closed (l : option RateLimiter) : bool :=
  match l with None => true | Some l => closed l end.

Definition Rate l : Z := rate l.

(** The refill shared by [allow] and [reserve]. *)
Definition refill now l : RateLimiter :=
  let lst := default now (last l) in
  let elapsed := seconds (timeSub now lst) in
  if Qltb 0 elapsed
  then
    let t := fmadd elapsed (ofInt (rate l)) (tokens l) in
    let t := if Qltb (ofInt (burst l)) t then ofInt (burst l) else t in
    mkLimiter (rate l) (burst l) t (Some now) (disabled l) (closed l)
  else mkLimiter (rate l) (burst l) (tokens l) (Some lst) (disabled l) (closed l).

(** The bytes charged for [n]: never more than a full bucket. *)
Definition need n l : Q :=
  if Qltb (ofInt (burst l)) (ofInt n) then ofInt (burst l) else ofInt n.

Definition spend n l : RateLimiter :=
  mkLimiter (rate l) (burst l) (fsub (tokens l) (need n l)) (last l) (disabled l) (closed l).

Definition passive n l : bool := disabled l || (rate l <=? 0) || (n <=? 0).

Definition allow n now l : (bool * option error) * RateLimiter :=
  if closed l then ((false, Some ErrLimiterClosed), l)
  else if passive n l then ((true, None), l)
  else
    let l := refill now l in
    if Qltb (tokens l) (need n l) then ((false, None), l)
    else ((true, None), spend n l).

Definition reserve n now l : (Z * option error) * RateLimiter :=
  if closed l then ((0, Some ErrLimiterClosed), l)
  else if passive n l then ((0, None), l)
  else
    let l := refill now l in
    if Qltb (tokens l) (need n l)
    then
      let missing := fsub (need n l) (tokens l) in
      ((toInt (fmul (fdiv missing (ofInt (rate l))) (ofInt Second)), None), spend n l)
    else ((0, None), spend n l).

(** [Allow] on a possibly nil limiter. *)
Definition Allow n now (l : option RateLimiter) : (bool * option error) * option RateLimiter :=
  match l with
  | None => ((true, None), None)
  | Some l =>
      if n <=? 0 then ((true, None), Some l)
      else let (r, l') := allow n now l in (r, Some l')
  end.

(** [Wait]: reserve the bytes in chunks of at most one burst, sleeping for each.
    [clock k] is the time of the [k]-th reservation; [env] is what other goroutines do to the
    limiter before its parameters are read and before the reservation.  The result holds the
    sleeps; [None] is out of fuel. *)
Fixpoint waitLoop (fuel : nat) (clock : nat -> Z) (env : nat -> RateLimiter -> RateLimiter)
    (k : nat) (remaining : Z) l : option ((list Z * option error) * RateLimiter) :=
  if remaining <=? 0 then Some (([], None), l) else
  match fuel with
  | O => None
  | S fuel =>
      let l := env (2 * k)%nat l in
      let off := disabled l || (rate l <=? 0) || closed l in
      let chunk := if (0 <? burst l) && (burst l <? remaining) then burst l else remaining in
      let l := env (2 * k + 1)%nat l in
      if off
      then let '((_, err), l) := reserve 0 (clock k) l in Some (([], err), l)
      else
        let '((wait, err), l) := reserve chunk (clock k) l in
        match err with
        | Some e => Some (([], Some e), l)
        | None =>
            '((ws, err), l) ← waitLoop fuel clock env (S k) (remaining - chunk) l;
            Some ((if 0 <? wait then wait :: ws else ws, err), l)
        end
  end.

Definition Wait n clock env (l : option RateLimiter)
  : option ((list Z * option error) * option RateLimiter) :=
  match l with
  | None => Some (([], None), None)
  | Some l =>
      if n <=? 0 then Some (([], None), Some l)
      else '(r, l') ← waitLoop (Z.to_nat n) clock env 0 n l; Some (r, Some l')
  end.
End Limiter.

(** ** Rounding *)

Lemma Qltb_true x y : Qltb x y = true <-> (x < y)%Q.
Proof.
  unfold Qltb. rewrite negb_true_iff, <- not_true_iff_false, Qle_bool_iff.
  split; [apply Qnot_le_lt | apply Qlt_not_le].
Qed.

Lemma Qltb_false x y : Qltb x y = false <-> (y <= x)%Q.
Proof. unfold Qltb. by rewrite negb_false_iff, Qle_bool_iff. Qed.

(** Case analysis on a float comparison of the source. *)
Ltac case_Qltb :=
  match goal with
  | |- context [Qltb ?x ?y] =>
      let E := fresh "E" in
      destruct (Qltb x y) eqn:E; [apply Qltb_true in E | apply Qltb_false in E]
  end.

Section RoundingLemmas.
Context `{Float64}.

(** [x] is a value a [float64] can hold. *)
Definition representable (x : Q) : Prop := (rnd x == x)%Q.

#[export] Instance representable_proper : Proper (Qeq ==> iff) representable.
Proof. intros x y E. unfold representable. by rewrite E. Qed.

Lemma representable_rnd x : representable (rnd x).
Proof. apply rnd_idem. Qed.

Lemma representable_int z : Z.abs z <= 2 ^ 53 -> representable (inject_Z z).
Proof. apply rnd_int. Qed.

Lemma representable_fmadd x y z : representable (fmadd x y z).
Proof. unfold fmadd, fadd. destruct fused; apply representable_rnd. Qed.

Lemma rnd_0 : (rnd 0 == 0)%Q.
Proof. apply (rnd_int 0). lia. Qed.

Lemma rnd_nonneg x : (0 <= x)%Q -> (0 <= rnd x)%Q.
Proof. intros Hx. rewrite <- rnd_0. by apply rnd_mono. Qed.

Lemma rnd_le x y : representable y -> (x <= y)%Q -> (rnd x <= y)%Q.
Proof. unfold representable. intros Hy Hx. rewrite <- Hy. by apply rnd_mono. Qed.

Lemma rnd_ge x y : representable x -> (x <= y)%Q -> (x <= rnd y)%Q.
Proof. unfold representable. intros Hx Hy. rewrite <- Hx. by apply rnd_mono. Qed.

(** Rounding a value of at most [k] times [b] errs by at most [k + 1] times the unit [c]. *)
Lemma rnd_within (b c k x : Q) :
  (1 <= b)%Q -> (c == halfUlp * b)%Q -> (- (k * b) <= x <= k * b)%Q ->
  (x - (k + 1) * c <= rnd x <= x + (k + 1) * c)%Q.
Proof.
  intros Hb Hc Hx. apply Qabs_Qle_condition in Hx.
  pose proof (rnd_err x) as He.
  assert (halfUlp * (Qabs x + 1) <= (k + 1) * c)%Q as Hle.
  { rewrite Hc. setoid_replace ((k + 1) * (halfUlp * b))%Q with (halfUlp * (k * b + b))%Q using relation Qeq by ring.
    rewrite !(Qmult_comm halfUlp). apply Qmult_le_compat_r; [lra | done]. }
  pose proof (Qle_trans _ _ _ He Hle) as Hd. apply Qabs_Qle_condition in Hd. lra.
Qed.

Lemma ofInt_exact z : Z.abs z <= 2 ^ 53 -> (ofInt z == inject_Z z)%Q.
Proof. apply rnd_int. Qed.

Lemma ofInt_nonneg z : 0 <= z -> (0 <= ofInt z)%Q.
Proof. intros Hz. apply rnd_nonneg. change 0%Q with (inject_Z 0). by rewrite <- Zle_Qle. Qed.

Lemma fmadd_ge x y z : (0 <= x)%Q -> (0 <= y)%Q -> representable z -> (z <= fmadd x y z)%Q.
Proof.
  intros Hx Hy Hz. assert (0 <= x * y)%Q as Hxy by (by apply Qmult_le_0_compat).
  unfold fmadd, fadd, fmul. destruct fused; apply rnd_ge; try done; [lra|].
  pose proof (rnd_nonneg _ Hxy). lra.
Qed.
End RoundingLemmas.

#[export] Hint Resolve representable_rnd representable_fmadd : agent.

(** ** Invariant of a limiter *)

(** The largest burst the 64-bit computation of [SetRate] can give. *)
Definition maxBurst : Z := 9223372036.

Section Invariant.
Context `{Float64}.
Implicit Types (l : RateLimiter) (n now : Z).

(** The bucket never holds more than a burst, a burst never less than one write chunk. *)
Record limiter_ok l : Prop := {
  lo_burst : 0 <= burst l <= maxBurst;
  lo_open : closed l = false -> maxWriteChunk <= burst l;
  lo_repr : representable (tokens l);
  lo_full : (tokens l <= inject_Z (burst l))%Q
}.

Lemma burstOf_range r : maxWriteChunk <= burstOf r <= maxBurst.
Proof.
  unfold burstOf. cbv zeta.
  pose proof (wrap64_range (r * defaultBurstWindow)) as Hw.
  generalize dependent (wrap64 (r * defaultBurstWindow)). intros w Hw. unfold64.
  assert (Z.quot w Second <= maxBurst).
  { unfold Second, maxBurst. destruct (decide (0 <= w)).
    - apply Z.lt_succ_r. apply Z.quot_lt_upper_bound; lia.
    - pose proof (Z.quot_opp_l w 1000000000 ltac:(done)).
      pose proof (Z.quot_pos (- w) 1000000000). lia. }
  destruct (_ <? _) eqn:E; bool_inv; unfold maxWriteChunk, maxBurst in *; lia.
Qed.

(** Below 46 GB/s the burst is 200 ms worth of the rate, and at least one chunk. *)
Lemma burstOf_exact r :
  0 <= r <= 46116860184 -> burstOf r = Z.max maxWriteChunk (r / 5).
Proof.
  intros Hr. unfold burstOf, defaultBurstWindow, Second, maxWriteChunk. cbv zeta.
  rewrite wrap64_id by (unfold64; lia). rewrite Z.quot_div_nonneg by lia.
  replace 1000000000 with (200 * 1000000 * 5) by lia.
  rewrite <- Z.div_div by lia. rewrite Z.div_mul by lia.
  destruct (_ <? _) eqn:E; bool_inv; lia.
Qed.

Lemma ofInt_burst l : limiter_ok l -> (ofInt (burst l) == inject_Z (burst l))%Q.
Proof. intros [Hb _ _ _]. apply rnd_int. unfold maxBurst in *. lia. Qed.

Lemma SetRate_repr r now l : representable (tokens l) -> limiter_ok (SetRate r now l).
Proof.
  intros Hl. pose proof (burstOf_range r) as Hb. unfold maxWriteChunk in *.
  assert (0 <= inject_Z (burstOf r))%Q as Hb0.
  { change 0%Q with (inject_Z 0). rewrite <- Zle_Qle. lia. }
  unfold SetRate. cbv zeta. destruct (_ <=? 0); simpl.
  - split; simpl; [lia | unfold maxWriteChunk; lia | apply (representable_int 0); lia | done].
  - assert (ofInt (burstOf r) == inject_Z (burstOf r))%Q as E.
    { apply rnd_int. unfold maxBurst in *. lia. }
    split; simpl; [lia | unfold maxWriteChunk; lia | |].
    + destruct (_ || _); [apply (representable_int 0); lia | done].
    + destruct (Qltb (tokens l) 0); simpl; [done|]. case_Qltb; [done|]. by rewrite <- E.
Qed.

Lemma SetRate_ok r now l : limiter_ok l -> limiter_ok (SetRate r now l).
Proof. intros Hl. apply SetRate_repr, lo_repr, Hl. Qed.

Lemma NewRateLimiter_ok r now : limiter_ok (NewRateLimiter r now).
Proof. apply SetRate_repr, (representable_int 0). lia. Qed.

Lemma Close_ok l : limiter_ok (Close l).
Proof. split; simpl; [unfold maxBurst; lia | done | apply (representable_int 0); lia | apply Qle_refl]. Qed.

Lemma refill_ok now l : limiter_ok l -> limiter_ok (refill now l).
Proof.
  intros Hl. pose proof (ofInt_burst l Hl) as Hb. destruct Hl as [? ? Hr Hf].
  unfold refill. cbv zeta. case_Qltb; split; simpl; try done; case_Qltb.
  - apply representable_rnd.
  - apply representable_fmadd.
  - rewrite Hb. lra.
  - by rewrite <- Hb.
Qed.

Lemma need_nonneg n l : limiter_ok l -> 0 <= n -> (0 <= need n l)%Q.
Proof.
  intros Hl Hn. unfold need. pose proof (lo_burst l Hl).
  case_Qltb; apply ofInt_nonneg; lia.
Qed.

Lemma spend_ok n l : limiter_ok l -> 0 <= n -> limiter_ok (spend n l).
Proof.
  intros Hl Hn. pose proof (need_nonneg n l Hl Hn). destruct Hl as [? ? Hr Hf].
  split; simpl; [done | done | apply representable_rnd|].
  eapply Qle_trans; [|exact Hf]. apply rnd_le; [done|]. lra.
Qed.
End Invariant.

#[export] Hint Resolve SetRate_ok NewRateLimiter_ok Close_ok refill_ok spend_ok : agent.

(** ** Behaviour *)

Section Behaviour.
Context `{Float64}.
Implicit Types (l : RateLimiter) (n now : Z).

Lemma passive_false n l : passive n l = false <-> disabled l = false /\ 0 < rate l /\ 0 < n.
Proof. unfold passive. rewrite !orb_false_iff, !Z.leb_gt. tauto. Qed.

Lemma allow_ok n now l : limiter_ok l -> limiter_ok (allow n now l).2.
Proof.
  intros Hl. unfold allow. destruct (closed l); [done|].
  destruct (passive n l) eqn:Ep; [done|]. apply passive_false in Ep as (_ & _ & Hn). cbv zeta.
  destruct (Qltb _ _); simpl; auto using refill_ok, spend_ok with lia.
Qed.

Lemma reserve_ok n now l : limiter_ok l -> limiter_ok (reserve n now l).2.
Proof.
  intros Hl. unfold reserve. destruct (closed l); [done|].
  destruct (passive n l) eqn:Ep; [done|]. apply passive_false in Ep as (_ & _ & Hn). cbv zeta.
  destruct (Qltb _ _); simpl; (apply spend_ok; [by apply refill_ok | lia]).
Qed.

(** Neither call changes the configuration of the limiter. *)
Definition same_config l l' : Prop :=
  rate l' = rate l /\ burst l' = burst l /\ disabled l' = disabled l /\ closed l' = closed l.

Lemma refill_config now l : same_config l (refill now l).
Proof. unfold refill, same_config. cbv zeta. by destruct (Qltb _ _). Qed.

Lemma reserve_config n now l : same_config l (reserve n now l).2.
Proof.
  unfold reserve. destruct (closed l) eqn:E; [done|]. destruct (passive n l); [done|]. cbv zeta.
  pose proof (refill_config now l). by destruct (Qltb _ _).
Qed.

(** Time going forward never takes tokens away, and [allow] never overdraws. *)
Lemma refill_ge now l : limiter_ok l -> 0 <= rate l -> (tokens l <= tokens (refill now l))%Q.
Proof.
  intros Hl Hr. unfold refill. cbv zeta. case_Qltb; simpl; [|lra].
  assert (tokens l <= fmadd (seconds (timeSub now (default now (last l)))) (ofInt (rate l)) (tokens l))%Q.
  { apply fmadd_ge; [lra | by apply ofInt_nonneg | apply (lo_repr l Hl)]. }
  pose proof (ofInt_burst l Hl). pose proof (lo_full l Hl). case_Qltb; lra.
Qed.

Lemma allow_nonneg n now l :
  limiter_ok l -> (0 <= tokens l)%Q -> (0 <= tokens (allow n now l).2)%Q.
Proof.
  intros Hl Ht. unfold allow. destruct (closed l); [done|].
  destruct (passive n l) eqn:Ep; [done|]. apply passive_false in Ep as (_ & Hr & Hn). cbv zeta.
  pose proof (refill_ge now l Hl ltac:(lia)).
  case_Qltb; simpl; [lra|]. apply rnd_nonneg. lra.
Qed.

(** A disabled limiter passes everything at once; a closed one refuses everything. *)
Lemma reserve_passive now l : closed l = false -> reserve 0 now l = ((0, None), l).
Proof. intros E. unfold reserve. rewrite E. unfold passive. by rewrite !orb_true_r. Qed.

Lemma reserve_closed n now l : closed l = true -> reserve n now l = ((0, Some ErrLimiterClosed), l).
Proof. intros E. unfold reserve. by rewrite E. Qed.

(** The loop of [Wait] always ends: a chunk is at least one byte. *)
Lemma waitLoop_total fuel clock env k remaining l :
  remaining <= Z.of_nat fuel -> is_Some (waitLoop fuel clock env k remaining l).
Proof.
  revert k remaining l. induction fuel as [|fuel IH]; intros k remaining l Hle; simpl.
  - destruct (remaining <=? 0) eqn:E; bool_inv; [eauto | lia].
  - destruct (remaining <=? 0) eqn:E; bool_inv; [eauto|]. cbv zeta.
    destruct (_ || _ || _).
    + destruct (reserve 0 _ _) as [[? ?] ?]. eauto.
    + match goal with |- context [reserve ?c _ _] => set (chunk := c) end.
      assert (0 < chunk).
      { unfold chunk. destruct (_ && _) eqn:Ec; bool_inv; lia. }
      destruct (reserve _ _ _) as [[wait [e|]] l'] eqn:Er; [eauto|].
      destruct (IH (S k) (remaining - chunk) l') as [[[ws err] l''] ->]; [lia|]. simpl. eauto.
Qed.

Lemma waitLoop_ok fuel clock env k remaining l ws err l' :
  (forall i l, limiter_ok l -> limiter_ok (env i l)) -> limiter_ok l ->
  waitLoop fuel clock env k remaining l = Some ((ws, err), l') -> limiter_ok l'.
Proof.
  intros Henv. revert k remaining l ws err l'.
  induction fuel as [|fuel IH]; intros k remaining l ws err l' Hl; simpl;
    destruct (remaining <=? 0); try (by intros [= <- <- <-]). cbv zeta.
  set (l1 := env _ (env _ l)). assert (limiter_ok l1) as Hl1 by eauto.
  destruct (_ || _ || _).
  - pose proof (reserve_ok 0 (clock k) l1 Hl1). destruct (reserve 0 _ _) as [[? ?] ?].
    by intros [= <- <- <-].
  - match goal with |- context [reserve ?c _ _] => set (chunk := c) end.
    pose proof (reserve_ok chunk (clock k) l1 Hl1).
    destruct (reserve _ _ _) as [[wait [e|]] l2]; [by intros [= <- <- <-]|].
    destruct (waitLoop _ _ _ _ _ _) as [[[ws' err'] l3]|] eqn:Ew; [|done].
    intros [= <- <- <-]. by eapply IH.
Qed.

(** [Wait] always returns, whatever other goroutines do to the limiter meanwhile: every
    iteration takes at least one byte off what remains. *)
Theorem Wait_terminates n clock env (l : option RateLimiter) : is_Some (Wait n clock env l).
Proof.
  unfold Wait. destruct l as [l|]; [|eauto]. destruct (n <=? 0) eqn:E; bool_inv; [eauto|].
  destruct (waitLoop_total (Z.to_nat n) clock env 0 n l) as [[r l'] ->]; [lia|]. simpl. eauto.
Qed.
End Behaviour.

#[export] Hint Resolve allow_ok reserve_ok : agent.

(** ** The long-run rate *)

Lemma inject_Z_nonneg z : 0 <= z -> (0 <= inject_Z z)%Q.
Proof. intros Hz. change 0%Q with (inject_Z 0). by rewrite <- Zle_Qle. Qed.

Module Bucket.
Section Bucket.
Context `{Float64}.
Implicit Types (l : RateLimiter).

(** Operations on the limiter as its mutex orders them, with the time each reads. *)
Inductive op :=
| OpAllow (n now : Z)
| OpReserve (n now : Z)
| OpSetRate (r now : Z)
| OpClose (now : Z).

Definition opTime (o : op) : Z :=
  match o with OpAllow _ now | OpReserve _ now | OpSetRate _ now | OpClose now => now end.
Definition opBytes (o : op) : Z :=
  match o with OpAllow n _ | OpReserve n _ => n | OpSetRate _ _ | OpClose _ => 0 end.

(** One operation: when its bytes may pass (after the sleep for a reservation), if they may. *)
Definition step (o : op) l : option Z * RateLimiter :=
  match o with
  | OpAllow n now =>
      let '((ok, err), l') := allow n now l in
      (if ok then match err with None => Some now | Some _ => None end else None, l')
  | OpReserve n now =>
      let '((wait, err), l') := reserve n now l in
      (match err with None => Some (now + wait) | Some _ => None end, l')
  | OpSetRate r now => (None, SetRate r now l)
  | OpClose _ => (None, Close l)
  end.

(** The bytes that have passed by time [T]. *)
Definition passed (T : Z) (o : op) (go : option Z) : Z :=
  match go with Some g => if g <=? T then opBytes o else 0 | None => 0 end.

Fixpoint released (T : Z) (ops : list op) l : Z :=
  match ops with
  | [] => 0
  | o :: ops => let (go, l') := step o l in passed T o go + released T ops l'
  end.

(** One burst and what the rate earns from [t0] to [T]. *)
Definition budget l (t0 T : Z) : Q :=
  (inject_Z (burst l) + inject_Z (rate l) * (inject_Z (T - t0) / inject_Z Second))%Q.

(** The budgets of the rates that are set later. *)
Fixpoint laterBudgets (T : Z) (ops : list op) l : Q :=
  match ops with
  | [] => 0
  | o :: ops =>
      let l' := (step o l).2 in
      match o with
      | OpSetRate _ now => budget l' now (Z.max now (T + 1))
      | _ => 0
      end + laterBudgets T ops l'
  end%Q.

(** What the calls must satisfy: times do not go backwards, rates are positive, no call is for
    more than a burst, and no magnitude of an open limiter, the debt included, exceeds [B]. *)
Definition small (B : Q) (now : Z) l : Prop :=
  (- B <= tokens l)%Q /\ (inject_Z (burst l) <= B)%Q /\
  (inject_Z (rate l) * (inject_Z (now - default now (last l)) / inject_Z Second + 4) <= B)%Q.

Definition opOk (B : Q) (o : op) l : Prop :=
  match o with
  | OpAllow n now | OpReserve n now => 0 < n /\ (closed l = false -> n <= burst l /\ small B now l)
  | OpSetRate r _ => 0 < r <= 2 ^ 53
  | OpClose _ => True
  end.

Fixpoint opsOk (B : Q) (t : Z) (ops : list op) l : Prop :=
  match ops with
  | [] => True
  | o :: ops => t <= opTime o /\ opOk B o l /\ opsOk B (opTime o) ops (step o l).2
  end.

(** The allowance for the rounding errors of one call. *)
Definition slack (B : Q) : Q := 32 * (halfUlp * (B + 1)).

Definition active l : Prop :=
  limiter_ok l /\ closed l = false /\ disabled l = false /\ 0 < rate l <= 2 ^ 53.

(** The clock difference saturates, which only under-counts. *)
Lemma elapsed_le lst now :
  lst <= now ->
  let D := (inject_Z (now - lst) / inject_Z Second)%Q in
  (0 <= seconds (timeSub now lst) <= D + halfUlp * (D + 4))%Q.
Proof.
  intros Hle D. set (d := timeSub now lst).
  assert (0 <= d <= now - lst /\ d <= int64_max) as [Hd Hd'] by (unfold d, timeSub; unfold64; lia).
  assert (0 <= inject_Z d / inject_Z Second <= D)%Q as HD.
  { split; [apply Qmult_le_0_compat; [apply inject_Z_nonneg; lia | done]|].
    apply Qmult_le_compat_r; [rewrite <- Zle_Qle; lia | done]. }
  assert (inject_Z d / inject_Z Second ==
    inject_Z (Z.quot d Second) + inject_Z (Z.rem d Second) / inject_Z Second)%Q as Hsplit.
  { rewrite (Z.quot_rem' d Second) at 1. rewrite inject_Z_plus, inject_Z_mult. field. done. }
  assert (0 <= Z.quot d Second <= 2 ^ 53) as Hq.
  { split; [apply Z.quot_pos; unfold Second; lia|].
    pose proof (Z.quot_le_mono d int64_max Second ltac:(unfold Second; lia) ltac:(lia)) as Hm.
    etrans; [exact Hm|]. by vm_compute. }
  pose proof (Z.rem_bound_pos d Second ltac:(lia) ltac:(unfold Second; lia)) as Hr.
  assert (0 <= inject_Z (Z.rem d Second) / inject_Z Second <= 1)%Q as Hf.
  { split; [apply Qmult_le_0_compat; [apply inject_Z_nonneg; lia | done]|].
    apply Qle_shift_div_r; [done|]. rewrite Qmult_1_l. rewrite <- Zle_Qle. lia. }
  unfold seconds, fadd, fdiv. rewrite !ofInt_exact by (unfold Second in *; lia).
  set (f := (inject_Z (Z.rem d Second) / inject_Z Second)%Q) in *.
  pose proof (inject_Z_nonneg (Z.quot d Second) ltac:(lia)) as Hq0.
  set (q := inject_Z (Z.quot d Second)) in *.
  pose proof (rnd_nonneg f ltac:(lra)) as Hf0.
  pose proof (rnd_within 1 halfUlp 1 f ltac:(lra) ltac:(ring) ltac:(lra)) as Hf1.
  set (f' := rnd f) in *. split; [apply rnd_nonneg; lra|].
  assert (0 < halfUlp < 1 # 8)%Q as Hu by (by split).
  pose proof (rnd_within 1 halfUlp (q + f + 1) (q + f') ltac:(lra) ltac:(ring) ltac:(lra)) as Hs.
  assert (halfUlp * (q + f) <= halfUlp * D)%Q as Hm.
  { rewrite !(Qmult_comm halfUlp). apply Qmult_le_compat_r; [lra | lra]. }
  generalize dependent halfUlp. intros u. generalize dependent (rnd (q + f')%Q). intros. lra.
Qed.

Section Errors.
Context (B : Q) (B_nonneg : (0 <= B)%Q).
Let b : Q := (B + 1)%Q.
Let c : Q := (halfUlp * b)%Q.

Lemma unit_le : (0 <= c <= b)%Q.
Proof.
  unfold c. split; [apply Qmult_le_0_compat; unfold b; [done | lra]|].
  rewrite <- (Qmult_1_l b) at 2. apply Qmult_le_compat_r; [done | unfold b; lra].
Qed.

Lemma rnd_units k x : (- (k * b) <= x <= k * b)%Q -> (x - (k + 1) * c <= rnd x <= x + (k + 1) * c)%Q.
Proof. apply rnd_within; [unfold b; lra | unfold c; ring]. Qed.

(** Products with the rate. *)
Lemma rate_error (R D : Q) : (0 <= R)%Q -> (R * (D + 4) <= B)%Q -> (R * (halfUlp * (D + 4)) <= c)%Q.
Proof.
  intros HR HB. setoid_replace (R * (halfUlp * (D + 4)))%Q with (halfUlp * (R * (D + 4)))%Q using relation Qeq by ring.
  unfold c, b. rewrite !(Qmult_comm halfUlp). apply Qmult_le_compat_r; [lra | done].
Qed.

Lemma refill_tokens lst now l :
  active l -> last l = Some lst -> lst <= now -> small B now l ->
  (tokens (refill now l) <= tokens l + inject_Z (rate l) * (inject_Z (now - lst) / inject_Z Second) + 11 * c)%Q.
Proof.
  intros (Hok & _ & _ & Hr) Hlast Hle (Ht & Hb & Hsm). rewrite Hlast in Hsm. simpl in Hsm.
  pose proof (lo_full l Hok) as Hfull. pose proof unit_le as Hc. pose proof (ofInt_burst l Hok) as Eb.
  assert (b == B + 1)%Q as EB by reflexivity.
  pose proof (elapsed_le lst now Hle) as He. cbv zeta in He.
  set (D := (inject_Z (now - lst) / inject_Z Second)%Q) in *.
  assert (0 <= D)%Q as HD by (apply Qmult_le_0_compat; [apply inject_Z_nonneg; lia | done]).
  unfold refill. rewrite Hlast. cbv zeta. cbn [default]. change (id lst) with lst in *.
  assert (ofInt (rate l) == inject_Z (rate l))%Q as Er by (apply ofInt_exact; lia).
  pose proof (inject_Z_nonneg (rate l) ltac:(lia)) as HR. set (R := inject_Z (rate l)) in *.
  pose proof (rate_error R D HR Hsm) as Hre.
  assert (0 <= R * D)%Q as HRD by (by apply Qmult_le_0_compat).
  assert (R * (D + 4) == R * D + 4 * R)%Q as E4 by ring. rewrite E4 in Hsm.
  set (e := seconds (timeSub now lst)) in *.
  assert (0 <= e * R <= R * D + c)%Q as Hx.
  { split; [apply Qmult_le_0_compat; [apply He | done]|]. eapply Qle_trans.
    - apply Qmult_le_compat_r; [apply He | done].
    - setoid_replace ((D + halfUlp * (D + 4)) * R)%Q with (R * D + R * (halfUlp * (D + 4)))%Q using relation Qeq by ring. lra. }
  assert (fmadd e (ofInt (rate l)) (tokens l) <= tokens l + R * D + 11 * c)%Q as Hf.
  { unfold fmadd, fadd, fmul. destruct fused; rewrite Er; fold R.
    - pose proof (rnd_units 3 (e * R + tokens l) ltac:(lra)). lra.
    - pose proof (rnd_units 2 (e * R) ltac:(lra)) as Hm. pose proof (rnd_nonneg (e * R) ltac:(lra)).
      assert (rnd (e * R) <= B + 4 * c)%Q by lra.
      assert (- (6 * b) <= rnd (e * R) + tokens l <= 6 * b)%Q as Hsum by (split; lra).
      pose proof (rnd_units 6 _ Hsum). lra. }
  case_Qltb; cbn [tokens]; [case_Qltb|]; lra.
Qed.

(** A call for at most a burst is charged whole. *)
Lemma need_exact n l : limiter_ok l -> 0 < n <= burst l -> (need n l == inject_Z n)%Q.
Proof.
  intros Hok Hn. pose proof (lo_burst l Hok). unfold need.
  pose proof (ofInt_burst l Hok) as Eb. assert (ofInt n == inject_Z n)%Q as En.
  { apply ofInt_exact. unfold maxBurst in *. lia. }
  rewrite (proj2 (Qltb_false _ _)); [done|]. rewrite Eb, En, <- Zle_Qle. lia.
Qed.

Lemma fsub_units x y : (- b <= x <= b)%Q -> (- b <= y <= b)%Q -> (x - y - 3 * c <= fsub x y <= x - y + 3 * c)%Q.
Proof. intros Hx Hy. pose proof (rnd_units 2 (x - y) ltac:(lra)). unfold fsub. lra. Qed.

(** The sleep of a reservation covers what is missing, to the nanosecond. *)
Lemma wait_covers missing r :
  0 < r <= 2 ^ 53 -> (inject_Z r <= b)%Q -> (0 <= missing <= 5 * b)%Q ->
  let wait := toInt (fmul (fdiv missing (ofInt r)) (ofInt Second)) in
  0 <= wait /\ (missing <= inject_Z r * (inject_Z (wait + 1) / inject_Z Second) + 18 * c)%Q.
Proof.
  intros Hr Hrb Hm wait. pose proof unit_le as Hc.
  assert (1 <= inject_Z r)%Q as HR by (change 1%Q with (inject_Z 1); rewrite <- Zle_Qle; lia).
  assert (ofInt r == inject_Z r)%Q as Er by (apply ofInt_exact; lia).
  assert (ofInt Second == inject_Z Second)%Q as Es by (apply ofInt_exact; unfold Second; lia).
  set (R := inject_Z r) in *. assert (~ R == 0)%Q as HR0 by (intros E; lra).
  set (m := (missing / R)%Q). assert (0 <= m)%Q as Hm0 by (apply Qmult_le_0_compat; [lra | apply Qinv_le_0_compat; lra]).
  assert (R * m == missing)%Q as ERm by (unfold m; by field).
  set (x1 := rnd m). assert (0 <= x1)%Q as Hx0 by (by apply rnd_nonneg).
  assert (missing - 6 * c <= R * x1 <= missing + 6 * c)%Q as Hx1.
  { pose proof (rnd_within 1 halfUlp m m ltac:(lra) ltac:(ring) ltac:(lra)) as Hw. fold x1 in Hw.
    assert (R * ((m + 1) * halfUlp) <= 6 * c)%Q as Herr.
    { setoid_replace (R * ((m + 1) * halfUlp))%Q with (halfUlp * (R * m + R))%Q using relation Qeq by ring.
      setoid_replace (6 * c)%Q with (halfUlp * (6 * b))%Q using relation Qeq by (unfold c; ring).
      rewrite !(Qmult_comm halfUlp). apply Qmult_le_compat_r; [rewrite ERm; lra | done]. }
    assert (R * (m - (m + 1) * halfUlp) <= R * x1 <= R * (m + (m + 1) * halfUlp))%Q as Hwr.
    { rewrite !(Qmult_comm R). split; apply Qmult_le_compat_r; try apply Hw; lra. }
    setoid_replace (R * (m - (m + 1) * halfUlp))%Q with (R * m - R * ((m + 1) * halfUlp))%Q using relation Qeq in Hwr by ring.
    setoid_replace (R * (m + (m + 1) * halfUlp))%Q with (R * m + R * ((m + 1) * halfUlp))%Q using relation Qeq in Hwr by ring.
    lra. }
  set (S := inject_Z Second) in *. assert (S == 1000000000)%Q as ES by done.
  set (x2 := rnd (x1 * S)). assert (0 <= x1 * S)%Q as Hs0 by (apply Qmult_le_0_compat; [done | by rewrite ES]).
  assert (0 <= x2)%Q as Hx20 by (by apply rnd_nonneg).
  assert (R * x1 - 12 * c <= R * (x2 / S))%Q as Hx2.
  { pose proof (rnd_within 1 halfUlp (x1 * S) (x1 * S) ltac:(lra) ltac:(ring) ltac:(lra)) as Hw. fold x2 in Hw.
    assert (R * ((x1 * S + 1) * halfUlp / S) <= 12 * c)%Q as Herr.
    { setoid_replace (R * ((x1 * S + 1) * halfUlp / S))%Q with (halfUlp * (R * x1 + R / S))%Q
        using relation Qeq by (field; by rewrite ES).
      setoid_replace (12 * c)%Q with (halfUlp * (12 * b))%Q using relation Qeq by (unfold c; ring).
      assert (R / S <= R)%Q as HRS.
      { apply Qle_shift_div_r; [by rewrite ES|]. rewrite ES. lra. }
      rewrite !(Qmult_comm halfUlp). apply Qmult_le_compat_r; [lra | done]. }
    assert (R * ((x1 * S - (x1 * S + 1) * halfUlp) / S) <= R * (x2 / S))%Q as Hwr.
    { rewrite !(Qmult_comm R). apply Qmult_le_compat_r; [|lra]. apply Qmult_le_compat_r; [apply Hw|by rewrite ES]. }
    setoid_replace (R * ((x1 * S - (x1 * S + 1) * halfUlp) / S))%Q
      with (R * x1 - R * ((x1 * S + 1) * halfUlp / S))%Q using relation Qeq in Hwr by (field; by rewrite ES).
    lra. }
  assert (fmul (fdiv missing (ofInt r)) (ofInt Second) == x2)%Q as Ex.
  { unfold fmul, fdiv, x2, x1, m. by rewrite Er, Es. }
  set (y := fmul _ _) in *. assert (0 <= y)%Q as Hy by lra.
  assert (wait = Qfloor y) as Hw.
  { unfold wait, toInt, Qfloor. destruct y as [p q]. simpl. apply Z.quot_div_nonneg; [|lia].
    unfold Qle in Hy. simpl in Hy. lia. }
  clearbody wait. subst wait. split; [by apply Qfloor_resp_le in Hy|].
  pose proof (Qlt_floor y) as Hf. apply Qlt_le_weak in Hf.
  assert (R * (x2 / S) <= R * (inject_Z (Qfloor y + 1) / S))%Q as Hl; [|lra].
  rewrite !(Qmult_comm R). apply Qmult_le_compat_r; [|lra].
  apply Qmult_le_compat_r; [by rewrite <- Ex | by rewrite ES].
Qed.
Lemma budget_shift l t0 x y :
  (budget l t0 y == budget l t0 x + inject_Z (rate l) * (inject_Z (y - x) / inject_Z Second))%Q.
Proof.
  unfold budget. replace (y - t0) with ((x - t0) + (y - x)) by lia.
  rewrite (inject_Z_plus (x - t0)). unfold Qdiv. ring.
Qed.

Lemma budget_mono l t0 x y : 0 <= rate l -> x <= y -> (budget l t0 x <= budget l t0 y)%Q.
Proof.
  intros Hr Hxy. rewrite (budget_shift l t0 x y).
  assert (0 <= inject_Z (rate l) * (inject_Z (y - x) / inject_Z Second))%Q; [|lra].
  apply Qmult_le_0_compat; [by apply inject_Z_nonneg|].
  apply Qmult_le_0_compat; [apply inject_Z_nonneg; lia | done].
Qed.

Lemma budget_nonneg l t0 x : active l -> t0 <= x -> (0 <= budget l t0 x)%Q.
Proof.
  intros (Hok & _ & _ & Hr) Hx. pose proof (lo_burst l Hok). unfold budget.
  assert (0 <= inject_Z (rate l) * (inject_Z (x - t0) / inject_Z Second))%Q.
  { apply Qmult_le_0_compat; [apply inject_Z_nonneg; lia|].
    apply Qmult_le_0_compat; [apply inject_Z_nonneg; lia | done]. }
  pose proof (inject_Z_nonneg (burst l) ltac:(lia)). lra.
Qed.

(** The potential argument: what was charged since [t0] plus what is left never exceeds the
    budget, up to the rounding errors so far. *)
Definition within (t0 now charged : Z) (eps : Q) l : Prop :=
  active l /\ exists lst, last l = Some lst /\ t0 <= lst <= now /\
  (inject_Z charged + tokens l <= budget l t0 lst + eps)%Q.

Lemma within_mono t0 now charged eps eps' l :
  (eps <= eps')%Q -> within t0 now charged eps l -> within t0 now charged eps' l.
Proof. intros He (Ha & lst & Hl & Hlst & Hw). split; [done|]. exists lst. do 2 (split; [done|]). lra. Qed.

Lemma refill_within t0 t charged eps now l :
  within t0 t charged eps l -> t <= now -> small B now l ->
  within t0 now charged (eps + 11 * c) (refill now l).
Proof.
  intros (Ha & lst & Hlast & Hlst & Hw) Hle Hs. pose proof Ha as (Hok & Hc & Hd & Hr).
  pose proof (refill_tokens lst now l Ha Hlast ltac:(lia) Hs) as Ht. pose proof unit_le as Hcu.
  destruct (refill_config now l) as (Er & Eb & Ed & Ec). pose proof (budget_shift l t0 lst now) as Hsh.
  split; [split; [by apply refill_ok | by rewrite Ec, Ed, Er]|].
  assert (last (refill now l) = Some now \/
    last (refill now l) = Some lst /\ tokens (refill now l) = tokens l) as [E|[E E']].
  { unfold refill. rewrite Hlast. simpl. destruct (Qltb 0 _); [by left | by right]. }
  - exists now. split; [done|]. split; [lia|]. unfold budget in *. rewrite Er, Eb. lra.
  - exists lst. split; [done|]. split; [lia|]. unfold budget in *. rewrite Er, Eb, E'. lra.
Qed.

(** The magnitudes that occur in a call. *)
Lemma call_sizes t0 t charged eps now n l :
  within t0 t charged eps l -> t <= now -> small B now l -> 0 < n <= burst l ->
  (- b <= tokens (refill now l) <= b)%Q /\ (0 <= inject_Z n <= b)%Q /\ (inject_Z (rate l) <= b)%Q.
Proof.
  intros (Ha & lst & Hlast & Hlst & _) Hle (Ht & Hb & Hs) Hn. pose proof Ha as (Hok & _ & _ & Hr).
  pose proof (refill_ge now l Hok ltac:(lia)). pose proof (lo_full _ (refill_ok now l Hok)) as Hf.
  destruct (refill_config now l) as (_ & Eb & _). rewrite Eb in Hf.
  assert (inject_Z n <= inject_Z (burst l))%Q by (rewrite <- Zle_Qle; lia).
  pose proof (inject_Z_nonneg n ltac:(lia)). pose proof (inject_Z_nonneg (rate l) ltac:(lia)).
  rewrite Hlast in Hs. simpl in Hs. change (id lst) with lst in Hs.
  assert (0 <= inject_Z (rate l) * (inject_Z (now - lst) / inject_Z Second))%Q.
  { apply Qmult_le_0_compat; [done|]. apply Qmult_le_0_compat; [apply inject_Z_nonneg; lia | done]. }
  rewrite Qmult_plus_distr_r in Hs. unfold b. lra.
Qed.

Lemma spend_within t0 now charged eps n l :
  within t0 now charged eps l -> 0 < n <= burst l -> (- b <= tokens l <= b)%Q -> (0 <= inject_Z n <= b)%Q ->
  within t0 now (charged + n) (eps + 3 * c) (spend n l).
Proof.
  intros (Ha & lst & Hlast & Hlst & Hw) Hn Ht Hnb. pose proof Ha as (Hok & Hcl).
  split; [split; [apply spend_ok; [done | lia] | done]|].
  exists lst. split; [done|]. split; [done|]. unfold budget in *. simpl.
  pose proof (need_exact n l Hok Hn) as En.
  pose proof (fsub_units (tokens l) (need n l) ltac:(done) ltac:(split; lra)).
  rewrite inject_Z_plus. lra.
Qed.

(** After a call that lets bytes pass at time [g], everything charged so far fits the budget at
    [g], one nanosecond allowed for the truncated sleep. *)
Definition charges (o : op) : bool := match o with OpAllow _ _ | OpReserve _ _ => true | _ => false end.

Lemma call_within t0 t charged eps o l go l' :
  charges o = true -> within t0 t charged eps l -> t <= opTime o -> opOk B o l -> step o l = (go, l') ->
  burst l' = burst l /\ rate l' = rate l /\
  match go with
  | None => within t0 (opTime o) charged (eps + 32 * c) l'
  | Some g =>
      opTime o <= g /\ within t0 (opTime o) (charged + opBytes o) (eps + 32 * c) l' /\
      (inject_Z (charged + opBytes o) <= budget l t0 (g + 1) + (eps + 32 * c))%Q
  end.
Proof.
  intros Ho Hw Hle Hok. pose proof Hw as ((_ & Hc & Hd & Hr) & _).
  pose proof unit_le as Hcu. assert (b == B + 1)%Q as EB by reflexivity.
  destruct o as [n now|n now| |]; try done; simpl in *; clear Ho;
    destruct Hok as [Hn Hok]; destruct (Hok Hc) as [Hnb Hs]; unfold allow, reserve; rewrite Hc;
    (replace (passive n l) with false by (symmetry; apply passive_false; split_and!; [done | lia | done])); cbv zeta;
    destruct (call_sizes t0 t charged eps now n l Hw Hle Hs ltac:(lia)) as (Ht & Hni & HR);
    pose proof (refill_within t0 t charged eps now l Hw Hle Hs) as Hw';
    destruct (refill_config now l) as (Er & Eb & _ & _);
    set (m := refill now l) in *; clearbody m;
    pose proof (spend_within t0 now charged _ n m Hw' ltac:(lia) Ht Hni) as Hsp;
    pose proof Hw' as ((Hokm & _) & lst & _ & Hlst & Hb);
    pose proof (need_exact n m Hokm ltac:(lia)) as En;
    assert (budget m t0 lst <= budget l t0 (now + 1))%Q as Hbm
      by (unfold budget; rewrite Er, Eb; apply (budget_mono l t0 lst (now + 1)); lia);
    (apply (within_mono _ _ _ _ (eps + 32 * c)) in Hsp; [|lra]); case_Qltb.
  - intros [= <- <-]. split; [done|]. split; [done|]. revert Hw'. apply within_mono. lra.
  - intros [= <- <-]. split; [done|]. split; [done|]. split; [lia|]. split; [done|].
    rewrite inject_Z_plus. lra.
  - intros [= <- <-]. split; [done|]. split; [done|].
    pose proof (fsub_units (need n m) (tokens m) ltac:(split; lra) Ht) as Hf.
    assert (0 <= fsub (need n m) (tokens m))%Q as Hf0 by (apply rnd_nonneg; lra).
    assert (0 <= fsub (need n m) (tokens m) <= 5 * b)%Q as Hf5 by (split; lra).
    destruct (wait_covers (fsub (need n m) (tokens m)) (rate l) ltac:(lia) HR Hf5) as [Hw0 Hcov].
    rewrite Er. set (w := toInt _) in *. clearbody w. split; [lia|]. split; [done|].
    rewrite inject_Z_plus. pose proof (budget_shift l t0 now (now + w + 1)) as Hsh.
    replace (now + w + 1 - now) with (w + 1) in Hsh by lia.
    assert (budget m t0 lst <= budget l t0 now)%Q
      by (unfold budget; rewrite Er, Eb; apply (budget_mono l t0 lst now); lia).
    lra.
  - intros [= <- <-]. split; [done|]. split; [done|]. rewrite Z.add_0_r. split; [lia|]. split; [done|].
    rewrite inject_Z_plus. lra.
Qed.
Lemma SetRate_within r now l :
  limiter_ok l -> 0 < r <= 2 ^ 53 -> within now now 0 0 (SetRate r now l).
Proof.
  intros Hok Hr. pose proof (SetRate_ok r now l Hok) as Hok'. split.
  - split; [done|]. unfold SetRate. cbv zeta. rewrite (proj2 (Z.leb_gt r 0)) by lia. simpl. split_and!; done || lia.
  - exists now. split; [unfold SetRate; cbv zeta; by rewrite (proj2 (Z.leb_gt r 0)) by lia|]. split; [lia|].
    pose proof (lo_full _ Hok'). unfold budget. rewrite Z.sub_diag.
    assert (inject_Z 0 / inject_Z Second == 0)%Q as -> by done. change (inject_Z 0) with 0%Q. lra.
Qed.

Lemma closed_step o l : charges o = true -> closed l = true -> step o l = (None, l).
Proof. intros Ho Hc. destruct o; simpl in *; try done; unfold allow, reserve; by rewrite Hc. Qed.

(** What passes by [T]: the bytes of the present rate, within its budget, and those of the
    rates set later; [n1] and [n2] count the operations of either. *)
Lemma released_split T ops t l :
  limiter_ok l -> opsOk B t ops l ->
  (closed l = true -> exists n : nat, (n <= length ops)%nat /\
    (inject_Z (released T ops l) <= laterBudgets T ops l + inject_Z (Z.of_nat n) * (32 * c))%Q) /\
  forall t0 charged eps, within t0 t charged eps l -> exists (R rest : Z) (n1 n2 : nat),
    released T ops l = R + rest /\ 0 <= R /\ (n1 + n2 <= length ops)%nat /\
    (R = 0 \/ (inject_Z (charged + R) <= budget l t0 (T + 1) + eps + inject_Z (Z.of_nat n1) * (32 * c))%Q) /\
    (inject_Z rest <= laterBudgets T ops l + inject_Z (Z.of_nat n2) * (32 * c))%Q.
Proof.
  revert t l. induction ops as [|o ops IH]; intros t l Hok Hops.
  { assert (inject_Z 0 <= 0 + inject_Z 0 * (32 * c))%Q as H0 by (change (inject_Z 0) with 0%Q; lra).
    split; [by exists O|]. intros t0 charged eps Hw. exists 0, 0, O, O. simpl. split_and!; lia || done. }
  destruct Hops as (Hle & Ho & Hops). pose proof unit_le as Hcu. cbn [released laterBudgets].
  destruct (step o l) as [go l'] eqn:Es. cbn [snd] in Hops |- *. assert (limiter_ok l') as Hok'.
  { destruct o; simpl in Es; [destruct (allow n now l) as [[] ?] eqn:E | destruct (reserve n now l) as [[] ?] eqn:E | |];
      injection Es as _ <-; [| |by apply SetRate_ok | apply Close_ok].
    - pose proof (allow_ok n now l Hok). by rewrite E in *.
    - pose proof (reserve_ok n now l Hok). by rewrite E in *. }
  destruct (IH (opTime o) l' Hok' Hops) as [IHc IHw].
  destruct (charges o) eqn:Hch.
  - assert (match o with OpSetRate _ now => budget l' now (Z.max now (T + 1)) | _ => 0 end = 0)%Q as ->
      by (by destruct o). split.
    + intros Hc. rewrite (closed_step o l Hch Hc) in Es. injection Es as <- <-.
      destruct (IHc Hc) as (n & Hn & Hb). exists n. simpl. split; [lia|]. rewrite Qplus_0_l. exact Hb.
    + intros t0 charged eps Hw.
      destruct (call_within t0 t charged eps o l go l' Hch Hw Hle Ho Es) as (Eb & Er & Hgo).
      assert (0 <= opBytes o) as Hn0 by (destruct o; simpl in *; try done; lia).
      assert (forall x, budget l' t0 x = budget l t0 x) as Ebud by (intros; unfold budget; by rewrite Eb, Er).
      assert (exists charged', within t0 (opTime o) charged' (eps + 32 * c) l' /\
        (forall g, go = Some g -> charged' = charged + opBytes o /\ opTime o <= g /\
          (inject_Z charged' <= budget l t0 (g + 1) + (eps + 32 * c))%Q) /\
        (go = None -> charged' = charged)) as (charged' & Hw' & Hsome & Hnone).
      { destruct go as [g|]; [|by exists charged]. destruct Hgo as (? & ? & ?).
        exists (charged + opBytes o). split; [done|]. split; [by intros ? [= <-] | done]. }
      destruct (IHw t0 charged' _ Hw') as (R & rest & n1 & n2 & E & HR & Hn & Hin & Hrest).
      exists (passed T o go + R), rest, (S n1), n2. rewrite E. simpl length.
      assert (0 <= passed T o go) by (unfold passed; destruct go as [g|]; [destruct (g <=? T)|]; lia).
      split_and!; try lia; [|rewrite Qplus_0_l; exact Hrest].
      assert (inject_Z (Z.of_nat (S n1)) * (32 * c) == inject_Z (Z.of_nat n1) * (32 * c) + 32 * c)%Q as ES.
      { rewrite Nat2Z.inj_succ, <- Z.add_1_r, inject_Z_plus. change (inject_Z 1) with 1%Q. ring. }
      rewrite Ebud in Hin. pose proof (inject_Z_nonneg (Z.of_nat n1) ltac:(lia)) as Hn1.
      pose proof (Qmult_le_0_compat _ (32 * c) Hn1 ltac:(lra)) as Hn1c.
      destruct go as [g|]; simpl passed.
      * destruct (Hsome g eq_refl) as (-> & Hg & Hcg). destruct Hin as [->|Hin].
        -- destruct (g <=? T) eqn:Eg; bool_inv; [right | by left]. rewrite Z.add_0_r.
           pose proof (budget_mono l t0 (g + 1) (T + 1) ltac:(destruct Hw as ((_ & _ & _ & ?) & _); lia) ltac:(lia)). lra.
        -- right. eapply Qle_trans; [|eapply Qle_trans; [exact Hin | lra]]. rewrite <- Zle_Qle.
           destruct (g <=? T); lia.
      * rewrite (Hnone eq_refl) in *. destruct Hin as [->|Hin]; [by left | right]. rewrite Z.add_0_l. lra.
  - assert (go = None) as -> by (destruct o; try done; by injection Es as <- _). simpl passed. rewrite Z.add_0_l.
    destruct o as [| |r now|now]; try done; injection Es as <-; cbn [opTime opOk] in *.
    + pose proof (SetRate_within r now l Hok Ho) as Hw'.
      destruct (IHw now 0 0%Q Hw') as (R & rest & n1 & n2 & E & HR & Hn & Hin & Hrest).
      set (l' := SetRate r now l) in *.
      assert (exists n : nat, (n <= S (length ops))%nat /\
        (inject_Z (released T ops l') <= budget l' now (Z.max now (T + 1)) + laterBudgets T ops l' +
          inject_Z (Z.of_nat n) * (32 * c))%Q) as (n & Hn' & Hb).
      { exists (n1 + n2)%nat. split; [lia|]. rewrite E, Nat2Z.inj_add, !inject_Z_plus, Qmult_plus_distr_l.
        pose proof (inject_Z_nonneg (Z.of_nat n1) ltac:(lia)) as Hn1.
        pose proof (Qmult_le_0_compat _ (32 * c) Hn1 ltac:(lra)) as Hn1c.
        pose proof (budget_nonneg l' now (Z.max now (T + 1)) (proj1 Hw') ltac:(lia)).
        destruct Hw' as ((_ & _ & _ & Hr') & _).
        pose proof (budget_mono l' now (T + 1) (Z.max now (T + 1)) ltac:(lia) ltac:(lia)).
        rewrite Z.add_0_l in Hin. destruct Hin as [->|Hin]; [|lra]. change (inject_Z 0) with 0%Q. lra. }
      split; [intros _; exists n; simpl; done|].
      intros t0 charged eps Hw. exists 0, (released T ops l'), O, n. simpl. split_and!; lia || done.
    + destruct (IHc eq_refl) as (n & Hn & Hb). split; [intros _; exists n; simpl; split; [lia|]; by rewrite Qplus_0_l|].
      intros t0 charged eps Hw. exists 0, (released T ops (Close l)), O, n. simpl. split_and!; try lia.
      by rewrite Qplus_0_l.
Qed.
End Errors.

(** C5. The rate is kept.  Take any sequence of the limiter's operations, in the order its mutex
    gives them (so every interleaving of the connections that share it), rate changes and
    closings included, in which times do not go backwards, rates are positive and at most 2^53,
    and every call is for at most a burst, as the chunks of [Write] and packets of up to 64 KiB
    are.  Then the bytes let through by time [T] are at most one burst plus the rate times the
    time since [t0], and the same for every rate set later from when it is set; with a
    nanosecond for the truncated sleeps, and for every call a rounding allowance of 2^-48 times
    a bound on the magnitudes that occur, the debt of the bucket included. *)
Theorem rate_bound (B : Q) ops t0 T l :
  active l -> last l = Some t0 -> opsOk B t0 ops l -> t0 <= T -> (0 <= B)%Q ->
  (inject_Z (released T ops l) <=
   budget l t0 (T + 1) + laterBudgets T ops l + inject_Z (Z.of_nat (length ops)) * slack B)%Q.
Proof.
  intros Ha Hl Hops Ht HB. pose proof Ha as (Hok & _).
  assert (within t0 t0 0 0 l) as Hw.
  { split; [done|]. exists t0. split; [done|]. split; [lia|]. pose proof (lo_full l Hok). unfold budget.
    rewrite Z.sub_diag. assert (inject_Z 0 / inject_Z Second == 0)%Q as -> by done. change (inject_Z 0) with 0%Q. lra. }
  destruct (released_split B HB T ops t0 l Hok Hops) as [_ Hs].
  destruct (Hs t0 0 0%Q Hw) as (R & rest & n1 & n2 & E & HR & Hn & Hin & Hrest).
  rewrite E, inject_Z_plus. pose proof (budget_nonneg l t0 (T + 1) Ha ltac:(lia)) as Hb.
  pose proof (unit_le B HB) as Hcu. fold (slack B) in Hin, Hrest.
  assert (0 <= slack B)%Q as Hs0 by (unfold slack; lra).
  assert (inject_Z (Z.of_nat n1) * slack B + inject_Z (Z.of_nat n2) * slack B <=
    inject_Z (Z.of_nat (length ops)) * slack B)%Q as Hsum.
  { rewrite <- Qmult_plus_distr_l, <- inject_Z_plus. apply Qmult_le_compat_r; [rewrite <- Zle_Qle; lia | done]. }
  pose proof (inject_Z_nonneg (Z.of_nat n1) ltac:(lia)) as Hn1.
  pose proof (Qmult_le_0_compat _ _ Hn1 Hs0). rewrite Z.add_0_l in Hin.
  destruct Hin as [->|Hin]; [change (inject_Z 0) with 0%Q; lra | lra].
Qed.
End Bucket.

(** Two writers and one packet at 1 MB/s: 200 kB pass at once, 50 kB after 50 ms.  The rate is
    halved while one of the writers sleeps, which forgives its debt; a packet passes at the new
    rate, and none after the limiter is closed. *)
Lemma rate_bound_witness :
  let _ := exact_float in
  let l := mkLimiter 1000000 200000 200000 (Some 0) false false in
  let ops := [OpReserve 150000 0; OpReserve 50000 0; OpReserve 50000 0; OpAllow 1000 1;
              OpSetRate 500000 10000000; OpAllow 1000 20000000; OpClose 30000000; OpAllow 1000 40000000] in
  released 49999999 ops l = 201000 /\ released 50000000 ops l = 251000 /\
  (inject_Z (released 50000000 ops l) <=
   budget l 0 50000001 + laterBudgets 50000000 ops l + 8 * slack 5000000)%Q.
Proof.
  intros F l ops. split; [vm_compute; reflexivity|]. split; [vm_compute; reflexivity|].
  apply (rate_bound 5000000 ops 0 50000000 l).
  - split; [|by repeat split]. split; simpl; unfold maxBurst, maxWriteChunk; [lia|lia|done|done].
  - reflexivity.
  - vm_compute. intuition discriminate.
  - lia.
  - discriminate.
Defined.
End Bucket.
