(* ===== verification/Inbounds.v ===== *)
(** * User tables of the VLESS and Hysteria2 inbounds

    src/fork/sing-box/protocol/vless/{inbound,vless_user}.go and
    src/fork/sing-box/protocol/hysteria2/{inbound,hysteria2_user}.go.

    The protocol services that authenticate clients are libraries; an inbound's [service]
    field is the table last given to [UpdateUsers].  [userconns] is the inbound's map from
    connection to user, [closedConns] the connections the inbound has closed. *)

From S2P Require Import Prelude GoStrings.

#[local] Open Scope Z_scope.

Abbreviation conn := nat.

(** What becomes of a client connection: handed to the router with its metadata, refused, or
    the goroutine panics on an index out of range. *)
Inductive outcome :=
| Routed (inbound user : string)
| Refused
| Panics.

(** The [Range] over [userconns] that closes the connections of one user. *)
Definition closeUserConns (name : string) (st : gmap conn string * gset conn)
  : gmap conn string * gset conn :=
  (filter (fun '(_, user) => user <> name) st.1,
   st.2 ∪ dom (filter (fun '(_, user) => user = name) st.1)).

Lemma elem_of_closeUserConns names st c :
  c ∈ (foldl (fun st name => closeUserConns name st) st names).2 <->
  c ∈ st.2 \/ exists name, name ∈ names /\ st.1 !! c = Some name.
Proof.
  revert st. induction names as [|n names IH]; intros st; simpl; [set_solver|].
  rewrite IH. unfold closeUserConns; simpl. rewrite elem_of_union, elem_of_dom.
  setoid_rewrite map_lookup_filter_Some. setoid_rewrite elem_of_cons.
  unfold is_Some. setoid_rewrite map_lookup_filter_Some. simpl.
  destruct (st.1 !! c) as [u|]; [destruct (decide (u = n)) as [->|]|]; naive_solver.
Qed.

(** Credentials by user id: what remains of their list when some are deleted. *)
Lemma map_to_list_filter_perm (P : Z * string -> Prop) `{forall x, Decision (P x)} (m : gmap Z string) :
  map_to_list (filter P m) ≡ₚ filter P (map_to_list m).
Proof.
  rewrite map_filter_alt. apply map_to_list_to_map.
  eapply sublist_NoDup; [apply (NoDup_fst_map_to_list m) | apply fmap_sublist, sublist_filter].
Qed.

Lemma filter_snd (names : list string) (l : list (Z * string)) :
  filter (fun p => p ∉ names) l.*2 ≡ₚ (filter (fun '(_, p) => p ∉ names) l).*2.
Proof.
  induction l as [|[i p] l IH]; [done|]. rewrite fmap_cons, !filter_cons. simpl.
  case_decide; simpl; by rewrite IH.
Qed.

Lemma map_to_list_union_perm (es : list (Z * string)) (m : gmap Z string) :
  NoDup es.*1 -> (forall id, id ∈ es.*1 -> m !! id = None) ->
  map_to_list (list_to_map es ∪ m) ≡ₚ es ++ map_to_list m.
Proof.
  induction es as [|[i p] es IH]; intros Hnd Hd; simpl; [by rewrite map_empty_union|].
  apply NoDup_cons in Hnd as [Hi Hnd]. rewrite <- insert_union_l, map_to_list_insert.
  - rewrite IH; [done..|]. intros id Hid. apply Hd. set_solver.
  - apply lookup_union_None. split; [by apply not_elem_of_list_to_map_1|]. apply Hd. set_solver.
Qed.

Module VLESS.

Record VLESSUser := mkVLESSUser {
  Name : string;
  UUID : string;
  Flow : string
}.

#[export] Instance VLESSUser_eq_dec : EqDecision VLESSUser.
Proof. solve_decision. Defined.

Record Inbound := mkInbound {
  users : list VLESSUser;
  service : list (nat * string * string);
  userconns : gmap conn string;
  closedConns : gset conn
}.

(** The three lists given to [UpdateUsers]: indices, UUIDs and flows. *)
Definition serviceRows (us : list VLESSUser) : list (nat * string * string) :=
  imap (fun i u => (i, UUID u, Flow u)) us.

Definition NewInbound (options : list VLESSUser) : Inbound :=
  mkInbound options (serviceRows options) ∅ ∅.

Definition AddUsers (added : list VLESSUser) (h : Inbound) : option error * Inbound :=
  let us := users h ++ added in
  (None, mkInbound us (serviceRows us) (userconns h) (closedConns h)).

Definition DelUsers (names : list string) (h : Inbound) : option error * Inbound :=
  let '(conns, closed) :=
    foldl (fun st name => closeUserConns name st) (userconns h, closedConns h) names in
  let remaining := filter (fun u => Name u ∉ names) (users h) in
  (None, mkInbound remaining (serviceRows remaining) conns closed).

(** [NewConnectionEx]: the connection is registered under the user its metadata names, then
    handed to the service.  [handshake] tells whether TLS succeeded. *)
Definition NewConnectionEx (handshake : bool) (c : conn) (metadataUser : string) (h : Inbound)
  : Inbound :=
  if handshake
  then mkInbound (users h) (service h) (<[c := metadataUser]> (userconns h)) (closedConns h)
  else mkInbound (users h) (service h) (userconns h) ({[c]} ∪ closedConns h).

(** The listener and the transport handler build metadata without a user. *)
Definition acceptConnection (handshake : bool) (c : conn) (h : Inbound) : Inbound :=
  NewConnectionEx handshake c "" h.

(** The handler the service calls with the index of the authenticated user. *)
Definition newConnectionEx (tag : string) (userIndex : option nat) (h : Inbound) : outcome :=
  match userIndex with
  | None => Refused
  | Some i =>
      match users h !! i with
      | None => Panics
      | Some u => Routed tag (Name u)
      end
  end.

(** The handler of packet connections.  The destination [magic] asks for packet addressing,
    which resets the destination. *)
Definition newPacketConnectionEx (magic : string) (tag : string) (destination : string)
    (userIndex : option nat) (h : Inbound) : outcome * string :=
  match userIndex with
  | None => (Refused, destination)
  | Some i =>
      match users h !! i with
      | None => (Panics, destination)
      | Some u => (Routed tag (Name u), if bool_decide (destination = magic) then "" else destination)
      end
  end.

(** The table the service authenticates with is the one of [users]. *)
Definition inbound_ok (h : Inbound) : Prop := service h = serviceRows (users h).

Lemma NewInbound_ok o : inbound_ok (NewInbound o).
Proof. done. Qed.
Lemma AddUsers_ok us h : inbound_ok (AddUsers us h).2.
Proof. done. Qed.
Lemma DelUsers_ok names h : inbound_ok (DelUsers names h).2.
Proof. unfold DelUsers. by destruct (foldl _ _ _). Qed.
Lemma NewConnectionEx_ok b c u h : inbound_ok h -> inbound_ok (NewConnectionEx b c u h).
Proof. by destruct b. Qed.

Lemma DelUsers_users names h :
  users (DelUsers names h).2 = filter (fun u => Name u ∉ names) (users h).
Proof. unfold DelUsers. by destruct (foldl _ _ _). Qed.

Lemma DelUsers_closed names h c :
  c ∈ closedConns (DelUsers names h).2 <->
  c ∈ closedConns h \/ exists name, name ∈ names /\ userconns h !! c = Some name.
Proof.
  unfold DelUsers.
  pose proof (elem_of_closeUserConns names (userconns h, closedConns h) c) as E.
  by destruct (foldl _ _ _).
Qed.

Lemma elem_of_serviceRows i uuid flow us :
  (i, uuid, flow) ∈ serviceRows us <->
  exists u, us !! i = Some u /\ UUID u = uuid /\ Flow u = flow.
Proof.
  unfold serviceRows. rewrite elem_of_lookup_imap. split.
  - intros (j & u & [= -> -> ->] & Hu). eauto.
  - intros (u & Hu & <- & <-). eauto.
Qed.

(** The inbound authenticates exactly the UUIDs of [creds], under names equal to them. *)
Definition userOf (flow uuid : string) : VLESSUser := mkVLESSUser uuid uuid flow.

Definition synced (flow : string) (h : Inbound) (creds : gmap Z string) : Prop :=
  inbound_ok h /\ users h ≡ₚ userOf flow <$> (map_to_list creds).*2.

Lemma AddUsers_synced flow h creds (es : list (Z * string)) :
  synced flow h creds -> NoDup es.*1 -> (forall id, id ∈ es.*1 -> creds !! id = None) ->
  synced flow (AddUsers (userOf flow <$> es.*2) h).2 (list_to_map es ∪ creds).
Proof.
  intros [_ Hp] Hnd Hd. split; [done|]. simpl.
  rewrite Hp, map_to_list_union_perm by done. rewrite !fmap_app. apply Permutation_app_comm.
Qed.

Lemma DelUsers_synced flow names h creds :
  synced flow h creds ->
  synced flow (DelUsers names h).2 (filter (fun '(_, p) => p ∉ names) creds).
Proof.
  intros [_ Hp]. split; [apply DelUsers_ok|].
  rewrite DelUsers_users, Hp, map_to_list_filter_perm. rewrite <- (filter_snd names (map_to_list creds)).
  generalize (map_to_list creds).*2. intros l. induction l as [|p l IH]; [done|].
  rewrite fmap_cons, !filter_cons. simpl. case_decide; simpl; by rewrite IH.
Qed.

(** An index the service returns for a table in use never panics and names its UUID. *)
Lemma synced_route flow h creds tag i uuid f :
  synced flow h creds -> (i, uuid, f) ∈ service h ->
  newConnectionEx tag (Some i) h = Routed tag uuid /\ exists id, creds !! id = Some uuid.
Proof.
  intros [-> Hp] Hin. apply elem_of_serviceRows in Hin as (u & Hu & <- & <-).
  simpl. rewrite Hu. apply list_elem_of_lookup_2 in Hu.
  rewrite Hp, list_elem_of_fmap in Hu. destruct Hu as (p & -> & Hu). split; [done|].
  apply list_elem_of_fmap in Hu as ([id q] & -> & Hq). exists id. by apply elem_of_map_to_list.
Qed.

Lemma synced_service flow h creds uuid :
  synced flow h creds ->
  (exists i f, (i, uuid, f) ∈ service h) <-> exists id, creds !! id = Some uuid.
Proof.
  intros Hs. split; [intros (i & f & Hin); by apply (synced_route flow h creds "" i uuid f)|].
  destruct Hs as [-> Hp]. intros (id & Hid).
  assert (userOf flow uuid ∈ users h) as Hin.
  { rewrite Hp. apply list_elem_of_fmap. exists uuid. split; [done|].
    apply list_elem_of_fmap. exists (id, uuid). split; [done|]. by apply elem_of_map_to_list. }
  apply list_elem_of_lookup_1 in Hin as [i Hi]. exists i, flow.
  apply elem_of_serviceRows. eauto.
Qed.

(** Steps of an inbound whose connections come from its own listener. *)
Inductive step : Inbound -> Inbound -> Prop :=
| step_add us h : step h (AddUsers us h).2
| step_del names h : step h (DelUsers names h).2
| step_accept b c h : step h (acceptConnection b c h)
| step_disconnect c h :
    step h (mkInbound (users h) (service h) (delete c (userconns h)) (closedConns h)).

Lemma closeUserConns_sub names st c u :
  (foldl (fun st name => closeUserConns name st) st names).1 !! c = Some u -> st.1 !! c = Some u.
Proof.
  revert st. induction names as [|n names IH]; intros st; simpl; [done|].
  intros H%IH. simpl in H. by apply map_lookup_filter_Some in H as [? _].
Qed.

(** Connections are registered before they authenticate, all under the empty name. *)
Lemma reachable_anonymous o h c u :
  rtc step (NewInbound o) h -> userconns h !! c = Some u -> u = "".
Proof.
  intros Hr. revert c u. apply (rtc_ind_r (R := step) (fun h => forall c u, userconns h !! c = Some u -> u = "")
    (NewInbound o)); [|clear|exact Hr].
  - intros c u H. simpl in H. by rewrite lookup_empty in H.
  - intros h h' _ Hs IH c u Hc. destruct Hs as [us h|names h|b d h|d h]; simpl in *.
    + by eapply IH.
    + unfold DelUsers in Hc.
      pose proof (closeUserConns_sub names (userconns h, closedConns h) c u) as Hsub.
      destruct (foldl _ _ _); simpl in *. by eapply IH, Hsub.
    + destruct b; simpl in Hc; [|by eapply IH].
      destruct (decide (c = d)) as [->|]; [by rewrite lookup_insert_eq in Hc; injection Hc|].
      rewrite lookup_insert_ne in Hc by done. by eapply IH.
    + apply lookup_delete_Some in Hc as [_ Hc]. by eapply IH.
Qed.

(** C40. Deleting users from a VLESS inbound closes none of their connections: a connection is
    registered before it authenticates, under the empty user name, and no deletion that the
    agent makes names the empty user. *)
Theorem vless_removal_closes_nothing o h names :
  rtc step (NewInbound o) h -> "" ∉ names -> closedConns (DelUsers names h).2 = closedConns h.
Proof.
  intros Hr Hne. apply set_eq. intros c. rewrite DelUsers_closed. split; [|by left].
  intros [?|(name & Hname & Hc)]; [done|].
  apply (reachable_anonymous o h c name Hr) in Hc as ->. done.
Qed.

(** A connection accepted before its user is deleted stays open. *)
Lemma vless_removal_closes_nothing_witness :
  let u := mkVLESSUser "uuid-a" "uuid-a" "xtls-rprx-vision" in
  let h := acceptConnection true 4%nat (NewInbound [u]) in
  closedConns (DelUsers ["uuid-a"] h).2 = closedConns h.
Proof.
  intros u h. apply (vless_removal_closes_nothing [u] h ["uuid-a"]).
  - apply rtc_once. apply step_accept.
  - decide_vm.
Defined.

(** A handshake that authenticated before a deletion and is handled after it is attributed by
    its old index: to another user, or to none with a panic. *)
Theorem vless_stale_index_misattributed :
  let h := NewInbound [mkVLESSUser "alice" "alice" ""; mkVLESSUser "bob" "bob" ""] in
  (0%nat, "alice", "") ∈ service h /\ (1%nat, "bob", "") ∈ service h /\
  newConnectionEx "in" (Some 0%nat) (DelUsers ["alice"] h).2 = Routed "in" "bob" /\
  newConnectionEx "in" (Some 1%nat) (DelUsers ["alice"] h).2 = Panics.
Proof.
  intros h. split_and!; [| |reflexivity..]; by apply elem_of_serviceRows; eexists.
Qed.
End VLESS.

Module Hysteria2.

Record Hysteria2User := mkHysteria2User {
  Name : string;
  Password : string
}.

#[export] Instance Hysteria2User_eq_dec : EqDecision Hysteria2User.
Proof. solve_decision. Defined.

Record Inbound := mkInbound {
  userNameList : list string;
  uidToUuid : gmap Z string;
  uuidToUid : gmap string Z;
  service : list (Z * string);
  userconns : gmap conn string;
  closedConns : gset conn
}.

(** The lists [NewInbound] gives to the service and keeps. *)
Definition NewInbound (options : list Hysteria2User) : Inbound :=
  mkInbound (Name <$> options) ∅ ∅ (imap (fun i u => (Z.of_nat i, Password u)) options) ∅ ∅.

(** The table of [UpdateUsers]; a name missing from the map reads as 0. *)
Definition serviceRows (names : list string) (ids : gmap string Z) : list (Z * string) :=
  (fun uuid => (default 0 (ids !! uuid), uuid)) <$> names.

Definition addUser (h : Inbound) (e : Hysteria2User * Z) : Inbound :=
  mkInbound (userNameList h ++ [Password e.1]) (<[e.2 := Password e.1]> (uidToUuid h))
    (<[Password e.1 := e.2]> (uuidToUid h)) (service h) (userconns h) (closedConns h).

Definition updateUsers (h : Inbound) : Inbound :=
  mkInbound (userNameList h) (uidToUuid h) (uuidToUid h)
    (serviceRows (userNameList h) (uuidToUid h)) (userconns h) (closedConns h).

(** With fewer ids than users the index panics, given here as an error. *)
Definition indexOutOfRange : error := New "panic: index out of range".

Definition AddUsers (added : list Hysteria2User) (ids : list Z) (h : Inbound)
  : option error * Inbound :=
  if decide (length ids < length added)%nat then (Some indexOutOfRange, h)
  else (None, updateUsers (foldl addUser h (zip added ids))).

Definition delUser (h : Inbound) (name : string) : Inbound :=
  let '(conns, closed) := closeUserConns name (userconns h, closedConns h) in
  mkInbound (userNameList h) (delete (default 0 (uuidToUid h !! name)) (uidToUuid h))
    (delete name (uuidToUid h)) (service h) conns closed.

Definition DelUsers (names : list string) (h : Inbound) : option error * Inbound :=
  if decide (names = []) then (None, h) else
  let h := foldl delUser h names in
  (None, updateUsers
    (mkInbound (filter (fun user => user ∉ names) (userNameList h)) (uidToUuid h) (uuidToUid h)
      (service h) (userconns h) (closedConns h))).

(** A stream of a QUIC session; [userID] is the id the service authenticated the session
    with, 0 when there is none. *)
Definition NewConnectionEx (tag : string) (c : conn) (userID : Z) (h : Inbound)
  : outcome * Inbound :=
  match uidToUuid h !! userID with
  | Some userName =>
      if decide (userName <> "")
      then (Routed tag userName,
            match userconns h !! c with
            | Some _ => h
            | None => mkInbound (userNameList h) (uidToUuid h) (uuidToUid h) (service h)
                        (<[c := userName]> (userconns h)) (closedConns h)
            end)
      else (Routed tag "", h)
  | None =>
      (Refused, mkInbound (userNameList h) (uidToUuid h) (uuidToUid h) (service h) (userconns h)
                  ({[c]} ∪ closedConns h))
  end.

(** Packet connections are not registered. *)
Definition NewPacketConnectionEx (tag : string) (userID : Z) (h : Inbound) : outcome :=
  match uidToUuid h !! userID with
  | Some userName => Routed tag userName
  | None => Refused
  end.

(** The two maps are inverse of each other; id 0 stands for no user. *)
Definition maps_ok (h : Inbound) : Prop :=
  (forall p id, uuidToUid h !! p = Some id <-> uidToUuid h !! id = Some p) /\ uidToUuid h !! 0 = None.

Lemma addUser_maps h u id :
  maps_ok h -> id <> 0 -> uidToUuid h !! id = None -> uuidToUid h !! Password u = None ->
  maps_ok (addUser h (u, id)).
Proof.
  intros [Hb H0] Hid Hn Hp. split; simpl; [|by rewrite lookup_insert_ne].
  intros p i. destruct (decide (p = Password u)) as [->|Hpe], (decide (i = id)) as [->|Hie].
  - by rewrite !lookup_insert_eq.
  - rewrite lookup_insert_eq, lookup_insert_ne by done. rewrite <- Hb. split; congruence.
  - rewrite lookup_insert_eq, lookup_insert_ne by done. rewrite Hb. split; congruence.
  - rewrite !lookup_insert_ne by done. apply Hb.
Qed.

Lemma delUser_maps h name : maps_ok h -> maps_ok (delUser h name).
Proof.
  intros [Hb H0]. unfold delUser. simpl. split; simpl; [|by apply lookup_delete_None; right].
  intros p i. rewrite !lookup_delete_Some. rewrite Hb. split; intros [Hne Hi]; (split; [|done]).
  - intros <-. destruct (uuidToUid h !! name) as [j|] eqn:E; simpl in *; [|congruence].
    apply Hb in E. congruence.
  - intros ->. apply Hne. apply Hb in Hi. by rewrite Hi.
Qed.

Lemma delUser_fold names h :
  maps_ok h ->
  maps_ok (foldl delUser h names) /\
  uidToUuid (foldl delUser h names) = filter (fun '(_, p) => p ∉ names) (uidToUuid h) /\
  userNameList (foldl delUser h names) = userNameList h.
Proof.
  revert h. induction names as [|n names IH]; intros h Hok; simpl.
  - split; [done|]. split; [|done]. symmetry. apply map_filter_id. set_solver.
  - destruct (IH (delUser h n) (delUser_maps h n Hok)) as (H1 & -> & ->). split; [done|].
    split; [|done]. apply map_eq. intros id. apply option_eq. intros p.
    rewrite !map_lookup_filter_Some. simpl. rewrite lookup_delete_Some, not_elem_of_cons.
    destruct Hok as [Hb H0]. split.
    + intros [[Hne Hp] Hn]. split_and!; try done. intros ->. apply Hb in Hp.
      rewrite Hp in Hne. done.
    + intros (Hp & Hne & Hn). split; [split|]; try done. intros <-.
      destruct (uuidToUid h !! n) as [j|] eqn:E; simpl in *; [|congruence].
      apply Hb in E. congruence.
Qed.

Lemma delUser_fold_closed names h c :
  c ∈ closedConns (foldl delUser h names) <->
  c ∈ closedConns h \/ exists name, name ∈ names /\ userconns h !! c = Some name.
Proof.
  assert (forall h, (userconns (foldl delUser h names), closedConns (foldl delUser h names)) =
    foldl (fun st name => closeUserConns name st) (userconns h, closedConns h) names) as E.
  { induction names as [|n names IH]; intros h'; simpl; [done|]. by rewrite IH. }
  pose proof (elem_of_closeUserConns names (userconns h, closedConns h) c) as Hc.
  by rewrite <- E in Hc.
Qed.

Lemma hy2_DelUsers_closed names h c :
  c ∈ closedConns (DelUsers names h).2 <->
  c ∈ closedConns h \/ exists name, name ∈ names /\ userconns h !! c = Some name.
Proof.
  unfold DelUsers. case_decide; simpl; [subst; set_solver|]. apply delUser_fold_closed.
Qed.

Lemma AddUsers_closed ds ids h : closedConns (AddUsers ds ids h).2 = closedConns h.
Proof.
  unfold AddUsers. case_decide; [done|]. simpl. by apply (foldl_frame _ closedConns).
Qed.

(** The inbound authenticates exactly the passwords of [creds], each with its user id. *)
Definition synced (h : Inbound) (creds : gmap Z string) : Prop :=
  maps_ok h /\ uidToUuid h = creds /\ userNameList h ≡ₚ (map_to_list creds).*2 /\
  service h = serviceRows (userNameList h) (uuidToUid h).

(** Then the service's table is the list of the credentials. *)
Lemma hy2_synced_service h creds id p :
  synced h creds -> (id, p) ∈ service h <-> creds !! id = Some p.
Proof.
  intros ([Hb _] & <- & Hl & ->). unfold serviceRows. rewrite list_elem_of_fmap. split.
  - intros (q & [= -> ->] & Hq). rewrite Hl, list_elem_of_fmap in Hq.
    destruct Hq as ([j q'] & -> & Hq). apply elem_of_map_to_list in Hq. simpl.
    pose proof Hq as Hq'. apply Hb in Hq' as ->. done.
  - intros Hp. exists p. pose proof Hp as Hp'. apply Hb in Hp' as ->. split; [done|].
    rewrite Hl, list_elem_of_fmap. exists (id, p). split; [done|]. by apply elem_of_map_to_list.
Qed.

Lemma synced_empty : synced (NewInbound []) ∅.
Proof. by split_and!. Qed.

Lemma hy2_DelUsers_synced names h creds :
  synced h creds ->
  synced (DelUsers names h).2 (filter (fun '(_, p) => p ∉ names) creds).
Proof.
  intros (Hok & <- & Hl & Hs). unfold DelUsers. case_decide as E; simpl.
  - subst. rewrite map_filter_id by set_solver. done.
  - destruct (delUser_fold names h Hok) as (H1 & H2 & H3). split_and!; simpl; try done.
    rewrite H3, Hl, map_to_list_filter_perm. apply filter_snd.
Qed.

Lemma addUser_fold es h :
  maps_ok h -> NoDup es.*2 -> NoDup ((fun e => Password e.1) <$> es) ->
  (forall u id, (u, id) ∈ es ->
    id <> 0 /\ uidToUuid h !! id = None /\ uuidToUid h !! Password u = None) ->
  maps_ok (foldl addUser h es) /\
  uidToUuid (foldl addUser h es) = list_to_map ((fun e => (e.2, Password e.1)) <$> es) ∪ uidToUuid h /\
  userNameList (foldl addUser h es) = userNameList h ++ ((fun e => Password e.1) <$> es).
Proof.
  revert h. induction es as [|[u id] es IH]; intros h Hok Hi Hp Hnew; simpl.
  - by rewrite map_empty_union, app_nil_r.
  - simpl in Hi, Hp. apply NoDup_cons in Hi as [Hi1 Hi], Hp as [Hp1 Hp].
    destruct (Hnew u id) as (? & ? & ?); [set_solver|].
    destruct (IH (addUser h (u, id))) as (Hm & -> & ->).
    + by apply addUser_maps.
    + done.
    + done.
    + intros v j Hin. destruct (Hnew v j) as (? & ? & ?); [set_solver|]. simpl.
      rewrite !lookup_insert_ne; [done| |].
      * intros E. apply Hp1, list_elem_of_fmap. exists (v, j). done.
      * intros ->. apply Hi1, list_elem_of_fmap. by exists (v, j).
    + split; [done|]. simpl. rewrite <- app_assoc. split; [|done].
      rewrite <- insert_union_l, <- insert_union_r; [done|].
      apply not_elem_of_list_to_map_1. rewrite <- list_fmap_compose. done.
Qed.

Lemma hy2_AddUsers_synced h creds (es : list (Hysteria2User * Z)) :
  synced h creds -> NoDup es.*2 -> NoDup ((fun e => Password e.1) <$> es) ->
  (forall u id, (u, id) ∈ es -> id <> 0 /\ creds !! id = None /\
    forall j, creds !! j <> Some (Password u)) ->
  exists h', AddUsers es.*1 es.*2 h = (None, h') /\
    synced h' (list_to_map ((fun e => (e.2, Password e.1)) <$> es) ∪ creds).
Proof.
  intros (Hok & <- & Hl & Hs) Hi Hp Hnew. unfold AddUsers. rewrite !length_fmap.
  rewrite decide_False by lia. eexists. split; [done|]. rewrite zip_fst_snd.
  destruct (addUser_fold es h Hok Hi Hp) as (H1 & H2 & H3).
  { intros u id Hin. destruct (Hnew u id Hin) as (? & ? & Hp'). split_and!; try done.
    apply eq_None_not_Some. intros [j Hj]. apply Hok in Hj. by eapply Hp'. }
  split_and!; simpl; try done.
  rewrite H3, Hl, map_to_list_union_perm.
  - rewrite fmap_app, <- list_fmap_compose. apply Permutation_app_comm.
  - by rewrite <- list_fmap_compose.
  - intros id. rewrite <- list_fmap_compose. intros ([u j] & -> & Hin)%list_elem_of_fmap.
    by destruct (Hnew u j Hin) as (_ & ? & _).
Qed.
End Hysteria2.
