(* ===== verification/UserManager.v ===== *)
(** * Users, credentials and limiters (src/cmd/mini-sb-agent/user_manager.go, user_delta.go,
    user_apply_*.go, node_runtime.go)

    Limiters are shared by pointer between the manager and live connections, so they live in a
    heap; [limiterPair] holds two pointers.  [clock l] is the time read when limiter [l] is
    set.  Locks are taken for the whole of each operation and are not modelled. *)

From S2P Require Import Prelude GoStrings Topology PanelTypes RateLimit Inbounds.

#[local] Open Scope Z_scope.

(** Build tags. *)
Class Build := {
  with_vless : bool;
  with_hysteria2 : bool;
  userRateLimitBuildEnabled : bool;
  with_shadowsocks : bool;
  with_tun : bool
}.

Abbreviation limloc := nat.
Abbreviation limiterHeap := (gmap nat RateLimiter).

Record limiterPair := mkPair { rx : limloc; tx : limloc }.

#[export] Instance limiterPair_eq_dec : EqDecision limiterPair.
Proof. solve_decision. Defined.

Abbreviation snapshot := (gmap Z User).

Record UserManager := mkManager {
  users : snapshot;
  bySecret : gmap string Z;
  byInbound : gmap string snapshot;
  nodeLimit : option limiterPair;
  limiters : gmap Z limiterPair;
  limHeap : limiterHeap
}.

(** A live inbound as the type switch of the apply functions sees it. *)
Inductive inbound :=
| InVLESS (h : VLESS.Inbound)
| InHysteria2 (h : Hysteria2.Inbound)
| InOther.

Abbreviation inboundMap := (gmap string inbound).

Definition mbpsToBytes (mbps : Z) : Z :=
  if mbps <=? 0 then 0 else Z.quot (wrap64 (wrap64 (mbps * 1000) * 1000)) 8.

Definition usersByID (us : list User) : snapshot :=
  foldl (fun m u => if 0 <? ID u then <[ID u := u]> m else m) ∅ us.

Definition credentialsDiffer (a b : User) : bool :=
  bool_decide (UUID a <> UUID b) || bool_decide (Password a <> Password b) ||
  bool_decide (Name a <> Name b).

(** A user of one side that the other side lacks or holds with other credentials. *)
Definition differsIn (m : snapshot) (u : User) (id : Z) : bool :=
  match m !! id with None => true | Some u' => credentialsDiffer u u' end.

Definition vlessFlow : string := "xtls-rprx-vision".

Definition vlessUserFromPanelUser (u : User) : VLESS.VLESSUser :=
  VLESS.mkVLESSUser (UUID u) (UUID u) vlessFlow.

(** [fmt.Errorf] with a wrapped cause. *)
Definition wrapErr (prefix : string) (e : error) : error := Error prefix [e].

Section Manager.
Context `{MapOrder} `{Float64} `{Build}.
Implicit Types (m : UserManager) (us : list User) (old : snapshot).

Definition newPair (bytesPerSecond : Z) (clock : limloc -> Z) (h : limiterHeap)
  : limiterPair * limiterHeap :=
  let r := fresh (dom h) in
  let h := <[r := NewRateLimiter bytesPerSecond (clock r)]> h in
  let t := fresh (dom h) in
  (mkPair r t, <[t := NewRateLimiter bytesPerSecond (clock t)]> h).

Definition pairSetRate (p : limiterPair) (bytesPerSecond : Z) (clock : limloc -> Z)
    (h : limiterHeap) : limiterHeap :=
  alter (SetRate bytesPerSecond (clock (tx p))) (tx p)
    (alter (SetRate bytesPerSecond (clock (rx p))) (rx p) h).

Definition pairClose (p : limiterPair) (h : limiterHeap) : limiterHeap :=
  alter Close (tx p) (alter Close (rx p) h).

Definition NewUserManager (nodeMbps : Z) (clock : limloc -> Z) : UserManager :=
  if 0 <? nodeMbps
  then let (p, h) := newPair (mbpsToBytes nodeMbps) clock ∅ in mkManager ∅ ∅ ∅ (Some p) ∅ h
  else mkManager ∅ ∅ ∅ None ∅ ∅.

Definition secretsOf (u : User) : list string := [UUID u; Password u; Name u].

Definition addSecret (id : Z) (out : gmap string Z) (secret : string) : gmap string Z :=
  if bool_decide (secret <> "") then <[secret := id]> out else out.

Definition secretsFrom (us : snapshot) : gmap string Z :=
  foldl (fun out e => foldl (addSecret e.1) out (secretsOf e.2)) ∅ (go_range 20 us).

Definition userChanges old us : list User * list User :=
  let nextByID := usersByID us in
  ((filter (fun e => differsIn nextByID e.2 e.1 = true) (go_range 21 old)).*2,
   filter (fun u => differsIn old u (ID u) = true) (go_range 22 nextByID).*2).

(** The credentials of a protocol that are set. *)
Definition nonEmpty (credential : User -> string) us : list User :=
  filter (fun u => credential u <> "") us.

Definition applyVLESSUsers (raw : inbound) (tag : string) us old
  : (bool * option error) * inbound :=
  match with_vless, raw with
  | true, InVLESS h =>
      let (removed, added) := userChanges old us in
      let remove := UUID <$> nonEmpty UUID removed in
      let (err, h) := if bool_decide (remove <> []) then VLESS.DelUsers remove h else (None, h) in
      match err with
      | Some e => ((true, Some (wrapErr ("delete vless users from " +:+ tag) e)), InVLESS h)
      | None =>
          let desired := vlessUserFromPanelUser <$> nonEmpty UUID added in
          let (err, h) := if bool_decide (desired <> []) then VLESS.AddUsers desired h else (None, h) in
          ((true, wrapErr ("add vless users to " +:+ tag) <$> err), InVLESS h)
      end
  | _, _ => ((false, None), raw)
  end.

Definition hysteria2UserFromPanelUser (u : User) : Hysteria2.Hysteria2User :=
  Hysteria2.mkHysteria2User (if bool_decide (Name u = "") then Password u else Name u) (Password u).

Definition applyHysteria2Users (raw : inbound) (tag : string) us old
  : (bool * option error) * inbound :=
  match with_hysteria2, raw with
  | true, InHysteria2 h =>
      let (removed, added) := userChanges old us in
      let remove := Password <$> nonEmpty Password removed in
      let (err, h) := if bool_decide (remove <> []) then Hysteria2.DelUsers remove h else (None, h) in
      match err with
      | Some e => ((true, Some (wrapErr ("delete hysteria2 users from " +:+ tag) e)), InHysteria2 h)
      | None =>
          let us := nonEmpty Password added in
          let desired := hysteria2UserFromPanelUser <$> us in
          let desiredIDs := ID <$> us in
          let (err, h) := if bool_decide (desired <> [])
                          then Hysteria2.AddUsers desired desiredIDs h else (None, h) in
          ((true, wrapErr ("add hysteria2 users to " +:+ tag) <$> err), InHysteria2 h)
      end
  | _, _ => ((false, None), raw)
  end.

(** The body of the loop of [ApplyBoxByInbound] for one inbound. *)
Definition applyInbound (raw : inbound) (tag : string) us old : option error * inbound :=
  let '((handled, err), raw) := applyVLESSUsers raw tag us old in
  match err with
  | Some e => (Some e, raw)
  | None =>
      if handled then (None, raw)
      else let '((_, err), raw) := applyHysteria2Users raw tag us old in (err, raw)
  end.

(** The loop over the inbounds; it returns at the first error, with the inbounds done so far
    changed. *)
Fixpoint applyInbounds (todo : list (string * inbound)) (next : gmap string (list User))
    (old : gmap string snapshot) (inbounds : inboundMap) : option error * inboundMap :=
  match todo with
  | [] => (None, inbounds)
  | (tag, raw) :: todo =>
      let (err, raw') := applyInbound raw tag (default [] (next !! tag)) (default ∅ (old !! tag)) in
      let inbounds := <[tag := raw']> inbounds in
      match err with
      | Some e => (Some e, inbounds)
      | None => applyInbounds todo next old inbounds
      end
  end.

Definition closeLimiterLocked (id : Z) m : UserManager :=
  match limiters m !! id with
  | Some p => mkManager (users m) (bySecret m) (byInbound m) (nodeLimit m)
                (delete id (limiters m)) (pairClose p (limHeap m))
  | None => m
  end.

Definition updateLimiterLocked (clock : limloc -> Z) m (u : User) : UserManager :=
  if negb userRateLimitBuildEnabled then m else
  let bytesPerSecond := mbpsToBytes (SpeedLimit u) in
  match limiters m !! ID u with
  | Some p => mkManager (users m) (bySecret m) (byInbound m) (nodeLimit m) (limiters m)
                (pairSetRate p bytesPerSecond clock (limHeap m))
  | None =>
      let (p, h) := newPair bytesPerSecond clock (limHeap m) in
      mkManager (users m) (bySecret m) (byInbound m) (nodeLimit m) (<[ID u := p]> (limiters m)) h
  end.

(** The two limiter loops shared by both apply paths. *)
Definition closeAbsent (next : snapshot) m : UserManager :=
  foldl (fun m e => if bool_decide (next !! e.1 = None) then closeLimiterLocked e.1 m else m)
    m (go_range 23 (limiters m)).

Definition refreshLimiters (clock : limloc -> Z) (next : snapshot) m : UserManager :=
  foldl (updateLimiterLocked clock) (closeAbsent next m) (go_range 24 next).*2.

Definition unionInbound (union : snapshot) (e : string * list User) : snapshot :=
  foldl (fun union e => <[e.1 := e.2]> union) union (go_range 26 (usersByID e.2)).

Definition unionOf (usersByInbound : gmap string (list User)) : snapshot :=
  foldl unionInbound ∅ (go_range 25 usersByInbound).

Definition ApplyBoxByInbound (clock : limloc -> Z) (usersByInbound : gmap string (list User))
    (st : UserManager * inboundMap) : option error * (UserManager * inboundMap) :=
  let (m, inbounds) := st in
  let oldByInbound := filter (fun '(tag, _) => is_Some (inbounds !! tag)) (byInbound m) in
  let (err, inbounds) := applyInbounds (go_range 27 inbounds) usersByInbound oldByInbound inbounds in
  match err with
  | Some e => (Some e, (m, inbounds))
  | None =>
      let nextByInbound := usersByID <$> usersByInbound in
      let union := unionOf usersByInbound in
      let m := mkManager union (secretsFrom union) nextByInbound (nodeLimit m) (limiters m) (limHeap m) in
      (None, (refreshLimiters clock union m, inbounds))
  end.

Definition applyGlobal (clock : limloc -> Z) us m : option error * UserManager :=
  let next := usersByID us in
  let m := refreshLimiters clock next m in
  (None, mkManager next (secretsFrom next) (byInbound m) (nodeLimit m) (limiters m) (limHeap m)).

Definition ApplyBox (clock : limloc -> Z) us (st : UserManager * inboundMap)
  : option error * (UserManager * inboundMap) :=
  let (m, inbounds) := st in
  if decide (inbounds = ∅)
  then let (err, m) := applyGlobal clock us m in (err, (m, inbounds))
  else ApplyBoxByInbound clock ((fun _ => us) <$> inbounds) st.

Definition Resolve (user : string) m : string :=
  if bool_decide (user = "") then "" else
  match bySecret m !! user with Some id => Itoa id | None => user end.

Definition ActiveIDs m : gset string := set_map Itoa (dom (users m)).

Definition InboundSnapshot (tag : string) m : snapshot := default ∅ (byInbound m !! tag).

Definition userPair (user : string) m : option limiterPair :=
  if userRateLimitBuildEnabled then id ← bySecret m !! user; limiters m !! id else None.

(** Read and write limiters of the node and of the user, [None] being nil. *)
Definition DirectionalLimiters (user : string) m
  : option limloc * option limloc * option limloc * option limloc :=
  (rx <$> nodeLimit m, tx <$> nodeLimit m, rx <$> userPair user m, tx <$> userPair user m).

Definition Limiters (user : string) m : option limloc * option limloc :=
  (rx <$> nodeLimit m, rx <$> userPair user m).
End Manager.

(** [groupNodeUsers] (src/cmd/mini-sb-agent/node_runtime.go). *)
Definition groupNodeUsers `{UnicodeTables} (nodes : list NodeSpec)
    (usersByNode : gmap string (list User)) : gmap string (list User) :=
  foldl (fun out n => <[InboundTag n := default [] (usersByNode !! Key n)]> out) ∅ nodes.

(** ** Snapshots *)

(** Every entry of a snapshot sits under its own positive id. *)
Definition keyed (m : snapshot) : Prop := forall id u, m !! id = Some u -> ID u = id /\ 0 < id.

Lemma keyed_empty : keyed ∅.
Proof. intros id u H. by rewrite lookup_empty in H. Qed.

Lemma usersByID_snoc us u :
  usersByID (us ++ [u]) = if 0 <? ID u then <[ID u := u]> (usersByID us) else usersByID us.
Proof. unfold usersByID. by rewrite foldl_app. Qed.

Lemma usersByID_keyed us : keyed (usersByID us).
Proof.
  induction us as [|u us IH] using rev_ind; [apply keyed_empty|].
  rewrite usersByID_snoc. destruct (0 <? ID u) eqn:E; bool_inv; [|done].
  intros id v. destruct (decide (id = ID u)) as [->|].
  - rewrite lookup_insert_eq. intros [= <-]. done.
  - rewrite lookup_insert_ne by done. apply IH.
Qed.

Lemma usersByID_elem us id u : usersByID us !! id = Some u -> u ∈ us.
Proof.
  induction us as [|v us IH] using rev_ind; [done|].
  rewrite usersByID_snoc, elem_of_app. destruct (0 <? ID v); [|naive_solver].
  destruct (decide (id = ID v)) as [->|].
  - rewrite lookup_insert_eq. intros [= <-]. set_solver.
  - rewrite lookup_insert_ne by done. naive_solver.
Qed.

Lemma usersByID_dom us id : is_Some (usersByID us !! id) <-> 0 < id /\ id ∈ ID <$> us.
Proof.
  induction us as [|v us IH] using rev_ind.
  - change (usersByID []) with (∅ : snapshot). rewrite lookup_empty. split; [by intros ?%is_Some_None | set_solver].
  - rewrite usersByID_snoc, fmap_app, elem_of_app. simpl. rewrite list_elem_of_singleton.
    destruct (0 <? ID v) eqn:E; bool_inv.
    + rewrite lookup_insert_is_Some', IH. split.
      * intros [<-|[? ?]]; auto.
      * intros [? [?|?]]; auto.
    + rewrite IH. split; [tauto|]. intros [? [?| ->]]; [done | lia].
Qed.

(** ** The credentials a protocol uses *)

Section Credentials.
Context `{MapOrder} (sel : User -> string)
  (Hsel : forall a b, credentialsDiffer a b = false -> sel a = sel b).
Implicit Types (old next : snapshot) (us : list User).

Definition creds (m : snapshot) : gmap Z string :=
  omap (fun u => if decide (sel u = "") then None else Some (sel u)) m.

Lemma creds_lookup m id p :
  creds m !! id = Some p <-> exists u, m !! id = Some u /\ sel u = p /\ p <> "".
Proof.
  unfold creds. rewrite lookup_omap. destruct (m !! id) as [u|]; simpl; [|naive_solver].
  case_decide; naive_solver.
Qed.

(** No two users of the snapshot share a credential. *)
Definition distinct_creds (m : snapshot) : Prop :=
  forall i j p, creds m !! i = Some p -> creds m !! j = Some p -> i = j.

Lemma credentialsDiffer_sym a b : credentialsDiffer a b = credentialsDiffer b a.
Proof.
  unfold credentialsDiffer. f_equal; [f_equal|]; apply bool_decide_ext; split; congruence.
Qed.

Definition removedCreds old us : list string := sel <$> nonEmpty sel (userChanges old us).1.
Definition addedCreds old us : list (Z * string) :=
  (fun u => (ID u, sel u)) <$> nonEmpty sel (userChanges old us).2.

Lemma elem_of_removed old us p :
  p ∈ removedCreds old us <->
  exists id, creds old !! id = Some p /\
    exists u, old !! id = Some u /\ differsIn (usersByID us) u id = true.
Proof.
  unfold removedCreds, nonEmpty. simpl. rewrite list_elem_of_fmap. split.
  - intros (u & -> & [Hne Hu]%list_elem_of_filter). apply list_elem_of_fmap in Hu as ([id v] & -> & Hu).
    apply list_elem_of_filter in Hu as [Hd Hu%elem_of_go_range]. exists id.
    rewrite creds_lookup. split; eauto.
  - intros (id & Hp & u & Hu & Hd). apply creds_lookup in Hp as (u' & Hu' & <- & Hne).
    rewrite Hu in Hu'. injection Hu' as ->. exists u'. split; [done|].
    apply list_elem_of_filter. split; [done|]. apply list_elem_of_fmap. exists (id, u').
    split; [done|]. apply list_elem_of_filter. split; [done|]. by apply elem_of_go_range.
Qed.

Lemma elem_of_added old us id p :
  (id, p) ∈ addedCreds old us <->
  creds (usersByID us) !! id = Some p /\
    exists u, usersByID us !! id = Some u /\ differsIn old u id = true.
Proof.
  unfold addedCreds, nonEmpty. simpl. rewrite list_elem_of_fmap. split.
  - intros (u & [= -> ->] & [Hne Hu]%list_elem_of_filter).
    apply list_elem_of_filter in Hu as [Hd Hu].
    apply list_elem_of_fmap in Hu as ([id v] & -> & Hu%elem_of_go_range). simpl in *.
    destruct (usersByID_keyed us id v Hu) as [<- _]. rewrite creds_lookup. split; eauto.
  - intros (Hp & u & Hu & Hd). apply creds_lookup in Hp as (u' & Hu' & <- & Hne).
    rewrite Hu in Hu'. injection Hu' as ->.
    destruct (usersByID_keyed us id u' Hu) as [Hid _]. exists u'. split; [congruence|].
    apply list_elem_of_filter. split; [done|]. apply list_elem_of_filter.
    split; [by rewrite Hid|]. apply list_elem_of_fmap. exists (id, u').
    split; [done|]. by apply elem_of_go_range.
Qed.

Lemma NoDup_added old us : NoDup (addedCreds old us).*1.
Proof.
  unfold addedCreds, nonEmpty. rewrite <- list_fmap_compose. simpl.
  eapply sublist_NoDup; [|apply fmap_sublist; etrans; apply sublist_filter].
  assert (ID <$> (go_range 22 (usersByID us)).*2 = (go_range 22 (usersByID us)).*1) as E.
  { rewrite <- list_fmap_compose. apply list_fmap_ext. intros i [id u] Hi. simpl.
    apply list_elem_of_lookup_2, elem_of_go_range in Hi. by destruct (usersByID_keyed us id u Hi). }
  change (NoDup (ID <$> (go_range 22 (usersByID us)).*2)). rewrite E. apply NoDup_fst_go_range.
Qed.

(** Deleting the removed credentials and adding the new ones turns the old credentials into
    the new ones, whatever the order of the two lists. *)
Lemma changes_creds old us :
  distinct_creds old ->
  list_to_map (addedCreds old us) ∪ filter (fun '(_, p) => p ∉ removedCreds old us) (creds old)
  = creds (usersByID us).
Proof using Hsel.
  intros Hd. apply map_eq. intros id.
  assert (forall p, (list_to_map (addedCreds old us) : gmap Z string) !! id = Some p <->
                    (id, p) ∈ addedCreds old us) as Hadd.
  { intros p. split; [apply elem_of_list_to_map_2 | apply elem_of_list_to_map_1, NoDup_added]. }
  apply option_eq. intros p. rewrite lookup_union_Some_raw, Hadd, elem_of_added, map_lookup_filter_Some.
  rewrite elem_of_removed. rewrite eq_None_not_Some. unfold is_Some. setoid_rewrite Hadd.
  setoid_rewrite elem_of_added. split.
  - intros [[? _]|(Hnot & Hp & Hrem)]; [done|].
    pose proof Hp as (u & Hu & Hpu & Hne)%creds_lookup.
    destruct (differsIn (usersByID us) u id) eqn:E; [exfalso; apply Hrem; exists id; split; eauto|].
    unfold differsIn in E. destruct (usersByID us !! id) as [u'|] eqn:Eu; [|done].
    apply creds_lookup. exists u'. split; [done|]. by rewrite <- (Hsel u u' E).
  - intros Hp. pose proof Hp as (u & Hu & Hpu & Hne)%creds_lookup.
    destruct (differsIn old u id) eqn:E; [left; split; eauto|right].
    unfold differsIn in E. destruct (old !! id) as [u'|] eqn:Eu; [|done].
    assert (creds old !! id = Some p) as Hold.
    { apply creds_lookup. exists u'. split; [done|]. by rewrite <- (Hsel u u' E). }
    split; [|split; [done|]].
    + intros (q & _ & v & Hv & Hdv). rewrite Hu in Hv. injection Hv as <-.
      unfold differsIn in Hdv. rewrite Eu in Hdv. congruence.
    + intros (j & Hj & v & Hv & Hdv). assert (j = id) as -> by (by eapply Hd).
      rewrite Eu in Hv. injection Hv as <-. unfold differsIn in Hdv.
      rewrite Hu, credentialsDiffer_sym in Hdv. congruence.
Qed.

(** An id that gets new credentials has none left after the removal. *)
Lemma added_fresh old us id :
  id ∈ (addedCreds old us).*1 ->
  filter (fun '(_, p) => p ∉ removedCreds old us) (creds old) !! id = None.
Proof.
  intros ([j p] & -> & (Hp & u & Hu & Hd)%elem_of_added)%list_elem_of_fmap. simpl.
  apply eq_None_not_Some. intros [q [Hq Hrem]%map_lookup_filter_Some]. apply Hrem, elem_of_removed.
  exists j. split; [done|]. apply creds_lookup in Hq as (v & Hv & _). exists v. split; [done|].
  unfold differsIn in *. rewrite Hu, Hv in *. by rewrite credentialsDiffer_sym.
Qed.
End Credentials.

Lemma UUID_sel a b : credentialsDiffer a b = false -> UUID a = UUID b.
Proof. unfold credentialsDiffer. intros E. bool_inv. by apply dec_stable. Qed.

Lemma Password_sel a b : credentialsDiffer a b = false -> Password a = Password b.
Proof. unfold credentialsDiffer. intros E. bool_inv. by apply dec_stable. Qed.

(** ** One inbound *)

(** The inbound authenticates exactly the users of the snapshot. *)
Definition inbound_synced (raw : inbound) (m : snapshot) : Prop :=
  match raw with
  | InVLESS h => VLESS.synced vlessFlow h (creds UUID m)
  | InHysteria2 h => Hysteria2.synced h (creds Password m)
  | InOther => True
  end.

(** The users of the snapshot have distinct credentials for the inbound's protocol. *)
Definition inbound_distinct (raw : inbound) (m : snapshot) : Prop :=
  match raw with
  | InVLESS _ => distinct_creds UUID m
  | InHysteria2 _ => distinct_creds Password m
  | InOther => True
  end.

(** The connections an inbound has closed itself. *)
Definition inboundClosed (raw : inbound) : gset conn :=
  match raw with
  | InVLESS h => VLESS.closedConns h
  | InHysteria2 h => Hysteria2.closedConns h
  | InOther => ∅
  end.

Definition same_protocol (a b : inbound) : Prop :=
  match a, b with
  | InVLESS _, InVLESS _ | InHysteria2 _, InHysteria2 _ | InOther, InOther => True
  | _, _ => False
  end.

Section Apply.
Context `{MapOrder} `{Build}.
Implicit Types (us : list User) (old : snapshot).

(** The build can serve the inbound's protocol. *)
Definition supported (raw : inbound) : Prop :=
  match raw with
  | InVLESS _ => with_vless = true
  | InHysteria2 _ => with_hysteria2 = true
  | InOther => True
  end.

Lemma map_filter_nil (m : gmap Z string) : filter (fun '(_, p) => p ∉ ([] : list string)) m = m.
Proof. apply map_filter_id. set_solver. Qed.

Lemma applyVLESSUsers_synced h tag us old :
  with_vless = true -> VLESS.synced vlessFlow h (creds UUID old) -> distinct_creds UUID old ->
  exists h', applyVLESSUsers (InVLESS h) tag us old = ((true, None), InVLESS h') /\
    VLESS.synced vlessFlow h' (creds UUID (usersByID us)).
Proof.
  intros Hb Hs Hd. unfold applyVLESSUsers. rewrite Hb.
  pose proof (changes_creds UUID UUID_sel old us Hd) as Heq.
  pose proof (NoDup_added UUID old us) as Hnd. pose proof (added_fresh UUID old us) as Hfresh.
  unfold removedCreds, addedCreds in *. destruct (userChanges old us) as [removed added]; simpl in *.
  set (remove := UUID <$> nonEmpty UUID removed) in *.
  set (es := (fun u => (ID u, UUID u)) <$> nonEmpty UUID added) in *.
  assert (exists h1, (if bool_decide (remove <> []) then VLESS.DelUsers remove h else (None, h)) = (None, h1)
    /\ VLESS.synced vlessFlow h1 (filter (fun '(_, p) => p ∉ remove) (creds UUID old))) as (h1 & -> & Hs1).
  { case_bool_decide as E.
    - exists (VLESS.DelUsers remove h).2. split; [|by apply VLESS.DelUsers_synced].
      unfold VLESS.DelUsers. by destruct (foldl _ _ _).
    - exists h. split; [done|]. by rewrite E, map_filter_nil. }
  assert (vlessUserFromPanelUser <$> nonEmpty UUID added = VLESS.userOf vlessFlow <$> es.*2) as ->.
  { unfold es. by rewrite <- !list_fmap_compose. }
  pose proof (VLESS.AddUsers_synced vlessFlow h1 _ es Hs1 Hnd Hfresh) as Hs2. rewrite Heq in Hs2.
  case_bool_decide as E; [by eexists|].
  exists h1. split; [done|]. rewrite <- Heq.
  apply fmap_nil_inv, fmap_nil_inv in E. rewrite E; simpl. by rewrite map_empty_union.
Qed.

Lemma applyHysteria2Users_synced h tag us old :
  with_hysteria2 = true -> Hysteria2.synced h (creds Password old) -> distinct_creds Password old ->
  distinct_creds Password (usersByID us) ->
  exists h', applyHysteria2Users (InHysteria2 h) tag us old = ((true, None), InHysteria2 h') /\
    Hysteria2.synced h' (creds Password (usersByID us)).
Proof.
  intros Hb Hs Hd Hd'. unfold applyHysteria2Users. rewrite Hb.
  pose proof (changes_creds Password Password_sel old us Hd) as Heq.
  pose proof (NoDup_added Password old us) as Hnd. pose proof (added_fresh Password old us) as Hfresh.
  pose proof (fun id p => proj1 (elem_of_added Password old us id p)) as Hin.
  unfold removedCreds, addedCreds in *. destruct (userChanges old us) as [removed added]; simpl in *.
  set (remove := Password <$> nonEmpty Password removed) in *.
  set (pw := nonEmpty Password added) in *.
  assert (exists h1, (if bool_decide (remove <> []) then Hysteria2.DelUsers remove h else (None, h)) = (None, h1)
    /\ Hysteria2.synced h1 (filter (fun '(_, p) => p ∉ remove) (creds Password old))) as (h1 & -> & Hs1).
  { case_bool_decide as E.
    - exists (Hysteria2.DelUsers remove h).2. split; [|by apply Hysteria2.hy2_DelUsers_synced].
      unfold Hysteria2.DelUsers. by case_decide.
    - exists h. split; [done|]. by rewrite E, map_filter_nil. }
  set (es := (fun u => (hysteria2UserFromPanelUser u, ID u)) <$> pw).
  assert (hysteria2UserFromPanelUser <$> pw = es.*1) as ->.
  { unfold es. by rewrite <- list_fmap_compose. }
  assert (ID <$> pw = es.*2) as ->.
  { unfold es. by rewrite <- list_fmap_compose. }
  assert (((fun e => (e.2, Hysteria2.Password e.1)) <$> es) = (fun u => (ID u, Password u)) <$> pw) as Ees.
  { unfold es. by rewrite <- list_fmap_compose. }
  assert (((fun e => (e.2, Hysteria2.Password e.1)) <$> es).*1 = es.*2) as Eid
    by (by rewrite <- list_fmap_compose).
  destruct (Hysteria2.hy2_AddUsers_synced h1 _ es Hs1) as (h2 & EA & Hs2).
  - by rewrite <- Eid, Ees.
  - assert ((fun e => Hysteria2.Password e.1) <$> es
      = ((fun e => (e.2, Hysteria2.Password e.1)) <$> es).*2) as -> by (by rewrite <- list_fmap_compose).
    rewrite Ees. apply NoDup_snd; [done|]. intros a b p Ha Hb'.
    eapply Hd'; [by apply (Hin a p) | by apply (Hin b p)].
  - intros u id Hu.
    assert ((id, Hysteria2.Password u) ∈ (fun u => (ID u, Password u)) <$> pw) as Hu'.
    { rewrite <- Ees. apply list_elem_of_fmap. by exists (u, id). }
    destruct (Hin _ _ Hu') as (Hp & v & Hv & Hdv). destruct (usersByID_keyed us id v Hv).
    split; [lia|]. split; [apply Hfresh, list_elem_of_fmap; by exists (id, Hysteria2.Password u)|].
    intros j Hj. assert (creds Password (usersByID us) !! j = Some (Hysteria2.Password u)) as Hj'.
    { rewrite <- Heq. apply lookup_union_Some_raw. right. split; [|done].
      apply not_elem_of_list_to_map_1. intros Hja. apply Hfresh in Hja. congruence. }
    assert (j = id) as -> by (by eapply Hd').
    rewrite Hfresh in Hj; [done|]. apply list_elem_of_fmap. by exists (id, Hysteria2.Password u).
  - rewrite Ees, Heq in Hs2. case_bool_decide as E; [rewrite EA; by eexists|].
    exists h1. split; [done|]. rewrite <- Heq.
    apply fmap_nil_inv in E. unfold es in E. apply fmap_nil_inv in E. rewrite E; simpl. by rewrite map_empty_union.
Qed.

Lemma applyInbound_synced raw tag us old :
  supported raw -> inbound_synced raw old -> inbound_distinct raw old ->
  inbound_distinct raw (usersByID us) ->
  exists raw', applyInbound raw tag us old = (None, raw') /\ same_protocol raw raw' /\
    inbound_synced raw' (usersByID us).
Proof.
  intros Hb Hs Hd Hd'. unfold applyInbound. destruct raw as [h|h|]; simpl in *.
  - destruct (applyVLESSUsers_synced h tag us old) as (h' & -> & ?); try done. by exists (InVLESS h').
  - assert (applyVLESSUsers (InHysteria2 h) tag us old = ((false, None), InHysteria2 h)) as ->
      by (unfold applyVLESSUsers; by destruct with_vless).
    destruct (applyHysteria2Users_synced h tag us old) as (h' & -> & ?); try done.
    by exists (InHysteria2 h').
  - exists InOther. split; [|done]. unfold applyVLESSUsers, applyHysteria2Users.
    by destruct with_vless, with_hysteria2.
Qed.

(** The two snapshots hold the same users with the same credentials; speed limits may differ. *)
Definition same_credentials old (next : snapshot) : Prop :=
  forall id, match old !! id, next !! id with
             | Some a, Some b => credentialsDiffer a b = false
             | None, None => True
             | _, _ => False
             end.

Lemma userChanges_same old us :
  same_credentials old (usersByID us) -> userChanges old us = ([], []).
Proof.
  intros Hs. unfold userChanges. f_equal.
  - rewrite filter_none; [done|].
    intros [id u] Hu%elem_of_go_range. specialize (Hs id). unfold differsIn. simpl.
    rewrite Hu in Hs. destruct (usersByID us !! id); [congruence | done].
  - apply filter_none.
    intros u ([id v] & -> & Hu%elem_of_go_range)%list_elem_of_fmap. simpl.
    destruct (usersByID_keyed us id v Hu) as [-> _]. specialize (Hs id). unfold differsIn.
    rewrite Hu in Hs. destruct (old !! id); [|done]. rewrite credentialsDiffer_sym. congruence.
Qed.

Lemma applyInbound_same raw tag us old :
  same_credentials old (usersByID us) -> applyInbound raw tag us old = (None, raw).
Proof.
  intros Hs. unfold applyInbound, applyVLESSUsers, applyHysteria2Users.
  rewrite (userChanges_same old us Hs). simpl.
  destruct with_vless, with_hysteria2, raw; done.
Qed.

(** Connections are closed only for credentials that are removed. *)
Lemma applyHysteria2_closed h tag us old c :
  c ∈ inboundClosed (applyHysteria2Users (InHysteria2 h) tag us old).2 ->
  c ∈ Hysteria2.closedConns h \/
  exists p, p ∈ removedCreds Password old us /\ Hysteria2.userconns h !! c = Some p.
Proof.
  unfold applyHysteria2Users. destruct with_hysteria2; [|by left].
  unfold removedCreds. destruct (userChanges old us) as [removed added]; simpl.
  set (remove := Password <$> nonEmpty Password removed).
  pose proof (Hysteria2.hy2_DelUsers_closed remove h c) as Hdel.
  assert (forall h1, (if bool_decide (remove <> []) then Hysteria2.DelUsers remove h else (None, h)) = (None, h1) ->
    c ∈ Hysteria2.closedConns h1 ->
    c ∈ Hysteria2.closedConns h \/ exists p, p ∈ remove /\ Hysteria2.userconns h !! c = Some p) as Hc.
  { intros h1 E. case_bool_decide; [rewrite E in Hdel; apply Hdel | injection E as <-; by left]. }
  destruct (if bool_decide (remove <> []) then _ else _) as [[e|] h1] eqn:E.
  - unfold Hysteria2.DelUsers in E. destruct (bool_decide _); [case_decide|]; done.
  - match goal with |- context [Hysteria2.AddUsers ?ds ?ids h1] =>
      pose proof (Hysteria2.AddUsers_closed ds ids h1) as Ha;
      destruct (if bool_decide (ds <> []) then _ else _) as [err h2] eqn:E2 end.
    simpl. intros Hin. apply (Hc h1 eq_refl). destruct (bool_decide _) in E2; simplify_eq/=; [|done].
    by rewrite E2 in Ha; simpl in Ha; rewrite <- Ha.
Qed.
End Apply.

(** ** All inbounds *)

Section ApplyAll.
Context `{MapOrder} `{Float64} `{Build}.
Implicit Types (m : UserManager) (inbounds : inboundMap).

Definition nextUsers (usersByInbound : gmap string (list User)) (tag : string) : list User :=
  default [] (usersByInbound !! tag).

(** Every inbound authenticates exactly the users of its own snapshot. *)
Definition synced m inbounds : Prop :=
  forall tag raw, inbounds !! tag = Some raw -> inbound_synced raw (InboundSnapshot tag m).

(** The build serves every inbound, and no inbound's list gives two users one credential. *)
Definition serves inbounds : Prop := forall tag raw, inbounds !! tag = Some raw -> supported raw.
Definition distinct (snap : string -> snapshot) inbounds : Prop :=
  forall tag raw, inbounds !! tag = Some raw -> inbound_distinct raw (snap tag).

Lemma applyInbounds_spec next old todo inbounds :
  NoDup todo.*1 -> (forall tag raw, (tag, raw) ∈ todo -> inbounds !! tag = Some raw) ->
  (forall tag raw, (tag, raw) ∈ todo ->
    (applyInbound raw tag (nextUsers next tag) (default ∅ (old !! tag))).1 = None) ->
  exists inbounds', applyInbounds todo next old inbounds = (None, inbounds') /\
    forall tag, inbounds' !! tag =
      if decide (tag ∈ todo.*1)
      then (fun raw => (applyInbound raw tag (nextUsers next tag) (default ∅ (old !! tag))).2)
             <$> inbounds !! tag
      else inbounds !! tag.
Proof.
  revert inbounds. induction todo as [|[t raw] todo IH]; intros inbounds Hnd Hin Hok; simpl.
  - eauto.
  - apply NoDup_cons in Hnd as [Hn Hnd]. simpl in Hn.
    pose proof (Hok t raw ltac:(set_solver)) as Ht. unfold nextUsers in Ht at 1.
    pose proof (Hin t raw ltac:(set_solver)) as Hraw.
    destruct (applyInbound raw t (default [] (next !! t)) (default ∅ (old !! t))) as [err raw'] eqn:Ea.
    simpl in Ht. subst err.
    destruct (IH (<[t := raw']> inbounds)) as (inb & -> & Hinb).
    + done.
    + intros tag r Hr. rewrite lookup_insert_ne; [apply Hin; set_solver|].
      intros ->. apply Hn, list_elem_of_fmap. by exists (tag, r).
    + intros tag r Hr. apply Hok. set_solver.
    + exists inb. split; [done|]. intros tag. rewrite Hinb. destruct (decide (tag = t)) as [->|Hne].
      * rewrite (decide_False (P := t ∈ todo.*1)) by done. rewrite decide_True by set_solver.
        rewrite lookup_insert_eq, Hraw. simpl. unfold nextUsers. by rewrite Ea.
      * rewrite lookup_insert_ne by done.
        destruct (decide (tag ∈ todo.*1)); [rewrite decide_True by set_solver | rewrite decide_False by set_solver]; done.
Qed.

(** Whatever the order, each inbound is changed by its own step alone. *)
Lemma applyInbounds_all next old inbounds :
  (forall tag raw, inbounds !! tag = Some raw ->
    (applyInbound raw tag (nextUsers next tag) (default ∅ (old !! tag))).1 = None) ->
  exists inbounds', applyInbounds (go_range 27 inbounds) next old inbounds = (None, inbounds') /\
    forall tag, inbounds' !! tag =
      (fun raw => (applyInbound raw tag (nextUsers next tag) (default ∅ (old !! tag))).2)
        <$> inbounds !! tag.
Proof.
  intros Hok.
  destruct (applyInbounds_spec next old (go_range 27 inbounds) inbounds) as (inb & E & Hinb).
  - apply NoDup_fst_go_range.
  - intros tag raw. apply elem_of_go_range.
  - intros tag raw Hin%elem_of_go_range. by apply Hok.
  - exists inb. split; [done|]. intros tag. rewrite Hinb. case_decide as Hd; [done|].
    destruct (inbounds !! tag) as [raw|] eqn:Er; [|done].
    exfalso. apply Hd, list_elem_of_fmap. exists (tag, raw). split; [done|]. by apply elem_of_go_range.
Qed.

Lemma ApplyBoxByInbound_ok clock next m inbounds :
  (forall tag raw, inbounds !! tag = Some raw ->
    (applyInbound raw tag (nextUsers next tag) (InboundSnapshot tag m)).1 = None) ->
  exists m' inbounds', ApplyBoxByInbound clock next (m, inbounds) = (None, (m', inbounds')) /\
    (forall tag, inbounds' !! tag =
      (fun raw => (applyInbound raw tag (nextUsers next tag) (InboundSnapshot tag m)).2)
        <$> inbounds !! tag) /\
    m' = refreshLimiters clock (unionOf next)
      (mkManager (unionOf next) (secretsFrom (unionOf next)) (usersByID <$> next)
        (nodeLimit m) (limiters m) (limHeap m)).
Proof.
  intros Hok. unfold ApplyBoxByInbound.
  set (old := filter _ (byInbound m)).
  assert (forall tag raw, inbounds !! tag = Some raw -> default ∅ (old !! tag) = InboundSnapshot tag m) as Hold.
  { intros tag raw Hr. unfold old, InboundSnapshot. rewrite map_lookup_filter.
    destruct (byInbound m !! tag); simpl; [|done]. by rewrite option_guard_True by eauto. }
  destruct (applyInbounds_all next old inbounds) as (inb & -> & Hinb).
  { intros tag raw Hr. rewrite (Hold _ _ Hr). by apply Hok. }
  eexists _, _. split; [done|]. split; [|done]. intros tag. rewrite Hinb.
  destruct (inbounds !! tag) as [raw|] eqn:Er; [|done]. simpl. by rewrite (Hold _ _ Er).
Qed.

(** The limiter loops touch the limiters only. *)
Definition sameUsers m m' : Prop :=
  users m' = users m /\ bySecret m' = bySecret m /\ byInbound m' = byInbound m /\
  nodeLimit m' = nodeLimit m.

Lemma sameUsers_trans m1 m2 m3 : sameUsers m1 m2 -> sameUsers m2 m3 -> sameUsers m1 m3.
Proof. unfold sameUsers. intuition congruence. Qed.

Lemma closeLimiterLocked_users id m : sameUsers m (closeLimiterLocked id m).
Proof. unfold closeLimiterLocked. by destruct (limiters m !! id). Qed.

Lemma updateLimiterLocked_users clock m u : sameUsers m (updateLimiterLocked clock m u).
Proof.
  unfold updateLimiterLocked. destruct (negb _); [done|].
  by destruct (limiters m !! ID u).
Qed.

Lemma refreshLimiters_users clock next m : sameUsers m (refreshLimiters clock next m).
Proof.
  unfold refreshLimiters, closeAbsent. apply foldl_invariant.
  - apply foldl_invariant; [done|]. intros m1 e _ Hm. case_bool_decide; [|done].
    eapply sameUsers_trans; [exact Hm | apply closeLimiterLocked_users].
  - intros m1 u _ Hm. eapply sameUsers_trans; [exact Hm | apply updateLimiterLocked_users].
Qed.

(** The apply establishes the new snapshots on every inbound. *)
Lemma ApplyBoxByInbound_synced clock next m inbounds :
  synced m inbounds -> serves inbounds ->
  distinct (fun tag => InboundSnapshot tag m) inbounds ->
  distinct (fun tag => usersByID (nextUsers next tag)) inbounds ->
  exists m' inbounds', ApplyBoxByInbound clock next (m, inbounds) = (None, (m', inbounds')) /\
    synced m' inbounds' /\ dom inbounds' = dom inbounds /\
    (forall tag, InboundSnapshot tag m' = usersByID (nextUsers next tag)) /\
    (forall tag raw, inbounds !! tag = Some raw -> exists raw', inbounds' !! tag = Some raw' /\ same_protocol raw raw').
Proof.
  intros Hs Hb Hd Hd'.
  assert (forall tag raw, inbounds !! tag = Some raw -> exists raw',
    applyInbound raw tag (nextUsers next tag) (InboundSnapshot tag m) = (None, raw') /\
    same_protocol raw raw' /\ inbound_synced raw' (usersByID (nextUsers next tag))) as Hone.
  { intros tag raw Hr. apply applyInbound_synced; eauto. }
  destruct (ApplyBoxByInbound_ok clock next m inbounds) as (m' & inb & E & Hinb & Hm').
  { intros tag raw Hr. by destruct (Hone tag raw Hr) as (? & -> & _). }
  assert (forall tag, InboundSnapshot tag m' = usersByID (nextUsers next tag)) as Hsnap.
  { intros tag. rewrite Hm'. unfold InboundSnapshot.
    match goal with |- context [refreshLimiters ?c ?n ?x] =>
      destruct (refreshLimiters_users c n x) as (_ & _ & -> & _) end.
    simpl. rewrite lookup_fmap. unfold nextUsers. by destruct (next !! tag). }
  exists m', inb. split; [done|]. split_and!; [| | done |].
  - intros tag raw Hr. rewrite Hsnap. rewrite Hinb in Hr.
    destruct (inbounds !! tag) as [raw0|] eqn:Er; [|done]. simpl in Hr.
    destruct (Hone tag raw0 Er) as (raw' & Ea & _ & ?). rewrite Ea in Hr. simpl in Hr. congruence.
  - apply set_eq. intros tag. rewrite !elem_of_dom, Hinb. by rewrite fmap_is_Some.
  - intros tag raw Hr. rewrite Hinb, Hr. simpl.
    destruct (Hone tag raw Hr) as (raw' & Ea & ? & _). rewrite Ea. eauto.
Qed.
End ApplyAll.

(** ** Limiters

    The pairs of a manager: the node's ([None]) and one per user. *)

Definition pairAt (m : UserManager) (k : option Z) : option limiterPair :=
  match k with None => nodeLimit m | Some id => limiters m !! id end.

Definition apart (p q : limiterPair) : Prop :=
  rx p <> rx q /\ rx p <> tx q /\ tx p <> rx q /\ tx p <> tx q.

Definition allocated (p : limiterPair) (h : limiterHeap) : Prop :=
  is_Some (h !! rx p) /\ is_Some (h !! tx p).

(** Both limiters of the pair are open. *)
Definition openPair (p : limiterPair) (h : limiterHeap) : Prop :=
  rx p <> tx p /\ exists r t, h !! rx p = Some r /\ h !! tx p = Some t /\
    closed r = false /\ closed t = false.

(** No pointer of [p] belongs to a pair other than the one at [k]. *)
Definition reserved (k : option Z) (p : limiterPair) (m : UserManager) : Prop :=
  allocated p (limHeap m) /\ forall k' q, k' <> k -> pairAt m k' = Some q -> apart p q.

Record limiters_ok (m : UserManager) : Prop := {
  lk_open : forall k p, pairAt m k = Some p -> openPair p (limHeap m);
  lk_reserved : forall k p, pairAt m k = Some p -> reserved k p m
}.

(** What is observed of a pair. *)
Definition pairView (k : option Z) (p : limiterPair) (m : UserManager) :=
  (pairAt m k, limHeap m !! rx p, limHeap m !! tx p).

Section LimiterLemmas.
Context `{MapOrder} `{Float64} `{Build}.
Implicit Types (m : UserManager) (p q : limiterPair) (clock : limloc -> Z).

Lemma openPair_allocated p h : openPair p h -> allocated p h.
Proof. intros (_ & r & t & Hr & Ht & _). split; eauto. Qed.

Lemma alter2_ne {f g : RateLimiter -> RateLimiter} p l (h : limiterHeap) :
  l <> rx p -> l <> tx p -> alter g (tx p) (alter f (rx p) h) !! l = h !! l.
Proof. intros. by rewrite !lookup_alter_ne. Qed.

Lemma alter2_eq {f g : RateLimiter -> RateLimiter} p (h : limiterHeap) :
  rx p <> tx p ->
  alter g (tx p) (alter f (rx p) h) !! rx p = f <$> h !! rx p /\
  alter g (tx p) (alter f (rx p) h) !! tx p = g <$> h !! tx p.
Proof.
  intros Hne. rewrite lookup_alter_ne by done. rewrite !lookup_alter_eq.
  by rewrite lookup_alter_ne.
Qed.

Lemma alter2_allocated {f g : RateLimiter -> RateLimiter} p q h :
  allocated q h -> allocated q (alter g (tx p) (alter f (rx p) h)).
Proof.
  unfold allocated. rewrite <- !elem_of_dom, !dom_alter_L. done.
Qed.

Lemma alter2_open f g p q h :
  (forall l, closed l = false -> closed (f l) = false) ->
  (forall l, closed l = false -> closed (g l) = false) ->
  rx p <> tx p -> p = q \/ apart q p -> openPair q h ->
  openPair q (alter g (tx p) (alter f (rx p) h)).
Proof.
  intros Hf Hg Hne Hpq (Hq & r & t & Hr & Ht & Hcr & Hct). split; [done|].
  destruct Hpq as [->|(? & ? & ? & ?)].
  - destruct (alter2_eq (f := f) (g := g) q h Hne) as [-> ->]. rewrite Hr, Ht. simpl.
    exists (f r), (g t). auto.
  - rewrite !alter2_ne by done. exists r, t. auto.
Qed.

Lemma pairAt_other m m' k : limiters m' = limiters m -> nodeLimit m' = nodeLimit m -> pairAt m' k = pairAt m k.
Proof. unfold pairAt. by intros -> ->. Qed.

(** Closing the pair of a user. *)
Lemma closeLimiterLocked_pairAt id m k :
  pairAt (closeLimiterLocked id m) k = if decide (k = Some id) then None else pairAt m k.
Proof.
  unfold closeLimiterLocked. destruct (limiters m !! id) as [p|] eqn:E; simpl.
  - destruct k as [j|]; simpl; [|done]. destruct (decide (Some j = Some id)) as [[= ->]|Hne].
    + apply lookup_delete_eq.
    + apply lookup_delete_ne. congruence.
  - case_decide as Hk; [by rewrite Hk|done].
Qed.

Lemma closeLimiterLocked_reserved id m k p :
  limiters_ok m -> reserved k p m -> reserved k p (closeLimiterLocked id m).
Proof.
  intros Hok [Ha Hr]. split.
  - unfold closeLimiterLocked. destruct (limiters m !! id); [|done]. by apply alter2_allocated.
  - intros k' q Hk. rewrite closeLimiterLocked_pairAt. case_decide; [done|]. by apply Hr.
Qed.

Lemma closeLimiterLocked_heap id m l :
  (forall p, limiters m !! id = Some p -> l <> rx p /\ l <> tx p) ->
  limHeap (closeLimiterLocked id m) !! l = limHeap m !! l.
Proof.
  intros Hl. unfold closeLimiterLocked. destruct (limiters m !! id) as [p|]; [|done].
  destruct (Hl p eq_refl). by apply alter2_ne.
Qed.

Lemma closeLimiterLocked_ok id m : limiters_ok m -> limiters_ok (closeLimiterLocked id m).
Proof.
  intros Hok. split; intros k p; rewrite closeLimiterLocked_pairAt; case_decide as Hk; try done; intros Hp.
  - destruct (lk_open m Hok k p Hp) as (Hne & r & t & Hr & Ht & Hc). split; [done|].
    exists r, t. rewrite !closeLimiterLocked_heap; [done| |];
      intros q Hq; destruct (lk_reserved m Hok k p Hp) as [_ Hres];
      by destruct (Hres (Some id) q (not_eq_sym Hk) Hq) as (? & ? & ? & ?).
  - apply closeLimiterLocked_reserved; [done|]. by apply lk_reserved.
Qed.

Lemma closeLimiterLocked_view id m k p :
  reserved k p m -> k <> Some id -> pairView k p (closeLimiterLocked id m) = pairView k p m.
Proof.
  intros [_ Hr] Hk. unfold pairView. rewrite closeLimiterLocked_pairAt, decide_False by done.
  rewrite !closeLimiterLocked_heap; [done| |];
    intros q Hq; by destruct (Hr (Some id) q (not_eq_sym Hk) Hq) as (? & ? & ? & ?).
Qed.

(** Creating or updating the pair of a user. *)
Lemma newPair_spec r clock h p h' :
  newPair r clock h = (p, h') ->
  h !! rx p = None /\ h !! tx p = None /\ rx p <> tx p /\
  h' !! rx p = Some (NewRateLimiter r (clock (rx p))) /\
  h' !! tx p = Some (NewRateLimiter r (clock (tx p))) /\
  forall l, is_Some (h !! l) -> h' !! l = h !! l.
Proof.
  unfold newPair. intros [= <- <-]. simpl.
  set (a := fresh (dom h)). set (h1 := <[a := _]> h). set (b := fresh (dom h1)).
  assert (h !! a = None) as Ha by (apply not_elem_of_dom, is_fresh).
  assert (h1 !! b = None) as Hb by (apply not_elem_of_dom, is_fresh).
  assert (a <> b) as Hab.
  { intros E. rewrite <- E in Hb. unfold h1 in Hb. by rewrite lookup_insert_eq in Hb. }
  split; [done|]. split; [|split; [done|]].
  - unfold h1 in Hb. by rewrite lookup_insert_ne in Hb.
  - rewrite lookup_insert_ne, lookup_insert_eq by done. unfold h1. rewrite lookup_insert_eq.
    do 2 (split; [done|]). intros l Hl. rewrite lookup_insert_ne.
    + rewrite lookup_insert_ne; [done|]. intros <-. rewrite Ha in Hl. by apply is_Some_None in Hl.
    + intros <-. unfold h1 in Hb. rewrite lookup_insert_ne in Hb by done.
      rewrite Hb in Hl. by apply is_Some_None in Hl.
Qed.

(** What an update makes of a pair: new limiters, or a new rate for the same ones. *)
Definition updated clock (u : User) (v : option limiterPair * option RateLimiter * option RateLimiter) p :=
  (v.1.1, SetRate (mbpsToBytes (SpeedLimit u)) (clock (rx p)) <$> v.1.2,
   SetRate (mbpsToBytes (SpeedLimit u)) (clock (tx p)) <$> v.2).

Lemma SetRate_open r now l : closed l = false -> closed (SetRate r now l) = false.
Proof. unfold SetRate. cbv zeta. by destruct (r <=? 0). Qed.

Lemma NewRateLimiter_open r now : closed (NewRateLimiter r now) = false.
Proof. by apply SetRate_open. Qed.

Section Enabled.
Hypothesis Hlimit : userRateLimitBuildEnabled = true.

Lemma updateLimiterLocked_cases clock m u :
  let m' := updateLimiterLocked clock m u in
  nodeLimit m' = nodeLimit m /\
  ((exists p, limiters m !! ID u = Some p /\ limiters m' = limiters m /\
     limHeap m' = pairSetRate p (mbpsToBytes (SpeedLimit u)) clock (limHeap m)) \/
   (exists p, limiters m !! ID u = None /\ limiters m' = <[ID u := p]> (limiters m) /\
     newPair (mbpsToBytes (SpeedLimit u)) clock (limHeap m) = (p, limHeap m'))).
Proof.
  unfold updateLimiterLocked. rewrite Hlimit. simpl.
  destruct (limiters m !! ID u) as [p|] eqn:E; simpl; [eauto 10|].
  split; [done|]. right. eexists. split; [done|]. split; done.
Qed.

Lemma updateLimiterLocked_pairAt clock m u k :
  k <> Some (ID u) -> pairAt (updateLimiterLocked clock m u) k = pairAt m k.
Proof.
  intros Hk. destruct (updateLimiterLocked_cases clock m u)
    as (Hn & [(p & _ & Hl & _)|(p & _ & Hl & _)]); unfold pairAt; rewrite Hn, Hl; [done|].
  destruct k; [|done]. apply lookup_insert_ne. congruence.
Qed.

Lemma updateLimiterLocked_reserved clock m u k p :
  limiters_ok m -> reserved k p m -> reserved k p (updateLimiterLocked clock m u).
Proof.
  intros Hok [Ha Hr]. destruct (updateLimiterLocked_cases clock m u)
    as (Hn & [(q & Hq & Hl & Hh)|(q & Hq & Hl & Hh)]).
  - split; [rewrite Hh; by apply alter2_allocated|].
    intros k' q' Hk. unfold pairAt. rewrite Hn, Hl. by apply Hr.
  - destruct (newPair_spec _ _ _ _ _ Hh) as (Hx & Ht & _ & Hx' & Ht' & Hfr).
    destruct Ha as [Ha1 Ha2]. split; [by split; rewrite Hfr|].
    intros k' q' Hk Hq'. destruct (decide (k' = Some (ID u))) as [->|Hne].
    + simpl in Hq'. rewrite Hl, lookup_insert_eq in Hq'. injection Hq' as <-.
      split_and!; intros E; rewrite E in *; rewrite ?Hx, ?Ht in *; by eapply is_Some_None.
    + rewrite updateLimiterLocked_pairAt in Hq' by done. by apply (Hr k').
Qed.

Lemma updateLimiterLocked_frame clock m u k p :
  limiters_ok m -> reserved k p m -> k <> Some (ID u) ->
  pairView k p (updateLimiterLocked clock m u) = pairView k p m.
Proof.
  intros Hok [Ha Hr] Hk. unfold pairView. rewrite updateLimiterLocked_pairAt by done.
  destruct (updateLimiterLocked_cases clock m u)
    as (Hn & [(q & Hq & Hl & Hh)|(q & Hq & Hl & Hh)]).
  - rewrite Hh. destruct (Hr (Some (ID u)) q (not_eq_sym Hk) Hq) as (? & ? & ? & ?).
    unfold pairSetRate. by rewrite !alter2_ne.
  - destruct (newPair_spec _ _ _ _ _ Hh) as (_ & _ & _ & _ & _ & Hfr). destruct Ha.
    by rewrite !Hfr.
Qed.

Lemma updateLimiterLocked_ok clock m u :
  limiters_ok m -> limiters_ok (updateLimiterLocked clock m u).
Proof.
  intros Hok. destruct (updateLimiterLocked_cases clock m u)
    as (Hn & [(q & Hq & Hl & Hh)|(q & Hq & Hl & Hh)]).
  - assert (forall k, pairAt (updateLimiterLocked clock m u) k = pairAt m k) as E
      by (intros; by apply pairAt_other).
    split; intros k p; rewrite E; intros Hp.
    + rewrite Hh. apply alter2_open; try apply SetRate_open.
      * by destruct (lk_open m Hok (Some (ID u)) q Hq).
      * destruct (decide (k = Some (ID u))) as [->|Hne]; [left; simpl in Hp; congruence|right].
        by apply (lk_reserved m Hok k p Hp) with (k' := Some (ID u)).
      * by eapply lk_open.
    + apply updateLimiterLocked_reserved; [done|]. by apply lk_reserved.
  - destruct (newPair_spec _ _ _ _ _ Hh) as (Hx & Ht & Hne & Hx' & Ht' & Hfr).
    assert (openPair q (limHeap (updateLimiterLocked clock m u))) as Hopen.
    { split; [done|]. rewrite Hx', Ht'. eexists _, _. split_and!; auto using NewRateLimiter_open. }
    split; intros k p Hp; destruct (decide (k = Some (ID u))) as [->|Hk].
    + simpl in Hp. rewrite Hl, lookup_insert_eq in Hp. by injection Hp as <-.
    + rewrite updateLimiterLocked_pairAt in Hp by done.
      destruct (lk_open m Hok k p Hp) as (Hpne & r & t & Hr & Hpt & Hc).
      split; [done|]. exists r, t. by rewrite !Hfr by eauto.
    + simpl in Hp. rewrite Hl, lookup_insert_eq in Hp. injection Hp as <-.
      split; [by apply openPair_allocated|]. intros k' q' Hk' Hq'.
      rewrite updateLimiterLocked_pairAt in Hq' by done.
      destruct (openPair_allocated _ _ (lk_open m Hok k' q' Hq')) as [H1' H2'].
      split_and!; intros E; rewrite E in *; rewrite ?Hx, ?Ht in *; by eapply is_Some_None.
    + rewrite updateLimiterLocked_pairAt in Hp by done.
      apply updateLimiterLocked_reserved; [done|]. by apply lk_reserved.
Qed.

Lemma updateLimiterLocked_view clock m u p :
  limiters_ok m -> limiters m !! ID u = Some p ->
  pairView (Some (ID u)) p (updateLimiterLocked clock m u) =
  updated clock u (pairView (Some (ID u)) p m) p.
Proof.
  intros Hok Hp. destruct (lk_open m Hok (Some (ID u)) p Hp) as (Hne & _).
  destruct (updateLimiterLocked_cases clock m u)
    as (Hn & [(q & Hq & Hl & Hh)|(q & Hq & _)]); [|congruence].
  assert (q = p) as -> by congruence. unfold pairView, updated. simpl. rewrite Hl, Hh.
  unfold pairSetRate.
  match goal with |- context [alter ?g (tx p) (alter ?f (rx p) ?h)] =>
    by destruct (alter2_eq (f := f) (g := g) p h Hne) as [-> ->] end.
Qed.

(** *** The closing loop *)

Definition kept (next : snapshot) (k : option Z) : Prop :=
  match k with None => True | Some id => is_Some (next !! id) end.

Definition closeStep (next : snapshot) m (e : Z * limiterPair) : UserManager :=
  if bool_decide (next !! e.1 = None) then closeLimiterLocked e.1 m else m.

Lemma closeStep_ok next m e : limiters_ok m -> limiters_ok (closeStep next m e).
Proof. unfold closeStep. case_bool_decide; auto using closeLimiterLocked_ok. Qed.

Lemma closeStep_reserved next m e k p :
  limiters_ok m /\ reserved k p m -> limiters_ok (closeStep next m e) /\ reserved k p (closeStep next m e).
Proof.
  intros [? ?]. split; [by apply closeStep_ok|]. unfold closeStep.
  case_bool_decide; auto using closeLimiterLocked_reserved.
Qed.

Lemma closeAbsent_ok next m : limiters_ok m -> limiters_ok (closeAbsent next m).
Proof.
  intros Hok. apply (foldl_invariant (closeStep next) limiters_ok); [done|].
  intros. by apply closeStep_ok.
Qed.

Lemma closeAbsent_reserved next m k p :
  limiters_ok m -> reserved k p m -> reserved k p (closeAbsent next m).
Proof.
  intros Hok Hr.
  apply (foldl_invariant (closeStep next) (fun m => limiters_ok m /\ reserved k p m)); [done|].
  intros. by apply closeStep_reserved.
Qed.

Lemma closeAbsent_keep next m k p :
  limiters_ok m -> reserved k p m -> kept next k ->
  pairView k p (closeAbsent next m) = pairView k p m.
Proof.
  intros Hok Hr Hk.
  apply (foldl_frame_inv (closeStep next) (pairView k p) (fun m => limiters_ok m /\ reserved k p m)); [done| |].
  - intros. by apply closeStep_reserved.
  - intros s [id q] _ [_ Hres]. unfold closeStep; simpl. case_bool_decide as E; [|done].
    apply closeLimiterLocked_view; [done|]. intros ->. simpl in Hk. rewrite E in Hk. by apply is_Some_None in Hk.
Qed.

Lemma closeAbsent_close next m id p :
  limiters_ok m -> limiters m !! id = Some p -> next !! id = None ->
  pairView (Some id) p (closeAbsent next m) =
  (None, Close <$> limHeap m !! rx p, Close <$> limHeap m !! tx p).
Proof.
  intros Hok Hp Hn. pose proof (lk_reserved m Hok (Some id) p Hp) as Hres.
  destruct (lk_open m Hok (Some id) p Hp) as (Hne & _).
  change (closeAbsent next m) with (foldl (closeStep next) m (go_range 23 (limiters m))).
  rewrite (foldl_once_inv (closeStep next) (pairView (Some id) p)
    (fun m => (limiters_ok m /\ reserved (Some id) p m) /\ forall q, limiters m !! id = Some q -> q = p)
    (fun v => match v.1.1 with
              | Some _ => (None, Close <$> v.1.2, Close <$> v.2) | None => v end)
    (go_range 23 (limiters m)) m (id, p)).
  - unfold pairView; simpl. by rewrite Hp.
  - apply NoDup_go_range.
  - by apply elem_of_go_range.
  - split; [done|]. congruence.
  - intros s [j q] _ [Hs Hq]. split; [by apply closeStep_reserved|]. intros q'. unfold closeStep; simpl.
    case_bool_decide; [|apply Hq]. pose proof (closeLimiterLocked_pairAt j s (Some id)) as E. simpl in E.
    rewrite E. case_decide; [done | apply Hq].
  - intros s [Hs Hq]. unfold closeStep; simpl. rewrite bool_decide_eq_true_2 by done.
    unfold pairView. rewrite closeLimiterLocked_pairAt, decide_True by done. simpl.
    destruct (limiters s !! id) as [q|] eqn:E.
    + assert (q = p) as -> by auto. unfold closeLimiterLocked. rewrite E. simpl. unfold pairClose.
      by destruct (alter2_eq (f := Close) (g := Close) p (limHeap s) Hne) as [-> ->].
    + unfold closeLimiterLocked. by rewrite E.
  - intros s [j q] Hin Hne' [[_ Hr] _]. unfold closeStep; simpl. case_bool_decide; [|done].
    apply closeLimiterLocked_view; [done|]. intros [= ->]. apply elem_of_go_range in Hin. congruence.
Qed.

(** *** The update loop *)

Lemma updates_ok clock us m : limiters_ok m -> limiters_ok (foldl (updateLimiterLocked clock) m us).
Proof. intros Hok. apply foldl_invariant; [done|]. intros. by apply updateLimiterLocked_ok. Qed.

Lemma updates_keep clock us m k p :
  limiters_ok m -> reserved k p m -> (forall u, u ∈ us -> k <> Some (ID u)) ->
  pairView k p (foldl (updateLimiterLocked clock) m us) = pairView k p m.
Proof.
  intros Hok Hr Hk.
  apply (foldl_frame_inv _ (pairView k p) (fun m => limiters_ok m /\ reserved k p m)); [done| |].
  - intros s u _ [? ?]. split; [by apply updateLimiterLocked_ok | by apply updateLimiterLocked_reserved].
  - intros s u Hu [? ?]. apply updateLimiterLocked_frame; auto.
Qed.

Lemma updates_pairAt clock us m k :
  (forall u, u ∈ us -> k <> Some (ID u)) ->
  pairAt (foldl (updateLimiterLocked clock) m us) k = pairAt m k.
Proof.
  intros Hk. apply (foldl_frame _ (fun m => pairAt m k)). intros. apply updateLimiterLocked_pairAt. auto.
Qed.

(** Each user of the list ends with open limiters at its own rate, on the same pointers if it
    had any. *)
Definition limited m (u : User) p : Prop :=
  limiters m !! ID u = Some p /\ exists r t, limHeap m !! rx p = Some r /\ limHeap m !! tx p = Some t /\
    rate r = mbpsToBytes (SpeedLimit u) /\ rate t = mbpsToBytes (SpeedLimit u) /\
    closed r = false /\ closed t = false.

Lemma updateLimiterLocked_limited clock m u :
  limiters_ok m -> exists p, limited (updateLimiterLocked clock m u) u p /\
    forall q, limiters m !! ID u = Some q -> q = p.
Proof.
  intros Hok. pose proof (updateLimiterLocked_ok clock m u Hok) as Hok'.
  assert (forall r now l, rate (SetRate r now l) = r) as Hrate.
  { intros. unfold SetRate. cbv zeta. by destruct (_ <=? 0). }
  destruct (updateLimiterLocked_cases clock m u)
    as (Hn & [(p & Hp & Hl & Hh)|(p & Hp & Hl & Hh)]).
  - exists p. split; [|congruence]. split; [by rewrite Hl|].
    destruct (lk_open m Hok (Some (ID u)) p Hp) as (_ & r & t & Hr & Ht & Hcr & Hct).
    pose proof (updateLimiterLocked_view clock m u p Hok Hp) as Hv.
    unfold pairView, updated in Hv. simpl in Hv. injection Hv as _ -> ->. rewrite Hr, Ht. simpl.
    eexists _, _. split_and!; try done; auto using SetRate_open.
  - exists p. split; [|congruence]. destruct (newPair_spec _ _ _ _ _ Hh) as (_ & _ & _ & Hr & Ht & _).
    split; [by rewrite Hl, lookup_insert_eq|]. rewrite Hr, Ht.
    eexists _, _. split_and!; try done; try apply NewRateLimiter_open; apply Hrate.
Qed.

Lemma updates_limited clock us m u :
  limiters_ok m -> NoDup (ID <$> us) -> u ∈ us ->
  exists p, limited (foldl (updateLimiterLocked clock) m us) u p /\
    forall q, limiters m !! ID u = Some q -> q = p.
Proof.
  intros Hok Hnd Hu. apply list_elem_of_split in Hu as (l1 & l2 & ->).
  rewrite fmap_app, fmap_cons in Hnd. apply NoDup_app in Hnd as (_ & Hd & [Hn _]%NoDup_cons).
  rewrite foldl_app; simpl.
  pose proof (updates_ok clock l1 m Hok) as Hok1.
  set (m1 := foldl (updateLimiterLocked clock) m l1) in *.
  destruct (updateLimiterLocked_limited clock m1 u Hok1) as (p & Hp & Hsame).
  pose proof (updateLimiterLocked_ok clock m1 u Hok1) as Hok2.
  exists p. split.
  - destruct Hp as [Hp Hrt]. pose proof (updates_keep clock l2 _ (Some (ID u)) p Hok2) as Hv.
    unfold pairView in Hv. simpl in Hv.
    assert (forall v, v ∈ l2 -> Some (ID u) <> Some (ID v)) as Hne.
    { intros v Hv' [= E]. apply Hn. rewrite E. by apply list_elem_of_fmap_2. }
    specialize (Hv (lk_reserved _ Hok2 (Some (ID u)) p Hp) Hne).
    injection Hv as E1 E2 E3. split; [by rewrite E1 | by rewrite E2, E3].
  - intros q Hq. apply Hsame. change (pairAt m1 (Some (ID u)) = Some q).
    unfold m1. rewrite updates_pairAt; [done|]. intros v Hv [= E].
    apply (Hd (ID u)); [|left]. rewrite E. by apply list_elem_of_fmap_2.
Qed.

(** *** Both loops *)

Lemma NoDup_ID next : keyed next -> NoDup (ID <$> (go_range 24 next).*2).
Proof.
  intros Hk.
  assert (ID <$> (go_range 24 next).*2 = (go_range 24 next).*1) as ->; [|apply NoDup_fst_go_range].
  rewrite <- list_fmap_compose. apply list_fmap_ext. intros i [id u] Hi. simpl.
  apply list_elem_of_lookup_2, elem_of_go_range in Hi. by destruct (Hk id u Hi).
Qed.

Lemma elem_of_values next u : keyed next -> u ∈ (go_range 24 next).*2 <-> next !! ID u = Some u.
Proof.
  intros Hk. rewrite list_elem_of_fmap. split.
  - intros ([id v] & -> & Hu%elem_of_go_range). simpl. by destruct (Hk id v Hu) as [-> _].
  - intros Hu. exists (ID u, u). split; [done|]. by apply elem_of_go_range.
Qed.

(** Limiter pairs follow the users: a pair exists exactly for the users of [next], open and at
    the user's rate; a user that stays keeps its pointers; the limiters of a user that left
    are closed; the node's limiters are untouched. *)
Record limiters_follow (next : snapshot) m m' : Prop := {
  lf_ok : limiters_ok m';
  lf_users : forall id u, next !! id = Some u -> exists p, limited m' u p;
  lf_stable : forall id p, limiters m !! id = Some p -> is_Some (next !! id) -> limiters m' !! id = Some p;
  lf_gone : forall id, next !! id = None -> limiters m' !! id = None;
  lf_closed : forall id p, limiters m !! id = Some p -> next !! id = None ->
    exists r t, limHeap m' !! rx p = Some r /\ limHeap m' !! tx p = Some t /\
      closed r = true /\ closed t = true;
  lf_node : forall p, nodeLimit m = Some p -> pairView None p m' = pairView None p m
}.

Lemma closeAbsent_gone next m id :
  limiters_ok m -> next !! id = None -> limiters (closeAbsent next m) !! id = None.
Proof.
  intros Hok Hn. destruct (limiters m !! id) as [p|] eqn:Hp.
  - pose proof (closeAbsent_close next m id p Hok Hp Hn) as Hv. by injection Hv.
  - apply (foldl_invariant (closeStep next) (fun m => limiters m !! id = None)); [done|].
    intros s e _ Hs. unfold closeStep. case_bool_decide; [|done].
    pose proof (closeLimiterLocked_pairAt e.1 s (Some id)) as E. simpl in E. rewrite E. by case_decide.
Qed.

Lemma refreshLimiters_follow clock next m :
  keyed next -> limiters_ok m -> limiters_follow next m (refreshLimiters clock next m).
Proof.
  intros Hk Hok. unfold refreshLimiters. set (us := (go_range 24 next).*2).
  pose proof (closeAbsent_ok next m Hok) as Hok1.
  assert (forall k, (forall id, k = Some id -> next !! id = None) ->
    forall u, u ∈ us -> k <> Some (ID u)) as Hout.
  { intros k Hkn u Hu ->. apply elem_of_values in Hu; [|done]. rewrite Hkn in Hu; done. }
  assert (forall id u, next !! id = Some u -> u ∈ us /\ ID u = id) as Hin.
  { intros id u Hu. destruct (Hk id u Hu) as [E _]. split; [|done].
    apply elem_of_values; [done|]. by rewrite E. }
  split.
  - by apply updates_ok.
  - intros id u Hu. destruct (updates_limited clock us _ u Hok1 (NoDup_ID next Hk)) as (p & Hp & _);
      [by eapply Hin | by exists p].
  - intros id p Hp [u Hu]. destruct (Hin id u Hu) as [Hus <-].
    destruct (updates_limited clock us _ u Hok1 (NoDup_ID next Hk) Hus) as (p' & [Hp' _] & Hsame).
    rewrite (Hsame p); [done|].
    pose proof (closeAbsent_keep next m (Some (ID u)) p Hok (lk_reserved m Hok (Some (ID u)) p Hp)
      (ex_intro _ u Hu)) as Hv.
    unfold pairView in Hv. injection Hv as E _ _. simpl in E. by rewrite E.
  - intros id Hn. change (pairAt (foldl (updateLimiterLocked clock) (closeAbsent next m) us) (Some id) = None).
    rewrite updates_pairAt; [by apply closeAbsent_gone|]. apply Hout. by intros ? [= <-].
  - intros id p Hp Hn. pose proof (lk_reserved m Hok (Some id) p Hp) as Hres.
    pose proof (updates_keep clock us _ (Some id) p Hok1 (closeAbsent_reserved next m _ _ Hok Hres)
      (Hout (Some id) ltac:(by intros ? [= <-]))) as Hv.
    rewrite (closeAbsent_close next m id p Hok Hp Hn) in Hv. unfold pairView in Hv.
    injection Hv as _ Ex Et. rewrite Ex, Et.
    destruct (lk_open m Hok (Some id) p Hp) as (_ & r & t & -> & -> & _). simpl. by eexists _, _.
  - intros p Hp. pose proof (lk_reserved m Hok None p Hp) as Hres.
    rewrite updates_keep; [by apply closeAbsent_keep | done | by apply closeAbsent_reserved | by apply Hout].
Qed.
End Enabled.
End LimiterLemmas.

(** ** The union of the snapshots and the secrets *)

Section Union.
Context `{MapOrder}.
Implicit Types (next : gmap string (list User)) (us : snapshot).

Lemma unionInbound_sub (P : Z -> User -> Prop) union e :
  (forall id u, union !! id = Some u -> P id u) ->
  (forall id u, usersByID e.2 !! id = Some u -> P id u) ->
  forall id u, unionInbound union e !! id = Some u -> P id u.
Proof.
  intros Hu He. unfold unionInbound.
  apply (foldl_invariant _ (fun union => forall id u, union !! id = Some u -> P id u)); [done|].
  intros s [i v] Hin Hs id u. simpl. destruct (decide (i = id)) as [->|].
  - rewrite lookup_insert_eq. intros [= <-]. apply elem_of_go_range in Hin. by apply He.
  - rewrite lookup_insert_ne by done. apply Hs.
Qed.

Lemma unionOf_from next id u :
  unionOf next !! id = Some u -> exists tag, usersByID (nextUsers next tag) !! id = Some u.
Proof.
  revert id u. unfold unionOf.
  apply (foldl_invariant _ (fun union => forall id u, union !! id = Some u -> _)).
  - intros id u Hu. by rewrite lookup_empty in Hu.
  - intros s [tag l] Hin Hs. apply unionInbound_sub; [done|]. simpl. intros id u Hu.
    exists tag. apply elem_of_go_range in Hin. unfold nextUsers. by rewrite Hin.
Qed.

Lemma unionOf_covers next tag id :
  is_Some (usersByID (nextUsers next tag) !! id) -> is_Some (unionOf next !! id).
Proof.
  intros [u Hu]. unfold nextUsers in Hu. destruct (next !! tag) as [l|] eqn:Hl; [|done].
  assert (forall s (e : Z * User), is_Some (s !! id) -> is_Some ((<[e.1 := e.2]> s : snapshot) !! id)) as Hkeep.
  { intros. apply lookup_insert_is_Some'. by right. }
  apply (foldl_reaches _ (fun union => is_Some (union !! id)) _ _ (tag, l)).
  - by apply elem_of_go_range.
  - intros s. apply (foldl_reaches _ (fun union => is_Some (union !! id)) _ _ (id, u)).
    + by apply elem_of_go_range.
    + intros s'. simpl. rewrite lookup_insert_eq. eauto.
    + intros s' b. apply Hkeep.
  - intros s b Hs. unfold unionInbound. apply foldl_invariant; [done|]. intros s' e _. apply Hkeep.
Qed.

Lemma unionOf_keyed next : keyed (unionOf next).
Proof. intros id u Hu. apply unionOf_from in Hu as [tag Hu]. by eapply usersByID_keyed. Qed.

Lemma addSecret_fold id out secrets s i :
  foldl (addSecret id) out secrets !! s = Some i ->
  (i = id /\ s ∈ secrets /\ s <> "") \/ out !! s = Some i.
Proof.
  revert out. induction secrets as [|x secrets IH]; intros out; simpl; [by right|].
  intros H'. apply IH in H' as [(-> & ? & ?)|H']; [left; set_solver|].
  unfold addSecret in H'. case_bool_decide; [|by right].
  destruct (decide (x = s)) as [->|].
  - rewrite lookup_insert_eq in H'. injection H' as <-. left. set_solver.
  - rewrite lookup_insert_ne in H' by done. by right.
Qed.

Lemma addSecret_is_Some id out x s : is_Some (out !! s) -> is_Some (addSecret id out x !! s).
Proof.
  intros. unfold addSecret. case_bool_decide; [|done]. apply lookup_insert_is_Some'. by right.
Qed.

Lemma secretsFrom_from us s id :
  secretsFrom us !! s = Some id -> s <> "" /\ exists u, us !! id = Some u /\ s ∈ secretsOf u.
Proof.
  revert s id. unfold secretsFrom.
  apply (foldl_invariant _ (fun out => forall s id, out !! s = Some id -> _)).
  - intros s id Hs. by rewrite lookup_empty in Hs.
  - intros out [i u] Hin Hout s id Hs. cbn [fst snd] in Hs.
    apply addSecret_fold in Hs as [(-> & ? & ?)|Hs]; [|by apply Hout].
    apply elem_of_go_range in Hin. eauto.
Qed.

Lemma secretsFrom_covers us s id u :
  us !! id = Some u -> s ∈ secretsOf u -> s <> "" -> is_Some (secretsFrom us !! s).
Proof.
  intros Hu Hs Hne. apply (foldl_reaches _ (fun out => is_Some (out !! s)) _ _ (id, u)).
  - by apply elem_of_go_range.
  - intros out. cbn [fst snd].
    apply (foldl_reaches _ (fun out => is_Some (out !! s)) _ _ s); [done| |].
    + intros out'. unfold addSecret. rewrite (bool_decide_eq_true_2 _ Hne), lookup_insert_eq. eauto.
    + intros. by apply addSecret_is_Some.
  - intros out b Hout. apply foldl_invariant; [done|]. intros. by apply addSecret_is_Some.
Qed.

(** No secret belongs to two users. *)
Definition unambiguous us : Prop :=
  forall i j u v s, us !! i = Some u -> us !! j = Some v -> s <> "" ->
    s ∈ secretsOf u -> s ∈ secretsOf v -> i = j.

Lemma secretsFrom_lookup us s id u :
  unambiguous us -> us !! id = Some u -> s ∈ secretsOf u -> s <> "" -> secretsFrom us !! s = Some id.
Proof.
  intros Hun Hu Hs Hne. destruct (secretsFrom_covers us s id u Hu Hs Hne) as [j Hj].
  rewrite Hj. f_equal. apply secretsFrom_from in Hj as (_ & v & Hv & Hsv). by eapply Hun.
Qed.
End Union.

(** ** Deciding the hypotheses on concrete users *)

Lemma distinct_creds_NoDup sel m : NoDup (map_to_list (creds sel m)).*2 <-> distinct_creds sel m.
Proof.
  split.
  - intros Hnd i j p Hi Hj. apply elem_of_map_to_list in Hi, Hj.
    apply list_elem_of_lookup_1 in Hi as [a Ha], Hj as [b Hb].
    assert (a = b) as ->.
    { eapply (NoDup_lookup _ a b p Hnd); rewrite list_lookup_fmap; [by rewrite Ha | by rewrite Hb]. }
    congruence.
  - intros Hd. apply NoDup_snd; [apply NoDup_fst_map_to_list|].
    intros i j p Hi%elem_of_map_to_list Hj%elem_of_map_to_list. by eapply Hd.
Qed.

#[export] Instance distinct_creds_dec sel m : Decision (distinct_creds sel m).
Proof. exact (dec_iff _ (distinct_creds_NoDup sel m)). Defined.

#[export] Instance inbound_distinct_dec raw m : Decision (inbound_distinct raw m).
Proof. destruct raw; simpl; apply _. Defined.

#[export] Instance distinct_dec snap inbounds : Decision (distinct snap inbounds).
Proof.
  exact (decide (map_Forall (fun tag raw => inbound_distinct raw (snap tag)) inbounds)).
Defined.

#[export] Instance supported_dec `{Build} raw : Decision (supported raw).
Proof. destruct raw; simpl; apply _. Defined.

#[export] Instance serves_dec `{Build} inbounds : Decision (serves inbounds).
Proof. exact (decide (map_Forall (fun _ raw => supported raw) inbounds)). Defined.

Lemma unambiguous_alt us :
  map_Forall (fun i u => map_Forall (fun j v =>
    i = j \/ Forall (fun s => s = "" \/ s ∉ secretsOf v) (secretsOf u)) us) us <-> unambiguous us.
Proof.
  split.
  - intros Hall i j u v s Hu Hv Hne Hsu Hsv. destruct (Hall i u Hu j v Hv) as [?|Hf]; [done|].
    rewrite Forall_forall in Hf. by destruct (Hf s Hsu).
  - intros Hun i u Hu j v Hv. destruct (decide (i = j)); [by left|right].
    apply Forall_forall. intros s Hs. destruct (decide (s = "")); [by left|right].
    intros Hsv. by eapply n, Hun.
Qed.

#[export] Instance unambiguous_dec us : Decision (unambiguous us).
Proof. exact (dec_iff _ (unambiguous_alt us)). Defined.

Lemma same_credentials_alt old next :
  dom old = dom next /\ map_Forall (fun id a =>
    match next !! id with Some b => credentialsDiffer a b = false | None => True end) old <->
  same_credentials old next.
Proof.
  split.
  - intros [Hd Hall] id. assert (is_Some (old !! id) <-> is_Some (next !! id)) as E
      by (by rewrite <- !elem_of_dom, Hd).
    destruct (old !! id) as [a|] eqn:Ea, (next !! id) as [b|] eqn:Eb; try done.
    + specialize (Hall id a Ea). simpl in Hall. by rewrite Eb in Hall.
    + destruct E as [E _]. by destruct E.
    + destruct E as [_ E]. by destruct E.
  - intros Hs. split.
    + apply set_eq. intros id. rewrite !elem_of_dom. specialize (Hs id).
      destruct (old !! id), (next !! id); try done; split; by eauto.
    + intros id a Ha. specialize (Hs id). rewrite Ha in Hs. by destruct (next !! id).
Qed.

#[export] Instance same_credentials_dec old next : Decision (same_credentials old next).
Proof.
  refine (dec_iff (@and_dec _ _ _ (map_Forall_dec _ _)) (same_credentials_alt old next)).
  intros id a. destruct (next !! id); apply _.
Defined.

(** ** What the manager guarantees *)

(** The credentials a service was told to accept. *)
Definition accepts (raw : inbound) (credential : string) : Prop :=
  match raw with
  | InVLESS h => exists i flow, (i, credential, flow) ∈ VLESS.service h
  | InHysteria2 h => exists id, (id, credential) ∈ Hysteria2.service h
  | InOther => False
  end.

Definition credentialOf (raw : inbound) : User -> string :=
  match raw with InVLESS _ => UUID | InHysteria2 _ => Password | InOther => fun _ => "" end.

Lemma synced_accepts raw m c :
  inbound_synced raw m ->
  accepts raw c <-> c <> "" /\ exists id u, m !! id = Some u /\ credentialOf raw u = c.
Proof.
  intros Hs. destruct raw as [h|h|]; simpl in *; [| |naive_solver].
  - rewrite (VLESS.synced_service vlessFlow h _ c Hs). setoid_rewrite creds_lookup. naive_solver.
  - setoid_rewrite (fun id => Hysteria2.hy2_synced_service h _ id c Hs). setoid_rewrite creds_lookup.
    naive_solver.
Qed.

Section Guarantees.
Context `{MapOrder} `{Float64} `{Build}.

(** C2. An apply gives every inbound exactly its own list.  From a state in which the inbounds
    match the manager's snapshots, in a build that serves the inbounds' protocols, and when
    neither the old nor the new list of any inbound gives two users the same credential, the
    apply cannot fail, and afterwards the service of each inbound was told to accept exactly the
    (last) credentials of the users listed for that inbound, none of any other inbound.  The
    snapshots match again, so the statement applies to the next apply.  Without distinct
    credentials it fails: see [shared_credential_is_dropped]. *)
Theorem apply_isolates_inbounds clock next m inbounds :
  synced m inbounds -> serves inbounds ->
  distinct (fun tag => InboundSnapshot tag m) inbounds ->
  distinct (fun tag => usersByID (nextUsers next tag)) inbounds ->
  exists m' inbounds', ApplyBoxByInbound clock next (m, inbounds) = (None, (m', inbounds')) /\
    synced m' inbounds' /\ dom inbounds' = dom inbounds /\
    (forall tag raw, inbounds !! tag = Some raw ->
      exists raw', inbounds' !! tag = Some raw' /\ same_protocol raw raw') /\
    forall tag raw, inbounds' !! tag = Some raw -> forall c,
      accepts raw c <->
      c <> "" /\ exists id u, usersByID (nextUsers next tag) !! id = Some u /\ credentialOf raw u = c.
Proof.
  intros Hs Hb Hd Hd'.
  destruct (ApplyBoxByInbound_synced clock next m inbounds Hs Hb Hd Hd')
    as (m' & inb & E & Hs' & Hdom & Hsnap & Hp).
  exists m', inb. split_and!; try done. intros tag raw Hr c. rewrite <- Hsnap.
  apply synced_accepts. by apply Hs'.
Qed.

(** Applying lists that change no credentials (only speed limits, say) leaves every inbound as
    it is: no session is closed, no service table rebuilt. *)
Theorem speed_change_touches_no_inbound clock next m inbounds :
  (forall tag, is_Some (inbounds !! tag) ->
    same_credentials (InboundSnapshot tag m) (usersByID (nextUsers next tag))) ->
  exists m', ApplyBoxByInbound clock next (m, inbounds) = (None, (m', inbounds)) /\
    users m' = unionOf next.
Proof.
  intros Hsame.
  assert (forall tag raw, inbounds !! tag = Some raw ->
    applyInbound raw tag (nextUsers next tag) (InboundSnapshot tag m) = (None, raw)) as Hone.
  { intros tag raw Hr. apply applyInbound_same, Hsame. eauto. }
  destruct (ApplyBoxByInbound_ok clock next m inbounds) as (m' & inb & E & Hinb & Hm').
  { intros tag raw Hr. by rewrite (Hone tag raw Hr). }
  exists m'. assert (inb = inbounds) as ->.
  { apply map_eq. intros tag. rewrite Hinb. destruct (inbounds !! tag) as [raw|] eqn:Er; [|done].
    simpl. by rewrite (Hone tag raw Er). }
  split; [done|]. rewrite Hm'.
  match goal with |- context [refreshLimiters ?c ?n ?x] =>
    by destruct (refreshLimiters_users c n x) as (-> & _) end.
Qed.

(** Sessions of a Hysteria2 inbound survive an apply unless their password is one that a
    removed or re-credentialed user had. *)
Theorem unchanged_hysteria2_sessions_survive h tag us old c p :
  distinct_creds Password old -> Hysteria2.userconns h !! c = Some p ->
  c ∉ Hysteria2.closedConns h ->
  (exists id u v, old !! id = Some u /\ Password u = p /\ p <> "" /\
    usersByID us !! id = Some v /\ credentialsDiffer u v = false) ->
  c ∉ inboundClosed (applyInbound (InHysteria2 h) tag us old).2.
Proof.
  intros Hd Hc Hopen (id & u & v & Hu & Hpu & Hne & Hv & Hsame) Hin.
  unfold applyInbound in Hin.
  assert (applyVLESSUsers (InHysteria2 h) tag us old = ((false, None), InHysteria2 h)) as E
    by (unfold applyVLESSUsers; by destruct with_vless).
  rewrite E in Hin. pose proof (applyHysteria2_closed h tag us old c) as Hcl.
  destruct (applyHysteria2Users (InHysteria2 h) tag us old) as [[b err] raw']; simpl in *.
  destruct (Hcl Hin) as [?|(q & Hq & Hcq)]; [done|].
  assert (q = p) as -> by congruence.
  apply elem_of_removed in Hq as (j & Hj & w & Hw & Hdw).
  assert (j = id) as ->.
  { eapply Hd; [exact Hj|]. apply creds_lookup. eauto. }
  unfold differsIn in Hdw. rewrite Hv in Hdw. congruence.
Qed.

(** C35. Rate limiters follow the users of an apply: see [limiters_follow]. *)
Theorem apply_limiters_follow_users clock next m inbounds m' inbounds' :
  userRateLimitBuildEnabled = true -> limiters_ok m ->
  ApplyBoxByInbound clock next (m, inbounds) = (None, (m', inbounds')) ->
  limiters_follow (users m') m m'.
Proof.
  intros Hl Hok. unfold ApplyBoxByInbound.
  destruct (applyInbounds _ _ _ _) as [[e|] inb]; intros [= <- <-].
  match goal with |- context [refreshLimiters ?c ?n ?x] =>
    pose proof (refreshLimiters_follow Hl c n x (unionOf_keyed next)) as [? ? ? ? ? ?];
    [destruct Hok as [Ho Hr]; split; [exact Ho | exact Hr]|];
    destruct (refreshLimiters_users c n x) as (-> & _) end.
  by split.
Qed.


(** A user that an apply removed from a Hysteria2 inbound is cut off at once: its live session
    cannot open another stream, since the session's id is no longer known. *)
Theorem removed_hysteria2_user_refused clock next m inbounds m' inbounds' tag h id c :
  synced m inbounds -> serves inbounds ->
  distinct (fun tag => InboundSnapshot tag m) inbounds ->
  distinct (fun tag => usersByID (nextUsers next tag)) inbounds ->
  ApplyBoxByInbound clock next (m, inbounds) = (None, (m', inbounds')) ->
  inbounds' !! tag = Some (InHysteria2 h) -> usersByID (nextUsers next tag) !! id = None ->
  (Hysteria2.NewConnectionEx tag c id h).1 = Refused /\
  Hysteria2.NewPacketConnectionEx tag id h = Refused.
Proof.
  intros Hs Hb Hd Hd' Happly Hh Hid.
  destruct (ApplyBoxByInbound_synced clock next m inbounds Hs Hb Hd Hd')
    as (m1 & inb & E & Hs' & _ & Hsnap & _).
  rewrite Happly in E. injection E as <- <-.
  pose proof (Hs' tag _ Hh) as (_ & Huid & _). rewrite Hsnap in Huid.
  assert (Hysteria2.uidToUuid h !! id = None) as Hnone.
  { rewrite Huid. unfold creds. by rewrite lookup_omap, Hid. }
  unfold Hysteria2.NewConnectionEx, Hysteria2.NewPacketConnectionEx. by rewrite Hnone.
Qed.
End Guarantees.

(** ** Examples *)

Module Fixture.
#[export] Instance order : MapOrder := canonical_order.
#[export] Instance float : Float64 := exact_float.
#[export] Instance full_build : Build := Build_Build true true true true true.

Definition clock (_ : limloc) : Z := 0.
Definition alice : User := mkUser 1 "uuid-a" "uuid-a" "1" 0.
Definition bob : User := mkUser 2 "uuid-b" "uuid-b" "2" 100.
Definition bobSlow : User := mkUser 2 "uuid-b" "uuid-b" "2" 10.
Definition carol : User := mkUser 3 "uuid-c" "uuid-c" "3" 0.

(** Two VLESS nodes and a Hysteria2 node. *)
Definition threeInbounds : inboundMap :=
  {[ "vless-1-in" := InVLESS (VLESS.NewInbound []);
     "vless-2-in" := InVLESS (VLESS.NewInbound []);
     "hy2-3-in" := InHysteria2 (Hysteria2.NewInbound []) ]}.

Definition lists : gmap string (list User) :=
  {[ "vless-1-in" := [alice; bob]; "vless-2-in" := [carol]; "hy2-3-in" := [bob; carol] ]}.

Definition start : UserManager := NewUserManager 0 clock.

(** The state after the first apply. *)
Definition applied : UserManager * inboundMap := (ApplyBoxByInbound clock lists (start, threeInbounds)).2.

Lemma start_synced : synced start threeInbounds.
Proof.
  change (map_Forall (fun tag raw => inbound_synced raw (InboundSnapshot tag start)) threeInbounds).
  apply map_Forall_insert_2; [split; done|]. apply map_Forall_insert_2; [split; done|].
  apply map_Forall_singleton. apply Hysteria2.synced_empty.
Qed.

Lemma start_serves : serves threeInbounds.
Proof. decide_vm. Qed.

Lemma start_distinct : distinct (fun tag => InboundSnapshot tag start) threeInbounds.
Proof. decide_vm. Qed.

Lemma lists_distinct : distinct (fun tag => usersByID (nextUsers lists tag)) threeInbounds.
Proof. decide_vm. Qed.

(** Node 2 accepts its own user and not one of node 1. *)
Lemma apply_isolates_inbounds_witness :
  exists m' inbounds' raw, ApplyBoxByInbound clock lists (start, threeInbounds) = (None, (m', inbounds')) /\
    inbounds' !! "vless-2-in" = Some raw /\ accepts raw "uuid-c" /\ ~ accepts raw "uuid-a".
Proof.
  destruct (apply_isolates_inbounds clock lists start threeInbounds start_synced start_serves
    start_distinct lists_distinct) as (m' & inb & E & _ & _ & Hp & Hacc).
  destruct (Hp "vless-2-in" (InVLESS (VLESS.NewInbound [])) eq_refl) as (raw & Hraw & Hsame).
  exists m', inb, raw. split; [exact E|]. clear E. split; [exact Hraw|].
  assert (credentialOf raw = UUID) as Hcred by (destruct raw; [reflexivity | destruct Hsame..]).
  rewrite !(Hacc "vless-2-in" raw Hraw), Hcred. split.
  - split; [discriminate|]. exists 3, carol. split; vm_compute; reflexivity.
  - intros (_ & id & u & Hu & Huuid). apply usersByID_elem in Hu. vm_compute in Hu.
    apply list_elem_of_singleton in Hu as ->. discriminate.
Defined.

(** Two users with one UUID, of whom the first is then dropped: both rows of the inbound go with
    the UUID, the second user is unchanged and not added again, and cannot connect. *)
Definition twin : User := mkUser 2 "uuid-a" "uuid-a" "2" 0.

Example shared_credential_is_dropped :
  let both := (ApplyBoxByInbound clock {["vless-1-in" := [alice; twin]]} (start, threeInbounds)).2 in
  let one := (ApplyBoxByInbound clock {["vless-1-in" := [twin]]} both).2 in
  match both.2 !! "vless-1-in" with Some (InVLESS h) => length (VLESS.service h) = 2%nat | _ => False end /\
  match one.2 !! "vless-1-in" with Some (InVLESS h) => VLESS.service h = [] | _ => False end /\
  InboundSnapshot "vless-1-in" one.1 !! 2 = Some twin.
Proof. vm_compute. done. Qed.

Definition slower : gmap string (list User) :=
  {[ "vless-1-in" := [alice; bobSlow]; "vless-2-in" := [carol]; "hy2-3-in" := [bobSlow; carol] ]}.

(** Lowering a speed limit closes nothing. *)
Lemma speed_change_touches_no_inbound_witness :
  exists m', ApplyBoxByInbound clock slower applied = (None, (m', applied.2)) /\
    users m' = unionOf slower.
Proof.
  apply (speed_change_touches_no_inbound clock slower applied.1 applied.2).
  intros tag [raw Hr]. revert tag raw Hr.
  change (map_Forall (fun tag _ => same_credentials (InboundSnapshot tag applied.1)
    (usersByID (nextUsers slower tag))) applied.2). decide_vm.
Defined.

(** Bob's session survives while Carol is removed. *)
Lemma unchanged_hysteria2_sessions_survive_witness :
  let h := Hysteria2.mkInbound ["uuid-b"; "uuid-c"] {[2 := "uuid-b"; 3 := "uuid-c"]}
    {["uuid-b" := 2; "uuid-c" := 3]} [(2, "uuid-b"); (3, "uuid-c")]
    {[7%nat := "uuid-b"; 8%nat := "uuid-c"]} ∅ in
  let raw := (applyInbound (InHysteria2 h) "hy2-3-in" [bobSlow] {[2 := bob; 3 := carol]}).2 in
  7%nat ∉ inboundClosed raw /\ 8%nat ∈ inboundClosed raw.
Proof.
  intros h raw. split; [|decide_vm].
  apply (unchanged_hysteria2_sessions_survive h "hy2-3-in" [bobSlow] {[2 := bob; 3 := carol]} 7%nat "uuid-b").
  - decide_vm.
  - reflexivity.
  - decide_vm.
  - exists 2, bob, bobSlow. split_and!; [reflexivity | reflexivity | discriminate | reflexivity | reflexivity].
Defined.

Lemma start_limiters_ok : limiters_ok start.
Proof. split; intros [id|] p Hp; simpl in Hp; try discriminate; by rewrite lookup_empty in Hp. Qed.

(** The users of the first apply have their limiters; a later apply without Alice closes hers
    and keeps Bob's. *)
Lemma apply_limiters_follow_users_witness :
  limiters_ok applied.1 /\
  exists p, limiters applied.1 !! 2 = Some p /\
    limiters (ApplyBoxByInbound clock {["vless-1-in" := [bobSlow]]} applied).2.1 !! 2 = Some p.
Proof.
  pose proof (apply_limiters_follow_users clock lists start threeInbounds applied.1 applied.2 eq_refl
    start_limiters_ok ltac:(vm_compute; reflexivity)) as F1.
  split; [exact (lf_ok _ _ _ F1)|].
  destruct (lf_users _ _ _ F1 2 bob ltac:(vm_compute; reflexivity)) as (p & Hp & _).
  exists p. split; [exact Hp|].
  pose (st := (ApplyBoxByInbound clock {["vless-1-in" := [bobSlow]]} applied).2).
  pose proof (apply_limiters_follow_users clock {["vless-1-in" := [bobSlow]]} applied.1 applied.2 st.1 st.2
    eq_refl (lf_ok _ _ _ F1) ltac:(vm_compute; reflexivity)) as F2.
  apply (lf_stable _ _ _ F2); [exact Hp|]. exists bobSlow. vm_compute. reflexivity.
Defined.

Definition uuidOfID (id : Z) : string := if id =? 1 then "uuid-a" else if id =? 2 then "uuid-b" else "uuid-c".

Lemma lists_uuid t id u : usersByID (nextUsers lists t) !! id = Some u -> UUID u = uuidOfID id.
Proof.
  intros Hu. destruct (usersByID_keyed _ id u Hu) as [<- _]. apply usersByID_elem in Hu.
  unfold nextUsers in Hu. destruct (lists !! t) as [l|] eqn:Hl; [|by apply not_elem_of_nil in Hu].
  assert (map_Forall (fun _ l => Forall (fun u => UUID u = uuidOfID (ID u)) l) lists) as Hall by decide_vm.
  specialize (Hall t l Hl). rewrite Forall_forall in Hall. by apply Hall.
Qed.


(** A session of Alice, who is not listed for the Hysteria2 node, is refused. *)
Lemma removed_hysteria2_user_refused_witness :
  exists h, applied.2 !! "hy2-3-in" = Some (InHysteria2 h) /\
    (Hysteria2.NewConnectionEx "hy2-3-in" 5%nat 1 h).1 = Refused.
Proof.
  assert (exists h, applied.2 !! "hy2-3-in" = Some (InHysteria2 h)) as (h & Hh).
  { eexists. vm_compute. reflexivity. }
  exists h. split; [exact Hh|].
  apply (removed_hysteria2_user_refused clock lists start threeInbounds applied.1 applied.2 "hy2-3-in" h 1 5
    start_synced start_serves start_distinct lists_distinct).
  - vm_compute. reflexivity.
  - exact Hh.
  - vm_compute. reflexivity.
Defined.
End Fixture.
