(* ===== verification/Rules.v ===== *)
(** * Routing rules (src/fork/sing-box/route/rule)

    A rule is matched against a connection's [InboundContext].  The source shares one mutable
    context between nested rules: besides the connection's data it carries the rule cache, flags
    that record which groups of conditions have matched so far and which later conditions read.
    Here the context is [Facts], which matching does not change, and [RuleCache], which every
    matcher takes and returns.

    Code outside the repository is [RuleLibs]: the domain, IP-set and regular-expression
    matchers and the address predicates of the sing library. *)

From S2P Require Import Prelude GoStrings.

#[local] Open Scope Z_scope.

(** ** Addresses and the context *)

(** [netip.Addr]: the width, 32 or 128, and the bits. *)
Record Addr := mkAddr { addr_width : Z; addr_bits : Z }.

#[export] Instance Addr_eq_dec : EqDecision Addr.
Proof. solve_decision. Defined.

Record Prefix := mkPrefix { prefix_addr : Addr; prefix_len : Z }.

#[export] Instance Prefix_eq_dec : EqDecision Prefix.
Proof. solve_decision. Defined.

(** [netip.Prefix.IsValid]: the length is one of the address; the zero address has width 0 and
    its prefixes the length -1. *)
Definition Prefix_IsValid (p : Prefix) : bool :=
  (0 <? addr_width (prefix_addr p)) && (0 <=? prefix_len p) && (prefix_len p <=? addr_width (prefix_addr p)).

(** [netip.Prefix.Overlaps]: valid prefixes of the same family with the same leading bits. *)
Definition Overlaps (p q : Prefix) : bool :=
  let w := addr_width (prefix_addr p) in
  let n := Z.min (prefix_len p) (prefix_len q) in
  Prefix_IsValid p && Prefix_IsValid q && (w =? addr_width (prefix_addr q)) &&
  (Z.shiftr (addr_bits (prefix_addr p)) (w - n) =? Z.shiftr (addr_bits (prefix_addr q)) (w - n)).

Record Socksaddr := mkSocksaddr { sa_addr : option Addr; sa_port : Z; sa_fqdn : string }.

Record ProcessInfo := mkProcessInfo {
  ProcessPath : string;
  PackageName : string;
  Process_User : string;
  UserId : Z
}.

(** The data of a connection that rule items read. *)
Record Facts := mkFacts {
  f_Inbound : string;
  f_IPVersion : Z;
  f_Network : string;
  f_Source : Socksaddr;
  f_Destination : Socksaddr;
  f_User : string;
  f_Protocol : string;
  f_Domain : string;
  f_Client : string;
  f_DestinationAddresses : list Addr;
  f_ProcessInfo : option ProcessInfo;
  (** Set for DNS queries only. *)
  f_QueryType : Z;
  f_Outbound : string
}.

(** The rule cache of the context; [IgnoreDestinationIPCIDRMatch] is set by DNS rules only and
    no reset clears it. *)
Record RuleCache := mkCache {
  IPCIDRMatchSource : bool;
  IPCIDRAcceptEmpty : bool;
  SourceAddressMatch : bool;
  SourcePortMatch : bool;
  DestinationAddressMatch : bool;
  DestinationPortMatch : bool;
  DidMatch : bool;
  IgnoreDestinationIPCIDRMatch : bool
}.

Definition ResetRuleCache (c : RuleCache) : RuleCache :=
  mkCache false false false false false false false (IgnoreDestinationIPCIDRMatch c).

Definition setDidMatch (c : RuleCache) : RuleCache :=
  mkCache (IPCIDRMatchSource c) (IPCIDRAcceptEmpty c) (SourceAddressMatch c) (SourcePortMatch c)
    (DestinationAddressMatch c) (DestinationPortMatch c) true (IgnoreDestinationIPCIDRMatch c).

Definition setIPCIDR (matchSource acceptEmpty : bool) (c : RuleCache) : RuleCache :=
  mkCache matchSource acceptEmpty (SourceAddressMatch c) (SourcePortMatch c)
    (DestinationAddressMatch c) (DestinationPortMatch c) (DidMatch c) (IgnoreDestinationIPCIDRMatch c).

(** The four flags a group of conditions sets. *)
Inductive flag := FSourceAddress | FSourcePort | FDestinationAddress | FDestinationPort.

Definition getFlag (f : flag) (c : RuleCache) : bool :=
  match f with
  | FSourceAddress => SourceAddressMatch c
  | FSourcePort => SourcePortMatch c
  | FDestinationAddress => DestinationAddressMatch c
  | FDestinationPort => DestinationPortMatch c
  end.

Definition setFlag (f : flag) (c : RuleCache) : RuleCache :=
  let put g old := if match f, g with
                      | FSourceAddress, FSourceAddress | FSourcePort, FSourcePort
                      | FDestinationAddress, FDestinationAddress | FDestinationPort, FDestinationPort => true
                      | _, _ => false
                      end then true else old in
  mkCache (IPCIDRMatchSource c) (IPCIDRAcceptEmpty c)
    (put FSourceAddress (SourceAddressMatch c)) (put FSourcePort (SourcePortMatch c))
    (put FDestinationAddress (DestinationAddressMatch c)) (put FDestinationPort (DestinationPortMatch c))
    (DidMatch c) (IgnoreDestinationIPCIDRMatch c).

(** What the network manager and the Clash API report while a connection is matched. *)
Record NetworkInterface := mkInterface {
  if_Type : Z;
  if_Name : string;
  if_Addresses : list Prefix;
  Expensive : bool;
  Constrained : bool
}.

Record Surroundings := mkSurroundings {
  NetworkInterfaces : list NetworkInterface;
  FinderInterfaces : list NetworkInterface;
  DefaultNetworkInterface : option NetworkInterface;
  MonitorDefaultInterface : option NetworkInterface;
  WIFI_SSID : string;
  WIFI_BSSID : string;
  (** [None] when there is no Clash server. *)
  ClashMode : option string
}.

Class RuleLibs := {
  IsIP : Socksaddr -> bool;
  IsIPv4 : Socksaddr -> bool;
  IsIPv6 : Socksaddr -> bool;
  Socksaddr_IsValid : Socksaddr -> bool;
  IsPublicAddr : Addr -> bool;
  (** [domain.NewMatcher] of the domains and suffixes. *)
  domainMatch : list string -> list string -> string -> bool;
  adGuardMatch : list string -> string -> bool;
  compileRegexp : string -> option error;
  regexpMatch : string -> string -> bool;
  parsePrefixOrAddr : string -> option error;
  ipSetContains : list string -> option Addr -> bool
}.

(** ** Rule items *)

(** An outbound that prefers some destinations. *)
Record PreferredRoutes := mkPreferred { PreferredDomain : string -> bool; PreferredAddress : option Addr -> bool }.

(** The raw items of a rule set read from a file hold a matcher instead of the texts it is made
    from; it is given by its [Match] or [Contains]. *)
Inductive leafItem :=
| InboundItem (inbounds : list string)
| IPVersionItem (isIPv6 : bool)
| NetworkItem (networks : list string)
| AuthUserItem (users : list string)
| ProtocolItem (protocols : list string)
| ClientItem (clients : list string)
| DomainItem (domains suffixes : list string)
| DomainKeywordItem (keywords : list string)
| DomainRegexItem (expressions : list string)
| AdGuardDomainItem (lines : list string)
| IPCIDRItem (isSource : bool) (prefixes : list string)
| IPIsPrivateItem (isSource : bool)
| PortItem (isSource : bool) (ports : list Z)
| PortRangeItem (isSource : bool) (ranges : list (Z * Z))
| ProcessItem (names : list string)
| ProcessPathItem (paths : list string)
| ProcessPathRegexItem (expressions : list string)
| PackageNameItem (names : list string)
| UserItem (users : list string)
| UserIdItem (ids : list Z)
| ClashModeItem (mode : string)
| NetworkTypeItem (types : list Z)
| NetworkIsExpensiveItem
| NetworkIsConstrainedItem
| WIFISSIDItem (ssids : list string)
| WIFIBSSIDItem (bssids : list string)
| InterfaceAddressItem (addresses : gmap string (list Prefix))
| NetworkInterfaceAddressItem (addresses : gmap Z (list Prefix))
| DefaultInterfaceAddressItem (addresses : list Prefix)
| PreferredByItem (outbounds : list PreferredRoutes)
| RawDomainItem (matches : string -> bool)
| RawAdGuardDomainItem (matches : string -> bool)
| RawIPCIDRItem (isSource : bool) (contains : option Addr -> bool)
(** Of DNS rules only. *)
| QueryTypeItem (types : list Z)
| IPAcceptAnyItem
| OutboundItem (outbounds : list string).

(** [filepath.Base]. *)
Definition isSlash (c : ascii) : bool := bool_decide (c = "/"%char).
Fixpoint takeUntilSlash (l : list ascii) : list ascii :=
  match l with [] => [] | a :: t => if isSlash a then [] else a :: takeUntilSlash t end.
Definition Base (path : string) : string :=
  if bool_decide (path = "") then "." else
  match dropIn isSlash (rev (bytes path)) with
  | [] => "/"
  | l => ofBytes (rev (takeUntilSlash l))
  end.

Section Leaves.
Context `{UnicodeTables} `{MapOrder} `{RuleLibs}.
Implicit Types (e : Surroundings) (m : Facts) (c : RuleCache).

(** The host of the domain conditions: the sniffed domain, or the destination's name. *)
Definition domainHost m : string :=
  if bool_decide (f_Domain m <> "") then f_Domain m else sa_fqdn (f_Destination m).

Definition IPVersionItem_Match (isIPv6 : bool) m : bool :=
  negb (f_IPVersion m =? 0) && Bool.eqb (f_IPVersion m =? 6) isIPv6 ||
  IsIP (f_Destination m) && Bool.eqb (IsIPv6 (f_Destination m)) isIPv6.

(** Domain conditions see the host in lower case and fail without one. *)
Definition onDomain (p : string -> bool) m : bool :=
  let host := domainHost m in
  if bool_decide (host = "") then false else p (ToLower host).

Definition DomainItem_Match (matches : string -> bool) m : bool := onDomain matches m.
Definition DomainKeywordItem_Match (keywords : list string) m : bool :=
  onDomain (fun host => existsb (Contains host) keywords) m.
Definition DomainRegexItem_Match (expressions : list string) m : bool :=
  onDomain (fun host => existsb (fun x => regexpMatch x host) expressions) m.
Definition AdGuardDomainItem_Match (matches : string -> bool) m : bool := onDomain matches m.

Definition IPCIDRItem_Match (isSource : bool) (contains : option Addr -> bool) m c : bool :=
  if isSource || IPCIDRMatchSource c then contains (sa_addr (f_Source m))
  else if IsIP (f_Destination m) then contains (sa_addr (f_Destination m))
  else if bool_decide (f_DestinationAddresses m <> [])
  then existsb (fun a => contains (Some a)) (f_DestinationAddresses m)
  else IPCIDRAcceptEmpty c.

Definition IPIsPrivateItem_Match (isSource : bool) m : bool :=
  match (if isSource then sa_addr (f_Source m) else sa_addr (f_Destination m)) with
  | Some a => negb (IsPublicAddr a)
  | None => if isSource then false else existsb (fun a => negb (IsPublicAddr a)) (f_DestinationAddresses m)
  end.

Definition portOfSide (isSource : bool) m : Z := if isSource then sa_port (f_Source m) else sa_port (f_Destination m).

Definition PortItem_Match (isSource : bool) (ports : list Z) m : bool := bool_decide (portOfSide isSource m ∈ ports).
Definition PortRangeItem_Match (isSource : bool) (ranges : list (Z * Z)) m : bool :=
  existsb (fun '(lo, hi) => (lo <=? portOfSide isSource m) && (portOfSide isSource m <=? hi)) ranges.

(** Process conditions fail when the process, or what they ask about it, is unknown. *)
Definition onProcess (known : ProcessInfo -> Prop) `{forall i, Decision (known i)} (p : ProcessInfo -> bool) m : bool :=
  match f_ProcessInfo m with None => false | Some i => if decide (known i) then p i else false end.

Definition ProcessItem_Match (names : list string) : Facts -> bool :=
  onProcess (fun i => ProcessPath i <> "") (fun i => bool_decide (Base (ProcessPath i) ∈ names)).
Definition ProcessPathItem_Match (paths : list string) : Facts -> bool :=
  onProcess (fun i => ProcessPath i <> "") (fun i => bool_decide (ProcessPath i ∈ paths)).
Definition ProcessPathRegexItem_Match (expressions : list string) : Facts -> bool :=
  onProcess (fun i => ProcessPath i <> "") (fun i => existsb (fun x => regexpMatch x (ProcessPath i)) expressions).
Definition PackageNameItem_Match (names : list string) : Facts -> bool :=
  onProcess (fun i => PackageName i <> "") (fun i => bool_decide (PackageName i ∈ names)).
Definition UserItem_Match (users : list string) : Facts -> bool :=
  onProcess (fun i => Process_User i <> "") (fun i => bool_decide (Process_User i ∈ users)).
Definition UserIdItem_Match (ids : list Z) : Facts -> bool :=
  onProcess (fun i => UserId i <> -1) (fun i => bool_decide (UserId i ∈ ids)).

Definition ClashModeItem_Match (mode : string) e : bool :=
  match ClashMode e with None => false | Some current => EqualFold current mode end.

Definition onDefaultInterface (p : NetworkInterface -> bool) e : bool :=
  match DefaultNetworkInterface e with None => false | Some i => p i end.
Definition NetworkTypeItem_Match (types : list Z) : Surroundings -> bool :=
  onDefaultInterface (fun i => bool_decide (if_Type i ∈ types)).

Definition overlapsAny (ps qs : list Prefix) : bool := existsb (fun p => existsb (Overlaps p) qs) ps.

Definition InterfaceAddressItem_Match (addresses : gmap string (list Prefix)) e : bool :=
  forallb (fun '(name, ps) =>
    match List.find (fun i => bool_decide (if_Name i = name)) (FinderInterfaces e) with
    | None => false
    | Some i => negb (bool_decide (if_Name i = "")) && overlapsAny ps (if_Addresses i)
    end) (go_range 30 addresses).

Definition NetworkInterfaceAddressItem_Match (addresses : gmap Z (list Prefix)) e : bool :=
  forallb (fun '(ty, ps) =>
    existsb (fun i => (if_Type i =? ty) && existsb (fun q => existsb (fun p => Overlaps p q) ps) (if_Addresses i))
      (NetworkInterfaces e)) (go_range 31 addresses).

Definition DefaultInterfaceAddressItem_Match (addresses : list Prefix) e : bool :=
  match MonitorDefaultInterface e with
  | None => false
  | Some i => forallb (fun p => existsb (Overlaps p) (if_Addresses i)) addresses
  end.

Definition PreferredByItem_Match (outbounds : list PreferredRoutes) m : bool :=
  let host := domainHost m in
  bool_decide (host <> "") && existsb (fun o => PreferredDomain o host) outbounds ||
  IsIP (f_Destination m) && existsb (fun o => PreferredAddress o (sa_addr (f_Destination m))) outbounds ||
  existsb (fun a => existsb (fun o => PreferredAddress o (Some a)) outbounds) (f_DestinationAddresses m).

(** Items that keep their values in a map look the connection's value up in it. *)
Definition InboundItem_Match (inbounds : list string) m : bool := bool_decide (f_Inbound m ∈ inbounds).
Definition NetworkItem_Match (networks : list string) m : bool := bool_decide (f_Network m ∈ networks).
Definition AuthUserItem_Match (users : list string) m : bool := bool_decide (f_User m ∈ users).
Definition ProtocolItem_Match (protocols : list string) m : bool := bool_decide (f_Protocol m ∈ protocols).
Definition ClientItem_Match (clients : list string) m : bool := bool_decide (f_Client m ∈ clients).
Definition WIFISSIDItem_Match (ssids : list string) e : bool := bool_decide (WIFI_SSID e ∈ ssids).
Definition WIFIBSSIDItem_Match (bssids : list string) e : bool := bool_decide (WIFI_BSSID e ∈ bssids).
Definition NetworkIsExpensiveItem_Match : Surroundings -> bool := onDefaultInterface Expensive.
Definition NetworkIsConstrainedItem_Match : Surroundings -> bool := onDefaultInterface Constrained.

Definition QueryTypeItem_Match (types : list Z) m : bool := negb (f_QueryType m =? 0) && bool_decide (f_QueryType m ∈ types).
Definition IPAcceptAnyItem_Match m : bool := (0 <? length (f_DestinationAddresses m))%nat.
(** Any outbound when "any" is among them. *)
Definition OutboundItem_Match (outbounds : list string) m : bool :=
  if bool_decide ("any" ∈ outbounds) then bool_decide (f_Outbound m <> "") else bool_decide (f_Outbound m ∈ outbounds).

Definition leafMatch (it : leafItem) e m c : bool :=
  match it with
  | InboundItem l => InboundItem_Match l m
  | IPVersionItem v6 => IPVersionItem_Match v6 m
  | NetworkItem l => NetworkItem_Match l m
  | AuthUserItem l => AuthUserItem_Match l m
  | ProtocolItem l => ProtocolItem_Match l m
  | ClientItem l => ClientItem_Match l m
  | DomainItem ds ss => DomainItem_Match (domainMatch ds ss) m
  | DomainKeywordItem l => DomainKeywordItem_Match l m
  | DomainRegexItem l => DomainRegexItem_Match l m
  | AdGuardDomainItem l => AdGuardDomainItem_Match (adGuardMatch l) m
  | IPCIDRItem s l => IPCIDRItem_Match s (ipSetContains l) m c
  | IPIsPrivateItem s => IPIsPrivateItem_Match s m
  | PortItem s l => PortItem_Match s l m
  | PortRangeItem s l => PortRangeItem_Match s l m
  | ProcessItem l => ProcessItem_Match l m
  | ProcessPathItem l => ProcessPathItem_Match l m
  | ProcessPathRegexItem l => ProcessPathRegexItem_Match l m
  | PackageNameItem l => PackageNameItem_Match l m
  | UserItem l => UserItem_Match l m
  | UserIdItem l => UserIdItem_Match l m
  | ClashModeItem mode => ClashModeItem_Match mode e
  | NetworkTypeItem l => NetworkTypeItem_Match l e
  | NetworkIsExpensiveItem => NetworkIsExpensiveItem_Match e
  | NetworkIsConstrainedItem => NetworkIsConstrainedItem_Match e
  | WIFISSIDItem l => WIFISSIDItem_Match l e
  | WIFIBSSIDItem l => WIFIBSSIDItem_Match l e
  | InterfaceAddressItem l => InterfaceAddressItem_Match l e
  | NetworkInterfaceAddressItem l => NetworkInterfaceAddressItem_Match l e
  | DefaultInterfaceAddressItem l => DefaultInterfaceAddressItem_Match l e
  | PreferredByItem l => PreferredByItem_Match l m
  | RawDomainItem f => DomainItem_Match f m
  | RawAdGuardDomainItem f => AdGuardDomainItem_Match f m
  | RawIPCIDRItem s f => IPCIDRItem_Match s f m c
  | QueryTypeItem l => QueryTypeItem_Match l m
  | IPAcceptAnyItem => IPAcceptAnyItem_Match m
  | OutboundItem l => OutboundItem_Match l m
  end.
End Leaves.

(** ** Rules *)

(** A rule set is the list of its rules; the action of a rule is kept by the router.  Rules hold
    items and a rule-set item holds rules, so items are parameterised by the rules. *)
Inductive itemOf (R : Type) :=
| Leaf (it : leafItem)
| RuleSetItem (setList : list (list R)) (ipCidrMatchSource ipCidrAcceptEmpty : bool).
Arguments Leaf {R} _.
Arguments RuleSetItem {R} _ _ _.

Inductive rule :=
| DefaultRule (items sourceAddressItems sourcePortItems destinationAddressItems destinationIPCIDRItems
    destinationPortItems allItems : list (itemOf rule)) (invert : bool)
| LogicalRule (rules : list rule) (isAnd : bool) (invert : bool).

Notation item := (itemOf rule).

Definition isRuleSet (it : item) : bool := match it with RuleSetItem _ _ _ => true | Leaf _ => false end.

(** [common.Any] and [common.All] with a matcher that changes the cache. *)
Definition anyS {A} (f : A -> RuleCache -> bool * RuleCache) : list A -> RuleCache -> bool * RuleCache :=
  fix go l c :=
    match l with
    | [] => (false, c)
    | x :: l => let (b, c) := f x c in if b then (true, c) else go l c
    end.
Definition allS {A} (f : A -> RuleCache -> bool * RuleCache) : list A -> RuleCache -> bool * RuleCache :=
  fix go l c :=
    match l with
    | [] => (true, c)
    | x :: l => let (b, c) := f x c in if b then go l c else (false, c)
    end.

(** One group of conditions: it is tried unless its flag is set, and sets it on a match. *)
Definition tryGroup {A} (f : A -> RuleCache -> bool * RuleCache) (fl : flag) (l : list A) (c : RuleCache) : RuleCache :=
  match l with
  | [] => c
  | _ => if getFlag fl c then c
         else let (b, c) := anyS f l (setDidMatch c) in if b then setFlag fl c else c
  end.

(** [abstractDefaultRule.Match], given how its items match. *)
Definition matchDefault (f : item -> RuleCache -> bool * RuleCache)
    (items sas sps das dips dps all : list item) (invert : bool) (c : RuleCache) : bool * RuleCache :=
  if negb (nonempty all) then (true, c) else
  let c := tryGroup f FSourceAddress sas c in
  let c := tryGroup f FSourcePort sps c in
  let c := tryGroup f FDestinationAddress das c in
  let c := if IgnoreDestinationIPCIDRMatch c then c else tryGroup f FDestinationAddress dips c in
  let c := tryGroup f FDestinationPort dps c in
  let (b, c) := allS (fun it c => f it (if isRuleSet it then c else setDidMatch c)) items c in
  if negb b then (invert, c) else
  if nonempty sas && negb (SourceAddressMatch c) then (invert, c) else
  if nonempty sps && negb (SourcePortMatch c) then (invert, c) else
  if (negb (IgnoreDestinationIPCIDRMatch c) && nonempty dips || nonempty das) && negb (DestinationAddressMatch c)
  then (invert, c) else
  if nonempty dps && negb (DestinationPortMatch c) then (invert, c) else
  if negb (DidMatch c) then (true, c) else (negb invert, c).

(** [abstractLogicalRule.Match], given how its sub-rules match: the cache is reset for each. *)
Definition matchLogical (f : rule -> RuleCache -> bool * RuleCache) (rules : list rule) (isAnd invert : bool)
    (c : RuleCache) : bool * RuleCache :=
  let (b, c) := if isAnd then allS (fun r c => f r (ResetRuleCache c)) rules c
                else anyS (fun r c => f r (ResetRuleCache c)) rules c in
  (xorb b invert, c).

(** [RuleSetItem.Match]: the rules of the sets are tried one after the other on the same cache. *)
Definition matchRuleSets (f : rule -> RuleCache -> bool * RuleCache) (setList : list (list rule)) (ms ae : bool)
    (c : RuleCache) : bool * RuleCache :=
  anyS (anyS f) setList (setIPCIDR ms ae c).

Section Matching.
Context `{UnicodeTables} `{MapOrder} `{RuleLibs}.
Variable e : Surroundings.
Variable m : Facts.

(** [RuleItem.Match], given how the rules of a rule set match. *)
Definition matchItemWith (f : rule -> RuleCache -> bool * RuleCache) (it : item) (c : RuleCache) : bool * RuleCache :=
  match it with
  | Leaf l => (leafMatch l e m c, c)
  | RuleSetItem setList ms ae => matchRuleSets f setList ms ae c
  end.

Fixpoint matchRule (r : rule) (c : RuleCache) : bool * RuleCache :=
  match r with
  | DefaultRule items sas sps das dips dps all invert =>
      matchDefault (matchItemWith matchRule) items sas sps das dips dps all invert c
  | LogicalRule rules isAnd invert => matchLogical matchRule rules isAnd invert c
  end.

Definition matchItem : item -> RuleCache -> bool * RuleCache := matchItemWith matchRule.

(** ** Reference semantics

    The meaning of a rule without rule sets: the conditions of a group are alternatives, every
    group that has conditions must match, and so must all other items; a logical rule combines
    its sub-rules.  [ignore] is [IgnoreDestinationIPCIDRMatch], which takes the destination CIDR
    conditions out. *)

Definition fresh (ignore : bool) : RuleCache := mkCache false false false false false false false ignore.

Definition holds (ignore : bool) (it : item) : bool :=
  match it with Leaf l => leafMatch l e m (fresh ignore) | RuleSetItem _ _ _ => false end.

(** A group without conditions holds. *)
Definition groupHolds (ignore : bool) (l : list item) : bool := negb (nonempty l && negb (existsb (holds ignore) l)).

Fixpoint denote (ignore : bool) (r : rule) : bool :=
  match r with
  | DefaultRule items sas sps das dips dps _ invert =>
      let dips := if ignore then [] else dips in
      if nonempty items || nonempty sas || nonempty sps || nonempty das || nonempty dips || nonempty dps
      then xorb invert (forallb (holds ignore) items && groupHolds ignore sas && groupHolds ignore sps &&
                        groupHolds ignore (das ++ dips) && groupHolds ignore dps)
      else true
  | LogicalRule rules isAnd invert =>
      xorb invert (if isAnd then forallb (denote ignore) rules else existsb (denote ignore) rules)
  end.
End Matching.

(** Rules without rule sets whose [allItems] lists the items of the groups. *)
Fixpoint plain (r : rule) : bool :=
  match r with
  | DefaultRule items sas sps das dips dps all _ =>
      forallb (fun it => negb (isRuleSet it)) (items ++ sas ++ sps ++ das ++ dips ++ dps) &&
      Bool.eqb (nonempty all) (nonempty (items ++ sas ++ sps ++ das ++ dips ++ dps))
  | LogicalRule rules _ _ => forallb plain rules
  end.

(** Induction over items and rules, through the lists they hold. *)
Section Induction.
Variables (Pi : item -> Prop) (Pr : rule -> Prop).
Hypothesis Hleaf : forall it, Pi (Leaf it).
Hypothesis Hsets : forall setList ms ae, Forall (Forall Pr) setList -> Pi (RuleSetItem setList ms ae).
Hypothesis Hdefault : forall items sas sps das dips dps all invert,
  Forall Pi items -> Forall Pi sas -> Forall Pi sps -> Forall Pi das -> Forall Pi dips -> Forall Pi dps ->
  Pr (DefaultRule items sas sps das dips dps all invert).
Hypothesis Hlogical : forall rules isAnd invert, Forall Pr rules -> Pr (LogicalRule rules isAnd invert).

Definition listInd {A} (P : A -> Prop) (f : forall x, P x) : forall l, Forall P l :=
  fix go l := match l with [] => Forall_nil_2 P | x :: l => Forall_cons_2 P x l (f x) (go l) end.

Definition itemInd (f : forall r, Pr r) (it : item) : Pi it :=
  match it with
  | Leaf l => Hleaf l
  | RuleSetItem setList ms ae => Hsets setList ms ae (listInd _ (listInd _ f) setList)
  end.

Fixpoint ruleInd (r : rule) : Pr r :=
  match r with
  | DefaultRule items sas sps das dips dps all invert =>
      Hdefault items sas sps das dips dps all invert (listInd _ (itemInd ruleInd) items) (listInd _ (itemInd ruleInd) sas)
        (listInd _ (itemInd ruleInd) sps) (listInd _ (itemInd ruleInd) das) (listInd _ (itemInd ruleInd) dips)
        (listInd _ (itemInd ruleInd) dps)
  | LogicalRule rules isAnd invert => Hlogical rules isAnd invert (listInd _ ruleInd rules)
  end.
End Induction.

(** ** Matching leaves [IgnoreDestinationIPCIDRMatch] alone *)

Definition keepsIgnore {A} (f : A -> RuleCache -> bool * RuleCache) (x : A) : Prop :=
  forall c, IgnoreDestinationIPCIDRMatch (f x c).2 = IgnoreDestinationIPCIDRMatch c.

Lemma anyS_keeps {A} (f : A -> RuleCache -> bool * RuleCache) l : Forall (keepsIgnore f) l -> keepsIgnore (anyS f) l.
Proof.
  intros Hf c. revert c. induction Hf as [|x l Hx _ IH]; intros c; [done|]. simpl. specialize (Hx c).
  destruct (f x c) as [[] c']; [done|]. by rewrite IH.
Qed.

Lemma allS_keeps {A} (f : A -> RuleCache -> bool * RuleCache) l : Forall (keepsIgnore f) l -> keepsIgnore (allS f) l.
Proof.
  intros Hf c. revert c. induction Hf as [|x l Hx _ IH]; intros c; [done|]. simpl. specialize (Hx c).
  destruct (f x c) as [[] c']; [by rewrite IH | done].
Qed.

Lemma tryGroup_keeps {A} (f : A -> RuleCache -> bool * RuleCache) fl l c :
  Forall (keepsIgnore f) l -> IgnoreDestinationIPCIDRMatch (tryGroup f fl l c) = IgnoreDestinationIPCIDRMatch c.
Proof.
  intros Hf. unfold tryGroup. destruct l as [|x l]; [done|]. destruct (getFlag fl c); [done|].
  pose proof (anyS_keeps f _ Hf (setDidMatch c)) as Hk. destruct (anyS f (x :: l) (setDidMatch c)) as [[] c']; by destruct fl.
Qed.

Lemma match_keeps `{UnicodeTables} `{MapOrder} `{RuleLibs} e m r : keepsIgnore (matchRule e m) r.
Proof.
  revert r. apply (ruleInd (keepsIgnore (matchItem e m))).
  - done.
  - intros sets ms ae Hs c. change (matchItem e m (RuleSetItem sets ms ae) c) with (matchRuleSets (matchRule e m) sets ms ae c).
    unfold matchRuleSets. rewrite anyS_keeps; [done|]. eapply Forall_impl; [exact Hs|]. intros l. apply anyS_keeps.
  - intros items sas sps das dips dps all invert Hi Ha1 Ha2 Ha3 Ha4 Ha5 c.
    change (matchRule e m (DefaultRule items sas sps das dips dps all invert) c)
      with (matchDefault (matchItem e m) items sas sps das dips dps all invert c).
    unfold matchDefault. destruct (negb (nonempty all)); [done|].
    match goal with |- context [allS ?f items ?c1] => set (f' := f); set (c' := c1) end.
    assert (IgnoreDestinationIPCIDRMatch c' = IgnoreDestinationIPCIDRMatch c) as <-.
    { subst c'. rewrite tryGroup_keeps by done. case_match; rewrite ?tryGroup_keeps by done; done. }
    assert (keepsIgnore (allS f') items) as Hall.
    { apply allS_keeps. eapply Forall_impl; [exact Hi|]. intros it Hit c1. subst f'. cbv beta. rewrite Hit. by destruct (isRuleSet it). }
    specialize (Hall c'). destruct (allS f' items c') as [b c2]. by repeat case_match.
  - intros rules isAnd invert Hr c.
    change (matchRule e m (LogicalRule rules isAnd invert) c) with (matchLogical (matchRule e m) rules isAnd invert c).
    unfold matchLogical. set (f' := fun r c => _).
    assert (Forall (keepsIgnore f') rules) as Hf by (eapply Forall_impl; [exact Hr|]; intros r Hk c1; subst f'; cbv beta; by rewrite Hk).
    pose proof (anyS_keeps _ _ Hf c) as Ha. pose proof (allS_keeps _ _ Hf c) as Hb.
    destruct isAnd; [destruct (allS f' rules c) | destruct (anyS f' rules c)]; done.
Qed.

Section MatchLemmas.
Context `{UnicodeTables} `{MapOrder} `{RuleLibs}.
Variable e : Surroundings.
Variable m : Facts.

Lemma leafMatch_cache it c c' :
  IPCIDRMatchSource c = IPCIDRMatchSource c' -> IPCIDRAcceptEmpty c = IPCIDRAcceptEmpty c' ->
  leafMatch it e m c = leafMatch it e m c'.
Proof using Type. intros E1 E2. destruct it; try done; simpl; unfold IPCIDRItem_Match; by rewrite E1, E2. Qed.

Definition leaves (l : list item) : Prop := forallb (fun it => negb (isRuleSet it)) l = true.

(** A cache in which no rule set has left its CIDR flags. *)
Abbreviation cacheOf a b c d did g := (mkCache false false a b c d did g).

Lemma anyS_leaves l a b c d did g : leaves l ->
  anyS (matchItem e m) l (cacheOf a b c d did g) = (existsb (holds e m g) l, cacheOf a b c d did g).
Proof using Type.
  unfold leaves. induction l as [|[it|] l IH]; simpl; [done | | done].
  intros Hl. rewrite (leafMatch_cache it _ (fresh g)) by done. destruct (leafMatch it e m (fresh g)); [done|]. by apply IH.
Qed.

Lemma allS_leaves l a b c d did g : leaves l ->
  allS (fun it c => matchItem e m it (if isRuleSet it then c else setDidMatch c)) l (cacheOf a b c d did g) =
    (forallb (holds e m g) l, cacheOf a b c d (did || nonempty l) g).
Proof using Type.
  unfold leaves. revert did. induction l as [|[it|] l IH]; intros did; simpl; [by rewrite orb_false_r | | done].
  intros Hl. rewrite orb_true_r, (leafMatch_cache it _ (fresh g)) by done. unfold setDidMatch; cbn -[leafMatch].
  destruct (leafMatch it e m (fresh g)); [by apply IH | done].
Qed.

Lemma nonempty_app {A} (l k : list A) : nonempty (l ++ k) = nonempty l || nonempty k.
Proof using Type. by destruct l. Qed.

Lemma existsb_nonempty {A} (f : A -> bool) l : existsb f l = true -> nonempty l = true.
Proof using Type. by destruct l. Qed.

(** What trying a group of leaves does to the cache, for each of the four flags. *)
Ltac try_group Hl :=
  match goal with |- tryGroup _ _ ?l _ = _ => destruct l as [|it l']; [simpl; by rewrite ?orb_false_r|] end;
  unfold tryGroup; cbn [getFlag]; unfold setDidMatch; cbn -[anyS existsb];
  rewrite (anyS_leaves _ _ _ _ _ _ _ Hl); destruct (existsb _ _); simpl; by rewrite ?orb_true_r.

Lemma tryGroup_sas l b c d did g : leaves l ->
  tryGroup (matchItem e m) FSourceAddress l (cacheOf false b c d did g) =
    cacheOf (existsb (holds e m g) l) b c d (did || nonempty l) g.
Proof using Type. intros Hl. try_group Hl. Qed.

Lemma tryGroup_sps l a c d did g : leaves l ->
  tryGroup (matchItem e m) FSourcePort l (cacheOf a false c d did g) =
    cacheOf a (existsb (holds e m g) l) c d (did || nonempty l) g.
Proof using Type. intros Hl. try_group Hl. Qed.

Lemma tryGroup_dps l a b c did g : leaves l ->
  tryGroup (matchItem e m) FDestinationPort l (cacheOf a b c false did g) =
    cacheOf a b c (existsb (holds e m g) l) (did || nonempty l) g.
Proof using Type. intros Hl. try_group Hl. Qed.

Lemma tryGroup_das l a b c d did g : leaves l ->
  tryGroup (matchItem e m) FDestinationAddress l (cacheOf a b c d did g) =
    cacheOf a b (c || existsb (holds e m g) l) d (did || negb c && nonempty l) g.
Proof using Type. intros Hl. destruct c; [by destruct l; simpl; rewrite orb_false_r|]. try_group Hl. Qed.

Lemma matchDefault_denote items sas sps das dips dps all invert g :
  plain (DefaultRule items sas sps das dips dps all invert) = true ->
  (matchRule e m (DefaultRule items sas sps das dips dps all invert) (fresh g)).1 =
    denote e m g (DefaultRule items sas sps das dips dps all invert).
Proof using Type.
  cbn [plain]. rewrite andb_true_iff, !forallb_app, !andb_true_iff. intros [(Hi & Hsas & Hsps & Hdas & Hdips & Hdps) Hall].
  apply eqb_prop in Hall. change (matchRule e m (DefaultRule items sas sps das dips dps all invert) (fresh g))
    with (matchDefault (matchItem e m) items sas sps das dips dps all invert (fresh g)).
  unfold matchDefault. destruct (nonempty all); cbn [negb]; cbv iota.
  2:{ destruct items, sas, sps, das, dips, dps; try discriminate Hall. by destruct g. }
  unfold fresh. rewrite tryGroup_sas, tryGroup_sps, tryGroup_das by done. cbn [IgnoreDestinationIPCIDRMatch orb].
  replace (if g then _ else _) with
    (cacheOf (existsb (holds e m g) sas) (existsb (holds e m g) sps) (existsb (holds e m g) (das ++ if g then [] else dips)) false
       (nonempty sas || nonempty sps || nonempty das || nonempty (if g then [] else dips)) g).
  2:{ destruct g; [by rewrite app_nil_r, orb_false_r|]. rewrite tryGroup_das by done. rewrite existsb_app. f_equal.
      pose proof (existsb_nonempty (holds e m false) das) as Hne. destruct (existsb _ das); [|done].
      by rewrite Hne, !orb_true_r by done. }
  rewrite tryGroup_dps, allS_leaves by done. cbv iota beta.
  assert (forall (b : bool) (x y : bool * RuleCache), (if b then x else y).1 = if b then x.1 else y.1) as Hif by (by intros []).
  rewrite !Hif. cbn [fst SourceAddressMatch SourcePortMatch DestinationAddressMatch DestinationPortMatch DidMatch
    IgnoreDestinationIPCIDRMatch denote]. clear Hif.
  unfold groupHolds. rewrite nonempty_app.
  replace (negb g && nonempty dips || nonempty das) with (nonempty das || nonempty (if g then [] else dips))
    by (destruct g, (nonempty das), (nonempty dips); done).
  destruct items as [|it items]; [|generalize (forallb (holds e m g) (it :: items)); intros b]; cbn [nonempty forallb];
  generalize (existsb (holds e m g) sas) (existsb (holds e m g) sps) (existsb (holds e m g) dps)
    (existsb (holds e m g) (das ++ (if g then [] else dips))) (nonempty sas) (nonempty sps) (nonempty dps)
    (nonempty das) (nonempty (if g then [] else dips)); intros xs xp xt xd ns np nt nd nD.
  - destruct invert, ns, xs, np, xp, nd, nD, xd, nt, xt; reflexivity.
  - destruct invert, b, ns, xs, np, xp, nd, nD, xd, nt, xt; reflexivity.
Qed.
End MatchLemmas.

Section Reference.
Context `{UnicodeTables} `{MapOrder} `{RuleLibs}.
Variable e : Surroundings.
Variable m : Facts.

Lemma ResetRuleCache_fresh c : ResetRuleCache c = fresh (IgnoreDestinationIPCIDRMatch c).
Proof using Type. done. Qed.

(** Matching the rules of a list, each on a reset cache. *)
Lemma subrules_denote g rules :
  Forall (fun r => plain r = true -> (matchRule e m r (fresh g)).1 = denote e m g r) rules -> forallb plain rules = true ->
  forall c, IgnoreDestinationIPCIDRMatch c = g ->
  (anyS (fun r c => matchRule e m r (ResetRuleCache c)) rules c).1 = existsb (denote e m g) rules /\
  (allS (fun r c => matchRule e m r (ResetRuleCache c)) rules c).1 = forallb (denote e m g) rules.
Proof using Type.
  induction 1 as [|r rules Hr _ IH]; intros Hp c Hc; [done|]. simpl in Hp. apply andb_true_iff in Hp as [Hp1 Hp2].
  specialize (Hr Hp1). simpl. rewrite ResetRuleCache_fresh, Hc. pose proof (match_keeps e m r (fresh g)) as Hk.
  destruct (matchRule e m r (fresh g)) as [b c']. simpl in Hr, Hk. subst b.
  destruct (denote e m g r); simpl; [split; [done|]; by apply IH | split; [by apply IH | done]].
Qed.

(** A rule without rule sets, matched on a reset cache, matches exactly when its conditions say so:
    the flags through which nested rules share state make no difference to its meaning. *)
Lemma plain_matches_reference (r : rule) (c : RuleCache) :
  plain r = true ->
  (matchRule e m r (ResetRuleCache c)).1 = denote e m (IgnoreDestinationIPCIDRMatch c) r.
Proof using Type.
  rewrite ResetRuleCache_fresh. generalize (IgnoreDestinationIPCIDRMatch c). intros g. revert r.
  apply (ruleInd (fun _ => True) (fun r => plain r = true -> (matchRule e m r (fresh g)).1 = denote e m g r)); [done | done | |].
  - intros. by apply matchDefault_denote.
  - intros rules isAnd invert Hr Hp.
    change (matchRule e m (LogicalRule rules isAnd invert) (fresh g)) with (matchLogical (matchRule e m) rules isAnd invert (fresh g)).
    unfold matchLogical. destruct (subrules_denote g rules Hr Hp (fresh g) eq_refl) as [Hany Hall]. cbn [denote].
    destruct isAnd; [destruct (allS _ rules _) as [b c'] | destruct (anyS _ rules _) as [b c']]; simpl in Hany, Hall;
      simpl; rewrite xorb_comm; by f_equal.
Qed.
End Reference.

(** ** Rule sets share the cache between their rules *)

(** A rule on the source and the destination port. *)
Definition portRule (src dst : Z) : rule :=
  let s := Leaf (PortItem true [src]) in
  let d := Leaf (PortItem false [dst]) in
  DefaultRule [] [] [s] [] [] [d] [s; d] false.

(** C38. The rules of a rule set are tried on one cache, which is not reset in between: a rule that
    fails leaves the flags of the groups that did match to the next one.  A set of two rules on
    port pairs matches the crossed pair, which neither rule matches. *)
Theorem rule_set_mixes_its_rules `{UnicodeTables} `{MapOrder} `{RuleLibs} (e : Surroundings) (m : Facts) (s1 s2 d1 d2 : Z) (c : RuleCache) :
  s1 <> s2 -> d1 <> d2 -> sa_port (f_Source m) = s1 -> sa_port (f_Destination m) = d2 ->
  (matchRule e m (portRule s1 d1) (ResetRuleCache c)).1 = false /\
  (matchRule e m (portRule s2 d2) (ResetRuleCache c)).1 = false /\
  (matchItem e m (RuleSetItem [[portRule s1 d1; portRule s2 d2]] false false) (ResetRuleCache c)).1 = true.
Proof.
  intros Hs Hd Es Ed.
  assert (PortItem_Match true [s1] m = true) as E1 by (apply bool_decide_eq_true_2; rewrite <- Es; left).
  assert (PortItem_Match true [s2] m = false) as E2 by (apply bool_decide_eq_false_2; simpl; rewrite list_elem_of_singleton; congruence).
  assert (PortItem_Match false [d2] m = true) as E3 by (apply bool_decide_eq_true_2; rewrite <- Ed; left).
  assert (PortItem_Match false [d1] m = false) as E4 by (apply bool_decide_eq_false_2; simpl; rewrite list_elem_of_singleton; congruence).
  unfold ResetRuleCache. destruct (IgnoreDestinationIPCIDRMatch c);
    repeat (cbn -[PortItem_Match]; unfold matchDefault, matchRuleSets, setIPCIDR, setDidMatch, tryGroup; rewrite ?E1, ?E2, ?E3, ?E4); done.
Qed.

(** ** Examples *)

Module RuleSample.
#[export] Instance tables : UnicodeTables := ascii_tables.
#[export] Instance order : MapOrder := canonical_order.

(** Small stand-ins for the libraries: exact domains, texts as addresses. *)
#[export] Instance libs : RuleLibs :=
  {| IsIP a := bool_decide (is_Some (sa_addr a));
     IsIPv4 a := match sa_addr a with Some a => addr_width a =? 32 | None => false end;
     IsIPv6 a := match sa_addr a with Some a => addr_width a =? 128 | None => false end;
     Socksaddr_IsValid a := bool_decide (is_Some (sa_addr a)) || bool_decide (sa_fqdn a <> "");
     IsPublicAddr a := negb (Z.shiftr (addr_bits a) 24 =? 10);
     domainMatch ds _ host := bool_decide (host ∈ ds);
     adGuardMatch _ _ := false;
     compileRegexp _ := None;
     regexpMatch x host := Contains host x;
     parsePrefixOrAddr _ := None;
     ipSetContains _ _ := false |}.

Definition quietNetwork : Surroundings := mkSurroundings [] [] None None "" "" None.

Definition connection (inbound fqdn : string) (src dst : Z) : Facts :=
  mkFacts inbound 0 "tcp" (mkSocksaddr (Some (mkAddr 32 167772161)) src "") (mkSocksaddr None dst fqdn) "" "" "" "" [] None 0 "".

Lemma rule_set_mixes_its_rules_witness :
  let m := connection "in" "example.com" 1000 443 in
  (matchRule quietNetwork m (portRule 1000 80) (fresh false)).1 = false /\
  (matchRule quietNetwork m (portRule 2000 443) (fresh false)).1 = false /\
  (matchItem quietNetwork m (RuleSetItem [[portRule 1000 80; portRule 2000 443]] false false) (fresh false)).1 = true.
Proof.
  exact (rule_set_mixes_its_rules quietNetwork (connection "in" "example.com" 1000 443) 1000 2000 80 443 (fresh false)
    ltac:(discriminate) ltac:(discriminate) eq_refl eq_refl).
Defined.
End RuleSample.
