(* ===== verification/RuleBuild.v ===== *)
(** * Building rules from their options (src/fork/sing-box/route/rule: rule_default.go, rule_action.go
    and the constructors of the items)

    The options are the decoded JSON objects.  A panic of the source is [Err] with a message that
    starts with "panic". *)

From S2P Require Import Prelude GoStrings Rules.

#[local] Open Scope Z_scope.

(** ** Actions *)

Record RouteOptions := mkRouteOptions {
  OverrideAddress : Socksaddr;
  OverridePort : Z;
  NetworkStrategy : option Z;
  NetworkType : list Z;
  FallbackNetworkType : list Z;
  FallbackDelay : Z;
  UDPDisableDomainUnmapping : bool;
  UDPConnect : bool;
  UDPTimeout : Z;
  TLSFragment : bool;
  TLSFragmentFallbackDelay : Z;
  TLSRecordFragment : bool
}.

(** [option.RawRouteOptionsActionOptions]: the same with the address as text. *)
Record RawRouteOptions := mkRawRouteOptions {
  raw_OverrideAddress : string;
  raw_OverridePort : Z;
  raw_NetworkStrategy : option Z;
  raw_FallbackDelay : Z;
  raw_UDPDisableDomainUnmapping : bool;
  raw_UDPConnect : bool;
  raw_UDPTimeout : Z;
  raw_TLSFragment : bool;
  raw_TLSFragmentFallbackDelay : Z;
  raw_TLSRecordFragment : bool
}.

Record ResolveOptions := mkResolveOptions {
  Resolve_Server : string;
  Strategy : Z;
  DisableCache : bool;
  RewriteTTL : option Z;
  ClientSubnet : option Prefix
}.

Inductive ruleAction :=
| ActionNone
| ActionRoute (outbound : string) (opts : RouteOptions)
| ActionRouteOptions (opts : RouteOptions)
| ActionDirect
| ActionReject (method : string) (noDrop : bool)
| ActionHijackDNS
| ActionSniff (names streamSniffers packetSniffers : list string) (timeout : Z) (overrideDestination : bool)
| ActionResolve (opts : ResolveOptions).

(** [option.RuleAction]. *)
Record ActionOptions := mkActionOptions {
  o_Action : string;
  o_RouteOutbound : string;
  o_RouteOptions : RawRouteOptions;
  o_RouteOptionsOptions : RawRouteOptions;
  o_RejectMethod : string;
  o_RejectNoDrop : bool;
  o_Sniffer : list string;
  o_SniffTimeout : Z;
  o_Resolve : ResolveOptions
}.

(** The sniffers a name stands for, of streams and of packets. *)
Definition sniffersOf (name : string) : option (list string * list string) :=
  if bool_decide (name = "tls") then Some (["TLSClientHello"], [])
  else if bool_decide (name = "http") then Some (["HTTPHost"], [])
  else if bool_decide (name = "quic") then Some ([], ["QUICClientHello"])
  else if bool_decide (name = "dns") then Some (["StreamDomainNameQuery"], ["DomainNameQuery"])
  else if bool_decide (name = "stun") then Some ([], ["STUNMessage"])
  else if bool_decide (name = "bittorrent") then Some (["BitTorrent"], ["UTP"; "UDPTracker"])
  else if bool_decide (name = "dtls") then Some ([], ["DTLSRecord"])
  else if bool_decide (name = "ssh") then Some (["SSH"], [])
  else if bool_decide (name = "rdp") then Some (["RDP"], [])
  else if bool_decide (name = "ntp") then Some ([], ["NTP"])
  else None.

Fixpoint buildSniffers (names streams packets : list string) : res error (list string * list string) :=
  match names with
  | [] => Ok (streams, packets)
  | name :: names =>
      match sniffersOf name with
      | None => Err (New ("unknown sniffer: " +:+ name))
      | Some (s, p) => buildSniffers names (streams ++ s) (packets ++ p)
      end
  end.

Class ActionLibs := {
  ParseSocksaddrHostPort : string -> Z -> Socksaddr;
  (** [dialer.New] for the direct action. *)
  newDirectDialer : ActionOptions -> res error unit
}.

Section Actions.
Context `{ActionLibs}.

(** The route action takes every option but [UDPTimeout]; the route-options action takes all.  The
    network types are set by neither. *)
Definition routeOptions (udpTimeout : Z) (o : RawRouteOptions) : RouteOptions :=
  mkRouteOptions (ParseSocksaddrHostPort (raw_OverrideAddress o) 0) (raw_OverridePort o) (raw_NetworkStrategy o) [] []
    (raw_FallbackDelay o) (raw_UDPDisableDomainUnmapping o) (raw_UDPConnect o) udpTimeout (raw_TLSFragment o)
    (raw_TLSFragmentFallbackDelay o) (raw_TLSRecordFragment o).

Definition NewRuleAction (a : ActionOptions) : res error ruleAction :=
  let act x := bool_decide (o_Action a = x) in
  if act "" then Ok ActionNone
  else if act "route" then Ok (ActionRoute (o_RouteOutbound a) (routeOptions 0 (o_RouteOptions a)))
  else if act "route-options" then
    Ok (ActionRouteOptions (routeOptions (raw_UDPTimeout (o_RouteOptionsOptions a)) (o_RouteOptionsOptions a)))
  else if act "direct" then _ ← newDirectDialer a; Ok ActionDirect
  else if act "reject" then Ok (ActionReject (o_RejectMethod a) (o_RejectNoDrop a))
  else if act "hijack-dns" then Ok ActionHijackDNS
  else if act "sniff" then
    '(streams, packets) ← buildSniffers (o_Sniffer a) [] [];
    Ok (ActionSniff (o_Sniffer a) streams packets (o_SniffTimeout a) false)
  else if act "resolve" then Ok (ActionResolve (o_Resolve a))
  else Err (New ("panic: unknown rule action: " +:+ o_Action a)).
End Actions.

(** ** Conditions *)

(** [strconv.ParseUint(text, 10, 16)]. *)
Definition ParseUint16 (text : string) : option Z :=
  if bool_decide (text = "") then None else
  v ← parseDigits 0 text; if v <=? 65535 then Some v else None.

Definition ErrBadPortRange (text : string) : error := New ("bad port range: " +:+ text).

Fixpoint indexByte (sep : ascii) (s : string) : option (string * string) :=
  match s with
  | EmptyString => None
  | String a s' => if bool_decide (a = sep) then Some ("", s') else '(x, y) ← indexByte sep s'; Some (String a x, y)
  end.

(** One port range: either side may be left out. *)
Definition parsePortRange (text : string) : res error (Z * Z) :=
  match indexByte ":"%char text with
  | None => Err (ErrBadPortRange text)
  | Some (before, after) =>
      let bound s dflt := if bool_decide (s = "") then Some dflt else ParseUint16 s in
      match bound before 0 with
      | None => Err (ErrBadPortRange text)
      | Some lo => match bound after 65535 with None => Err (ErrBadPortRange text) | Some hi => Ok (lo, hi) end
      end
  end.

Fixpoint collect {A B} (f : A -> res error B) (l : list A) : res error (list B) :=
  match l with [] => Ok [] | x :: l => y ← f x; ys ← collect f l; Ok (y :: ys) end.

Definition Cause (message : string) {A} (r : res error A) : res error A :=
  match r with Ok x => Ok x | Err e => Err (Error message [e]) end.

Section Conditions.
Context `{RuleLibs}.

Definition NewPortRangeItem (isSource : bool) (ranges : list string) : res error leafItem :=
  PortRangeItem isSource <$> collect parsePortRange ranges.

Definition NewDomainItem (domains suffixes : list string) : res error leafItem :=
  if bool_decide ("" ∈ domains) then Err (New "domain: empty item is not allowed")
  else if bool_decide ("" ∈ suffixes) then Err (New "domain_suffix: empty item is not allowed")
  else Ok (DomainItem domains suffixes).

(** The loops that parse a list of texts: the first failure, under a label with its index. *)
Fixpoint checkEach (label : Z -> string) (f : string -> option error) (i : Z) (l : list string) : res error unit :=
  match l with
  | [] => Ok tt
  | x :: l => match f x with Some e => Err (Error (label i) [e]) | None => checkEach label f (i + 1) l end
  end.

Definition compiled (expressions : list string) : res error unit :=
  checkEach (fun i => "parse expression " +:+ Itoa i) compileRegexp 0 expressions.

Definition NewDomainRegexItem (expressions : list string) : res error leafItem :=
  _ ← compiled expressions; Ok (DomainRegexItem expressions).
Definition NewProcessPathRegexItem (expressions : list string) : res error leafItem :=
  _ ← compiled expressions; Ok (ProcessPathRegexItem expressions).

Definition NewIPCIDRItem (isSource : bool) (prefixes : list string) : res error leafItem :=
  _ ← checkEach (fun i => "parse [" +:+ Itoa i +:+ "]") parsePrefixOrAddr 0 prefixes;
  Ok (IPCIDRItem isSource prefixes).
End Conditions.

(** ** The default rule *)

Inductive group := GItems | GSourceAddress | GSourcePort | GDestinationAddress | GDestinationIPCIDR | GDestinationPort.

#[export] Instance group_eq_dec : EqDecision group.
Proof. solve_decision. Defined.

(** A rule under construction. *)
Record builder := mkBuilder {
  b_items : list item;
  b_sourceAddress : list item;
  b_sourcePort : list item;
  b_destinationAddress : list item;
  b_destinationIPCIDR : list item;
  b_destinationPort : list item;
  b_all : list item
}.

Definition emptyBuilder : builder := mkBuilder [] [] [] [] [] [] [].

(** The two appends of every branch: to the group and to [allItems]. *)
Definition append (g : group) (it : item) (b : builder) : builder :=
  let put g' l := if bool_decide (g = g') then l ++ [it] else l in
  mkBuilder (put GItems (b_items b)) (put GSourceAddress (b_sourceAddress b)) (put GSourcePort (b_sourcePort b))
    (put GDestinationAddress (b_destinationAddress b)) (put GDestinationIPCIDR (b_destinationIPCIDR b))
    (put GDestinationPort (b_destinationPort b)) (b_all b ++ [it]).

Definition finish (b : builder) (invert : bool) : rule :=
  DefaultRule (b_items b) (b_sourceAddress b) (b_sourcePort b) (b_destinationAddress b) (b_destinationIPCIDR b)
    (b_destinationPort b) (b_all b) invert.

(** One branch of the constructor: whether it applies, where its item goes and the item. *)
Record branch := mkBranch { applies : bool; into : group; build : res error item }.

Definition addBranch (r : res error builder) (br : branch) : res error builder :=
  b ← r; if applies br then it ← build br; Ok (append (into br) it b) else Ok b.

Definition leaf (cond : bool) (g : group) (it : leafItem) : branch := mkBranch cond g (Ok (Leaf it)).
Definition leafE (cond : bool) (g : group) (it : res error leafItem) : branch := mkBranch cond g (Leaf <$> it).
Definition refuse (cond : bool) (message : string) : branch := mkBranch cond GItems (Err (New message)).

(** [option.RawDefaultRule]. *)
Record RawDefaultRule := mkRawDefaultRule {
  o_Inbound : list string;
  o_IPVersion : Z;
  o_Network : list string;
  o_AuthUser : list string;
  o_Protocol : list string;
  o_Client : list string;
  o_Domain : list string;
  o_DomainSuffix : list string;
  o_DomainKeyword : list string;
  o_DomainRegex : list string;
  o_Geosite : list string;
  o_SourceGeoIP : list string;
  o_GeoIP : list string;
  o_SourceIPCIDR : list string;
  o_SourceIPIsPrivate : bool;
  o_IPCIDR : list string;
  o_IPIsPrivate : bool;
  o_SourcePort : list Z;
  o_SourcePortRange : list string;
  o_Port : list Z;
  o_PortRange : list string;
  o_ProcessName : list string;
  o_ProcessPath : list string;
  o_ProcessPathRegex : list string;
  o_PackageName : list string;
  o_User : list string;
  o_UserID : list Z;
  o_ClashMode : string;
  o_NetworkType : list Z;
  o_NetworkIsExpensive : bool;
  o_NetworkIsConstrained : bool;
  o_WIFISSID : list string;
  o_WIFIBSSID : list string;
  o_InterfaceAddress : gmap string (list Prefix);
  o_NetworkInterfaceAddress : gmap Z (list Prefix);
  o_DefaultInterfaceAddress : list Prefix;
  o_PreferredBy : list string;
  o_RuleSet : list string;
  o_RuleSetIPCIDRMatchSource : bool;
  o_Invert : bool;
  o_Deprecated_RulesetIPCIDRMatchSource : bool
}.

(** What a rule's references resolve to when it starts. *)
Class Registry := {
  ruleSetRules : string -> list rule;
  preferredRoutes : string -> PreferredRoutes
}.

Section DefaultRules.
Context `{RuleLibs} `{ActionLibs} `{Registry}.

Definition geoRemoved : string := "geoip database is deprecated in sing-box 1.8.0 and removed in sing-box 1.12.0".

(** The branches of [NewDefaultRule], in order. *)
Definition defaultBranches (o : RawDefaultRule) : list branch :=
  [ leaf (nonempty (o_Inbound o)) GItems (InboundItem (o_Inbound o));
    leafE (0 <? o_IPVersion o) GItems
      (if (o_IPVersion o =? 4) || (o_IPVersion o =? 6) then Ok (IPVersionItem (o_IPVersion o =? 6))
       else Err (New ("invalid ip version: " +:+ Itoa (o_IPVersion o))));
    leaf (nonempty (o_Network o)) GItems (NetworkItem (o_Network o));
    leaf (nonempty (o_AuthUser o)) GItems (AuthUserItem (o_AuthUser o));
    leaf (nonempty (o_Protocol o)) GItems (ProtocolItem (o_Protocol o));
    leaf (nonempty (o_Client o)) GItems (ClientItem (o_Client o));
    leafE (nonempty (o_Domain o) || nonempty (o_DomainSuffix o)) GDestinationAddress
      (NewDomainItem (o_Domain o) (o_DomainSuffix o));
    leaf (nonempty (o_DomainKeyword o)) GDestinationAddress (DomainKeywordItem (o_DomainKeyword o));
    leafE (nonempty (o_DomainRegex o)) GDestinationAddress (NewDomainRegexItem (o_DomainRegex o));
    refuse (nonempty (o_Geosite o)) "geosite database is deprecated in sing-box 1.8.0 and removed in sing-box 1.12.0";
    refuse (nonempty (o_SourceGeoIP o)) geoRemoved;
    refuse (nonempty (o_GeoIP o)) geoRemoved;
    leafE (nonempty (o_SourceIPCIDR o)) GSourceAddress (Cause "source_ip_cidr" (NewIPCIDRItem true (o_SourceIPCIDR o)));
    leaf (o_SourceIPIsPrivate o) GSourceAddress (IPIsPrivateItem true);
    leafE (nonempty (o_IPCIDR o)) GDestinationIPCIDR (Cause "ipcidr" (NewIPCIDRItem false (o_IPCIDR o)));
    leaf (o_IPIsPrivate o) GDestinationIPCIDR (IPIsPrivateItem false);
    leaf (nonempty (o_SourcePort o)) GSourcePort (PortItem true (o_SourcePort o));
    leafE (nonempty (o_SourcePortRange o)) GSourcePort (Cause "source_port_range" (NewPortRangeItem true (o_SourcePortRange o)));
    leaf (nonempty (o_Port o)) GDestinationPort (PortItem false (o_Port o));
    leafE (nonempty (o_PortRange o)) GDestinationPort (Cause "port_range" (NewPortRangeItem false (o_PortRange o)));
    leaf (nonempty (o_ProcessName o)) GItems (ProcessItem (o_ProcessName o));
    leaf (nonempty (o_ProcessPath o)) GItems (ProcessPathItem (o_ProcessPath o));
    leafE (nonempty (o_ProcessPathRegex o)) GItems (Cause "process_path_regex" (NewProcessPathRegexItem (o_ProcessPathRegex o)));
    leaf (nonempty (o_PackageName o)) GItems (PackageNameItem (o_PackageName o));
    leaf (nonempty (o_User o)) GItems (UserItem (o_User o));
    leaf (nonempty (o_UserID o)) GItems (UserIdItem (o_UserID o));
    leaf (negb (bool_decide (o_ClashMode o = ""))) GItems (ClashModeItem (o_ClashMode o));
    leaf (nonempty (o_NetworkType o)) GItems (NetworkTypeItem (o_NetworkType o));
    leaf (o_NetworkIsExpensive o) GItems NetworkIsExpensiveItem;
    leaf (o_NetworkIsConstrained o) GItems NetworkIsConstrainedItem;
    leaf (nonempty (o_WIFISSID o)) GItems (WIFISSIDItem (o_WIFISSID o));
    leaf (nonempty (o_WIFIBSSID o)) GItems (WIFIBSSIDItem (o_WIFIBSSID o));
    leaf (negb (bool_decide (o_InterfaceAddress o = ∅))) GItems (InterfaceAddressItem (o_InterfaceAddress o));
    leaf (negb (bool_decide (o_NetworkInterfaceAddress o = ∅))) GItems (NetworkInterfaceAddressItem (o_NetworkInterfaceAddress o));
    leaf (nonempty (o_DefaultInterfaceAddress o)) GItems (DefaultInterfaceAddressItem (o_DefaultInterfaceAddress o));
    leaf (nonempty (o_PreferredBy o)) GItems (PreferredByItem (preferredRoutes <$> o_PreferredBy o));
    mkBranch (nonempty (o_RuleSet o)) GItems
      (Ok (RuleSetItem (ruleSetRules <$> o_RuleSet o) (o_RuleSetIPCIDRMatchSource o || o_Deprecated_RulesetIPCIDRMatchSource o) false)) ].

Definition NewDefaultRule (o : RawDefaultRule) (a : ActionOptions) : res error (rule * ruleAction) :=
  action ← Cause "action" (NewRuleAction a);
  b ← foldl addBranch (Ok emptyBuilder) (defaultBranches o);
  Ok (finish b (o_Invert o), action).
End DefaultRules.

(** ** Rules of either type *)

(** [option.Rule] after decoding, which leaves the two types only. *)
Inductive RuleSpec :=
| SpecDefault (o : RawDefaultRule) (a : ActionOptions)
| SpecLogical (mode : string) (rules : list RuleSpec) (invert : bool) (a : ActionOptions).

Definition specAction (s : RuleSpec) : ActionOptions := match s with SpecDefault _ a | SpecLogical _ _ _ a => a end.

#[export] Instance RawRouteOptions_eq_dec : EqDecision RawRouteOptions.
Proof. solve_decision. Defined.
#[export] Instance ResolveOptions_eq_dec : EqDecision ResolveOptions.
Proof. solve_decision. Defined.
#[export] Instance ActionOptions_eq_dec : EqDecision ActionOptions.
Proof. solve_decision. Defined.
#[export] Instance RawDefaultRule_eq_dec : EqDecision RawDefaultRule.
Proof. solve_decision. Defined.

Definition zeroRoute : RawRouteOptions := mkRawRouteOptions "" 0 None 0 false false 0 false 0 false.
Definition zeroAction : ActionOptions := mkActionOptions "" "" zeroRoute zeroRoute "" false [] 0 (mkResolveOptions "" 0 false None None).
Definition zeroRule (invert : bool) : RawDefaultRule :=
  mkRawDefaultRule [] 0 [] [] [] [] [] [] [] [] [] [] [] [] false [] false [] [] [] [] [] [] [] [] [] [] "" [] false false
    [] [] ∅ ∅ [] [] [] false invert false.

(** [IsValid]: a default rule that differs from the empty one; a logical rule with sub-rules, all valid.
    An absent list and an empty one are the same here, where reflect.DeepEqual tells them apart. *)
Fixpoint IsValid (s : RuleSpec) : bool :=
  match s with
  | SpecDefault o a => negb (bool_decide (o = zeroRule (o_Invert o) /\ a = zeroAction))
  | SpecLogical _ rules _ _ => nonempty rules && forallb IsValid rules
  end.

(** The route action needs an outbound when [checkOutbound]. *)
Definition missingOutbound (checkOutbound : bool) (a : ActionOptions) : bool :=
  (bool_decide (o_Action a = "") || bool_decide (o_Action a = "route")) && bool_decide (o_RouteOutbound a = "") && checkOutbound.

Section NewRules.
Context `{RuleLibs} `{ActionLibs} `{Registry}.

(** The loop of [NewLogicalRule] over the sub-rules. *)
Definition subRules (f : RuleSpec -> res error (rule * ruleAction)) : Z -> list RuleSpec -> res error (list rule) :=
  fix go i l :=
    match l with
    | [] => Ok []
    | s :: l => r ← Cause ("sub rule[" +:+ Itoa i +:+ "]") (f s); rs ← go (i + 1) l; Ok (r.1 :: rs)
    end.

Definition logicalMode (mode : string) : res error bool :=
  if bool_decide (mode = "and") then Ok true else if bool_decide (mode = "or") then Ok false
  else Err (New ("unknown logical mode: " +:+ mode)).

Fixpoint NewRule (checkOutbound : bool) (s : RuleSpec) : res error (rule * ruleAction) :=
  if negb (IsValid s) then Err (New "missing conditions") else
  if missingOutbound checkOutbound (specAction s) then Err (New "missing outbound field") else
  match s with
  | SpecDefault o a => NewDefaultRule o a
  | SpecLogical mode rules invert a =>
      action ← Cause "action" (NewRuleAction a);
      isAnd ← logicalMode mode;
      subs ← subRules (NewRule false) 0 rules;
      Ok (LogicalRule subs isAnd invert, action)
  end.

Lemma NewRule_default chk o a :
  NewRule chk (SpecDefault o a) =
    if negb (IsValid (SpecDefault o a)) then Err (New "missing conditions")
    else if missingOutbound chk a then Err (New "missing outbound field") else NewDefaultRule o a.
Proof using Type. reflexivity. Qed.

(** [Router.Initialize]: the rules of the route options. *)
Fixpoint InitializeRules (i : Z) (specs : list RuleSpec) : res error (list (rule * ruleAction)) :=
  match specs with
  | [] => Ok []
  | s :: specs => r ← Cause ("parse rule[" +:+ Itoa i +:+ "]") (NewRule false s); rs ← InitializeRules (i + 1) specs; Ok (r :: rs)
  end.

(** ** Built rules have their documented meaning *)

(** No condition of the rule is a rule set. *)
Fixpoint withoutRuleSets (s : RuleSpec) : bool :=
  match s with
  | SpecDefault o _ => negb (nonempty (o_RuleSet o))
  | SpecLogical _ rules _ _ => forallb withoutRuleSets rules
  end.

Definition allGroups (b : builder) : list item :=
  b_items b ++ b_sourceAddress b ++ b_sourcePort b ++ b_destinationAddress b ++ b_destinationIPCIDR b ++ b_destinationPort b.

(** A builder whose items are leaves and whose [allItems] lists them. *)
Definition builder_ok (b : builder) : Prop :=
  leaves (allGroups b) /\ b_all b ≡ₚ allGroups b.

Definition branch_ok (br : branch) : Prop :=
  applies br = true -> forall it, build br = Ok it -> isRuleSet it = false.

Lemma allGroups_append g it b : allGroups (append g it b) ≡ₚ it :: allGroups b.
Proof using Type. destruct g; unfold allGroups; simpl; solve_Permutation. Qed.

Lemma leaves_Permutation l k : l ≡ₚ k -> leaves l -> leaves k.
Proof using Type.
  unfold leaves. rewrite !forallb_forall. intros Hp Hl x Hx. apply Hl, list_elem_of_In. rewrite Hp. by apply list_elem_of_In.
Qed.

Lemma append_ok g it b : isRuleSet it = false -> builder_ok b -> builder_ok (append g it b).
Proof using Type.
  intros Hit [Hl Hp]. split.
  - eapply leaves_Permutation; [symmetry; apply allGroups_append|]. unfold leaves in *. simpl. by rewrite Hit.
  - rewrite allGroups_append. simpl. rewrite Hp. solve_Permutation.
Qed.

Lemma addBranches_ok brs b b' : Forall branch_ok brs -> builder_ok b -> foldl addBranch (Ok b) brs = Ok b' -> builder_ok b'.
Proof using Type.
  intros Hbrs. revert b. induction Hbrs as [|br brs Hbr _ IH]; intros b Hb; cbn [foldl]; [by intros [= <-]|].
  unfold addBranch at 2. cbn [mbind res_bind]. destruct (applies br) eqn:Ea; [|by apply IH].
  destruct (build br) as [it|er] eqn:Eb; cbn [mbind res_bind].
  - apply IH. apply append_ok; [by apply Hbr | done].
  - intros Hf. exfalso. revert Hf. clear. induction brs as [|br brs IHf]; [done|]. done.
Qed.

Lemma leaf_ok cond g it : branch_ok (leaf cond g it).
Proof using Type. by intros _ ? [= <-]. Qed.
Lemma leafE_ok cond g r : branch_ok (leafE cond g r).
Proof using Type. intros _ it. simpl. destruct r; [by intros [= <-] | done]. Qed.
Lemma refuse_ok cond msg : branch_ok (refuse cond msg).
Proof using Type. by intros _ it. Qed.

Lemma defaultBranches_ok o : o_RuleSet o = [] -> Forall branch_ok (defaultBranches o).
Proof using Type.
  intros Hr. unfold defaultBranches. rewrite Hr.
  repeat (apply Forall_cons; split; [first [apply leaf_ok | apply leafE_ok | apply refuse_ok | done]|]). constructor.
Qed.

Lemma finish_plain b invert : builder_ok b -> plain (finish b invert) = true.
Proof using Type.
  intros [Hl Hp]. unfold finish. cbn [plain]. fold (allGroups b). apply andb_true_iff. split; [exact Hl|].
  apply eqb_true_iff. destruct (b_all b) eqn:E, (allGroups b) eqn:E'; try done.
  - by apply Permutation_nil_cons in Hp.
  - symmetry in Hp. by apply Permutation_nil_cons in Hp.
Qed.

Lemma Cause_Ok label {A} (r : res error A) x : Cause label r = Ok x -> r = Ok x.
Proof using Type. by destruct r. Qed.

Lemma NewRule_plain s chk r a : NewRule chk s = Ok (r, a) -> withoutRuleSets s = true -> plain r = true.
Proof using Type.
  revert s chk r a. fix IH 1. intros s chk r a. destruct s as [o act|mode rules invert act]; cbn [NewRule withoutRuleSets specAction].
  - destruct (negb _); [done|]. destruct (missingOutbound _ _); [done|]. intros Hn Hr. unfold NewDefaultRule in Hn. res_inv.
    simplify_eq. apply finish_plain. eapply addBranches_ok; [| |eassumption]; [|by split].
    apply defaultBranches_ok. by destruct (o_RuleSet o).
  - destruct (negb _); [done|]. destruct (missingOutbound _ _); [done|]. intros Hn Hr. res_inv. simplify_eq. cbn [plain].
    match goal with Hs : subRules _ _ _ = Ok ?l |- _ => revert Hr l Hs end. generalize 0. clear -IH.
    induction rules as [|s rules IHl]; intros i Hr l Hs; cbn [subRules forallb] in *; [by injection Hs as <-|].
    apply andb_true_iff in Hr as [Hr1 Hr2]. res_inv. cbn [forallb]. apply andb_true_iff. split; [|by eapply IHl].
    match goal with Hc : Cause _ _ = Ok ?p |- _ => apply Cause_Ok in Hc; destruct p as [r' a'] end. by eapply IH.
Qed.

(** C18. A rule the router builds from options without rule sets matches a connection exactly when the
    conditions of its groups say so, however the rules before it left the shared flags. *)
Theorem built_rule_meaning (e : Surroundings) (m : Facts) `{UnicodeTables} `{MapOrder} (s : RuleSpec) (chk : bool) (r : rule) (a : ruleAction) (c : RuleCache) :
  NewRule chk s = Ok (r, a) -> withoutRuleSets s = true ->
  (matchRule e m r (ResetRuleCache c)).1 = denote e m (IgnoreDestinationIPCIDRMatch c) r.
Proof using Type. intros Hn Hs. eapply plain_matches_reference, NewRule_plain; eassumption. Qed.
End NewRules.

(** ** Example *)

Module BuildSample.
Import RuleSample.

#[export] Instance actionLibs : ActionLibs :=
  {| ParseSocksaddrHostPort host port := mkSocksaddr None port host; newDirectDialer _ := Ok tt |}.
#[export] Instance registry : Registry :=
  {| ruleSetRules _ := []; preferredRoutes _ := mkPreferred (fun _ => false) (fun _ => false) |}.

(** Not (the domain or the keyword, and a port of the range). *)
Definition blocked : RuleSpec :=
  SpecDefault
    (mkRawDefaultRule [] 0 [] [] [] [] ["example.com"] [] ["internal"] [] [] [] [] [] false [] false [] [] [] ["8000:8100"; "443:"]
       [] [] [] [] [] [] "" [] false false [] [] ∅ ∅ [] [] [] false true false)
    (mkActionOptions "reject" "" zeroRoute zeroRoute "default" false [] 0 (mkResolveOptions "" 0 false None None)).

Definition both : RuleSpec := SpecLogical "and" [blocked; blocked] true zeroAction.

Definition builtBoth : rule := match NewRule false both with Ok (r, _) => r | Err _ => LogicalRule [] true false end.

Lemma built_rule_meaning_witness :
  (matchRule quietNetwork (connection "in" "www.internal.net" 1 8080) builtBoth (fresh false)).1 =
    denote quietNetwork (connection "in" "www.internal.net" 1 8080) false builtBoth /\
  denote quietNetwork (connection "in" "www.internal.net" 1 8080) false builtBoth = true.
Proof.
  split; [|vm_compute; reflexivity].
  exact (built_rule_meaning quietNetwork (connection "in" "www.internal.net" 1 8080) both false builtBoth ActionNone (fresh false)
    ltac:(vm_compute; reflexivity) ltac:(vm_compute; reflexivity)).
Defined.
End BuildSample.
