(* ===== verification/Headless.v ===== *)
(** * Headless rules (src/fork/sing-box/route/rule/rule_headless.go, rule_set.go and the options of
    option/rule_set.go)

    The rules of a rule set have conditions only.  A rule set in source form gives texts; one read
    from a binary file gives ready matchers instead, whose type and matching are [MatcherLibs].
    Options are given after decoding, which leaves the two rule types; a list of the options is
    nil when it is empty. *)

From S2P Require Import Prelude GoStrings Rules RuleBuild.

#[local] Open Scope Z_scope.

(** ** Options *)

(** The layout of [netipx.IPSet] the code reads and writes: ranges of addresses. *)
Record IPRange := mkRange { range_from : option Addr; range_to : option Addr }.
Definition IPSet : Type := list IPRange.

#[export] Instance IPRange_eq_dec : EqDecision IPRange.
Proof. solve_decision. Defined.

Class MatcherLibs := {
  Matcher : Type;
  Matcher_Match : Matcher -> string -> bool;
  AdGuardMatcher : Type;
  AdGuardMatcher_Match : AdGuardMatcher -> string -> bool;
  IPSet_Contains : IPSet -> option Addr -> bool
}.

Section Options.
Context `{MatcherLibs}.

Record DefaultHeadlessRule := mkHeadless {
  h_QueryType : list Z;
  h_Network : list string;
  h_Domain : list string;
  h_DomainSuffix : list string;
  h_DomainKeyword : list string;
  h_DomainRegex : list string;
  h_SourceIPCIDR : list string;
  h_IPCIDR : list string;
  h_SourcePort : list Z;
  h_SourcePortRange : list string;
  h_Port : list Z;
  h_PortRange : list string;
  h_ProcessName : list string;
  h_ProcessPath : list string;
  h_ProcessPathRegex : list string;
  h_PackageName : list string;
  h_NetworkType : list Z;
  h_NetworkIsExpensive : bool;
  h_NetworkIsConstrained : bool;
  h_WIFISSID : list string;
  h_WIFIBSSID : list string;
  (** A pointer to an ordered map. *)
  h_NetworkInterfaceAddress : option (list (Z * list Prefix));
  h_DefaultInterfaceAddress : list Prefix;
  h_Invert : bool;
  h_DomainMatcher : option Matcher;
  h_SourceIPSet : option IPSet;
  h_IPSet : option IPSet;
  h_AdGuardDomain : list string;
  h_AdGuardDomainMatcher : option AdGuardMatcher
}.

Inductive HeadlessRule :=
| HeadlessDefault (o : DefaultHeadlessRule)
| HeadlessLogical (mode : string) (rules : list HeadlessRule) (invert : bool).

(** Induction over rules, through the lists they hold. *)
Definition headlessInd (P : HeadlessRule -> Prop) (Hd : forall o, P (HeadlessDefault o))
    (Hl : forall mode rules invert, Forall P rules -> P (HeadlessLogical mode rules invert)) : forall h, P h :=
  fix go h :=
    match h with
    | HeadlessDefault o => Hd o
    | HeadlessLogical mode rules invert => Hl mode rules invert (listInd P go rules)
    end.

Definition zeroHeadless (invert : bool) : DefaultHeadlessRule :=
  mkHeadless [] [] [] [] [] [] [] [] [] [] [] [] [] [] [] [] [] false false [] [] None [] invert None None None [] None.

Definition none {A} (o : option A) : bool := match o with None => true | Some _ => false end.
Definition empty {A} (l : list A) : bool := negb (nonempty l).

(** [DefaultHeadlessRule.IsValid]: the rule differs from the zero value, its inversion apart.
    An absent list and an empty one are the same here, where reflect.DeepEqual tells them apart. *)
Definition Default_IsValid (o : DefaultHeadlessRule) : bool :=
  negb (empty (h_QueryType o) && empty (h_Network o) && empty (h_Domain o) && empty (h_DomainSuffix o) &&
        empty (h_DomainKeyword o) && empty (h_DomainRegex o) && empty (h_SourceIPCIDR o) && empty (h_IPCIDR o) &&
        empty (h_SourcePort o) && empty (h_SourcePortRange o) && empty (h_Port o) && empty (h_PortRange o) &&
        empty (h_ProcessName o) && empty (h_ProcessPath o) && empty (h_ProcessPathRegex o) && empty (h_PackageName o) &&
        empty (h_NetworkType o) && negb (h_NetworkIsExpensive o) && negb (h_NetworkIsConstrained o) &&
        empty (h_WIFISSID o) && empty (h_WIFIBSSID o) && none (h_NetworkInterfaceAddress o) &&
        empty (h_DefaultInterfaceAddress o) && none (h_DomainMatcher o) && none (h_SourceIPSet o) && none (h_IPSet o) &&
        empty (h_AdGuardDomain o) && none (h_AdGuardDomainMatcher o)).

Fixpoint Headless_IsValid (h : HeadlessRule) : bool :=
  match h with
  | HeadlessDefault o => Default_IsValid o
  | HeadlessLogical _ rules _ => nonempty rules && forallb Headless_IsValid rules
  end.
End Options.

(** ** Building *)

Section Build.
Context `{RuleLibs} `{MatcherLibs}.
(** Whether the context has a network manager. *)
Variable networkManager : bool.
Implicit Types (o : DefaultHeadlessRule).

(** The matcher of a binary rule set, used when the texts are missing. *)
Definition rawLeaf {A} (texts : bool) (g : group) (matcher : option A) (it : A -> leafItem) : branch :=
  match matcher with
  | Some x => leaf (negb texts) g (it x)
  | None => leafE false g (Err (New "nil matcher"))
  end.

Definition has {A} (l : option (list A)) : bool := match l with Some l => nonempty l | None => false end.

(** The branches of [NewDefaultHeadlessRule], in order. *)
Definition headlessBranches o : list branch :=
  [ leaf (nonempty (h_Network o)) GItems (NetworkItem (h_Network o));
    leafE (nonempty (h_Domain o) || nonempty (h_DomainSuffix o)) GDestinationAddress (NewDomainItem (h_Domain o) (h_DomainSuffix o));
    rawLeaf (nonempty (h_Domain o) || nonempty (h_DomainSuffix o)) GDestinationAddress (h_DomainMatcher o)
      (fun mt => RawDomainItem (Matcher_Match mt));
    leaf (nonempty (h_DomainKeyword o)) GDestinationAddress (DomainKeywordItem (h_DomainKeyword o));
    leafE (nonempty (h_DomainRegex o)) GDestinationAddress (Cause "domain_regex" (NewDomainRegexItem (h_DomainRegex o)));
    leafE (nonempty (h_SourceIPCIDR o)) GSourceAddress (Cause "source_ip_cidr" (NewIPCIDRItem true (h_SourceIPCIDR o)));
    rawLeaf (nonempty (h_SourceIPCIDR o)) GSourceAddress (h_SourceIPSet o) (fun s => RawIPCIDRItem true (IPSet_Contains s));
    leafE (nonempty (h_IPCIDR o)) GDestinationIPCIDR (Cause "ipcidr" (NewIPCIDRItem false (h_IPCIDR o)));
    rawLeaf (nonempty (h_IPCIDR o)) GDestinationIPCIDR (h_IPSet o) (fun s => RawIPCIDRItem false (IPSet_Contains s));
    leaf (nonempty (h_SourcePort o)) GSourcePort (PortItem true (h_SourcePort o));
    leafE (nonempty (h_SourcePortRange o)) GSourcePort (Cause "source_port_range" (NewPortRangeItem true (h_SourcePortRange o)));
    leaf (nonempty (h_Port o)) GDestinationPort (PortItem false (h_Port o));
    leafE (nonempty (h_PortRange o)) GDestinationPort (Cause "port_range" (NewPortRangeItem false (h_PortRange o)));
    leaf (nonempty (h_ProcessName o)) GItems (ProcessItem (h_ProcessName o));
    leaf (nonempty (h_ProcessPath o)) GItems (ProcessPathItem (h_ProcessPath o));
    leafE (nonempty (h_ProcessPathRegex o)) GItems (Cause "process_path_regex" (NewProcessPathRegexItem (h_ProcessPathRegex o)));
    leaf (nonempty (h_PackageName o)) GItems (PackageNameItem (h_PackageName o));
    leaf (networkManager && nonempty (h_NetworkType o)) GItems (NetworkTypeItem (h_NetworkType o));
    leaf (networkManager && h_NetworkIsExpensive o) GItems NetworkIsExpensiveItem;
    leaf (networkManager && h_NetworkIsConstrained o) GItems NetworkIsConstrainedItem;
    leaf (networkManager && nonempty (h_WIFISSID o)) GItems (WIFISSIDItem (h_WIFISSID o));
    leaf (networkManager && nonempty (h_WIFIBSSID o)) GItems (WIFIBSSIDItem (h_WIFIBSSID o));
    leaf (networkManager && has (h_NetworkInterfaceAddress o)) GItems
      (NetworkInterfaceAddressItem (foldl (fun m e => <[e.1 := e.2]> m) ∅ (default [] (h_NetworkInterfaceAddress o))));
    leaf (networkManager && nonempty (h_DefaultInterfaceAddress o)) GItems
      (DefaultInterfaceAddressItem (h_DefaultInterfaceAddress o));
    leaf (nonempty (h_AdGuardDomain o)) GDestinationAddress (AdGuardDomainItem (h_AdGuardDomain o));
    rawLeaf (nonempty (h_AdGuardDomain o)) GDestinationAddress (h_AdGuardDomainMatcher o)
      (fun mt => RawAdGuardDomainItem (AdGuardMatcher_Match mt)) ].

Definition NewDefaultHeadlessRule o : res error rule :=
  b ← foldl addBranch (Ok emptyBuilder) (headlessBranches o); Ok (finish b (h_Invert o)).

(** The loop over sub-rules, [label] naming the position. *)
Definition eachRule (label : Z -> string) (f : HeadlessRule -> res error rule) : Z -> list HeadlessRule -> res error (list rule) :=
  fix go i l :=
    match l with
    | [] => Ok []
    | h :: l => r ← Cause (label i) (f h); rs ← go (i + 1) l; Ok (r :: rs)
    end.

Fixpoint NewHeadlessRule (h : HeadlessRule) : res error rule :=
  if negb (Headless_IsValid h) then Err (New "missing conditions") else
  match h with
  | HeadlessDefault o => NewDefaultHeadlessRule o
  | HeadlessLogical mode rules invert =>
      isAnd ← logicalMode mode;
      subs ← eachRule (fun i => "sub rule[" +:+ Itoa i +:+ "]") NewHeadlessRule 0 rules;
      Ok (LogicalRule subs isAnd invert)
  end.

(** ** Metadata of a rule set *)

(** The IP sets of a rule's destination conditions. *)
Definition itemIPSet (it : item) : list (option Addr -> bool) :=
  match it with
  | Leaf (IPCIDRItem _ prefixes) => [ipSetContains prefixes]
  | Leaf (RawIPCIDRItem _ contains) => [contains]
  | _ => []
  end.

Fixpoint extractIPSetFromRule (r : rule) : list (option Addr -> bool) :=
  match r with
  | DefaultRule _ _ _ _ dips _ _ _ => concat (map itemIPSet dips)
  | LogicalRule rules _ _ => concat (map extractIPSetFromRule rules)
  end.
End Build.

Section Metadata.
Context `{MatcherLibs}.

(** [HasHeadlessRule]: the rules are searched from the first one on. *)
Fixpoint HasHeadlessRule1 (cond : DefaultHeadlessRule -> bool) (h : HeadlessRule) : bool :=
  match h with
  | HeadlessDefault o => cond o
  | HeadlessLogical _ rules _ => existsb (HasHeadlessRule1 cond) rules
  end.
Definition HasHeadlessRule (rules : list HeadlessRule) (cond : DefaultHeadlessRule -> bool) : bool :=
  existsb (HasHeadlessRule1 cond) rules.

Definition isProcessHeadlessRule (o : DefaultHeadlessRule) : bool :=
  nonempty (h_ProcessName o) || nonempty (h_ProcessPath o) || nonempty (h_ProcessPathRegex o) || nonempty (h_PackageName o).
Definition isWIFIHeadlessRule (o : DefaultHeadlessRule) : bool := nonempty (h_WIFISSID o) || nonempty (h_WIFIBSSID o).
Definition isIPCIDRHeadlessRule (o : DefaultHeadlessRule) : bool := nonempty (h_IPCIDR o) || negb (none (h_IPSet o)).
End Metadata.

(** ** Rules that match alike *)

Section Alike.
Context `{UnicodeTables} `{MapOrder} `{RuleLibs}.
Inductive item_alike : item -> item -> Prop :=
| alike_leaf l k : (forall e m c, leafMatch l e m c = leafMatch k e m c) -> item_alike (Leaf l) (Leaf k).

(** Rules of the same shape whose conditions match alike. *)
Inductive rule_alike : rule -> rule -> Prop :=
| alike_default items sas sps das dips dps all items' sas' sps' das' dips' dps' all' invert :
    Forall2 item_alike items items' -> Forall2 item_alike sas sas' -> Forall2 item_alike sps sps' ->
    Forall2 item_alike das das' -> Forall2 item_alike dips dips' -> Forall2 item_alike dps dps' -> Forall2 item_alike all all' ->
    rule_alike (DefaultRule items sas sps das dips dps all invert) (DefaultRule items' sas' sps' das' dips' dps' all' invert)
| alike_logical rules rules' isAnd invert :
    Forall2 rule_alike rules rules' -> rule_alike (LogicalRule rules isAnd invert) (LogicalRule rules' isAnd invert).

Lemma item_alike_refl l : item_alike (Leaf l) (Leaf l).
Proof using Type. by constructor. Qed.

(** Two matchers that agree on corresponding elements. *)
Definition agree {A B} (f : A -> RuleCache -> bool * RuleCache) (g : B -> RuleCache -> bool * RuleCache) (x : A) (y : B) : Prop :=
  forall c, f x c = g y c.

Lemma anyS_alike {A B} (f : A -> RuleCache -> bool * RuleCache) (g : B -> RuleCache -> bool * RuleCache) l k :
  Forall2 (agree f g) l k -> forall c, anyS f l c = anyS g k c.
Proof using Type. induction 1 as [|x y l k Hxy _ IH]; intros c; simpl; [done|]. rewrite Hxy. destruct (g y c) as [[] c']; [done | apply IH]. Qed.

Lemma allS_alike {A B} (f : A -> RuleCache -> bool * RuleCache) (g : B -> RuleCache -> bool * RuleCache) l k :
  Forall2 (agree f g) l k -> forall c, allS f l c = allS g k c.
Proof using Type. induction 1 as [|x y l k Hxy _ IH]; intros c; simpl; [done|]. rewrite Hxy. destruct (g y c) as [[] c']; [apply IH | done]. Qed.

Lemma nonempty_alike {A B} (P : A -> B -> Prop) l k : Forall2 P l k -> nonempty l = nonempty k.
Proof using Type. by destruct 1. Qed.

Lemma tryGroup_alike (f g : item -> RuleCache -> bool * RuleCache) fl l k c :
  Forall2 (agree f g) l k -> tryGroup f fl l c = tryGroup g fl k c.
Proof using Type.
  intros Hl. unfold tryGroup. destruct Hl as [|x y l k Hxy Hl]; [done|]. case_match; [done|].
  rewrite (anyS_alike f g (x :: l) (y :: k)); [done|]. by constructor.
Qed.

Lemma matchItem_alike e m it it' : item_alike it it' -> agree (matchItem e m) (matchItem e m) it it' /\ isRuleSet it = isRuleSet it'.
Proof using Type. destruct 1 as [l k Hl]. split; [|done]. intros c. cbn. by rewrite Hl. Qed.

Lemma matchRule_alike e m r r' : rule_alike r r' -> agree (matchRule e m) (matchRule e m) r r'.
Proof using Type.
  revert r r'. cut (forall r, (fun r => forall r', rule_alike r r' -> agree (matchRule e m) (matchRule e m) r r') r); [done|].
  apply (ruleInd (fun _ => True)); [done | done | |].
  - intros items sas sps das dips dps all invert _ _ _ _ _ _ r' Ha c.
    inversion Ha as [? ? ? ? ? ? ? items' sas' sps' das' dips' dps' all' ? Hitems Hsas Hsps Hdas Hdips Hdps Hall|]; subst.
    change (matchRule e m (DefaultRule ?i ?a ?b ?c ?d ?f ?g ?h) ?k) with (matchDefault (matchItem e m) i a b c d f g h k).
    assert (forall l k, Forall2 item_alike l k -> Forall2 (agree (matchItem e m) (matchItem e m)) l k) as Hag.
    { intros l k Hl. eapply Forall2_impl; [exact Hl|]. intros. by apply matchItem_alike. }
    unfold matchDefault.
    rewrite (nonempty_alike _ _ _ Hall), (nonempty_alike _ _ _ Hsas), (nonempty_alike _ _ _ Hsps), (nonempty_alike _ _ _ Hdas),
      (nonempty_alike _ _ _ Hdips), (nonempty_alike _ _ _ Hdps).
    pose proof (fun fl l k Hl c => tryGroup_alike (matchItem e m) (matchItem e m) fl l k c (Hag l k Hl)) as Htry.
    rewrite (Htry _ _ _ Hsas), (Htry _ _ _ Hsps), !(Htry _ _ _ Hdas), (Htry _ _ _ Hdips), (Htry _ _ _ Hdps).
    erewrite allS_alike; [reflexivity|]. eapply Forall2_impl; [exact Hitems|]. intros it it' Hit c1.
    destruct (matchItem_alike e m _ _ Hit) as [Hm ->]. apply Hm.
  - intros rules isAnd invert IH r' Ha c. inversion Ha as [|? rules' ? ? Hrules]; subst.
    change (matchRule e m (LogicalRule ?a ?b ?d) ?k) with (matchLogical (matchRule e m) a b d k).
    assert (Forall2 (agree (fun r c => matchRule e m r (ResetRuleCache c)) (fun r c => matchRule e m r (ResetRuleCache c))) rules rules') as Hag.
    { clear Ha. induction Hrules as [|x y l k Hxy _ IHl]; [constructor|]. apply Forall_cons in IH as [Hx IH]. constructor; [|by apply IHl].
      intros c1. by apply Hx. }
    unfold matchLogical. by rewrite (anyS_alike _ _ _ _ Hag), (allS_alike _ _ _ _ Hag).
Qed.

#[export] Instance matchRule_Proper e m : Proper (rule_alike ==> eq ==> eq) (matchRule e m).
Proof using Type. intros r r' Hr c ? <-. by apply matchRule_alike. Qed.

(** Branches that add items which match alike. *)
Definition branch_alike (b b' : branch) : Prop :=
  into b = into b' /\ forall it, build b = Ok it -> exists it', build b' = Ok it' /\ item_alike it it'.

Record builder_alike (b b' : builder) : Prop := mkBuilderAlike {
  ba_items : Forall2 item_alike (b_items b) (b_items b');
  ba_sourceAddress : Forall2 item_alike (b_sourceAddress b) (b_sourceAddress b');
  ba_sourcePort : Forall2 item_alike (b_sourcePort b) (b_sourcePort b');
  ba_destinationAddress : Forall2 item_alike (b_destinationAddress b) (b_destinationAddress b');
  ba_destinationIPCIDR : Forall2 item_alike (b_destinationIPCIDR b) (b_destinationIPCIDR b');
  ba_destinationPort : Forall2 item_alike (b_destinationPort b) (b_destinationPort b');
  ba_all : Forall2 item_alike (b_all b) (b_all b')
}.

Lemma append_alike g it it' b b' : item_alike it it' -> builder_alike b b' -> builder_alike (append g it b) (append g it' b').
Proof using Type.
  intros Hit [? ? ? ? ? ? ?]. destruct g; constructor; simpl; try done; apply Forall2_app; (done || by constructor).
Qed.

Lemma finish_alike b b' invert : builder_alike b b' -> rule_alike (finish b invert) (finish b' invert).
Proof using Type. intros [? ? ? ? ? ? ?]. by constructor. Qed.

Lemma foldl_addBranch_Err brs er : foldl addBranch (Err er) brs = Err er.
Proof using Type. induction brs; [done|]. done. Qed.

Lemma foldl_active brs r : foldl addBranch r (List.filter applies brs) = foldl addBranch r brs.
Proof using Type.
  revert r. induction brs as [|br brs IH]; intros r; simpl; [done|]. destruct (applies br) eqn:E; simpl; rewrite IH; [done|].
  f_equal. unfold addBranch. destruct r; simpl; [by rewrite E | done].
Qed.

Lemma foldl_addBranch_alike brs brs' b b' x :
  Forall2 branch_alike brs brs' -> Forall (fun br => applies br = true) brs -> Forall (fun br => applies br = true) brs' ->
  builder_alike b b' -> foldl addBranch (Ok b) brs = Ok x -> exists x', foldl addBranch (Ok b') brs' = Ok x' /\ builder_alike x x'.
Proof using Type.
  intros Hbrs. revert b b'. induction Hbrs as [|br br' brs brs' [Hi Hbr] _ IH]; intros b b' Ha Ha' Hb; simpl.
  - intros [= <-]. by exists b'.
  - apply Forall_cons in Ha as [Ha1 Ha], Ha' as [Ha1' Ha']. rewrite Ha1, Ha1'. destruct (build br) as [it|] eqn:E; simpl.
    + destruct (Hbr it eq_refl) as (it' & -> & Hit). simpl. apply IH; [done | done|]. rewrite <- Hi. by apply append_alike.
    + by rewrite foldl_addBranch_Err.
Qed.
End Alike.
