(* ===== verification/Srs.v ===== *)
(** * Binary rule sets (src/fork/sing-box/common/srs)

    [Write] compiles the rules of a rule set to bytes and [Read] loads them.  The format is a
    magic number, a version and, compressed, the rules: each default rule is a sequence of items,
    a type byte and its data, up to the final item.

    Of other packages, [SrsLibs] has compress/zlib, the variable-length encoding of sing (varbin),
    its domain matchers, and the IP-set builder of netipx.  Output goes to memory: writers do not
    fail.  A panic is an error whose text starts with "panic". *)

From Stdlib Require Import Btauto.
From S2P Require Import Prelude GoStrings Wire Rules RuleBuild Headless.

#[local] Open Scope Z_scope.

(** ** Constants *)

Definition MagicBytes : list Z := [83; 82; 83].

Definition ruleItemQueryType : Z := 0.
Definition ruleItemNetwork : Z := 1.
Definition ruleItemDomain : Z := 2.
Definition ruleItemDomainKeyword : Z := 3.
Definition ruleItemDomainRegex : Z := 4.
Definition ruleItemSourceIPCIDR : Z := 5.
Definition ruleItemIPCIDR : Z := 6.
Definition ruleItemSourcePort : Z := 7.
Definition ruleItemSourcePortRange : Z := 8.
Definition ruleItemPort : Z := 9.
Definition ruleItemPortRange : Z := 10.
Definition ruleItemProcessName : Z := 11.
Definition ruleItemProcessPath : Z := 12.
Definition ruleItemPackageName : Z := 13.
Definition ruleItemWIFISSID : Z := 14.
Definition ruleItemWIFIBSSID : Z := 15.
Definition ruleItemAdGuardDomain : Z := 16.
Definition ruleItemProcessPathRegex : Z := 17.
Definition ruleItemNetworkType : Z := 18.
Definition ruleItemNetworkIsExpensive : Z := 19.
Definition ruleItemNetworkIsConstrained : Z := 20.
Definition ruleItemNetworkInterfaceAddress : Z := 21.
Definition ruleItemDefaultInterfaceAddress : Z := 22.
Definition ruleItemFinal : Z := 255.

Definition RuleSetVersionCurrent : Z := 4.

(** ** Other packages *)

Class SrsLibs `{MatcherLibs} := {
  newMatcher : list string -> list string -> bool -> Matcher;
  writeMatcher : Matcher -> list Z;
  readMatcher : Source -> res error (Matcher * Source);
  dumpMatcher : Matcher -> list string * list string;
  newAdGuard : list string -> AdGuardMatcher;
  writeAdGuard : AdGuardMatcher -> list Z;
  readAdGuard : Source -> res error (AdGuardMatcher * Source);
  dumpAdGuard : AdGuardMatcher -> list string;
  (** varbin: [WriteUvarint], [Write] and [ReadValue] at the types in use. *)
  writeUvarint : Z -> list Z;
  writeStrings : list string -> list Z;
  readStrings : Source -> res error (list string * Source);
  writeUint8s : list Z -> list Z;
  readUint8s : Source -> res error (list Z * Source);
  writeUint16s : list Z -> list Z;
  readUint16s : Source -> res error (list Z * Source);
  writeBytes : list Z -> list Z;
  readBytes : Source -> res error (list Z * Source);
  readUint8 : Source -> res error (Z * Source);
  (** [varbin.Write] of one pair of byte slices, [varbin.Read] into a slice of that many. *)
  writeRange : list Z * list Z -> list Z;
  readRanges : Z -> Source -> res error (list (list Z * list Z) * Source);
  (** [M.AddrFromIP]; [None] is the zero address. *)
  AddrFromIP : list Z -> option Addr;
  (** The set of an [IPSetBuilder] to which prefixes and addresses were added. *)
  builderIPSet : list string -> res error IPSet;
  (** [IPSet.Prefixes] as texts. *)
  prefixesOf : IPSet -> list string;
  (** [TypedMap.Put] on the entries. *)
  typedPut : list (Z * list Prefix) -> Z -> list Prefix -> list (Z * list Prefix);
  zlibWrite : list Z -> list Z;
  zlibRead : Source -> res error Source;
  (** The longest slice of rules, and of ranges, [make] can allocate. *)
  makeLimit : Z
}.

(** [netip.Addr.AsSlice]; nil for the zero address. *)
Definition AsSlice (a : option Addr) : list Z :=
  match a with Some a => bePut (Z.to_nat (addr_width a / 8)) (addr_bits a) | None => [] end.

(** [netip.PrefixFrom]. *)
Definition PrefixFrom (a : option Addr) (bits : Z) : Prefix :=
  match a with
  | Some a => mkPrefix a (if bits <=? addr_width a then bits else -1)
  | None => mkPrefix (mkAddr 0 0) (-1)
  end.
Definition Prefix_Addr (p : Prefix) : option Addr := if addr_width (prefix_addr p) =? 0 then None else Some (prefix_addr p).

Section Srs.
Context `{RuleLibs} `{SrsLibs}.

(** Assignments to the fields of a rule. *)
Definition set_QueryType (val : list Z) (rule : DefaultHeadlessRule) : DefaultHeadlessRule :=
  let '(mkHeadless _ b c d e f g h i j k l m n o p q r s t u v w x y z a1 b1 c1) := rule in
  mkHeadless val b c d e f g h i j k l m n o p q r s t u v w x y z a1 b1 c1.
Definition set_Network (val : list string) (rule : DefaultHeadlessRule) : DefaultHeadlessRule :=
  let '(mkHeadless a _ c d e f g h i j k l m n o p q r s t u v w x y z a1 b1 c1) := rule in
  mkHeadless a val c d e f g h i j k l m n o p q r s t u v w x y z a1 b1 c1.
Definition set_Domain (val : list string) (rule : DefaultHeadlessRule) : DefaultHeadlessRule :=
  let '(mkHeadless a b _ d e f g h i j k l m n o p q r s t u v w x y z a1 b1 c1) := rule in
  mkHeadless a b val d e f g h i j k l m n o p q r s t u v w x y z a1 b1 c1.
Definition set_DomainSuffix (val : list string) (rule : DefaultHeadlessRule) : DefaultHeadlessRule :=
  let '(mkHeadless a b c _ e f g h i j k l m n o p q r s t u v w x y z a1 b1 c1) := rule in
  mkHeadless a b c val e f g h i j k l m n o p q r s t u v w x y z a1 b1 c1.
Definition set_DomainKeyword (val : list string) (rule : DefaultHeadlessRule) : DefaultHeadlessRule :=
  let '(mkHeadless a b c d _ f g h i j k l m n o p q r s t u v w x y z a1 b1 c1) := rule in
  mkHeadless a b c d val f g h i j k l m n o p q r s t u v w x y z a1 b1 c1.
Definition set_DomainRegex (val : list string) (rule : DefaultHeadlessRule) : DefaultHeadlessRule :=
  let '(mkHeadless a b c d e _ g h i j k l m n o p q r s t u v w x y z a1 b1 c1) := rule in
  mkHeadless a b c d e val g h i j k l m n o p q r s t u v w x y z a1 b1 c1.
Definition set_SourceIPCIDR (val : list string) (rule : DefaultHeadlessRule) : DefaultHeadlessRule :=
  let '(mkHeadless a b c d e f _ h i j k l m n o p q r s t u v w x y z a1 b1 c1) := rule in
  mkHeadless a b c d e f val h i j k l m n o p q r s t u v w x y z a1 b1 c1.
Definition set_IPCIDR (val : list string) (rule : DefaultHeadlessRule) : DefaultHeadlessRule :=
  let '(mkHeadless a b c d e f g _ i j k l m n o p q r s t u v w x y z a1 b1 c1) := rule in
  mkHeadless a b c d e f g val i j k l m n o p q r s t u v w x y z a1 b1 c1.
Definition set_SourcePort (val : list Z) (rule : DefaultHeadlessRule) : DefaultHeadlessRule :=
  let '(mkHeadless a b c d e f g h _ j k l m n o p q r s t u v w x y z a1 b1 c1) := rule in
  mkHeadless a b c d e f g h val j k l m n o p q r s t u v w x y z a1 b1 c1.
Definition set_SourcePortRange (val : list string) (rule : DefaultHeadlessRule) : DefaultHeadlessRule :=
  let '(mkHeadless a b c d e f g h i _ k l m n o p q r s t u v w x y z a1 b1 c1) := rule in
  mkHeadless a b c d e f g h i val k l m n o p q r s t u v w x y z a1 b1 c1.
Definition set_Port (val : list Z) (rule : DefaultHeadlessRule) : DefaultHeadlessRule :=
  let '(mkHeadless a b c d e f g h i j _ l m n o p q r s t u v w x y z a1 b1 c1) := rule in
  mkHeadless a b c d e f g h i j val l m n o p q r s t u v w x y z a1 b1 c1.
Definition set_PortRange (val : list string) (rule : DefaultHeadlessRule) : DefaultHeadlessRule :=
  let '(mkHeadless a b c d e f g h i j k _ m n o p q r s t u v w x y z a1 b1 c1) := rule in
  mkHeadless a b c d e f g h i j k val m n o p q r s t u v w x y z a1 b1 c1.
Definition set_ProcessName (val : list string) (rule : DefaultHeadlessRule) : DefaultHeadlessRule :=
  let '(mkHeadless a b c d e f g h i j k l _ n o p q r s t u v w x y z a1 b1 c1) := rule in
  mkHeadless a b c d e f g h i j k l val n o p q r s t u v w x y z a1 b1 c1.
Definition set_ProcessPath (val : list string) (rule : DefaultHeadlessRule) : DefaultHeadlessRule :=
  let '(mkHeadless a b c d e f g h i j k l m _ o p q r s t u v w x y z a1 b1 c1) := rule in
  mkHeadless a b c d e f g h i j k l m val o p q r s t u v w x y z a1 b1 c1.
Definition set_ProcessPathRegex (val : list string) (rule : DefaultHeadlessRule) : DefaultHeadlessRule :=
  let '(mkHeadless a b c d e f g h i j k l m n _ p q r s t u v w x y z a1 b1 c1) := rule in
  mkHeadless a b c d e f g h i j k l m n val p q r s t u v w x y z a1 b1 c1.
Definition set_PackageName (val : list string) (rule : DefaultHeadlessRule) : DefaultHeadlessRule :=
  let '(mkHeadless a b c d e f g h i j k l m n o _ q r s t u v w x y z a1 b1 c1) := rule in
  mkHeadless a b c d e f g h i j k l m n o val q r s t u v w x y z a1 b1 c1.
Definition set_NetworkType (val : list Z) (rule : DefaultHeadlessRule) : DefaultHeadlessRule :=
  let '(mkHeadless a b c d e f g h i j k l m n o p _ r s t u v w x y z a1 b1 c1) := rule in
  mkHeadless a b c d e f g h i j k l m n o p val r s t u v w x y z a1 b1 c1.
Definition set_NetworkIsExpensive (val : bool) (rule : DefaultHeadlessRule) : DefaultHeadlessRule :=
  let '(mkHeadless a b c d e f g h i j k l m n o p q _ s t u v w x y z a1 b1 c1) := rule in
  mkHeadless a b c d e f g h i j k l m n o p q val s t u v w x y z a1 b1 c1.
Definition set_NetworkIsConstrained (val : bool) (rule : DefaultHeadlessRule) : DefaultHeadlessRule :=
  let '(mkHeadless a b c d e f g h i j k l m n o p q r _ t u v w x y z a1 b1 c1) := rule in
  mkHeadless a b c d e f g h i j k l m n o p q r val t u v w x y z a1 b1 c1.
Definition set_WIFISSID (val : list string) (rule : DefaultHeadlessRule) : DefaultHeadlessRule :=
  let '(mkHeadless a b c d e f g h i j k l m n o p q r s _ u v w x y z a1 b1 c1) := rule in
  mkHeadless a b c d e f g h i j k l m n o p q r s val u v w x y z a1 b1 c1.
Definition set_WIFIBSSID (val : list string) (rule : DefaultHeadlessRule) : DefaultHeadlessRule :=
  let '(mkHeadless a b c d e f g h i j k l m n o p q r s t _ v w x y z a1 b1 c1) := rule in
  mkHeadless a b c d e f g h i j k l m n o p q r s t val v w x y z a1 b1 c1.
Definition set_NetworkInterfaceAddress (val : option (list (Z * list Prefix))) (rule : DefaultHeadlessRule) : DefaultHeadlessRule :=
  let '(mkHeadless a b c d e f g h i j k l m n o p q r s t u _ w x y z a1 b1 c1) := rule in
  mkHeadless a b c d e f g h i j k l m n o p q r s t u val w x y z a1 b1 c1.
Definition set_DefaultInterfaceAddress (val : list Prefix) (rule : DefaultHeadlessRule) : DefaultHeadlessRule :=
  let '(mkHeadless a b c d e f g h i j k l m n o p q r s t u v _ x y z a1 b1 c1) := rule in
  mkHeadless a b c d e f g h i j k l m n o p q r s t u v val x y z a1 b1 c1.
Definition set_Invert (val : bool) (rule : DefaultHeadlessRule) : DefaultHeadlessRule :=
  let '(mkHeadless a b c d e f g h i j k l m n o p q r s t u v w _ y z a1 b1 c1) := rule in
  mkHeadless a b c d e f g h i j k l m n o p q r s t u v w val y z a1 b1 c1.
Definition set_DomainMatcher (val : option Matcher) (rule : DefaultHeadlessRule) : DefaultHeadlessRule :=
  let '(mkHeadless a b c d e f g h i j k l m n o p q r s t u v w x _ z a1 b1 c1) := rule in
  mkHeadless a b c d e f g h i j k l m n o p q r s t u v w x val z a1 b1 c1.
Definition set_SourceIPSet (val : option IPSet) (rule : DefaultHeadlessRule) : DefaultHeadlessRule :=
  let '(mkHeadless a b c d e f g h i j k l m n o p q r s t u v w x y _ a1 b1 c1) := rule in
  mkHeadless a b c d e f g h i j k l m n o p q r s t u v w x y val a1 b1 c1.
Definition set_IPSet (val : option IPSet) (rule : DefaultHeadlessRule) : DefaultHeadlessRule :=
  let '(mkHeadless a b c d e f g h i j k l m n o p q r s t u v w x y z _ b1 c1) := rule in
  mkHeadless a b c d e f g h i j k l m n o p q r s t u v w x y z val b1 c1.
Definition set_AdGuardDomain (val : list string) (rule : DefaultHeadlessRule) : DefaultHeadlessRule :=
  let '(mkHeadless a b c d e f g h i j k l m n o p q r s t u v w x y z a1 _ c1) := rule in
  mkHeadless a b c d e f g h i j k l m n o p q r s t u v w x y z a1 val c1.
Definition set_AdGuardDomainMatcher (val : option AdGuardMatcher) (rule : DefaultHeadlessRule) : DefaultHeadlessRule :=
  let '(mkHeadless a b c d e f g h i j k l m n o p q r s t u v w x y z a1 b1 _) := rule in
  mkHeadless a b c d e f g h i j k l m n o p q r s t u v w x y z a1 b1 val.

(** [make] of a slice whose length was read. *)
Definition makeSlice (n : Z) : Parser unit := if makeLimit <? n then fail (New "panic: makeslice: len out of range") else mret tt.

(** ** Reading *)

Definition readPrefix : Parser Prefix :=
  addrSlice ← lift readBytes; bits ← lift readUint8; mret (PrefixFrom (AddrFromIP addrSlice) bits).

Definition readIPSet : Parser IPSet :=
  version ← readByte;
  if negb (version =? 1) then fail (New "invalid argument") else
  n ← readUint 8;
  _ ← makeSlice n;
  ranges ← lift (readRanges n);
  mret ((fun d => mkRange (AddrFromIP d.1) (AddrFromIP d.2)) <$> ranges).

(** A count and as many prefixes. *)
Definition readPrefixes (fuel : nat) : Parser (list Prefix) :=
  n ← ReadUvarint; readN fuel (fun _ => readPrefix) 0 n.

Definition readInterfaceEntry (fuel : nat) : Parser (Z * list Prefix) :=
  key ← readUint 1; value ← readPrefixes fuel; mret (key, value).

(** One item of a default rule other than the final one, by its type. *)
Definition readItem (fuel : nat) (recover : bool) (itemType lastItemType : Z) (rule : DefaultHeadlessRule) : Parser DefaultHeadlessRule :=
  let isItem t := itemType =? t in
  let strings (set : list string -> DefaultHeadlessRule -> DefaultHeadlessRule) := l ← lift readStrings; mret (set l rule) in
  if isItem ruleItemQueryType then l ← lift readUint16s; mret (set_QueryType l rule)
  else if isItem ruleItemNetwork then strings set_Network
  else if isItem ruleItemDomain then
    matcher ← lift readMatcher;
    let rule := set_DomainMatcher (Some matcher) rule in
    mret (if recover then set_Domain (dumpMatcher matcher).1 (set_DomainSuffix (dumpMatcher matcher).2 rule) else rule)
  else if isItem ruleItemDomainKeyword then strings set_DomainKeyword
  else if isItem ruleItemDomainRegex then strings set_DomainRegex
  else if isItem ruleItemSourceIPCIDR then
    set ← readIPSet;
    let rule := set_SourceIPSet (Some set) rule in
    mret (if recover then set_SourceIPCIDR (prefixesOf set) rule else rule)
  else if isItem ruleItemIPCIDR then
    set ← readIPSet;
    let rule := set_IPSet (Some set) rule in
    mret (if recover then set_IPCIDR (prefixesOf set) rule else rule)
  else if isItem ruleItemSourcePort then l ← lift readUint16s; mret (set_SourcePort l rule)
  else if isItem ruleItemSourcePortRange then strings set_SourcePortRange
  else if isItem ruleItemPort then l ← lift readUint16s; mret (set_Port l rule)
  else if isItem ruleItemPortRange then strings set_PortRange
  else if isItem ruleItemProcessName then strings set_ProcessName
  else if isItem ruleItemProcessPath then strings set_ProcessPath
  else if isItem ruleItemProcessPathRegex then strings set_ProcessPathRegex
  else if isItem ruleItemPackageName then strings set_PackageName
  else if isItem ruleItemWIFISSID then strings set_WIFISSID
  else if isItem ruleItemWIFIBSSID then strings set_WIFIBSSID
  else if isItem ruleItemAdGuardDomain then
    matcher ← lift readAdGuard;
    let rule := set_AdGuardDomainMatcher (Some matcher) rule in
    mret (if recover then set_AdGuardDomain (dumpAdGuard matcher) rule else rule)
  else if isItem ruleItemNetworkType then l ← lift readUint8s; mret (set_NetworkType l rule)
  else if isItem ruleItemNetworkIsExpensive then mret (set_NetworkIsExpensive true rule)
  else if isItem ruleItemNetworkIsConstrained then mret (set_NetworkIsConstrained true rule)
  else if isItem ruleItemNetworkInterfaceAddress then
    size ← ReadUvarint;
    entries ← readN fuel (fun _ => readInterfaceEntry fuel) 0 size;
    mret (set_NetworkInterfaceAddress (Some (foldl (fun m e => typedPut m e.1 e.2) [] entries)) rule)
  else if isItem ruleItemDefaultInterfaceAddress then
    value ← readPrefixes fuel; mret (set_DefaultInterfaceAddress value rule)
  else fail (New ("unknown rule item type: " +:+ Itoa itemType +:+ ", last type: " +:+ Itoa lastItemType)).

(** The loop of [readDefaultRule]. *)
Fixpoint readItems (fuel : nat) (recover : bool) (lastItemType : Z) (rule : DefaultHeadlessRule) : Parser DefaultHeadlessRule := fun s =>
  match fuel with
  | O => None
  | S fuel =>
      (itemType ← readUint 1;
       if itemType =? ruleItemFinal then invert ← readBool; mret (set_Invert invert rule)
       else rule ← readItem fuel recover itemType lastItemType rule; readItems fuel recover itemType rule) s
  end.

Definition readDefaultRule (fuel : nat) (recover : bool) : Parser DefaultHeadlessRule := readItems fuel recover 0 (zeroHeadless false).

(** [readLogicalRule], given how sub-rules are read. *)
Definition readLogicalRule (fuel : nat) (sub : Parser HeadlessRule) : Parser HeadlessRule :=
  m ← readByte;
  mode ← (if m =? 0 then mret "and" else if m =? 1 then mret "or" else fail (New ("unknown logical mode: " +:+ Itoa m)));
  n ← ReadUvarint;
  _ ← makeSlice n;
  rules ← readN fuel (fun i => cause ("read logical rule [" +:+ Itoa i +:+ "]") sub) 0 n;
  invert ← readBool;
  mret (HeadlessLogical mode rules invert).

Fixpoint readRule (fuel : nat) (recover : bool) : Parser HeadlessRule := fun s =>
  match fuel with
  | O => None
  | S fuel =>
      (ruleType ← readUint 1;
       if ruleType =? 0 then o ← readDefaultRule fuel recover; mret (HeadlessDefault o)
       else if ruleType =? 1 then readLogicalRule fuel (readRule fuel recover)
       else fail (New ("unknown rule type: " +:+ Itoa ruleType))) s
  end.

(** The rules of a file after decompression. *)
Definition readRules (fuel : nat) (recover : bool) : Parser (list HeadlessRule) :=
  n ← ReadUvarint;
  _ ← makeSlice n;
  readN fuel (fun i => cause ("read rule[" +:+ Itoa i +:+ "]") (readRule fuel recover)) 0 n.

(** The magic number and the version. *)
Definition readHeader : Parser Z :=
  magic ← readFull 3;
  if negb (bool_decide (magic = MagicBytes)) then fail (New "invalid sing-box rule-set file") else
  version ← readUint 1;
  if RuleSetVersionCurrent <? version then fail (New ("unsupported version: " +:+ Itoa version)) else
  mret version.

(** [Read]: the version and the rules. *)
Definition Read (recover : bool) (file : Source) : option (res error (Z * list HeadlessRule)) :=
  match readHeader file with
  | None => None
  | Some (Err e) => Some (Err e)
  | Some (Ok (version, file)) =>
      match zlibRead file with
      | Err e => Some (Err e)
      | Ok s =>
          match readRules (S (length (rest s))) recover s with
          | None => None
          | Some (Err e) => Some (Err e)
          | Some (Ok (rules, _)) => Some (Ok (version, rules))
          end
      end
  end.

(** ** Writing *)

Definition writePrefix (p : Prefix) : list Z := writeBytes (AsSlice (Prefix_Addr p)) ++ [prefix_len p mod 256].
Definition writePrefixes (l : list Prefix) : list Z := writeUvarint (Z.of_nat (length l)) ++ concat (map writePrefix l).

Definition writeInterfaceEntry (e : Z * list Prefix) : list Z := [e.1 mod 256] ++ writePrefixes e.2.

Definition writeIPSet (set : IPSet) : list Z :=
  1 :: bePut 8 (Z.of_nat (length set)) ++ concat (map (fun r => writeRange (AsSlice (range_from r), AsSlice (range_to r))) set).

Definition writeRuleItemCIDR (itemType : Z) (value : list string) : res error (list Z) :=
  _ ← checkEach (fun i => "parse [" +:+ Itoa i +:+ "]") parsePrefixOrAddr 0 value;
  set ← builderIPSet value;
  Ok (itemType :: writeIPSet set).

Definition writeRuleItemString (itemType : Z) (value : list string) : res error (list Z) := Ok (itemType :: writeStrings value).
Definition writeRuleItemUint8 (itemType : Z) (value : list Z) : res error (list Z) := Ok (itemType :: writeUint8s value).
Definition writeRuleItemUint16 (itemType : Z) (value : list Z) : res error (list Z) := Ok (itemType :: writeUint16s value).

(** An item some versions do not have. *)
Definition since (generateVersion version : Z) (what : string) (bytes : list Z) : res error (list Z) :=
  if generateVersion <? version
  then Err (New (what +:+ " only supported in version " +:+ Itoa version +:+ " or later")) else Ok bytes.

(** The conditional parts of [writeDefaultRule], in order. *)
Definition writeParts (v : Z) (o : DefaultHeadlessRule) : list (bool * res error (list Z)) :=
  [ (nonempty (h_QueryType o), writeRuleItemUint16 ruleItemQueryType (h_QueryType o));
    (nonempty (h_Network o), writeRuleItemString ruleItemNetwork (h_Network o));
    (nonempty (h_Domain o) || nonempty (h_DomainSuffix o),
     Ok (ruleItemDomain :: writeMatcher (newMatcher (h_Domain o) (h_DomainSuffix o) (v =? 1))));
    (nonempty (h_DomainKeyword o), writeRuleItemString ruleItemDomainKeyword (h_DomainKeyword o));
    (nonempty (h_DomainRegex o), writeRuleItemString ruleItemDomainRegex (h_DomainRegex o));
    (nonempty (h_SourceIPCIDR o), Cause "source_ip_cidr" (writeRuleItemCIDR ruleItemSourceIPCIDR (h_SourceIPCIDR o)));
    (nonempty (h_IPCIDR o), Cause "ipcidr" (writeRuleItemCIDR ruleItemIPCIDR (h_IPCIDR o)));
    (nonempty (h_SourcePort o), writeRuleItemUint16 ruleItemSourcePort (h_SourcePort o));
    (nonempty (h_SourcePortRange o), writeRuleItemString ruleItemSourcePortRange (h_SourcePortRange o));
    (nonempty (h_Port o), writeRuleItemUint16 ruleItemPort (h_Port o));
    (nonempty (h_PortRange o), writeRuleItemString ruleItemPortRange (h_PortRange o));
    (nonempty (h_ProcessName o), writeRuleItemString ruleItemProcessName (h_ProcessName o));
    (nonempty (h_ProcessPath o), writeRuleItemString ruleItemProcessPath (h_ProcessPath o));
    (nonempty (h_ProcessPathRegex o), writeRuleItemString ruleItemProcessPathRegex (h_ProcessPathRegex o));
    (nonempty (h_PackageName o), writeRuleItemString ruleItemPackageName (h_PackageName o));
    (nonempty (h_NetworkType o),
     if v <? 3 then Err (New "`network_type` rule item is only supported in version 3 or later")
     else writeRuleItemUint8 ruleItemNetworkType (h_NetworkType o));
    (h_NetworkIsExpensive o, since v 3 "`network_is_expensive` rule item is" [ruleItemNetworkIsExpensive]);
    (h_NetworkIsConstrained o, since v 3 "`network_is_constrained` rule item is" [ruleItemNetworkIsConstrained]);
    (has (h_NetworkInterfaceAddress o),
     since v 4 "`network_interface_address` rule item is"
       (ruleItemNetworkInterfaceAddress :: writeUvarint (Z.of_nat (length (default [] (h_NetworkInterfaceAddress o)))) ++
        concat (map writeInterfaceEntry (default [] (h_NetworkInterfaceAddress o)))));
    (nonempty (h_DefaultInterfaceAddress o),
     since v 4 "`default_interface_address` rule item is"
       (ruleItemDefaultInterfaceAddress :: writePrefixes (h_DefaultInterfaceAddress o)));
    (nonempty (h_WIFISSID o), writeRuleItemString ruleItemWIFISSID (h_WIFISSID o));
    (nonempty (h_WIFIBSSID o), writeRuleItemString ruleItemWIFIBSSID (h_WIFIBSSID o));
    (nonempty (h_AdGuardDomain o),
     since v 2 "AdGuard rule items is" (ruleItemAdGuardDomain :: writeAdGuard (newAdGuard (h_AdGuardDomain o)))) ].

Fixpoint writeAll (parts : list (bool * res error (list Z))) : res error (list Z) :=
  match parts with
  | [] => Ok []
  | (present, part) :: parts =>
      bs ← (if present then part else Ok []); bs' ← writeAll parts; Ok (bs ++ bs')
  end.

Definition writeDefaultRule (o : DefaultHeadlessRule) (v : Z) : res error (list Z) :=
  parts ← writeAll (writeParts v o); Ok (0 :: parts ++ ruleItemFinal :: putBool (h_Invert o)).

Definition eachBytes {A} (f : A -> res error (list Z)) : list A -> res error (list Z) :=
  fix go l := match l with [] => Ok [] | x :: l => b ← f x; bs ← go l; Ok (b ++ bs) end.

Fixpoint writeRule (h : HeadlessRule) (v : Z) : res error (list Z) :=
  match h with
  | HeadlessDefault o => writeDefaultRule o v
  | HeadlessLogical mode rules invert =>
      m ← (if bool_decide (mode = "and") then Ok 0 else if bool_decide (mode = "or") then Ok 1
           else Err (New ("panic: unknown logical mode: " +:+ mode)));
      subs ← eachBytes (fun h => writeRule h v) rules;
      Ok (1 :: m :: writeUvarint (Z.of_nat (length rules)) ++ subs ++ putBool invert)
  end.

Definition writeRules (rules : list HeadlessRule) (v : Z) : res error (list Z) :=
  body ← eachBytes (fun h => writeRule h v) rules; Ok (writeUvarint (Z.of_nat (length rules)) ++ body).

(** [Write]: the file. *)
Definition Write (rules : list HeadlessRule) (generateVersion : Z) : res error (list Z) :=
  body ← writeRules rules generateVersion; Ok (MagicBytes ++ [generateVersion mod 256] ++ zlibWrite body).
End Srs.

(** ** What the code relies on *)

(** A reader gives back no more than it was given. *)
Definition shrinks {A} (f : Source -> res error (A * Source)) : Prop :=
  forall s a s', f s = Ok (a, s') -> (length (rest s') <= length (rest s))%nat.

(** A reader takes off the bytes the writer of a value put there. *)
Definition decodes {A} (f : Source -> res error (A * Source)) (l : list Z) (a : A) : Prop :=
  forall tl en, f (mkSource (l ++ tl) en) = Ok (a, mkSource tl en).

Definition uint8 (b : Z) : Prop := 0 <= b < 2 ^ 8.
Definition uint16 (b : Z) : Prop := 0 <= b < 2 ^ 16.

Definition addr_ok (a : Addr) : Prop :=
  (addr_width a = 32 \/ addr_width a = 128) /\ 0 <= addr_bits a < 2 ^ addr_width a.
Definition prefix_ok (p : Prefix) : Prop := addr_ok (prefix_addr p) /\ 0 <= prefix_len p <= addr_width (prefix_addr p).
Definition range_ok (r : IPRange) : Prop :=
  exists a b, range_from r = Some a /\ range_to r = Some b /\ addr_ok a /\ addr_ok b.

#[export] Instance addr_ok_dec a : Decision (addr_ok a).
Proof. unfold addr_ok. apply _. Defined.
#[export] Instance prefix_ok_dec p : Decision (prefix_ok p).
Proof. unfold prefix_ok. apply _. Defined.

(** Every reader of the other packages gives back a part of its input. *)
Class SrsReaders `{SrsLibs} := {
  shrinks_readMatcher : shrinks readMatcher;
  shrinks_readAdGuard : shrinks readAdGuard;
  shrinks_readStrings : shrinks readStrings;
  shrinks_readUint8s : shrinks readUint8s;
  shrinks_readUint16s : shrinks readUint16s;
  shrinks_readBytes : shrinks readBytes;
  shrinks_readUint8 : forall s b s', readUint8 s = Ok (b, s') -> (length (rest s') < length (rest s))%nat;
  shrinks_readRanges : forall n, shrinks (readRanges n)
}.

(** The encodings of the other packages are read back. *)
Class SrsCodecs `{SrsLibs} := {
  decodes_matcher : forall ds ss legacy, decodes readMatcher (writeMatcher (newMatcher ds ss legacy)) (newMatcher ds ss legacy);
  decodes_adGuard : forall l, decodes readAdGuard (writeAdGuard (newAdGuard l)) (newAdGuard l);
  decodes_strings : forall l, decodes readStrings (writeStrings l) l;
  decodes_uint8s : forall l, Forall uint8 l -> decodes readUint8s (writeUint8s l) l;
  decodes_uint16s : forall l, Forall uint16 l -> decodes readUint16s (writeUint16s l) l;
  decodes_bytes : forall l, is_bytes l -> decodes readBytes (writeBytes l) l;
  decodes_uint8 : forall b, uint8 b -> decodes readUint8 [b] b;
  decodes_ranges : forall l, l <> [] -> Forall (fun d => is_bytes d.1 /\ is_bytes d.2) l ->
    decodes (readRanges (Z.of_nat (length l))) (concat (map writeRange l)) l;
  decodes_uvarint : forall n, 0 <= n < 2 ^ 64 -> reads ReadUvarint (writeUvarint n) n;
  AddrFromIP_AsSlice : forall a, addr_ok a -> AddrFromIP (AsSlice (Some a)) = Some a;
  typedPut_fresh : forall m k v, k ∉ m.*1 -> typedPut m k v = m ++ [(k, v)];
  zlibRead_Write : forall l en, zlibRead (mkSource (zlibWrite l) en) = Ok (mkSource l None);
  makeLimit_int : makeLimit < 2 ^ 63
}.

(** A built matcher decides as its texts say, in the legacy form too, and a built set is a list of
    ranges that has the addresses of its prefixes, no longer than a slice can be. *)
Class SrsMatchers `{RuleLibs} `{SrsLibs} := {
  newMatcher_Match : forall ds ss legacy host, Matcher_Match (newMatcher ds ss legacy) host = domainMatch ds ss host;
  newAdGuard_Match : forall l host, AdGuardMatcher_Match (newAdGuard l) host = adGuardMatch l host;
  builderIPSet_ok : forall l set, builderIPSet l = Ok set -> l <> [] ->
    set <> [] /\ Forall range_ok set /\ Z.of_nat (length set) <= makeLimit;
  builderIPSet_Contains : forall l set a, builderIPSet l = Ok set -> IPSet_Contains set a = ipSetContains l a
}.

(** ** Reading ends *)

Section Ends.
Context `{RuleLibs} `{SrsReaders}.

Lemma yields_lift {A} (f : Source -> res error (A * Source)) s : shrinks f -> yields 0 (lift f) s.
Proof using Type. intros Hf. unfold yields, lift. destruct (f s) as [[a s']|] eqn:E; [|done]. apply Hf in E. lia. Qed.

Lemma yields_makeSlice n s : yields 0 (makeSlice n) s.
Proof using Type. unfold makeSlice. case_match; [done | apply yields_ret]. Qed.

Lemma yields_readPrefix s : yields 1 readPrefix s.
Proof using All.
  apply (yields_bind 0 1); [apply yields_lift, shrinks_readBytes|]. intros l s1 _. apply (yields_bind 1 0).
  - unfold yields, lift. destruct (readUint8 s1) as [[b s2]|] eqn:E; [|done]. apply shrinks_readUint8 in E. lia.
  - intros. apply yields_ret.
Qed.

Lemma yields_readPrefixes fuel s : (length (rest s) <= fuel)%nat -> yields 1 (readPrefixes fuel) s.
Proof using All.
  intros Hf. apply (yields_bind 1 0); [apply yields_ReadUvarint|]. intros n s' Hs'. apply yields_readN; [|lia].
  intros. apply yields_readPrefix.
Qed.

Lemma yields_readInterfaceEntry fuel s : (length (rest s) <= fuel)%nat -> yields 1 (readInterfaceEntry fuel) s.
Proof using All.
  intros Hf. apply (yields_le (1 + 1)); [lia|]. apply yields_bind; [apply yields_readUint|]. intros k s' Hs'.
  apply (yields_bind 1 0); [apply yields_readPrefixes; lia|]. intros. apply yields_ret.
Qed.

Lemma yields_readIPSet s : yields 0 readIPSet s.
Proof using All.
  apply (yields_le (1 + 0)); [lia|]. apply yields_bind; [apply yields_readByte|]. intros b s1 _. case_match; [done|].
  apply (yields_le (8 + 0)); [lia|]. apply yields_bind; [apply yields_readUint|]. intros n s2 _.
  apply (yields_bind 0 0); [apply yields_makeSlice|]. intros _ s3 _.
  apply (yields_bind 0 0); [apply yields_lift, shrinks_readRanges|]. intros. apply yields_ret.
Qed.

Lemma yields_lift_ret {A B} (f : Source -> res error (A * Source)) (g : A -> B) s :
  shrinks f -> yields 0 (x ← lift f; mret (g x)) s.
Proof using Type. intros Hf. apply (yields_bind 0 0); [by apply yields_lift|]. intros. apply yields_ret. Qed.

Lemma yields_readItem fuel recover t last r s : (length (rest s) < fuel)%nat -> yields 0 (readItem fuel recover t last r) s.
Proof using All.
  intros Hf. unfold readItem. cbv zeta.
  repeat match goal with
  | |- yields _ (if ?b then _ else _) _ => destruct b
  | |- yields _ (x ← lift _; mret _) _ => apply yields_lift_ret
  | |- yields _ (mret _) _ => apply yields_ret
  | |- yields _ (fail _) _ => apply yields_fail
  | |- shrinks readUint16s => apply shrinks_readUint16s
  | |- shrinks readUint8s => apply shrinks_readUint8s
  | |- shrinks readStrings => apply shrinks_readStrings
  | |- shrinks readMatcher => apply shrinks_readMatcher
  | |- shrinks readAdGuard => apply shrinks_readAdGuard
  | |- yields _ (readIPSet ≫= _) _ => apply (yields_bind 0 0); [apply yields_readIPSet|]; intros ? ? _
  end.
  - apply (yields_le (1 + 0)); [lia|]. apply yields_bind; [apply yields_ReadUvarint|]. intros n s1 Hs1.
    apply (yields_bind 0 0).
    + apply yields_readN; [|lia]. intros j s2 Hs2. apply yields_readInterfaceEntry. lia.
    + intros es s2 _. exact (yields_ret _ s2).
  - apply (yields_le (1 + 0)); [lia|]. apply yields_bind; [apply yields_readPrefixes; lia|]. intros. apply yields_ret.
Qed.

Lemma yields_readItems fuel recover last r s : (length (rest s) < fuel)%nat -> yields 1 (readItems fuel recover last r) s.
Proof using All.
  revert last r s. induction fuel as [|fuel IH]; intros last r s Hf; [lia|].
  match goal with |- yields _ ?p _ => change (yields 1 (itemType ← readUint 1;
    if itemType =? ruleItemFinal then invert ← readBool; mret (set_Invert invert r)
    else rule ← readItem fuel recover itemType last r; readItems fuel recover itemType rule) s) end.
  apply (yields_bind 1 0); [apply yields_readUint|]. intros t s1 Hs1. case_match.
  - apply (yields_le (1 + 0)); [lia|]. apply yields_bind; [apply yields_readBool|]. intros. apply yields_ret.
  - apply (yields_bind 0 0); [apply yields_readItem; lia|]. intros r' s2 Hs2. apply (yields_le 1); [lia|]. apply IH. lia.
Qed.

Lemma yields_readLogicalRule fuel p s :
  (length (rest s) < fuel)%nat -> (forall s', (length (rest s') < length (rest s))%nat -> yields 1 p s') ->
  yields 0 (readLogicalRule fuel p) s.
Proof using All.
  intros Hf Hp. apply (yields_le (1 + 0)); [lia|]. apply yields_bind; [apply yields_readByte|]. intros m s1 Hs1.
  apply (yields_bind 0 0); [repeat case_match; [apply yields_ret..|done]|]. intros mode s2 Hs2.
  apply (yields_le (1 + 0)); [lia|]. apply yields_bind; [apply yields_ReadUvarint|]. intros n s3 Hs3.
  apply (yields_bind 0 0); [apply yields_makeSlice|]. intros _ s4 Hs4.
  apply (yields_bind 0 0).
  - apply yields_readN; [|lia]. intros j s5 Hs5. apply yields_cause, Hp. lia.
  - intros rules s5 _. apply (yields_le (1 + 0)); [lia|]. apply yields_bind; [apply yields_readBool|]. intros. apply yields_ret.
Qed.

Lemma yields_readRule fuel recover s : (length (rest s) < fuel)%nat -> yields 1 (readRule fuel recover) s.
Proof using All.
  revert s. induction fuel as [|fuel IH]; intros s Hf; [lia|].
  change (yields 1 (ruleType ← readUint 1;
       if ruleType =? 0 then o ← readDefaultRule fuel recover; mret (HeadlessDefault o)
       else if ruleType =? 1 then readLogicalRule fuel (readRule fuel recover)
       else fail (New ("unknown rule type: " +:+ Itoa ruleType))) s).
  apply (yields_bind 1 0); [apply yields_readUint|]. intros t s1 Hs1. repeat case_match; [| |done].
  - apply (yields_le (1 + 0)); [lia|]. apply yields_bind; [apply yields_readItems; lia|]. intros. apply yields_ret.
  - apply yields_readLogicalRule; [lia|]. intros s2 Hs2. apply IH. lia.
Qed.

Lemma yields_readRules fuel recover s : (length (rest s) < fuel)%nat -> yields 0 (readRules fuel recover) s.
Proof using All.
  intros Hf. apply (yields_le (1 + 0)); [lia|]. apply yields_bind; [apply yields_ReadUvarint|]. intros n s1 Hs1.
  apply (yields_bind 0 0); [apply yields_makeSlice|]. intros _ s2 Hs2. apply yields_readN; [|lia].
  intros j s3 Hs3. apply yields_cause, yields_readRule. lia.
Qed.

Lemma yields_readHeader s : yields 0 readHeader s.
Proof using Type.
  apply (yields_le (3 + 0)); [lia|]. apply yields_bind; [apply yields_readFull|]. intros magic s1 _. case_match; [done|].
  apply (yields_le (1 + 0)); [lia|]. apply yields_bind; [apply yields_readUint|]. intros v s2 _. case_match; [done | apply yields_ret].
Qed.

(** Loading a rule-set file returns, with the rules or an error, whatever the file holds and
    whatever counts it claims. *)
Theorem Read_ends (recover : bool) (file : Source) : is_Some (Read recover file).
Proof using All.
  unfold Read. pose proof (yields_readHeader file) as Hh. unfold yields in Hh.
  destruct (readHeader file) as [[[version file']|]|]; [|done|done]. destruct (zlibRead file') as [s|]; [|done].
  pose proof (yields_readRules (S (length (rest s))) recover s ltac:(lia)) as Hy. unfold yields in Hy. by repeat case_match.
Qed.
End Ends.

(** ** Round trip *)

Section RoundTrip.
Context `{RuleLibs} `{SrsLibs} `{!SrsCodecs} `{!SrsMatchers}.
Implicit Types (o : DefaultHeadlessRule) (h : HeadlessRule).

(** The options of a rule in source form: numbers fit their types, the matchers are not there. *)
Record source_ok o : Prop := mkSourceOk {
  ok_QueryType : Forall uint16 (h_QueryType o);
  ok_SourcePort : Forall uint16 (h_SourcePort o);
  ok_Port : Forall uint16 (h_Port o);
  ok_NetworkType : Forall uint8 (h_NetworkType o);
  ok_Interfaces : forall l, h_NetworkInterfaceAddress o = Some l ->
    l <> [] /\ NoDup l.*1 /\ Z.of_nat (length l) < 2 ^ 63 /\
    Forall (fun e => uint8 e.1 /\ Forall prefix_ok e.2 /\ Z.of_nat (length e.2) < 2 ^ 63) l;
  ok_DefaultInterface : Forall prefix_ok (h_DefaultInterfaceAddress o) /\ Z.of_nat (length (h_DefaultInterfaceAddress o)) < 2 ^ 63;
  ok_raw : h_DomainMatcher o = None /\ h_SourceIPSet o = None /\ h_IPSet o = None /\ h_AdGuardDomainMatcher o = None
}.

Inductive source_rule : HeadlessRule -> Prop :=
| source_default o : source_ok o -> source_rule (HeadlessDefault o)
| source_logical mode rules invert :
    Z.of_nat (length rules) <= makeLimit -> Forall source_rule rules -> source_rule (HeadlessLogical mode rules invert).

Definition builtSet (l : list string) : option IPSet :=
  if nonempty l then match builderIPSet l with Ok s => Some s | Err _ => None end else None.

(** What [Read] makes of a rule [Write] wrote. *)
Definition loaded (v : Z) (recover : bool) o : DefaultHeadlessRule :=
  let dom := nonempty (h_Domain o) || nonempty (h_DomainSuffix o) in
  let matcher := newMatcher (h_Domain o) (h_DomainSuffix o) (v =? 1) in
  let adGuard := newAdGuard (h_AdGuardDomain o) in
  let texts (s : option IPSet) := match s with Some s => if recover then prefixesOf s else [] | None => [] end in
  mkHeadless (h_QueryType o) (h_Network o)
    (if dom && recover then (dumpMatcher matcher).1 else []) (if dom && recover then (dumpMatcher matcher).2 else [])
    (h_DomainKeyword o) (h_DomainRegex o) (texts (builtSet (h_SourceIPCIDR o))) (texts (builtSet (h_IPCIDR o)))
    (h_SourcePort o) (h_SourcePortRange o) (h_Port o) (h_PortRange o) (h_ProcessName o) (h_ProcessPath o)
    (h_ProcessPathRegex o) (h_PackageName o) (h_NetworkType o) (h_NetworkIsExpensive o) (h_NetworkIsConstrained o)
    (h_WIFISSID o) (h_WIFIBSSID o) (h_NetworkInterfaceAddress o) (h_DefaultInterfaceAddress o) (h_Invert o)
    (if dom then Some matcher else None) (builtSet (h_SourceIPCIDR o)) (builtSet (h_IPCIDR o))
    (if nonempty (h_AdGuardDomain o) && recover then dumpAdGuard adGuard else [])
    (if nonempty (h_AdGuardDomain o) then Some adGuard else None).

Fixpoint loadedRule (v : Z) (recover : bool) h : HeadlessRule :=
  match h with
  | HeadlessDefault o => HeadlessDefault (loaded v recover o)
  | HeadlessLogical mode rules invert => HeadlessLogical mode (map (loadedRule v recover) rules) invert
  end.

Lemma reads_decodes {A} (f : Source -> res error (A * Source)) l a : decodes f l a -> reads (lift f) l a.
Proof using Type. apply reads_lift. Qed.

Lemma reads_then_ret {A B} (p : Parser A) (g : A -> B) l a : reads p l a -> reads (x ← p; mret (g x)) l (g a).
Proof using Type. intros Hp. rewrite <- (app_nil_r l). eapply reads_bind; [exact Hp | apply reads_ret]. Qed.

Lemma reads_uint8 b : 0 <= b < 256 -> reads (readUint 1) [b] b.
Proof using Type.
  intros Hb. pose proof (reads_readUint 1 b Hb) as Hr. change (bePut 1 b) with [b mod 256] in Hr. by rewrite Z.mod_small in Hr by done.
Qed.

Lemma AsSlice_bytes a : is_bytes (AsSlice a).
Proof using Type. destruct a; [apply bePut_bytes | constructor]. Qed.

Lemma reads_prefix p : prefix_ok p -> reads readPrefix (writePrefix p) p.
Proof using All.
  intros [Ha Hl]. unfold writePrefix, readPrefix, Prefix_Addr.
  assert (addr_width (prefix_addr p) =? 0 = false) as -> by (destruct Ha as [[E|E] _]; rewrite E; done).
  assert (0 <= prefix_len p < 256) as Hb by (destruct Ha as [[E|E] _]; lia). rewrite Z.mod_small by done.
  eapply reads_bind; [apply reads_decodes, decodes_bytes, AsSlice_bytes|]. rewrite AddrFromIP_AsSlice by done.
  replace p with (PrefixFrom (Some (prefix_addr p)) (prefix_len p)) at 2.
  - apply (reads_then_ret (lift readUint8) (PrefixFrom (Some (prefix_addr p)))). apply reads_decodes, decodes_uint8. unfold uint8. lia.
  - destruct p as [a n]; simpl in *. by replace (n <=? addr_width a) with true by lia.
Qed.

Lemma reads_map {A} (p : Parser A) (w : A -> list Z) (P : A -> Prop) fuel l :
  (forall x, P x -> reads p (w x) x) -> Forall P l -> (length l <= fuel)%nat ->
  reads (readN fuel (fun _ => p) 0 (Z.of_nat (length l))) (concat (map w l)) l.
Proof using Type.
  intros Hp Hl Hf. apply reads_readN; [|lia|done]. induction Hl; simpl; constructor; eauto with lia. all: try (intros; by apply Hp).
  apply IHHl. simpl in Hf. lia.
Qed.

Lemma concat_length {A} (w : A -> list Z) l : (forall x, w x <> []) -> (length l <= length (concat (map w l)))%nat.
Proof using Type.
  intros Hw. induction l as [|x l IH]; simpl; [lia|]. rewrite length_app. specialize (Hw x). destruct (w x); simpl; [done | lia].
Qed.

Lemma reads_prefixes fuel l :
  Forall prefix_ok l -> Z.of_nat (length l) < 2 ^ 63 -> (length (writePrefixes l) <= fuel)%nat ->
  reads (readPrefixes fuel) (writePrefixes l) l.
Proof using All.
  intros Hl Hn Hf. unfold writePrefixes, readPrefixes in *. eapply reads_bind; [apply decodes_uvarint; lia|].
  eapply reads_map; [apply reads_prefix | done |]. rewrite length_app in Hf.
  assert (length l <= length (concat (map writePrefix l)))%nat; [|lia]. apply concat_length. intros x. unfold writePrefix. by destruct (writeBytes _).
Qed.

Lemma reads_ipSet l set : builderIPSet l = Ok set -> l <> [] -> reads readIPSet (writeIPSet set) set.
Proof using All.
  intros Hb Hl. destruct (builderIPSet_ok l set Hb Hl) as (Hne & Hok & Hlim). unfold readIPSet, writeIPSet.
  eapply (reads_bind _ _ [1]); [apply reads_readByte|]. cbn [Z.eqb Pos.eqb negb]. pose proof makeLimit_int as Hint.
  eapply reads_bind; [apply reads_readUint; change (256 ^ Z.of_nat 8) with (2 ^ 64); lia|].
  eapply (reads_bind _ _ []). { unfold makeSlice. replace (makeLimit <? _) with false by lia. apply reads_ret. }
  pose (data := (fun r => (AsSlice (range_from r), AsSlice (range_to r))) <$> set).
  cut ((fun d => mkRange (AddrFromIP d.1) (AddrFromIP d.2)) <$> data = set).
  - intros Hset. match goal with |- reads ?p ?l _ => set (p' := p); set (l' := l); rewrite <- Hset; subst p' l' end. apply (reads_then_ret (lift _) (fmap (M := list) (fun d => mkRange (AddrFromIP d.1) (AddrFromIP d.2)))). apply reads_decodes.
    replace (length set) with (length data) by apply length_fmap.
    replace (concat _) with (concat (map writeRange data)) by (f_equal; apply map_map).
    apply decodes_ranges; [by destruct set|]. unfold data. apply Forall_fmap, Forall_true. intros r. split; apply AsSlice_bytes.
  - unfold data. rewrite <- list_fmap_compose. rewrite <- (list_fmap_id set) at 2. apply Forall_fmap_ext_1.
    eapply Forall_impl; [exact Hok|]. intros r (a & b & Ea & Eb & Ha & Hbk). destruct r; simpl in *. subst. simpl.
    f_equal; by apply AddrFromIP_AsSlice.
Qed.

Lemma reads_interfaces fuel l :
  NoDup l.*1 -> Z.of_nat (length l) < 2 ^ 63 ->
  Forall (fun e => uint8 e.1 /\ Forall prefix_ok e.2 /\ Z.of_nat (length e.2) < 2 ^ 63) l ->
  (length (concat (map writeInterfaceEntry l)) <= fuel)%nat ->
  reads (readN fuel (fun _ => readInterfaceEntry fuel) 0 (Z.of_nat (length l)))
    (concat (map writeInterfaceEntry l)) l.
Proof using All.
  intros Hd Hn Hl Hf. apply reads_readN; [|lia|].
  - clear Hd Hn. induction Hl as [|[k ps] l (Hk & Hps & Hlen) Hl IH]; [constructor|]. unfold writeInterfaceEntry in *. cbn [map concat fst snd] in *.
    rewrite !length_app in Hf. cbn [length] in Hf. constructor; [|apply IH; lia]. intros _. unfold uint8 in Hk. rewrite Z.mod_small by done.
    unfold readInterfaceEntry. eapply (reads_bind _ _ [k]).
    + by apply reads_uint8.
    + apply (reads_then_ret (readPrefixes fuel) (pair k)). apply reads_prefixes; [done | done | lia].
  - etransitivity; [|exact Hf]. by apply concat_length.
Qed.

Lemma typedPut_all l : NoDup l.*1 -> foldl (fun m e => typedPut m e.1 e.2) [] l = l.
Proof using All.
  intros Hd. cut (forall acc, NoDup (acc ++ l).*1 -> foldl (fun m e => typedPut m e.1 e.2) acc l = acc ++ l); [intros Hc; by apply Hc|].
  clear Hd. induction l as [|[k v] l IH]; intros acc Hd; simpl; [by rewrite app_nil_r|].
  rewrite typedPut_fresh.
  - rewrite IH; by rewrite <- app_assoc.
  - rewrite fmap_app in Hd. simpl in Hd. apply NoDup_app in Hd as (_ & Hd & _). intros Hin. apply (Hd k Hin). left.
Qed.

(** A part [Write] puts out is an item type and data from which [Read] makes the assignment. *)
Definition part_ok (recover : bool) (part : bool * res error (list Z)) (eff : DefaultHeadlessRule -> DefaultHeadlessRule) : Prop :=
  if part.1 then
    forall bs, part.2 = Ok bs -> exists t body, bs = t :: body /\ 0 <= t < 255 /\
      forall fuel last r, (length body <= fuel)%nat -> reads (readItem fuel recover t last r) body (eff r)
  else forall r, eff r = r.

(** The assignments for the parts, in the order of the parts. *)
Definition effects (v : Z) (recover : bool) o : list (DefaultHeadlessRule -> DefaultHeadlessRule) :=
  let l := loaded v recover o in
  let keep {A} (b : bool) (set : A -> DefaultHeadlessRule -> DefaultHeadlessRule) (get : DefaultHeadlessRule -> A) (x : A) r :=
    set (if b then x else get r) r in
  [ (fun r => keep (nonempty (h_QueryType o)) set_QueryType h_QueryType (h_QueryType o) r);
    (fun r => keep (nonempty (h_Network o)) set_Network h_Network (h_Network o) r);
    (fun r => let b := nonempty (h_Domain o) || nonempty (h_DomainSuffix o) in
       keep (b && recover) set_Domain h_Domain (h_Domain l) (keep (b && recover) set_DomainSuffix h_DomainSuffix (h_DomainSuffix l)
         (keep b set_DomainMatcher h_DomainMatcher (h_DomainMatcher l) r)));
    (fun r => keep (nonempty (h_DomainKeyword o)) set_DomainKeyword h_DomainKeyword (h_DomainKeyword o) r);
    (fun r => keep (nonempty (h_DomainRegex o)) set_DomainRegex h_DomainRegex (h_DomainRegex o) r);
    (fun r => keep (nonempty (h_SourceIPCIDR o) && recover) set_SourceIPCIDR h_SourceIPCIDR (h_SourceIPCIDR l)
       (keep (nonempty (h_SourceIPCIDR o)) set_SourceIPSet h_SourceIPSet (h_SourceIPSet l) r));
    (fun r => keep (nonempty (h_IPCIDR o) && recover) set_IPCIDR h_IPCIDR (h_IPCIDR l)
       (keep (nonempty (h_IPCIDR o)) set_IPSet h_IPSet (h_IPSet l) r));
    (fun r => keep (nonempty (h_SourcePort o)) set_SourcePort h_SourcePort (h_SourcePort o) r);
    (fun r => keep (nonempty (h_SourcePortRange o)) set_SourcePortRange h_SourcePortRange (h_SourcePortRange o) r);
    (fun r => keep (nonempty (h_Port o)) set_Port h_Port (h_Port o) r);
    (fun r => keep (nonempty (h_PortRange o)) set_PortRange h_PortRange (h_PortRange o) r);
    (fun r => keep (nonempty (h_ProcessName o)) set_ProcessName h_ProcessName (h_ProcessName o) r);
    (fun r => keep (nonempty (h_ProcessPath o)) set_ProcessPath h_ProcessPath (h_ProcessPath o) r);
    (fun r => keep (nonempty (h_ProcessPathRegex o)) set_ProcessPathRegex h_ProcessPathRegex (h_ProcessPathRegex o) r);
    (fun r => keep (nonempty (h_PackageName o)) set_PackageName h_PackageName (h_PackageName o) r);
    (fun r => keep (nonempty (h_NetworkType o)) set_NetworkType h_NetworkType (h_NetworkType o) r);
    (fun r => keep (h_NetworkIsExpensive o) set_NetworkIsExpensive h_NetworkIsExpensive true r);
    (fun r => keep (h_NetworkIsConstrained o) set_NetworkIsConstrained h_NetworkIsConstrained true r);
    (fun r => keep (has (h_NetworkInterfaceAddress o)) set_NetworkInterfaceAddress h_NetworkInterfaceAddress (h_NetworkInterfaceAddress o) r);
    (fun r => keep (nonempty (h_DefaultInterfaceAddress o)) set_DefaultInterfaceAddress h_DefaultInterfaceAddress (h_DefaultInterfaceAddress o) r);
    (fun r => keep (nonempty (h_WIFISSID o)) set_WIFISSID h_WIFISSID (h_WIFISSID o) r);
    (fun r => keep (nonempty (h_WIFIBSSID o)) set_WIFIBSSID h_WIFIBSSID (h_WIFIBSSID o) r);
    (fun r => keep (nonempty (h_AdGuardDomain o) && recover) set_AdGuardDomain h_AdGuardDomain (h_AdGuardDomain l)
       (keep (nonempty (h_AdGuardDomain o)) set_AdGuardDomainMatcher h_AdGuardDomainMatcher (h_AdGuardDomainMatcher l) r)) ].

Lemma if_nonempty {A} (l : list A) : (if nonempty l then l else []) = l.
Proof using Type. by destruct l. Qed.

(** Applied to the zero rule the assignments give the loaded rule. *)
Lemma effects_loaded v recover o :
  source_ok o -> set_Invert (h_Invert o) (foldl (fun r f => f r) (zeroHeadless false) (effects v recover o)) = loaded v recover o.
Proof using All.
  intros [_ _ _ _ Hi _ _]. destruct o. simpl in Hi. unfold effects, loaded, zeroHeadless. cbn. unfold builtSet.
  rewrite !if_nonempty. f_equal; try (by repeat case_match).
  destruct h_NetworkInterfaceAddress as [l|]; [|done]. destruct (Hi l eq_refl) as [Hne _]. by destruct l.
Qed.

Lemma part_keep {A} recover b bs t body (set : A -> DefaultHeadlessRule -> DefaultHeadlessRule) get x :
  (forall r, set (get r) r = r) -> (forall bs', bs = Ok bs' -> bs' = t :: body) -> 0 <= t < 255 ->
  (b = true -> forall fuel last r, (length body <= fuel)%nat -> reads (readItem fuel recover t last r) body (set x r)) ->
  part_ok recover (b, bs) (fun r => set (if b then x else get r) r).
Proof using Type.
  intros Hset Hbs Ht Hr. unfold part_ok. cbn [fst snd]. destruct b; [|done]. intros bs' Hb. exists t, body.
  split; [by apply Hbs|]. split; [done|]. by apply Hr.
Qed.

Lemma since_Ok v n what bs bs' : since v n what bs = Ok bs' -> bs' = bs.
Proof using Type. unfold since. case_match; [done|]. by intros [= <-]. Qed.

Lemma part_strings recover t l (set : list string -> DefaultHeadlessRule -> DefaultHeadlessRule) get :
  (forall r, set (get r) r = r) -> 0 <= t < 255 ->
  (forall fuel last r, readItem fuel recover t last r = (x ← lift readStrings; mret (set x r))) ->
  part_ok recover (nonempty l, writeRuleItemString t l) (fun r => set (if nonempty l then l else get r) r).
Proof using All.
  intros Hset Ht Hr. apply (part_keep _ _ _ t (writeStrings l)); [done | by intros ? [= <-] | done |].
  intros _ fuel last r _. rewrite Hr. apply (reads_then_ret _ (fun x => set x r)), reads_decodes, decodes_strings.
Qed.

Lemma part_uint16s recover t l (set : list Z -> DefaultHeadlessRule -> DefaultHeadlessRule) get :
  (forall r, set (get r) r = r) -> 0 <= t < 255 -> Forall uint16 l ->
  (forall fuel last r, readItem fuel recover t last r = (x ← lift readUint16s; mret (set x r))) ->
  part_ok recover (nonempty l, writeRuleItemUint16 t l) (fun r => set (if nonempty l then l else get r) r).
Proof using All.
  intros Hset Ht Hl Hr. apply (part_keep _ _ _ t (writeUint16s l)); [done | by intros ? [= <-] | done |].
  intros _ fuel last r _. rewrite Hr. by apply (reads_then_ret _ (fun x => set x r)), reads_decodes, decodes_uint16s.
Qed.

(** An IP set item sets the set, and the texts when they are wanted. *)
Lemma part_cidr recover label t l (setSet : option IPSet -> DefaultHeadlessRule -> DefaultHeadlessRule)
    (setTexts : list string -> DefaultHeadlessRule -> DefaultHeadlessRule) getSet getTexts texts :
  (forall r, setSet (getSet r) r = r) -> (forall r, setTexts (getTexts r) r = r) -> 0 <= t < 255 ->
  (forall set, builtSet l = Some set -> recover = true -> texts = prefixesOf set) ->
  (forall fuel last r, readItem fuel recover t last r =
     (set ← readIPSet; let r := setSet (Some set) r in mret (if recover then setTexts (prefixesOf set) r else r))) ->
  part_ok recover (nonempty l, Cause label (writeRuleItemCIDR t l))
    (fun r => let r := setSet (if nonempty l then builtSet l else getSet r) r in
              setTexts (if nonempty l && recover then texts else getTexts r) r).
Proof using All.
  intros Hset Htexts Ht Hd Hr. unfold part_ok. cbn [fst snd]. destruct (nonempty l) eqn:El; [|intros r; simpl; by rewrite Hset, Htexts].
  intros bs Hbs. apply Cause_Ok in Hbs. unfold writeRuleItemCIDR in Hbs. res_inv. rename x0 into set.
  exists t, (writeIPSet set). split; [done|]. split; [done|]. intros fuel last r _. rewrite Hr.
  unfold builtSet in *. rewrite El in *. rewrite H5 in *. cbn [andb]. simpl.
  replace (setTexts _ _) with (if recover then setTexts (prefixesOf set) (setSet (Some set) r) else setSet (Some set) r).
  - apply (reads_then_ret readIPSet (fun s => if recover then setTexts (prefixesOf s) (setSet (Some s) r) else setSet (Some s) r)).
    eapply reads_ipSet; [eassumption | by destruct l].
  - destruct recover; [|by rewrite Htexts]. by rewrite (Hd set eq_refl eq_refl).
Qed.

Lemma part_domain v recover o :
  let b := nonempty (h_Domain o) || nonempty (h_DomainSuffix o) in
  let l := loaded v recover o in
  part_ok recover (b, Ok (ruleItemDomain :: writeMatcher (newMatcher (h_Domain o) (h_DomainSuffix o) (v =? 1))))
    (fun r => let r := set_DomainMatcher (if b then h_DomainMatcher l else h_DomainMatcher r) r in
              let r := set_DomainSuffix (if b && recover then h_DomainSuffix l else h_DomainSuffix r) r in
              set_Domain (if b && recover then h_Domain l else h_Domain r) r).
Proof using All.
  unfold part_ok. cbv zeta. cbn [fst snd]. destruct (nonempty (h_Domain o) || nonempty (h_DomainSuffix o)) eqn:E; [|by intros []].
  intros bs [= <-]. eexists _, _. split; [reflexivity|]. split; [done|]. intros fuel last r _. cbn [andb]. simpl. rewrite E. simpl.
  set (mt := newMatcher _ _ _).
  pose (make := fun mt => if recover then set_Domain (dumpMatcher mt).1 (set_DomainSuffix (dumpMatcher mt).2 (set_DomainMatcher (Some mt) r))
    else set_DomainMatcher (Some mt) r).
  replace (set_Domain _ _) with (make mt) by (unfold make; destruct r, recover; done).
  apply (reads_then_ret (lift readMatcher) make), reads_decodes, decodes_matcher.
Qed.

Lemma part_adGuard v recover o :
  let b := nonempty (h_AdGuardDomain o) in
  let l := loaded v recover o in
  part_ok recover (b, since v 2 "AdGuard rule items is" (ruleItemAdGuardDomain :: writeAdGuard (newAdGuard (h_AdGuardDomain o))))
    (fun r => let r := set_AdGuardDomainMatcher (if b then h_AdGuardDomainMatcher l else h_AdGuardDomainMatcher r) r in
              set_AdGuardDomain (if b && recover then h_AdGuardDomain l else h_AdGuardDomain r) r).
Proof using All.
  unfold part_ok. cbv zeta. cbn [fst snd]. destruct (nonempty (h_AdGuardDomain o)) eqn:E; [|by intros []].
  intros bs Hbs. apply since_Ok in Hbs as ->. eexists _, _. split; [reflexivity|]. split; [done|]. intros fuel last r _. cbn [andb]. simpl. rewrite E. simpl.
  set (mt := newAdGuard _).
  pose (make := fun mt => if recover then set_AdGuardDomain (dumpAdGuard mt) (set_AdGuardDomainMatcher (Some mt) r)
    else set_AdGuardDomainMatcher (Some mt) r).
  replace (set_AdGuardDomain _ _) with (make mt) by (unfold make; destruct r, recover; done).
  apply (reads_then_ret (lift readAdGuard) make), reads_decodes, decodes_adGuard.
Qed.

Lemma part_interfaces v recover o : source_ok o ->
  let l := default [] (h_NetworkInterfaceAddress o) in
  part_ok recover (has (h_NetworkInterfaceAddress o),
      since v 4 "`network_interface_address` rule item is"
        (ruleItemNetworkInterfaceAddress :: writeUvarint (Z.of_nat (length l)) ++ concat (map writeInterfaceEntry l)))
    (fun r => set_NetworkInterfaceAddress (if has (h_NetworkInterfaceAddress o) then h_NetworkInterfaceAddress o else h_NetworkInterfaceAddress r) r).
Proof using All.
  intros [_ _ _ _ Hi _ _]. cbv zeta.
  eapply (part_keep _ _ _ ruleItemNetworkInterfaceAddress _ set_NetworkInterfaceAddress h_NetworkInterfaceAddress); [by intros [] | apply since_Ok | done |].
  destruct (h_NetworkInterfaceAddress o) as [l|] eqn:El; [|done]. destruct (Hi l eq_refl) as (Hne & Hnd & Hlen & Hall). simpl.
  intros _ fuel last r Hf. rewrite length_app in Hf. rewrite <- (typedPut_all l Hnd) at 3.
  eapply reads_bind; [apply decodes_uvarint; lia|].
  apply (reads_then_ret (readN _ _ _ _) (fun es => set_NetworkInterfaceAddress (Some (foldl (fun m e => typedPut m e.1 e.2) [] es)) r)).
  apply reads_interfaces; [done | done | done | lia].
Qed.

Lemma parts_effects v recover o : source_ok o -> Forall2 (part_ok recover) (writeParts v o) (effects v recover o).
Proof using All.
  intros Ho. pose proof Ho as [Hq Hsp Hp Hnt _ Hd _]. unfold writeParts, effects. cbv zeta.
  constructor; [by apply (part_uint16s _ _ _ set_QueryType h_QueryType); [intros []|..]|].
  constructor; [by apply (part_strings _ _ _ set_Network h_Network); [intros []|..]|].
  constructor; [apply part_domain|].
  constructor; [by apply (part_strings _ _ _ set_DomainKeyword h_DomainKeyword); [intros []|..]|].
  constructor; [by apply (part_strings _ _ _ set_DomainRegex h_DomainRegex); [intros []|..]|].
  constructor; [apply (part_cidr recover _ _ _ set_SourceIPSet set_SourceIPCIDR h_SourceIPSet h_SourceIPCIDR); [by intros [] | by intros [] | done | | done];
                intros set Hb ->; simpl; by rewrite Hb|].
  constructor; [apply (part_cidr recover _ _ _ set_IPSet set_IPCIDR h_IPSet h_IPCIDR); [by intros [] | by intros [] | done | | done];
                intros set Hb ->; simpl; by rewrite Hb|].
  constructor; [by apply (part_uint16s _ _ _ set_SourcePort h_SourcePort); [intros []|..]|].
  constructor; [by apply (part_strings _ _ _ set_SourcePortRange h_SourcePortRange); [intros []|..]|].
  constructor; [by apply (part_uint16s _ _ _ set_Port h_Port); [intros []|..]|].
  constructor; [by apply (part_strings _ _ _ set_PortRange h_PortRange); [intros []|..]|].
  constructor; [by apply (part_strings _ _ _ set_ProcessName h_ProcessName); [intros []|..]|].
  constructor; [by apply (part_strings _ _ _ set_ProcessPath h_ProcessPath); [intros []|..]|].
  constructor; [by apply (part_strings _ _ _ set_ProcessPathRegex h_ProcessPathRegex); [intros []|..]|].
  constructor; [by apply (part_strings _ _ _ set_PackageName h_PackageName); [intros []|..]|].
  constructor.
  { apply (part_keep _ _ _ ruleItemNetworkType (writeUint8s (h_NetworkType o)) set_NetworkType h_NetworkType); [by intros [] | | done |].
    - intros bs. case_match; [done|]. by intros [= <-].
    - intros _ fuel last r _. by apply (reads_then_ret (lift readUint8s) (fun l => set_NetworkType l r)), reads_decodes, decodes_uint8s. }
  constructor.
  { apply (part_keep _ _ _ ruleItemNetworkIsExpensive [] set_NetworkIsExpensive h_NetworkIsExpensive); [by intros [] | apply since_Ok | done | done]. }
  constructor.
  { apply (part_keep _ _ _ ruleItemNetworkIsConstrained [] set_NetworkIsConstrained h_NetworkIsConstrained); [by intros [] | apply since_Ok | done | done]. }
  constructor; [by apply part_interfaces|].
  constructor.
  { eapply (part_keep _ _ _ ruleItemDefaultInterfaceAddress _ set_DefaultInterfaceAddress h_DefaultInterfaceAddress); [by intros [] | apply since_Ok | done |].
    intros _ fuel last r Hf. apply (reads_then_ret (readPrefixes fuel) (fun l => set_DefaultInterfaceAddress l r)). by apply reads_prefixes; [apply Hd | apply Hd |]. }
  constructor; [by apply (part_strings _ _ _ set_WIFISSID h_WIFISSID); [intros []|..]|].
  constructor; [by apply (part_strings _ _ _ set_WIFIBSSID h_WIFIBSSID); [intros []|..]|].
  constructor; [apply part_adGuard | constructor].
Qed.

Lemma readItems_S fuel recover last r :
  readItems (S fuel) recover last r =
    (itemType ← readUint 1;
     if itemType =? ruleItemFinal then invert ← readBool; mret (set_Invert invert r)
     else rule ← readItem fuel recover itemType last r; readItems fuel recover itemType rule).
Proof using Type. reflexivity. Qed.

(** The items of a rule, then the final one. *)
Lemma reads_items recover inv parts effs bs :
  Forall2 (part_ok recover) parts effs -> writeAll parts = Ok bs -> forall fuel last r, (length bs < fuel)%nat ->
  reads (readItems fuel recover last r) (bs ++ ruleItemFinal :: putBool inv) (set_Invert inv (foldl (fun r f => f r) r effs)).
Proof using Type.
  intros Hp. revert bs. induction Hp as [|[b part] eff parts effs Hpart _ IH]; intros bs Hw fuel last r Hf; simpl in Hw.
  - injection Hw as <-. destruct fuel as [|fuel]; [simpl in Hf; lia|]. by destruct inv.
  - res_inv. unfold part_ok in Hpart. cbn [fst snd] in Hpart. rewrite length_app in Hf. destruct b.
    + destruct (Hpart _ ltac:(eassumption)) as (t & body & -> & Ht & Hread). destruct fuel as [|fuel]; [lia|]. simpl in Hf.
      cbn [foldl]. rewrite <- app_assoc. change ((t :: body) ++ ?l) with ([t] ++ body ++ l). rewrite readItems_S.
      eapply reads_bind; [apply reads_uint8; lia|]. cbv beta. replace (t =? ruleItemFinal) with false by (unfold ruleItemFinal; lia).
      eapply reads_bind; [apply Hread; lia|]. apply IH; [done | lia].
    + simplify_eq. cbn [foldl]. rewrite Hpart. by apply IH.
Qed.

Lemma reads_default v recover o bs fuel :
  source_ok o -> writeDefaultRule o v = Ok bs -> (length bs <= fuel)%nat ->
  reads (readRule (S fuel) recover) bs (HeadlessDefault (loaded v recover o)).
Proof using All.
  intros Ho Hw Hf. unfold writeDefaultRule in Hw. res_inv. rename x into parts.
  change (reads (ruleType ← readUint 1;
       if ruleType =? 0 then o ← readDefaultRule fuel recover; mret (HeadlessDefault o)
       else if ruleType =? 1 then readLogicalRule fuel (readRule fuel recover)
       else fail (New ("unknown rule type: " +:+ Itoa ruleType)))
    ([0] ++ parts ++ ruleItemFinal :: putBool (h_Invert o)) (HeadlessDefault (loaded v recover o))).
  eapply reads_bind; [by apply reads_uint8|]. cbn [Z.eqb]. apply (reads_then_ret _ HeadlessDefault).
  rewrite <- (effects_loaded v recover o Ho). eapply reads_items; [by apply parts_effects | eassumption |].
  cbn [length] in Hf. rewrite length_app in Hf. simpl in Hf. lia.
Qed.

(** The bytes of each rule, from those of all. *)
Lemma eachBytes_Ok {A} (f : A -> res error (list Z)) l bs :
  eachBytes f l = Ok bs -> exists ls, bs = concat ls /\ Forall2 (fun x b => f x = Ok b) l ls.
Proof using Type.
  revert bs. induction l as [|x l IH]; intros bs Hw; simpl in Hw; [injection Hw as <-; exists []; by split|].
  res_inv. destruct (IH _ ltac:(eassumption)) as (ls & -> & Hls). eexists (_ :: ls). split; [done|]. by constructor.
Qed.

Lemma eachBytes_each {A} (f : A -> res error (list Z)) l bs : eachBytes f l = Ok bs -> Forall (fun x => is_Ok (f x)) l.
Proof using Type.
  intros Hw. destruct (eachBytes_Ok f l bs Hw) as (ls & _ & Hls). clear Hw. induction Hls; constructor; [by eexists | done].
Qed.

Lemma writeRule_nonempty h v bs : writeRule h v = Ok bs -> bs <> [].
Proof using Type. destruct h; simpl; unfold writeDefaultRule; intros Hw; res_inv; by simplify_eq. Qed.

(** A list of rules is read back by a loop with fuel for every byte. *)
Lemma reads_rules v recover rules bs fuel label :
  Forall (fun h => forall bs fuel, writeRule h v = Ok bs -> (length bs <= fuel)%nat ->
    reads (readRule (S fuel) recover) bs (loadedRule v recover h)) rules ->
  eachBytes (fun h => writeRule h v) rules = Ok bs -> (length bs <= fuel)%nat ->
  reads (readN (S fuel) (fun i => cause (label i) (readRule (S fuel) recover)) 0 (Z.of_nat (length rules))) bs (map (loadedRule v recover) rules).
Proof using Type.
  intros Hr Hw Hf. destruct (eachBytes_Ok _ _ _ Hw) as (ls & -> & Hls).
  assert (length ls <= length (concat ls))%nat as Hlen.
  { clear -Hls. induction Hls as [|h b rules ls Hb _ IH]; simpl; [lia|]. apply writeRule_nonempty in Hb.
    rewrite length_app. destruct b; simpl; [done | lia]. }
  apply reads_readN.
  - clear Hw Hlen. revert Hf. induction Hls as [|h b rules ls Hb Hls IH]; intros Hf; simpl in *; [constructor|].
    apply Forall_cons in Hr as [Hh Hr]. rewrite length_app in Hf. constructor; [|apply IH; [done | lia]].
    intros j. apply reads_cause, Hh; [done | lia].
  - rewrite length_map. lia.
  - rewrite length_map, (Forall2_length _ _ _ Hls). lia.
Qed.

Lemma reads_makeSlice n : n <= makeLimit -> reads (makeSlice n) [] tt.
Proof using Type. intros Hn. unfold makeSlice. replace (makeLimit <? n) with false by lia. apply reads_ret. Qed.

Lemma reads_rule v recover h : source_rule h -> forall bs fuel, writeRule h v = Ok bs -> (length bs <= fuel)%nat ->
  reads (readRule (S fuel) recover) bs (loadedRule v recover h).
Proof using All.
  induction h as [o|mode rules invert IH] using headlessInd; intros Hs bs fuel Hw Hf; inversion Hs as [? Ho|??? Hn Hrules]; subst.
  { by eapply reads_default. }
  simpl in Hw. res_inv. rename x into m, x0 into subs. cbn [length] in Hf. rewrite !length_app in Hf.
  destruct fuel as [|fuel]; [lia|]. pose proof makeLimit_int as Hint.
  change (reads (ruleType ← readUint 1;
       if ruleType =? 0 then o ← readDefaultRule (S fuel) recover; mret (HeadlessDefault o)
       else if ruleType =? 1 then readLogicalRule (S fuel) (readRule (S fuel) recover)
       else fail (New ("unknown rule type: " +:+ Itoa ruleType)))
    ([1] ++ [m] ++ writeUvarint (Z.of_nat (length rules)) ++ [] ++ subs ++ putBool invert) (loadedRule v recover (HeadlessLogical mode rules invert))).
  eapply reads_bind; [by apply reads_uint8|]. cbn [Z.eqb Pos.eqb]. eapply reads_bind; [apply reads_readByte|].
  eapply (reads_bind _ _ [] _ mode).
  { repeat case_bool_decide; simplify_eq; apply reads_ret. }
  eapply reads_bind; [apply decodes_uvarint; lia|]. eapply reads_bind; [by apply reads_makeSlice|].
  eapply reads_bind; [|apply (reads_then_ret readBool (HeadlessLogical mode _)), reads_readBool].
  eapply reads_rules; [|eassumption | lia]. apply Forall_forall. intros h Hh. rewrite Forall_forall in IH, Hrules.
  intros bs' fuel' Hw' Hf'. apply IH; [done | by apply Hrules | done | done].
Qed.

(** Reading what was written gives the rules with their matchers built. *)
Lemma Read_Write v recover rules file en :
  1 <= v <= RuleSetVersionCurrent -> Z.of_nat (length rules) <= makeLimit -> Forall source_rule rules -> Write rules v = Ok file ->
  Read recover (mkSource file en) = Some (Ok (v, map (loadedRule v recover) rules)).
Proof using All.
  intros Hv Hn Hs Hw. unfold Write in Hw. res_inv. rename x into body. unfold Read.
  assert (reads readHeader (MagicBytes ++ [v mod 256]) v) as Hh.
  { unfold RuleSetVersionCurrent in Hv. unfold readHeader. rewrite Z.mod_small by lia.
    eapply reads_bind; [apply (reads_readFull MagicBytes)|]. rewrite bool_decide_eq_true_2 by done. cbn [negb].
    eapply (reads_bind _ _ [v] []); [apply reads_uint8; lia|]. unfold RuleSetVersionCurrent. replace (4 <? v) with false by lia. apply reads_ret. }
  match goal with |- context [mkSource ?f en] => change f with ((MagicBytes ++ [v mod 256]) ++ zlibWrite body) end.
  rewrite Hh, zlibRead_Write. unfold writeRules in *. res_inv. rename x into bs. pose proof makeLimit_int as Hint.
  assert (reads (readRules (S (length (writeUvarint (Z.of_nat (length rules)) ++ bs))) recover)
    (writeUvarint (Z.of_nat (length rules)) ++ [] ++ bs) (map (loadedRule v recover) rules)) as Hr.
  { eapply reads_bind; [apply decodes_uvarint; lia|]. eapply reads_bind; [by apply reads_makeSlice|].
    eapply reads_rules; [|eassumption | rewrite length_app; lia]. eapply Forall_impl; [exact Hs|]. intros h Hh' bs' fuel'. by apply reads_rule. }
  specialize (Hr [] None). rewrite app_nil_r in Hr. cbn [rest app] in Hr |- *. by rewrite Hr.
Qed.
End RoundTrip.

(** ** Compiled rule sets match as their sources *)

(** The fields of a loaded rule. *)
Ltac unfold_loaded :=
  unfold loaded;
  cbn [h_QueryType h_Network h_Domain h_DomainSuffix h_DomainKeyword h_DomainRegex
       h_SourceIPCIDR h_IPCIDR h_SourcePort h_SourcePortRange h_Port h_PortRange h_ProcessName h_ProcessPath h_ProcessPathRegex h_PackageName
       h_NetworkType h_NetworkIsExpensive h_NetworkIsConstrained h_WIFISSID h_WIFIBSSID h_NetworkInterfaceAddress h_DefaultInterfaceAddress
       h_DomainMatcher h_SourceIPSet h_IPSet h_AdGuardDomain h_AdGuardDomainMatcher].

Section Compiled.
Context `{UnicodeTables} `{MapOrder} `{RuleLibs} `{SrsLibs} `{!SrsCodecs} `{!SrsMatchers}.
Variable networkManager : bool.
Implicit Types (o : DefaultHeadlessRule) (h : HeadlessRule).

Notation alike l k := (Forall2 branch_alike (List.filter applies l) (List.filter applies k)).

Lemma branch_alike_leaf cond g it : branch_alike (leaf cond g it) (leaf cond g it).
Proof using Type. split; [done|]. intros i [= <-]. eexists. split; [done | apply item_alike_refl]. Qed.

Lemma branch_alike_leafE cond g r : branch_alike (leafE cond g r) (leafE cond g r).
Proof using Type.
  split; [done|]. intros i Hi. exists i. split; [done|]. destruct r; [|done]. injection Hi as <-. apply item_alike_refl.
Qed.

Lemma alike_same br brs brs' : branch_alike br br -> alike brs brs' -> alike (br :: brs) (br :: brs').
Proof using Type. intros Hbr Hbrs. simpl. case_match; [by constructor | done]. Qed.

(** A branch on texts, and the branch on the matcher built from them. *)
Lemma alike_pair b1 b2 b1' b2' brs brs' :
  applies b2 = false -> applies b1' = false -> applies b2' = applies b1 -> (applies b1 = true -> branch_alike b1 b2') ->
  alike brs brs' -> alike (b1 :: b2 :: brs) (b1' :: b2' :: brs').
Proof using Type. intros E1 E2 E3 Hb Hbrs. simpl. rewrite E1, E2, E3. destruct (applies b1); [constructor; [by apply Hb | done] | done]. Qed.

Lemma cidr_alike (isSource : bool) label l set g texts :
  builtSet l = Some set -> nonempty l = true ->
  branch_alike (leafE true g (Cause label (NewIPCIDRItem isSource l)))
    (rawLeaf texts g (Some set) (fun s => RawIPCIDRItem isSource (IPSet_Contains s))).
Proof using All.
  intros Hs Hl. split; [done|]. intros it Hit. eexists. split; [done|]. unfold NewIPCIDRItem in Hit. simpl in Hit.
  destruct (checkEach _ _ _ _); [|done]. injection Hit as <-. constructor. intros e m c. simpl. unfold IPCIDRItem_Match.
  unfold builtSet in Hs. rewrite Hl in Hs. destruct (builderIPSet l) as [set'|] eqn:E; [|done]. injection Hs as ->.
  pose proof (fun a => builderIPSet_Contains l set a E) as Hc. repeat case_match; rewrite ?Hc; try done.
  generalize (f_DestinationAddresses m). intros addrs. induction addrs as [|x addrs IH]; simpl; [done|]. by rewrite Hc, IH.
Qed.

(** The parts of a rule that was written are those of the list. *)
Lemma writeAll_cidr v o bs :
  writeAll (writeParts v o) = Ok bs ->
  (nonempty (h_SourceIPCIDR o) = true -> is_Some (builtSet (h_SourceIPCIDR o))) /\
  (nonempty (h_IPCIDR o) = true -> is_Some (builtSet (h_IPCIDR o))).
Proof using Type.
  intros Hw. cbn [writeAll writeParts] in Hw. res_inv. split; intros Hl; rewrite Hl in *;
  match goal with Hc : Cause _ (writeRuleItemCIDR _ ?l) = Ok _ |- is_Some (builtSet ?l) => apply Cause_Ok in Hc; unfold writeRuleItemCIDR in Hc; res_inv end;
  unfold builtSet; rewrite Hl; by match goal with Hb : builderIPSet _ = Ok _ |- _ => rewrite Hb end.
Qed.

Lemma domain_alike ds ss legacy g texts :
  branch_alike (leafE true g (NewDomainItem ds ss)) (rawLeaf texts g (Some (newMatcher ds ss legacy)) (fun mt => RawDomainItem (Matcher_Match mt))).
Proof using All.
  split; [done|]. intros it Hit. eexists. split; [done|]. unfold NewDomainItem in Hit. simpl in Hit. repeat case_match; try done.
  simplify_eq/=. constructor. intros e m c. simpl. unfold DomainItem_Match, onDomain. case_match; [done|]. by rewrite newMatcher_Match.
Qed.

Lemma adGuard_alike l g texts :
  branch_alike (leaf true g (AdGuardDomainItem l)) (rawLeaf texts g (Some (newAdGuard l)) (fun mt => RawAdGuardDomainItem (AdGuardMatcher_Match mt))).
Proof using All.
  split; [done|]. intros it Hit. eexists. split; [done|]. simplify_eq/=. constructor. intros e m c. simpl.
  unfold AdGuardDomainItem_Match, onDomain. case_match; [done|]. by rewrite newAdGuard_Match.
Qed.

Ltac same_branch := apply alike_same; [first [apply branch_alike_leaf | apply branch_alike_leafE]|].

Lemma loaded_branches v o bs : source_ok o -> writeAll (writeParts v o) = Ok bs ->
  alike (headlessBranches networkManager o) (headlessBranches networkManager (loaded v false o)).
Proof using All.
  intros [_ _ _ _ _ _ (E1 & E2 & E3 & E4)] Hw. destruct (writeAll_cidr v o bs Hw) as [Hsrc Hdst].
  unfold headlessBranches. rewrite E1, E2, E3, E4. unfold_loaded.
  rewrite !andb_false_r. cbn [nonempty orb].
  assert (forall l, nonempty (match builtSet l with Some _ => [] | None => [] end : list string) = false) as Htexts by (intros l; by destruct (builtSet l)).
  rewrite !Htexts. same_branch.
  apply alike_pair; [done | done | by destruct (_ || _) | intros Hd; simpl in Hd; rewrite Hd; apply domain_alike|].
  do 2 same_branch.
  apply alike_pair; [done | done | | |].
  { unfold builtSet in *. destruct (nonempty (h_SourceIPCIDR o)); [|done]. destruct (Hsrc eq_refl) as [s ->]. done. }
  { intros Hl. simpl in Hl. destruct (Hsrc Hl) as [s Hs]. rewrite Hs, Hl. by apply cidr_alike. }
  apply alike_pair; [done | done | | |].
  { unfold builtSet in *. destruct (nonempty (h_IPCIDR o)); [|done]. destruct (Hdst eq_refl) as [s ->]. done. }
  { intros Hl. simpl in Hl. destruct (Hdst Hl) as [s Hs]. rewrite Hs, Hl. by apply cidr_alike. }
  do 15 same_branch.
  apply alike_pair; [done | done | by destruct (nonempty (h_AdGuardDomain o)) | intros Hd; simpl in Hd; rewrite Hd; apply adGuard_alike | done].
Qed.

Lemma none_builtSet l : (nonempty l = true -> is_Some (builtSet l)) -> none (builtSet l) = empty l.
Proof using Type. unfold builtSet, empty. destruct (nonempty l); [|done]. intros Hs. by destruct (Hs eq_refl) as [s ->]. Qed.

Lemma none_if {A} (b : bool) (x : A) : none (if b then Some x else None) = negb b.
Proof using Type. by destruct b. Qed.

Lemma loaded_valid v o bs : source_ok o -> writeAll (writeParts v o) = Ok bs -> Default_IsValid (loaded v false o) = Default_IsValid o.
Proof using Type.
  intros [_ _ _ _ _ _ (E1 & E2 & E3 & E4)] Hw. destruct (writeAll_cidr v o bs Hw) as [Hsrc Hdst]. clear Hw.
  unfold Default_IsValid. rewrite E1, E2, E3, E4. unfold_loaded. cbn [none].
  rewrite !andb_false_r, !none_if, !none_builtSet, negb_orb by done.
  assert (forall l, empty (match builtSet l with Some _ => [] | None => [] end : list string) = true) as Htexts by (intros l; by destruct (builtSet l)).
  rewrite !Htexts. fold (empty (h_Domain o)) (empty (h_DomainSuffix o)) (empty (h_AdGuardDomain o)). cbn [empty nonempty negb]. f_equal.
  btauto.
Qed.

(** The conditions the metadata of a rule set asks for are kept. *)
Lemma loaded_has (cond : DefaultHeadlessRule -> bool) v h :
  (forall o bs, source_ok o -> writeDefaultRule o v = Ok bs -> cond (loaded v false o) = cond o) ->
  source_rule h -> forall bs, writeRule h v = Ok bs -> HasHeadlessRule1 cond (loadedRule v false h) = HasHeadlessRule1 cond h.
Proof using Type.
  intros Hcond. induction h as [o|mode rules invert IH] using headlessInd; intros Hs bs Hw; inversion Hs as [? Ho|??? Hlen Hrules]; subst.
  - by eapply Hcond.
  - cbn [writeRule] in Hw. res_inv. pose proof (eachBytes_each _ _ _ ltac:(eassumption)) as Heach. cbn [loadedRule HasHeadlessRule1].
    clear - IH Hrules Heach. induction rules as [|h rules IHr]; [done|]. apply Forall_cons in IH as [Hh IH], Hrules as [Hr Hrules], Heach as [[b Hb] Heach].
    simpl. rewrite IHr by done. by rewrite (Hh Hr b Hb).
Qed.

Lemma loaded_default_alike v o bs r :
  source_ok o -> writeDefaultRule o v = Ok bs -> NewHeadlessRule networkManager (HeadlessDefault o) = Ok r ->
  exists r', NewHeadlessRule networkManager (HeadlessDefault (loaded v false o)) = Ok r' /\ rule_alike r r'.
Proof using All.
  intros Ho Hw Hn. unfold writeDefaultRule in Hw. res_inv. rename x into parts. cbn [NewHeadlessRule Headless_IsValid] in *.
  erewrite loaded_valid by eassumption. destruct (Default_IsValid o); [|done]. cbn [negb] in *. unfold NewDefaultHeadlessRule in *. res_inv.
  rewrite <- foldl_active in * |-.
  destruct (foldl_addBranch_alike (List.filter applies (headlessBranches networkManager o)) (List.filter applies (headlessBranches networkManager (loaded v false o))) emptyBuilder emptyBuilder x)
    as (b' & Hb' & Ha); [by eapply loaded_branches| | | |done|].
  1, 2: apply List.Forall_forall; intros br Hbr; by apply filter_In in Hbr as [_ Hbr].
  { by constructor. }
  rewrite foldl_active in Hb'. rewrite Hb'. cbn. eexists. split; [done|]. by apply finish_alike.
Qed.

Lemma NewHeadlessRule_valid h r : NewHeadlessRule networkManager h = Ok r -> Headless_IsValid h = true.
Proof using Type. destruct h; cbn [NewHeadlessRule]; by destruct (Headless_IsValid _). Qed.

(** A loop over rules that are replaced by rules which build alike. *)
Lemma eachRule_alike label (g : HeadlessRule -> HeadlessRule) rules i rs :
  Forall (fun h => forall r, NewHeadlessRule networkManager h = Ok r ->
    exists r', NewHeadlessRule networkManager (g h) = Ok r' /\ rule_alike r r') rules ->
  eachRule label (NewHeadlessRule networkManager) i rules = Ok rs ->
  exists rs', eachRule label (NewHeadlessRule networkManager) i (map g rules) = Ok rs' /\ Forall2 rule_alike rs rs' /\
    forallb Headless_IsValid (map g rules) = true.
Proof using Type.
  intros Hg. revert i rs. induction Hg as [|h rules Hh _ IH]; intros i rs Hr; cbn [eachRule map] in *.
  - injection Hr as <-. exists []. by repeat split.
  - res_inv. rename x into r, x0 into rs. match goal with Hc : Cause _ _ = Ok r |- _ => apply Cause_Ok in Hc; destruct (Hh r Hc) as (r' & Hr' & Ha) end.
    destruct (IH (i + 1) rs ltac:(eassumption)) as (rs' & Hrs' & Has & Hval). exists (r' :: rs'). rewrite Hr'. cbn. rewrite Hrs'. cbn.
    split; [done|]. split; [by constructor|]. by rewrite (NewHeadlessRule_valid _ _ Hr').
Qed.

Lemma loaded_rule_alike v h : source_rule h -> forall bs r, writeRule h v = Ok bs -> NewHeadlessRule networkManager h = Ok r ->
  exists r', NewHeadlessRule networkManager (loadedRule v false h) = Ok r' /\ rule_alike r r'.
Proof using All.
  induction h as [o|mode rules invert IH] using headlessInd; intros Hs bs r Hw Hn; inversion Hs as [? Ho|??? Hlen Hrules]; subst.
  - by eapply loaded_default_alike.
  - cbn [writeRule] in Hw. cbn [NewHeadlessRule] in Hn. destruct (Headless_IsValid (HeadlessLogical _ _ _)) eqn:Ev; [|done].
    cbn [negb] in Hn. res_inv. pose proof (eachBytes_each _ _ _ ltac:(eassumption)) as Heach.
    edestruct (eachRule_alike (fun i => "sub rule[" +:+ Itoa i +:+ "]") (loadedRule v false) rules) as (rs' & Hrs & Hra & Hval); [|eassumption|].
    { apply Forall_forall. intros h Hh r'. rewrite Forall_forall in IH, Hrules, Heach. destruct (Heach h Hh) as [b Hb]. by eapply IH; [|apply Hrules|]. }
    cbn [loadedRule NewHeadlessRule Headless_IsValid] in *. rewrite Hval, andb_true_r.
    replace (nonempty (map _ rules)) with (nonempty rules) by (by destruct rules). apply andb_true_iff in Ev as [-> _]. cbn [negb].
    match goal with Hm : logicalMode _ = Ok _ |- _ => rewrite Hm end. cbn -[eachRule]. rewrite Hrs. cbn. eexists. split; [done|]. by constructor.
Qed.

(** A rule set compiled to a file and loaded from it is accepted whenever its source is, and then
    matches every connection exactly as the source does, in every state of the rule cache. *)
Lemma compiled_rules_alike (v : Z) (rules : list HeadlessRule) (file : list Z) (en : option error) (rs : list rule) :
  1 <= v <= RuleSetVersionCurrent -> Z.of_nat (length rules) <= makeLimit -> Forall source_rule rules ->
  Write rules v = Ok file ->
  eachRule (fun i => "parse rule_set.rules.[" +:+ Itoa i +:+ "]") (NewHeadlessRule networkManager) 0 rules = Ok rs ->
  Read false (mkSource file en) = Some (Ok (v, map (loadedRule v false) rules)) /\
  exists rs',
    eachRule (fun i => "parse rule_set.rules.[" +:+ Itoa i +:+ "]") (NewHeadlessRule networkManager) 0 (map (loadedRule v false) rules) = Ok rs' /\
    forall e m c, anyS (matchRule e m) rs c = anyS (matchRule e m) rs' c.
Proof using All.
  intros Hv Hn Hs Hw Hb. pose proof (Read_Write v false rules file en Hv Hn Hs Hw) as HR.
  unfold Write, writeRules in Hw. res_inv. pose proof (eachBytes_each _ _ _ ltac:(eassumption)) as Heach.
  edestruct (eachRule_alike (fun i => "parse rule_set.rules.[" +:+ Itoa i +:+ "]") (loadedRule v false) rules)
    as (rs' & Hrs & Hra & _); [|exact Hb|].
  - apply Forall_forall. intros h Hh r. rewrite Forall_forall in Hs, Heach. destruct (Heach h Hh) as [b Hb']. by eapply loaded_rule_alike; [apply Hs|..].
  - split; [done|]. exists rs'. split; [done|]. intros e m c. apply anyS_alike.
    eapply Forall2_impl; [exact Hra|]. intros r r' Hr. by apply matchRule_alike.
Qed.
End Compiled.

(** ** Example *)

Module SrsSample.
#[export] Instance tables : UnicodeTables := ascii_tables.
#[export] Instance order : MapOrder := canonical_order.

Definition home : Addr := mkAddr 32 167772161.

(** Stand-ins for the libraries: exact domains; every prefix text denotes one address. *)
#[export] Instance libs : RuleLibs :=
  {| IsIP a := bool_decide (is_Some (sa_addr a));
     IsIPv4 a := match sa_addr a with Some a => addr_width a =? 32 | None => false end;
     IsIPv6 a := match sa_addr a with Some a => addr_width a =? 128 | None => false end;
     Socksaddr_IsValid a := bool_decide (is_Some (sa_addr a)) || bool_decide (sa_fqdn a <> "");
     IsPublicAddr a := negb (Z.shiftr (addr_bits a) 24 =? 10);
     domainMatch ds _ host := bool_decide (host ∈ ds);
     adGuardMatch l host := bool_decide (host ∈ l);
     compileRegexp _ := None;
     regexpMatch x host := Contains host x;
     parsePrefixOrAddr _ := None;
     ipSetContains l a := nonempty l && bool_decide (a = Some home) |}.

#[export] Instance matchers : MatcherLibs :=
  {| Matcher := list string * list string;
     Matcher_Match m host := bool_decide (host ∈ m.1);
     AdGuardMatcher := list string;
     AdGuardMatcher_Match m host := bool_decide (host ∈ m);
     IPSet_Contains set a := existsb (fun r => bool_decide (range_from r = a)) set |}.

(** A list as its elements, each after a one, and a final zero. *)
Definition putList {A} (w : A -> list Z) (l : list A) : list Z := concat (map (fun x => 1 :: w x) l) ++ [0].

Fixpoint getList {A} (fuel : nat) (p : Parser A) : Parser (list A) := fun s =>
  match fuel with
  | O => None
  | S fuel => (b ← readByte; if b =? 0 then mret [] else x ← p; xs ← getList fuel p; mret (x :: xs)) s
  end.

Definition run {A} (p : nat -> Parser A) : Source -> res error (A * Source) := fun s =>
  match p (S (length (rest s))) s with Some r => r | None => Err (New "fuel") end.

Lemma reads_getList {A} fuel (p : Parser A) w l :
  Forall (fun x => reads p (w x) x) l -> (length l < fuel)%nat -> reads (getList fuel p) (putList w l) l.
Proof.
  intros Hl. revert fuel. induction Hl as [|x l Hx _ IH]; intros [|fuel] Hf; simpl in Hf; try lia; [done|].
  unfold putList. cbn [map concat app]. rewrite <- app_assoc. fold (putList w l).
  change (reads (b ← readByte; if b =? 0 then mret [] else x ← p; xs ← getList fuel p; mret (x :: xs)) ([1] ++ w x ++ putList w l) (x :: l)).
  eapply reads_bind; [apply reads_readByte|]. cbn [Z.eqb]. eapply reads_bind; [exact Hx|].
  rewrite <- (app_nil_r (putList w l)). eapply reads_bind; [apply IH; lia | apply reads_ret].
Qed.

Lemma yields_getList {A} fuel (p : Parser A) s : (forall s, yields 0 p s) -> (length (rest s) < fuel)%nat -> yields 1 (getList fuel p) s.
Proof.
  intros Hp. revert s. induction fuel as [|fuel IH]; intros s Hf; [lia|].
  change (yields 1 (b ← readByte; if b =? 0 then mret [] else x ← p; xs ← getList fuel p; mret (x :: xs)) s).
  apply (yields_bind 1 0); [apply yields_readByte|]. intros b s1 H1. case_match; [apply yields_ret|].
  apply (yields_bind 0 0); [apply Hp|]. intros x s2 H2. apply (yields_le (1 + 0)); [lia|].
  apply yields_bind; [apply IH; lia|]. intros. apply yields_ret.
Qed.

Lemma putList_length {A} (w : A -> list Z) l : (length l < length (putList w l))%nat.
Proof.
  unfold putList. rewrite length_app. pose proof (concat_length (fun x => 1 :: w x) l ltac:(done)) as Hc. simpl. lia.
Qed.

Lemma decodes_run {A} (p : nat -> Parser A) l a :
  (forall fuel, (length l < fuel)%nat -> reads (p fuel) l a) -> decodes (run p) l a.
Proof. intros Hp tl en. unfold run. rewrite Hp; [done|]. simpl. rewrite length_app. lia. Qed.

Lemma shrinks_run {A} (p : nat -> Parser A) : (forall fuel s, (length (rest s) < fuel)%nat -> yields 0 (p fuel) s) -> shrinks (run p).
Proof.
  intros Hp s a s'. unfold run. specialize (Hp (S (length (rest s))) s ltac:(lia)). unfold yields in Hp.
  destruct (p _ s) as [[[b s2]|]|]; [|done|done]. intros [= -> ->]. lia.
Qed.

(** Lists of bytes, of 16-bit numbers, of strings and of pairs of byte lists. *)
Definition putChars (s : string) : list Z := putList (fun c => [Z.of_N (code c)]) (bytes s).
Definition getChars (fuel : nat) : Parser string :=
  l ← getList fuel readByte; mret (ofBytes ((fun b => ascii_of_N (Z.to_N b)) <$> l)).

Lemma reads_getChars fuel s : (length (putChars s) <= fuel)%nat -> reads (getChars fuel) (putChars s) s.
Proof.
  intros Hf. unfold getChars, putChars in *.
  assert (reads (getList fuel readByte) (putList (fun b => [b]) ((fun c => Z.of_N (code c)) <$> bytes s)) ((fun c => Z.of_N (code c)) <$> bytes s)) as Hr.
  { apply reads_getList; [apply Forall_true; intros; apply reads_readByte|].
    rewrite length_fmap. pose proof (putList_length (fun c => [Z.of_N (code c)]) (bytes s)). lia. }
  replace (putList _ (bytes s)) with (putList (fun b => [b]) ((fun c => Z.of_N (code c)) <$> bytes s))
    by (unfold putList, fmap, list_fmap; do 2 f_equal; clear; induction (bytes s) as [|c l IH]; simpl; [done | by rewrite IH]).
  replace s with (ofBytes ((fun b => ascii_of_N (Z.to_N b)) <$> ((fun c => Z.of_N (code c)) <$> bytes s))) at 2.
  - apply (reads_then_ret _ (fun l => ofBytes ((fun b => ascii_of_N (Z.to_N b)) <$> l))), Hr.
  - rewrite <- list_fmap_compose. rewrite <- (String.string_of_list_ascii_of_string s) at 2. f_equal. rewrite <- (list_fmap_id (bytes s)) at 2.
    apply list_fmap_ext. intros i c _. simpl. rewrite N2Z.id. apply ascii_N_embedding.
Qed.

Lemma yields_getChars fuel s : (length (rest s) < fuel)%nat -> yields 0 (getChars fuel) s.
Proof.
  intros Hf. apply (yields_le (1 + 0)); [lia|]. apply yields_bind; [|intros; apply yields_ret].
  apply yields_getList; [|done]. intros. apply (yields_le 1); [lia | apply yields_readByte].
Qed.

Definition putStrings (l : list string) : list Z := putList putChars l.
(** The inner lists end where the outer fuel does. *)
Definition getStrings (fuel : nat) : Parser (list string) := getList fuel (fun s => getChars (S (length (rest s))) s).

Lemma reads_getStrings fuel l : (length (putStrings l) < fuel)%nat -> reads (getStrings fuel) (putStrings l) l.
Proof.
  intros Hf. apply reads_getList; [|pose proof (putList_length putChars l); unfold putStrings in Hf; lia].
  apply Forall_true. intros s tl en. apply reads_getChars. simpl. rewrite length_app. lia.
Qed.

Lemma yields_getStrings fuel s : (length (rest s) < fuel)%nat -> yields 0 (getStrings fuel) s.
Proof.
  intros Hf. apply (yields_le 1); [lia|]. apply yields_getList; [|done]. intros s'.
  exact (yields_getChars (S (length (rest s'))) s' ltac:(lia)).
Qed.

Definition putMatcher (m : list string * list string) : list Z := putStrings m.1 ++ putStrings m.2.
Definition getMatcher (fuel : nat) : Parser (list string * list string) := ds ← getStrings fuel; ss ← getStrings fuel; mret (ds, ss).

Definition getRange (fuel : nat) : Parser (list Z * list Z) := a ← getList fuel readByte; b ← getList fuel readByte; mret (a, b).
Definition putRange (d : list Z * list Z) : list Z := putList (fun b => [b]) d.1 ++ putList (fun b => [b]) d.2.

#[export] Instance srs : SrsLibs :=
  {| newMatcher ds ss _ := (ds, ss);
     writeMatcher := putMatcher;
     readMatcher := run getMatcher;
     dumpMatcher m := m;
     newAdGuard l := l;
     writeAdGuard := putStrings;
     readAdGuard := run getStrings;
     dumpAdGuard l := l;
     writeUvarint := putUvarint;
     writeStrings := putStrings;
     readStrings := run getStrings;
     writeUint8s := putList (bePut 1);
     readUint8s := run (fun fuel => getList fuel (readUint 1));
     writeUint16s := putList (bePut 2);
     readUint16s := run (fun fuel => getList fuel (readUint 2));
     writeBytes := putList (fun b => [b]);
     readBytes := run (fun fuel => getList fuel readByte);
     readUint8 := run (fun _ => readUint 1);
     writeRange := putRange;
     readRanges n := run (fun fuel => readN fuel (fun _ => getRange fuel) 0 n);
     AddrFromIP l := if (length l =? 4)%nat then Some (mkAddr 32 (be l))
                     else if (length l =? 16)%nat then Some (mkAddr 128 (be l)) else None;
     builderIPSet l := Ok (if nonempty l then [mkRange (Some home) (Some home)] else []);
     prefixesOf set := (fun _ => "10.0.0.1/32") <$> set;
     typedPut m k v := if bool_decide (k ∈ m.*1) then (fun e => if e.1 =? k then (k, v) else e) <$> m else m ++ [(k, v)];
     zlibWrite l := 120 :: l;
     zlibRead s := match rest s with 120 :: l => Ok (mkSource l None) | _ => Err (New "zlib: invalid header") end;
     makeLimit := 2 ^ 32 |}.

Lemma yields_getRange fuel s : (length (rest s) < fuel)%nat -> yields 1 (getRange fuel) s.
Proof.
  intros Hf. apply (yields_bind 1 0); [apply yields_getList; [intros; apply (yields_le 1); [lia | apply yields_readByte] | done]|].
  intros a s1 H1. apply (yields_le (1 + 0)); [lia|].
  apply yields_bind; [apply yields_getList; [intros; apply (yields_le 1); [lia | apply yields_readByte] | lia]|]. intros. apply yields_ret.
Qed.

#[export] Instance srs_readers : SrsReaders.
Proof.
  assert (forall n fuel s, (length (rest s) < fuel)%nat -> yields 0 (getList fuel (readUint n)) s) as Huints.
  { intros n fuel s Hf. apply (yields_le 1); [lia|]. apply yields_getList; [|done]. intros. apply (yields_le n); [lia | apply yields_readUint]. }
  split; try (apply shrinks_run; first [apply yields_getStrings | apply Huints]).
  - apply shrinks_run. intros fuel s Hf. apply (yields_bind 0 0); [by apply yields_getStrings|]. intros ds s1 H1.
    apply (yields_bind 0 0); [apply yields_getStrings; lia|]. intros. apply yields_ret.
  - apply shrinks_run. intros fuel s Hf. apply (yields_le 1); [lia|]. apply yields_getList; [|done].
    intros. apply (yields_le 1); [lia | apply yields_readByte].
  - intros s b s'. unfold readUint8, srs, run. pose proof (yields_readUint 1 s) as Hy. unfold yields in Hy.
    destruct (readUint 1 s) as [[[b' s2]|]|]; [|done|done]. intros [= -> ->]. lia.
  - intros n. apply shrinks_run. intros fuel s Hf. apply yields_readN; [|done]. intros j s' Hs'. apply (yields_le 1); [lia|]. apply yields_getRange. lia.
Qed.

Lemma reads_getRange fuel d : (length (putRange d) < fuel)%nat -> reads (getRange fuel) (putRange d) d.
Proof.
  destruct d as [a b]. unfold putRange, getRange. cbn [fst snd]. rewrite length_app. intros Hf.
  pose proof (putList_length (fun b : Z => [b]) a). pose proof (putList_length (fun b : Z => [b]) b).
  eapply reads_bind; [apply reads_getList; [apply Forall_true; intros; apply reads_readByte | lia]|].
  apply (reads_then_ret (getList fuel readByte) (pair a)). apply reads_getList; [apply Forall_true; intros; apply reads_readByte | lia].
Qed.

#[export] Instance srs_codecs : SrsCodecs.
Proof.
  assert (forall n l, Forall (fun b => 0 <= b < 256 ^ Z.of_nat n) l ->
    decodes (run (fun fuel => getList fuel (readUint n))) (putList (bePut n) l) l) as Huints.
  { intros n l Hl. apply decodes_run. intros fuel Hf. apply reads_getList; [|pose proof (putList_length (bePut n) l); lia].
    eapply Forall_impl; [exact Hl|]. intros b Hb. by apply reads_readUint. }
  split.
  - intros ds ss legacy. apply decodes_run. intros fuel Hf. unfold writeMatcher, newMatcher, srs, putMatcher in *. cbn [fst snd] in *.
    rewrite length_app in Hf. eapply reads_bind; [apply reads_getStrings; lia|].
    apply (reads_then_ret (getStrings fuel) (pair ds)). apply reads_getStrings. lia.
  - intros l. apply decodes_run. intros. by apply reads_getStrings.
  - intros l. apply decodes_run. intros. by apply reads_getStrings.
  - intros l Hl. by apply (Huints 1%nat).
  - intros l Hl. by apply (Huints 2%nat).
  - intros l Hl. apply decodes_run. intros fuel Hf. apply reads_getList; [apply Forall_true; intros; apply reads_readByte|].
    pose proof (putList_length (fun b : Z => [b]) l). unfold writeBytes, srs in Hf. lia.
  - intros b Hb. apply decodes_run. intros _ _. by apply reads_uint8.
  - intros l _ _. apply decodes_run. intros fuel Hf. apply reads_readN; [|lia|].
    + revert Hf. induction l as [|d l IH]; intros Hf; [constructor|]. simpl in Hf. rewrite length_app in Hf. unfold srs, writeRange in Hf.
      constructor; [intros _; apply reads_getRange; simpl; lia | apply IH; unfold writeRange, srs; lia].
    + pose proof (concat_length (@writeRange _ srs) l) as Hc. assert (length l <= length (concat (map writeRange l)))%nat; [|lia].
      apply Hc. intros d Hn. apply (f_equal length) in Hn. unfold writeRange, srs, putRange, putList in Hn. rewrite !length_app in Hn. simpl in Hn. lia.
  - intros n Hn. by apply reads_ReadUvarint.
  - intros [w bits] [[E|E] Hb]; simpl in E, Hb; subst w; unfold AddrFromIP, srs, AsSlice; cbn [addr_width addr_bits];
      rewrite bePut_length; cbn -[be bePut]; by rewrite be_bePut.
  - intros m k v Hk. unfold typedPut, srs. by rewrite bool_decide_eq_false_2.
  - done.
  - done.
Qed.

#[export] Instance srs_matchers : SrsMatchers.
Proof.
  split; [done | done | |].
  - intros [|x l] set Hb Hl; [done|]. injection Hb as <-. split; [done|]. split; [|done]. apply Forall_singleton.
    exists home, home. split; [done|]. split; [done|]. split; by split; [left|].
  - intros [|x l] set a Hb; injection Hb as <-; simpl; [done|]. rewrite orb_false_r. apply bool_decide_ext. split; congruence.
Qed.

(** A rule on domains, addresses and interfaces, and a negated pair of rules on ports. *)
Definition siteRule : DefaultHeadlessRule :=
  mkHeadless [] ["tcp"] ["example.com"] [] ["internal"] [] [] ["10.0.0.1"] [] [] [] [] [] [] [] [] [1] true false [] []
    (Some [(1, [mkPrefix home 8]); (2, [])]) [mkPrefix (mkAddr 128 1) 64] false None None None ["ads.example.com"] None.
Definition portsRule (ports : list Z) : DefaultHeadlessRule :=
  mkHeadless [1] [] [] [] [] [] ["10.0.0.1"] [] [] [] ports ["1000:2000"] [] [] [] [] [] false false [] []
    None [] true None None None [] None.
Definition sources : list HeadlessRule :=
  [HeadlessDefault siteRule; HeadlessLogical "or" [HeadlessDefault (portsRule [80; 443]); HeadlessDefault (portsRule [53])] true].

#[export] Instance uint16_dec b : Decision (uint16 b).
Proof. unfold uint16. apply _. Defined.
#[export] Instance uint8_dec b : Decision (uint8 b).
Proof. unfold uint8. apply _. Defined.

Lemma portsRule_ok ports : Forall uint16 ports -> source_ok (portsRule ports).
Proof. intros Hp. split; [decide_vm | decide_vm | exact Hp | decide_vm | done | split; decide_vm | done]. Qed.

Lemma siteRule_ok : source_ok siteRule.
Proof.
  split; [decide_vm | decide_vm | decide_vm | decide_vm | | split; decide_vm | done].
  intros l [= <-]. split; [done|]. split; [decide_vm|]. split; [done | decide_vm].
Qed.

Lemma sources_ok : Forall source_rule sources.
Proof.
  constructor; [by constructor; apply siteRule_ok|]. constructor; [|constructor]. constructor; [done|].
  constructor; [constructor; apply portsRule_ok; decide_vm|]. constructor; [constructor; apply portsRule_ok; decide_vm | constructor].
Qed.

Definition compiled : list Z := match Write sources 4 with Ok file => file | Err _ => [] end.
Definition fromSource : list rule :=
  match eachRule (fun i => "parse rule_set.rules.[" +:+ Itoa i +:+ "]") (NewHeadlessRule true) 0 sources with Ok rs => rs | Err _ => [] end.

(** A file that claims 2^63 - 1 rules. *)
Definition huge : list Z := [83; 82; 83; 4; 120; 255; 255; 255; 255; 255; 255; 255; 255; 127].

Lemma Read_ends_witness :
  is_Some (Read true (mkSource huge None)) /\
  Read true (mkSource huge None) = Some (Err (New "panic: makeslice: len out of range")).
Proof. split; [exact (Read_ends true (mkSource huge None)) | vm_compute; reflexivity]. Defined.
End SrsSample.
