(* ===== verification/Geosite.v ===== *)
(** * The geosite database (src/fork/sing-box/common/geosite)

    A file of domain lists by code: a table of codes with the place and the length of their lists,
    then the lists.  Bytes are read with [Wire]'s parsers; what varbin of package sing writes and
    reads at the types in use is [GeositeLibs].  A reader keeps the whole file, from which it reads
    at any place. *)

From S2P Require Import Prelude GoStrings Wire.
From stdpp Require Import sorting.

#[local] Open Scope Z_scope.

Definition RuleTypeDomain : Z := 0.
Definition RuleTypeDomainSuffix : Z := 1.
Definition RuleTypeDomainKeyword : Z := 2.
Definition RuleTypeDomainRegex : Z := 3.

Record Item := mkItem { it_Type : Z; it_Value : string }.

#[export] Instance Item_eq_dec : EqDecision Item.
Proof. solve_decision. Defined.

Class GeositeLibs := {
  writeItem : Item -> list Z;
  writeString : string -> list Z;
  readString : Parser string;
  (** [varbin.Read] into a slice of that many items. *)
  readItems : Z -> Parser (list Item);
  (** The longest slice [make] can allocate. *)
  makeLimit : Z
}.

Class GeositeLaws `{GeositeLibs} : Prop := {
  string_reads s : reads readString (writeString s) s;
  items_read l : l <> [] -> reads (readItems (Z.of_nat (length l))) (concat (writeItem <$> l)) l;
  (** A string takes a byte at least, for its length. *)
  string_yields s : yields 1 readString s;
  limit_range : 0 <= makeLimit < 2 ^ 63
}.

Definition stringLe (s t : string) : Prop := String.leb s t = true.
#[export] Instance stringLe_dec s t : Decision (stringLe s t).
Proof. unfold stringLe. apply _. Defined.

(** ** Writing *)

Section Write.
Context `{GeositeLibs} `{MapOrder}.
Implicit Types (domains : gmap string (list Item)).

Definition sortedKeys domains : list string := merge_sort stringLe (go_range 0 domains).*1.

Definition itemsOf domains (code : string) : list Item := default [] (domains !! code).
Definition contentOf domains (codes : list string) : list Z := concat ((fun code => concat (writeItem <$> itemsOf domains code)) <$> codes).

(** The place of each list in the content. *)
Fixpoint indexLoop domains (keys : list string) (index : gmap string Z) (content : list Z) : gmap string Z * list Z :=
  match keys with
  | [] => (index, content)
  | code :: keys =>
      indexLoop domains keys (<[code := Z.of_nat (length content)]> index) (content ++ concat (writeItem <$> itemsOf domains code))
  end.

Definition writeEntry domains (index : gmap string Z) (code : string) : list Z :=
  writeString code ++ putUvarint (default 0 (index !! code)) ++ putUvarint (Z.of_nat (length (itemsOf domains code))).

Definition Write domains : list Z :=
  let keys := sortedKeys domains in
  let (index, content) := indexLoop domains keys ∅ [] in
  [0] ++ putUvarint (Z.of_nat (length keys)) ++ concat (writeEntry domains index <$> keys) ++ content.
End Write.

(** ** Reading *)

Record Reader := mkReader { file : list Z; metadataIndex : Z; domainIndex : gmap string Z; domainLength : gmap string Z }.

(** A conversion of [uint64] to [int]. *)
Definition toInt (z : Z) : Z := if z <? 2 ^ 63 then z else z - 2 ^ 64.

Section Read.
Context `{GeositeLibs} `{MapOrder}.

Definition readEntry : Parser (string * Z * Z) :=
  code ← readString; codeIndex ← ReadUvarint; codeLength ← ReadUvarint; mret (code, toInt codeIndex, toInt codeLength).

Definition addEntry (tables : gmap string Z * gmap string Z) (e : string * Z * Z) : gmap string Z * gmap string Z :=
  (<[e.1.1 := e.1.2]> tables.1, <[e.1.1 := e.2]> tables.2).

(** [readMetadata]; the length of the file bounds the entries that can be read. *)
Definition readMetadata (fuel : nat) : Parser (gmap string Z * gmap string Z) :=
  version ← readByte;
  if negb (version =? 0) then fail (New "unknown version") else
  entryLength ← ReadUvarint;
  if makeLimit <? entryLength then fail (New "panic: makeslice: len out of range") else
  entries ← readN fuel (fun _ => readEntry) 0 (toInt entryLength);
  mret (foldl addEntry (∅, ∅) entries).

(** [NewReader]: the reader and the codes; [None] when the fuel runs out. *)
Definition NewReader (bytes : list Z) : option (res error (Reader * list string)) :=
  match readMetadata (S (length bytes)) (mkSource bytes None) with
  | Some (Ok ((index, lengths), remaining)) =>
      Some (Ok (mkReader bytes (Z.of_nat (length bytes - length (rest remaining))) index lengths, (go_range 1 index).*1))
  | Some (Err e) => Some (Err e)
  | None => None
  end.

Definition Reader_Read (code : string) (r : Reader) : option (res error (list Item)) :=
  match domainIndex r !! code with
  | None => Some (Err (New ("code " +:+ code +:+ " not exists!")))
  | Some index =>
      let offset := metadataIndex r + index in
      if offset <? 0 then Some (Err (New "seek: negative position")) else
      let n := default 0 (domainLength r !! code) in
      if (n <? 0) || (makeLimit <? n) then Some (Err (New "panic: makeslice: len out of range")) else
      match readItems n (mkSource (drop (Z.to_nat offset) (file r)) None) with
      | Some (Ok (items, _)) => Some (Ok items)
      | Some (Err e) => Some (Err e)
      | None => None
      end
  end.
End Read.

(** ** Rules *)

(** The fields of [option.DefaultRule] that lists of domains become. *)
Record DomainRule := mkDomainRule { Domain : list string; DomainSuffix : list string; DomainKeyword : list string; DomainRegex : list string }.

Definition appendItem (r : DomainRule) (i : Item) : DomainRule :=
  if it_Type i =? RuleTypeDomain then mkDomainRule (Domain r ++ [it_Value i]) (DomainSuffix r) (DomainKeyword r) (DomainRegex r)
  else if it_Type i =? RuleTypeDomainSuffix then mkDomainRule (Domain r) (DomainSuffix r ++ [it_Value i]) (DomainKeyword r) (DomainRegex r)
  else if it_Type i =? RuleTypeDomainKeyword then mkDomainRule (Domain r) (DomainSuffix r) (DomainKeyword r ++ [it_Value i]) (DomainRegex r)
  else if it_Type i =? RuleTypeDomainRegex then mkDomainRule (Domain r) (DomainSuffix r) (DomainKeyword r) (DomainRegex r ++ [it_Value i])
  else r.
Definition emptyRule : DomainRule := mkDomainRule [] [] [] [].
Definition Compile (code : list Item) : DomainRule := foldl appendItem emptyRule code.

Definition appendRule (r sub : DomainRule) : DomainRule :=
  mkDomainRule (Domain r ++ Domain sub) (DomainSuffix r ++ DomainSuffix sub) (DomainKeyword r ++ DomainKeyword sub) (DomainRegex r ++ DomainRegex sub).
Definition Merge (rules : list DomainRule) : DomainRule := foldl appendRule emptyRule rules.

(** Merging the rules of lists is compiling the lists together. *)
Lemma appendItem_rule r s i : appendRule r (appendItem s i) = appendItem (appendRule r s) i.
Proof. unfold appendItem. repeat (destruct (_ =? _); [unfold appendRule; cbn; by rewrite (assoc_L (++))|]). done. Qed.
Lemma Compile_from r l : foldl appendItem r l = appendRule r (Compile l).
Proof.
  unfold Compile. induction l as [|i l IH] using rev_ind; [unfold appendRule; cbn; rewrite !app_nil_r; by destruct r|]. rewrite !foldl_app. cbn. by rewrite IH, appendItem_rule.
Qed.
Lemma Merge_compiled (ls : list (list Item)) : Merge (Compile <$> ls) = Compile (concat ls).
Proof.
  unfold Merge. assert (forall r, foldl appendRule r (Compile <$> ls) = foldl appendItem r (concat ls)) as Hf; [|apply Hf].
  induction ls as [|l ls IH]; intros r; [done|]. cbn [fmap list_fmap foldl concat]. rewrite IH, foldl_app. by rewrite (Compile_from r l).
Qed.

(** ** What was written is read *)

(** The tables from the entries of distinct codes. *)
Lemma addEntry_tables (es : list (string * Z * Z)) t e : NoDup ((fun e => e.1.1) <$> es) -> e ∈ es ->
  (foldl addEntry t es).1 !! e.1.1 = Some e.1.2 /\ (foldl addEntry t es).2 !! e.1.1 = Some e.2.
Proof.
  revert t. induction es as [|x es IH]; intros t Hnd Hin; [by apply elem_of_nil in Hin|]. cbn in Hnd. apply NoDup_cons in Hnd as [Hx Hnd]. cbn.
  apply elem_of_cons in Hin as [->|Hin]; [|by apply IH].
  assert (forall t, (foldl addEntry t es).1 !! x.1.1 = t.1 !! x.1.1 /\ (foldl addEntry t es).2 !! x.1.1 = t.2 !! x.1.1) as Hk; [|destruct (Hk (addEntry t x)) as [-> ->]; cbn; by rewrite !lookup_insert_eq].
  clear -Hx. induction es as [|y es IH]; intros t; [done|]. apply not_elem_of_cons in Hx as [Hy Hx]. cbn. destruct (IH Hx (addEntry t y)) as [-> ->].
  cbn. by rewrite !lookup_insert_ne by done.
Qed.
Lemma addEntry_dom (es : list (string * Z * Z)) t : dom (foldl addEntry t es).1 = dom t.1 ∪ list_to_set ((fun e => e.1.1) <$> es).
Proof. revert t. induction es as [|x es IH]; intros t; cbn; [set_solver|]. rewrite IH. cbn. rewrite dom_insert_L. set_solver. Qed.

Section Roundtrip.
Context `{GeositeLaws} `{MapOrder}.
Implicit Types (domains : gmap string (list Item)).

Lemma contentOf_snoc domains codes code : contentOf domains (codes ++ [code]) = contentOf domains codes ++ concat (writeItem <$> itemsOf domains code).
Proof using Type. unfold contentOf. rewrite fmap_app, concat_app. cbn. by rewrite app_nil_r. Qed.

(** The lists stand where the table says. *)
Lemma indexLoop_spec domains before keys index :
  NoDup (before ++ keys) -> (forall pre code post, before = pre ++ code :: post -> index !! code = Some (Z.of_nat (length (contentOf domains pre)))) ->
  let r := indexLoop domains keys index (contentOf domains before) in
  r.2 = contentOf domains (before ++ keys) /\
  forall pre code post, before ++ keys = pre ++ code :: post -> r.1 !! code = Some (Z.of_nat (length (contentOf domains pre))).
Proof using Type.
  revert before index. induction keys as [|k keys IH]; intros before index Hnd Hi; cbn [indexLoop]; [rewrite app_nil_r in *; done|].
  rewrite <-contentOf_snoc. rewrite (cons_middle k before keys), (assoc_L (++)) in *. apply IH; [done|]. intros pre code post E. destruct post as [|x post _] using rev_ind.
  - apply app_inj_tail in E as [-> ->]. by rewrite lookup_insert_eq.
  - rewrite app_comm_cons, (assoc_L (++)) in E. apply app_inj_tail in E as [-> ->]. rewrite lookup_insert_ne; [by eapply Hi|].
    intros ->. apply NoDup_app in Hnd as [Hnd _]. apply NoDup_app in Hnd as (_ & Hnd & _). apply (Hnd code); [apply elem_of_app; right; by left|by left].
Qed.

Lemma sortedKeys_NoDup domains : NoDup (sortedKeys domains).
Proof using Type. unfold sortedKeys. rewrite merge_sort_Permutation. apply NoDup_fst_go_range. Qed.
Lemma sortedKeys_elem domains code : code ∈ sortedKeys domains <-> is_Some (domains !! code).
Proof using Type.
  unfold sortedKeys. rewrite merge_sort_Permutation, list_elem_of_fmap. split.
  - intros ([k v] & -> & Hin). exists v. by apply elem_of_go_range in Hin.
  - intros [v Hv]. exists (code, v). split; [done|]. by apply elem_of_go_range.
Qed.

Lemma toInt_small z : 0 <= z < 2 ^ 63 -> toInt z = z.
Proof using Type. intros Hz. unfold toInt. by rewrite (proj2 (Z.ltb_lt _ _)) by lia. Qed.

Lemma reads_entry domains index code : 0 <= default 0 (index !! code) < 2 ^ 63 -> Z.of_nat (length (itemsOf domains code)) < 2 ^ 63 ->
  reads readEntry (writeEntry domains index code) (code, default 0 (index !! code), Z.of_nat (length (itemsOf domains code))).
Proof using H0.
  intros Hi Hn. unfold readEntry, writeEntry. eapply reads_bind; [apply string_reads|]. eapply reads_bind; [apply reads_ReadUvarint; lia|].
  rewrite <-(app_nil_r (putUvarint (Z.of_nat _))). eapply reads_bind; [apply reads_ReadUvarint; lia|]. rewrite !toInt_small by lia. apply reads_ret.
Qed.


Lemma writeString_length s : (1 <= length (writeString s))%nat.
Proof using H0.
  pose proof (string_reads s [] None) as Hr. pose proof (string_yields (mkSource (writeString s ++ []) None)) as Hy. unfold yields in Hy. rewrite Hr in Hy.
  cbn in Hy. rewrite length_app in Hy. cbn in Hy. lia.
Qed.
Lemma entries_length domains index keys : (length keys <= length (concat (writeEntry domains index <$> keys)))%nat.
Proof using H0.
  induction keys as [|k keys IH]; [done|]. cbn [fmap list_fmap concat]. rewrite length_app. unfold writeEntry at 1. rewrite !length_app. pose proof (writeString_length k). cbn [length]. lia.
Qed.

(** The list of a code inside the content. *)
Lemma contentOf_split domains pre code post : contentOf domains (pre ++ code :: post) =
  contentOf domains pre ++ concat (writeItem <$> itemsOf domains code) ++ contentOf domains post.
Proof using Type. unfold contentOf. by rewrite fmap_app, concat_app. Qed.

(** The file: a head with the table, and the lists where the table says. *)
Definition headOf domains (index : gmap string Z) : list Z :=
  [0] ++ putUvarint (Z.of_nat (length (sortedKeys domains))) ++ concat (writeEntry domains index <$> sortedKeys domains).
Definition entryOf domains (index : gmap string Z) (c : string) : string * Z * Z := (c, default 0 (index !! c), Z.of_nat (length (itemsOf domains c))).

Lemma Write_layout domains : exists index, Write domains = headOf domains index ++ contentOf domains (sortedKeys domains) /\
  forall pre c post, sortedKeys domains = pre ++ c :: post -> index !! c = Some (Z.of_nat (length (contentOf domains pre))).
Proof using Type.
  destruct (indexLoop_spec domains [] (sortedKeys domains) ∅ (sortedKeys_NoDup domains)) as [Hcontent Hindex]; [intros pre c post E; by destruct pre|].
  cbn [app] in Hcontent, Hindex. change (contentOf domains []) with (@nil Z) in Hcontent, Hindex. unfold Write, headOf.
  destruct (indexLoop domains (sortedKeys domains) ∅ []) as [index content]. exists index. cbn in Hcontent, Hindex. subst content. split; [|done]. by rewrite <-!(assoc_L (++)).
Qed.

Lemma reads_head domains index fuel :
  (forall c, c ∈ sortedKeys domains -> 0 <= default 0 (index !! c) < 2 ^ 63 /\ Z.of_nat (length (itemsOf domains c)) <= makeLimit) ->
  Z.of_nat (size domains) <= makeLimit -> (length (headOf domains index) <= fuel)%nat ->
  reads (readMetadata fuel) (headOf domains index) (foldl addEntry (∅, ∅) (entryOf domains index <$> sortedKeys domains)).
Proof using H0.
  intros Hranges Hsize Hfuel. pose proof limit_range as Hlim. assert (length (sortedKeys domains) = size domains) as Hkeys.
  { unfold sortedKeys. rewrite merge_sort_Permutation, length_fmap, go_range_perm. apply length_map_to_list. }
  unfold readMetadata. unfold headOf in Hfuel |- *. eapply reads_bind; [apply reads_readByte|]. cbn [negb Z.eqb]. eapply reads_bind; [apply reads_ReadUvarint; lia|].
  rewrite (proj2 (Z.ltb_ge _ _)), toInt_small by lia. rewrite <-(app_nil_r (concat _)). eapply reads_bind; [|apply reads_ret].
  apply reads_readN; [|by rewrite length_fmap|rewrite length_fmap].
  - apply Forall2_fmap, Forall_Forall2_diag, Forall_forall. intros c Hc _. destruct (Hranges c Hc). apply reads_entry; lia.
  - rewrite !length_app in Hfuel. pose proof (entries_length domains index (sortedKeys domains)). lia.
Qed.

Lemma entryOf_codes domains index (keys : list string) : (fun e : string * Z * Z => e.1.1) <$> (entryOf domains index <$> keys) = keys.
Proof using Type. rewrite <-list_fmap_compose. apply list_fmap_id. Qed.

(** The codes of the table. *)
Lemma listed_codes (es : list (string * Z * Z)) c : c ∈ (go_range 1 (foldl addEntry (∅, ∅) es).1).*1 <-> c ∈ (fun e => e.1.1) <$> es.
Proof using Type.
  set (t := (foldl addEntry (∅, ∅) es).1). assert (c ∈ (go_range 1 t).*1 <-> c ∈ dom t) as ->.
  { rewrite elem_of_dom, list_elem_of_fmap. split; [intros ([k v] & -> & Hin); exists v; by apply elem_of_go_range in Hin|].
    intros [v Hv]. exists (c, v). split; [done|]. by apply elem_of_go_range. }
  unfold t. rewrite addEntry_dom. cbn [fst]. rewrite dom_empty_L. split.
  - intros [Hx|Hx]%elem_of_union; [by apply elem_of_empty in Hx|by apply elem_of_list_to_set in Hx].
  - intros Hx. apply elem_of_union. right. by apply elem_of_list_to_set.
Qed.

(** What the file of some domain lists gives back, code by code: the list that was written.  The
    codes a reader lists are those written. *)
Theorem geosite_roundtrip domains code items :
  domains !! code = Some items -> items <> [] -> Z.of_nat (length (Write domains)) < 2 ^ 63 ->
  Z.of_nat (size domains) <= makeLimit -> (forall c l, domains !! c = Some l -> Z.of_nat (length l) <= makeLimit) ->
  exists r codes, NewReader (Write domains) = Some (Ok (r, codes)) /\ (forall c, c ∈ codes <-> is_Some (domains !! c)) /\
    Reader_Read code r = Some (Ok items).
Proof using H0.
  intros Hcode Hne Hlen Hsize Hitems. destruct (Write_layout domains) as (index & Hwrite & Hix).
  assert (forall c, c ∈ sortedKeys domains -> 0 <= default 0 (index !! c) < 2 ^ 63 /\ Z.of_nat (length (itemsOf domains c)) <= makeLimit) as Hranges.
  { intros c Hc. destruct (proj1 (sortedKeys_elem domains c) Hc) as [l Hl]. unfold itemsOf. rewrite Hl. split; [|by eapply Hitems].
    apply list_elem_of_split in Hc as (pre & post & Hc). rewrite (Hix pre c post Hc). cbn. rewrite Hwrite, Hc, contentOf_split, !length_app in Hlen. lia. }
  set (es := entryOf domains index <$> sortedKeys domains). eexists (mkReader (Write domains) (Z.of_nat (length (headOf domains index))) _ _), _. split.
  { unfold NewReader. rewrite Hwrite at 2. rewrite (reads_head domains index _ Hranges Hsize) by (rewrite Hwrite, length_app; lia). fold es.
    rewrite (surjective_pairing (foldl addEntry (∅, ∅) es)). cbn [rest]. rewrite Hwrite, length_app, Nat.add_sub. reflexivity. }
  split; [intros c; rewrite listed_codes; unfold es; rewrite entryOf_codes; apply sortedKeys_elem|].
  assert (code ∈ sortedKeys domains) as Hin by (apply sortedKeys_elem; by eexists). destruct (Hranges code Hin) as [Hr1 Hr2].
  destruct (addEntry_tables es (∅, ∅) (entryOf domains index code)) as [E1 E2]; [unfold es; rewrite entryOf_codes; apply sortedKeys_NoDup|by apply list_elem_of_fmap_2|].
  apply list_elem_of_split in Hin as (pre & post & Hsplit). assert (itemsOf domains code = items) as Hitem by (unfold itemsOf; by rewrite Hcode).
  cbn in E1, E2. rewrite Hitem in E2, Hr2. rewrite (Hix pre code post Hsplit) in E1. cbn in E1.
  unfold Reader_Read. cbn [domainIndex domainLength metadataIndex file]. rewrite E1, E2. cbn [default from_option id].
  rewrite (proj2 (Z.ltb_ge _ 0)), (proj2 (Z.ltb_ge (Z.of_nat (length items)) 0)), (proj2 (Z.ltb_ge makeLimit _)) by lia. cbn [orb].
  assert (drop (Z.to_nat (Z.of_nat (length (headOf domains index)) + Z.of_nat (length (contentOf domains pre)))) (Write domains) =
    concat (writeItem <$> items) ++ contentOf domains post) as ->; [|by rewrite (items_read items Hne)].
  rewrite Hwrite, Hsplit, contentOf_split, Hitem. replace (Z.to_nat _) with (length (headOf domains index) + length (contentOf domains pre))%nat by lia.
  by rewrite <-drop_drop, drop_app_length, drop_app_length.
Qed.

(** Reading any file ends. *)
Lemma NewReader_ends bytes : NewReader bytes <> None.
Proof using H0.
  unfold NewReader. assert (yields 0 (readMetadata (S (length bytes))) (mkSource bytes None)) as Hy.
  { unfold readMetadata. apply (yields_le (1 + 0)); [lia|]. apply yields_bind; [apply yields_readByte|]. intros v s1 Hs1. destruct (negb _); [apply yields_fail|].
    apply (yields_le (1 + 0)); [lia|]. apply yields_bind; [apply yields_ReadUvarint|]. intros n s2 Hs2. destruct (makeLimit <? n); [apply yields_fail|].
    apply (yields_bind 0 0); [|intros; apply yields_ret]. apply yields_readN; [|cbn in *; lia]. intros _ s' _. unfold readEntry.
    apply (yields_le (1 + 0)); [lia|]. apply yields_bind; [apply string_yields|]. intros c s3 _. apply (yields_le (1 + 0)); [lia|].
    apply yields_bind; [apply yields_ReadUvarint|]. intros i s4 _. apply (yields_le (1 + 0)); [lia|]. apply yields_bind; [apply yields_ReadUvarint|]. intros k s5 _. apply yields_ret. }
  unfold yields in Hy. destruct (readMetadata _ _) as [[[[ix ls] s]|e]|]; done.
Qed.
End Roundtrip.

(** ** Two codes; a string is its bytes, each behind a 1, and a 0 *)

Module GeositeSample.
#[local] Instance order : MapOrder := canonical_order.
Fixpoint putString (s : string) : list Z := match s with EmptyString => [0] | String c s => 1 :: Z.of_N (code c) :: putString s end.
Fixpoint takeString (l : list Z) : option (string * list Z) :=
  match l with
  | 0 :: l => Some (EmptyString, l)
  | 1 :: b :: l => '(s, l) ← takeString l; Some (String (ascii_of_N (Z.to_N b)) s, l)
  | _ => None
  end.
Definition stringParser : Parser string := fun s =>
  Some (match takeString (rest s) with Some (t, l) => Ok (t, mkSource l (ending s)) | None => Err (New "bad string") end).
Fixpoint itemsParser (n : nat) : Parser (list Item) :=
  match n with
  | O => mret []
  | S n => t ← readByte; v ← stringParser; l ← itemsParser n; mret (mkItem t v :: l)
  end.
#[local] Instance libs : GeositeLibs := {|
  writeItem := fun i => [it_Type i] ++ putString (it_Value i);
  writeString := putString; readString := stringParser;
  readItems := fun n => itemsParser (Z.to_nat n);
  makeLimit := 2 ^ 48
|}.

Lemma takeString_put s l : takeString (putString s ++ l) = Some (s, l).
Proof. induction s as [|c s IH]; [done|]. cbn. rewrite IH. cbn. unfold code. by rewrite N2Z.id, ascii_N_embedding. Qed.
Lemma takeString_shorter l s k : takeString l = Some (s, k) -> (length k < length l)%nat.
Proof.
  revert s k. induction l as [l IH] using (induction_ltof1 _ (@length Z)). unfold ltof in IH. intros s k. destruct l as [|[|p|p] l]; cbn; try done.
  - intros [= _ <-]. cbn. lia.
  - destruct p as [p|p|]; try done. destruct l as [|b l]; [done|]. destruct (takeString l) as [[t l']|] eqn:E; [|done]. cbn. intros [= _ <-].
    apply IH in E; cbn; lia.
Qed.
Lemma reads_string s : reads stringParser (putString s) s.
Proof. intros tl en. unfold stringParser. cbn [rest ending]. by rewrite takeString_put. Qed.
#[local] Instance laws : GeositeLaws.
Proof.
  constructor.
  - apply reads_string.
  - intros l _. cbn [readItems libs writeItem]. rewrite Nat2Z.id. induction l as [|[t v] l IH]; [apply reads_ret|]. cbn [fmap list_fmap concat length itemsParser it_Type it_Value].
    rewrite <-!(assoc_L (++)). eapply reads_bind; [apply reads_readByte|]. eapply reads_bind; [apply reads_string|]. rewrite <-(app_nil_r (concat _)).
    eapply reads_bind; [exact IH|]. apply reads_ret.
  - intros s. unfold yields. cbn. destruct (takeString (rest s)) as [[t l]|] eqn:E; [|done]. apply takeString_shorter in E. cbn. lia.
  - cbn. lia.
Qed.

Definition lists : gmap string (list Item) := {[ "cn" := [mkItem 0 "a.cn"; mkItem 1 "cn"]; "ads" := [mkItem 2 "ad"] ]}.

Lemma geosite_roundtrip_witness : exists r codes, NewReader (Write lists) = Some (Ok (r, codes)) /\ Reader_Read "cn" r = Some (Ok [mkItem 0 "a.cn"; mkItem 1 "cn"]).
Proof.
  destruct (geosite_roundtrip lists "cn" [mkItem 0 "a.cn"; mkItem 1 "cn"]) as (r & codes & Hn & _ & Hr).
  - reflexivity.
  - done.
  - vm_compute. reflexivity.
  - vm_compute. congruence.
  - intros c l Hl. unfold lists in Hl. apply lookup_insert_Some in Hl as [[_ <-]|[_ Hl]]; [vm_compute; congruence|].
    apply lookup_singleton_Some in Hl as [_ <-]. vm_compute. congruence.
  - exists r, codes. split; [exact Hn|exact Hr].
Defined.
End GeositeSample.
