(* ===== verification/RuleSet.v ===== *)
(** * Rule sets (src/fork/sing-box/route/rule/rule_set_local.go, rule_set_remote.go and
    rule_item_rule_set.go)

    A rule set is loaded from its options or from a file, reloaded when the file changes, and
    referred to by the rule items that use it.  Its operations are steps on its state, each under
    the set's lock or atomic.  The file system, the JSON decoder and the file watcher are
    [RuleSetLibs].  A panic is an error whose text starts with "panic". *)

From S2P Require Import Prelude GoStrings Wire Rules RuleBuild Headless Srs.

#[local] Open Scope Z_scope.

Record RuleSetMetadata := mkMetadata {
  ContainsProcessRule : bool;
  ContainsWIFIRule : bool;
  ContainsIPCIDRRule : bool
}.

#[export] Instance RuleSetMetadata_eq_dec : EqDecision RuleSetMetadata.
Proof. solve_decision. Defined.

(** [LocalRuleSet]; a callback is known by its list element. *)
Record LocalRuleSet := mkLocal {
  ls_tag : string;
  ls_fileFormat : string;
  ls_rules : list rule;
  ls_metadata : RuleSetMetadata;
  ls_watcher : bool;
  ls_callbacks : list Z;
  ls_nextElement : Z;
  ls_refs : Z
}.

(** [option.RuleSet]. *)
Record RuleSetOptions `{MatcherLibs} := mkRuleSetOptions {
  rs_Type : string;
  rs_Tag : string;
  rs_Format : string;
  rs_Inline : list HeadlessRule;
  rs_Path : string
}.

Class RuleSetLibs `{MatcherLibs} := {
  (** [filemanager.BasePath] and [filepath.Abs]. *)
  absPath : string -> string;
  readFile : string -> res error (list Z);
  openFile : string -> res error Source;
  (** [json.UnmarshalExtended] of a rule set: its version and rules. *)
  decodeJSON : list Z -> res error (Z * list HeadlessRule);
  newWatcher : string -> option error
}.

(** The signed 32-bit counter of references. *)
Definition wrap32 (z : Z) : Z := (z + 2 ^ 31) mod 2 ^ 32 - 2 ^ 31.

Section RuleSets.
Context `{RuleLibs} `{SrsLibs} `{!RuleSetLibs}.
Variable networkManager : bool.
Implicit Types (s : LocalRuleSet).

Definition setRules (rules : list rule) s : LocalRuleSet :=
  mkLocal (ls_tag s) (ls_fileFormat s) rules (ls_metadata s) (ls_watcher s) (ls_callbacks s) (ls_nextElement s) (ls_refs s).
Definition setRefs (refs : Z) s : LocalRuleSet :=
  mkLocal (ls_tag s) (ls_fileFormat s) (ls_rules s) (ls_metadata s) (ls_watcher s) (ls_callbacks s) (ls_nextElement s) refs.

(** The rules and the metadata of options. *)
Definition buildRules (rules : list HeadlessRule) : res error (list rule) :=
  eachRule (fun i => "parse rule_set.rules.[" +:+ Itoa i +:+ "]") (NewHeadlessRule networkManager) 0 rules.
Definition metadataOf (rules : list HeadlessRule) : RuleSetMetadata :=
  mkMetadata (HasHeadlessRule rules isProcessHeadlessRule) (HasHeadlessRule rules isWIFIHeadlessRule)
    (HasHeadlessRule rules isIPCIDRHeadlessRule).

(** [reloadRules]: the error or the callbacks that are called, and the set. *)
Definition reloadRules (rules : list HeadlessRule) s : res error (list Z) * LocalRuleSet :=
  match buildRules rules with
  | Err e => (Err e, s)
  | Ok built =>
      (Ok (ls_callbacks s),
       mkLocal (ls_tag s) (ls_fileFormat s) built (metadataOf rules) (ls_watcher s) (ls_callbacks s) (ls_nextElement s) (ls_refs s))
  end.

(** [PlainRuleSetCompat.Upgrade]. *)
Definition Upgrade (version : Z) (rules : list HeadlessRule) : res error (list HeadlessRule) :=
  if (1 <=? version) && (version <=? RuleSetVersionCurrent) then Ok rules
  else Err (New ("unknown rule-set version: " +:+ Itoa version)).

Definition srsRead (s : Source) : res error (Z * list HeadlessRule) :=
  match Read false s with Some r => r | None => Err (New "srs: reading did not end") end.

(** The rules of a file in the set's format. *)
Definition loadFile (format path : string) : res error (list HeadlessRule) :=
  '(version, rules) ←
    (if bool_decide (format = "source") || bool_decide (format = "") then content ← readFile path; decodeJSON content
     else if bool_decide (format = "binary") then file ← openFile path; srsRead file
     else Err (New ("unknown rule-set format: " +:+ format)));
  Upgrade version rules.

Definition reloadFile (path : string) s : res error (list Z) * LocalRuleSet :=
  match loadFile (ls_fileFormat s) path with Err e => (Err e, s) | Ok rules => reloadRules rules s end.

(** [NewLocalRuleSet]. *)
Definition emptyLocal (o : RuleSetOptions) : LocalRuleSet :=
  mkLocal (rs_Tag o) (rs_Format o) [] (mkMetadata false false false) false [] 0 0.

Definition NewLocalRuleSet (o : RuleSetOptions) : res error LocalRuleSet :=
  if bool_decide (rs_Type o = "inline") then
    if negb (nonempty (rs_Inline o)) then Err (New "empty inline rule-set") else
    match reloadRules (rs_Inline o) (emptyLocal o) with (Err e, _) => Err e | (Ok _, s) => Ok s end
  else
    let path := absPath (rs_Path o) in
    match reloadFile path (emptyLocal o) with
    | (Err e, _) => Err e
    | (Ok _, s) =>
        match newWatcher path with
        | Some e => Err e
        | None => Ok (mkLocal (ls_tag s) (ls_fileFormat s) (ls_rules s) (ls_metadata s) true (ls_callbacks s) (ls_nextElement s) (ls_refs s))
        end
    end.

(** [NewRuleSet]; a remote set is made, and refuses to start in this build. *)
Inductive AnyRuleSet := Local (s : LocalRuleSet) | Remote (tag : string).

Definition NewRuleSet (o : RuleSetOptions) : res error AnyRuleSet :=
  if bool_decide (rs_Type o ∈ ["inline"; "local"; ""]) then Local <$> NewLocalRuleSet o
  else if bool_decide (rs_Type o = "remote") then Ok (Remote (rs_Tag o))
  else Err (New ("unknown rule-set type: " +:+ rs_Type o)).

Definition StartContext (s : AnyRuleSet) : option error :=
  match s with
  | Local _ => None
  | Remote tag => Some (New ("remote rule-sets are not compiled into this build: " +:+ tag))
  end.

(** ** Operations of a set in use *)

Definition IncRef s : LocalRuleSet := setRefs (wrap32 (ls_refs s + 1)) s.
Definition DecRef s : res error LocalRuleSet :=
  let s := setRefs (wrap32 (ls_refs s - 1)) s in
  if ls_refs s <? 0 then Err (New "panic: rule-set: negative refs") else Ok s.
Definition Cleanup s : LocalRuleSet := if ls_refs s =? 0 then setRules [] s else s.
Definition RegisterCallback s : Z * LocalRuleSet :=
  (ls_nextElement s,
   mkLocal (ls_tag s) (ls_fileFormat s) (ls_rules s) (ls_metadata s) (ls_watcher s) (ls_callbacks s ++ [ls_nextElement s])
     (ls_nextElement s + 1) (ls_refs s)).
Definition UnregisterCallback (element : Z) s : LocalRuleSet :=
  mkLocal (ls_tag s) (ls_fileFormat s) (ls_rules s) (ls_metadata s) (ls_watcher s)
    (List.filter (fun c => negb (c =? element)) (ls_callbacks s)) (ls_nextElement s) (ls_refs s).
Definition Close s : LocalRuleSet := setRules [] s.
Definition ExtractIPSet s : list (option Addr -> bool) := concat (map extractIPSetFromRule (ls_rules s)).

Definition Match (e : Surroundings) (m : Facts) `{UnicodeTables} `{MapOrder} s (c : RuleCache) : bool * RuleCache :=
  anyS (matchRule e m) (ls_rules s) c.

(** ** Rule items on sets *)

(** [RuleSetItem.Start]: the sets of the tags, each with one more reference. *)
Fixpoint startItem (tags : list string) (sets : gmap string LocalRuleSet) : res error (gmap string LocalRuleSet) :=
  match tags with
  | [] => Ok sets
  | tag :: tags =>
      match sets !! tag with
      | None => Err (New ("rule-set not found: " +:+ tag))
      | Some s => startItem tags (<[tag := IncRef s]> sets)
      end
  end.

Definition ContainsDestinationIPCIDRRule (ipCidrMatchSource : bool) (setList : list LocalRuleSet) : bool :=
  if ipCidrMatchSource then false else existsb (fun s => ContainsIPCIDRRule (ls_metadata s)) setList.

(** ** Steps *)

Inductive op := OpReload (path : string) | OpIncRef | OpDecRef | OpCleanup | OpRegister | OpUnregister (element : Z) | OpClose.

(** One operation; [DecRef] panics are not survived. *)
Definition exec (o : op) s : option LocalRuleSet :=
  match o with
  | OpReload path => Some (reloadFile path s).2
  | OpIncRef => Some (IncRef s)
  | OpDecRef => match DecRef s with Ok s => Some s | Err _ => None end
  | OpCleanup => Some (Cleanup s)
  | OpRegister => Some (RegisterCallback s).2
  | OpUnregister element => Some (UnregisterCallback element s)
  | OpClose => Some (Close s)
  end.

Inductive reachable (o : RuleSetOptions) : LocalRuleSet -> Prop :=
| reach_new s : NewLocalRuleSet o = Ok s -> reachable o s
| reach_step s x s' : reachable o s -> exec x s = Some s' -> reachable o s'.
End RuleSets.

(** ** What a set in use holds *)

Section Invariant.
Context `{RuleLibs} `{SrsLibs} `{!RuleSetLibs}.
Variable networkManager : bool.
Implicit Types (s : LocalRuleSet).

Definition groupOf (g : group) (b : builder) : list item :=
  match g with
  | GItems => b_items b
  | GSourceAddress => b_sourceAddress b
  | GSourcePort => b_sourcePort b
  | GDestinationAddress => b_destinationAddress b
  | GDestinationIPCIDR => b_destinationIPCIDR b
  | GDestinationPort => b_destinationPort b
  end.

Lemma groupOf_append g g' it b : groupOf g (append g' it b) = if bool_decide (g' = g) then groupOf g b ++ [it] else groupOf g b.
Proof using Type. by destruct g, g'. Qed.

(** A group holds the items of the branches that apply and go into it. *)
Lemma foldl_group g brs b b' :
  foldl addBranch (Ok b) brs = Ok b' ->
  exists its, groupOf g b' = groupOf g b ++ its /\
    Forall2 (fun br it => build br = Ok it) (List.filter (fun br => applies br && bool_decide (into br = g)) brs) its.
Proof using Type.
  revert b. induction brs as [|br brs IH]; intros b Hb; cbn [foldl List.filter] in *.
  - injection Hb as <-. exists []. by rewrite app_nil_r.
  - unfold addBranch at 2 in Hb. cbn [mbind res_bind] in Hb. destruct (applies br); cbn [andb]; [|by apply IH].
    destruct (build br) as [it|] eqn:E; cbn [mbind res_bind] in Hb; [|by rewrite foldl_addBranch_Err in Hb].
    destruct (IH _ Hb) as (its & Hg & Hits). rewrite groupOf_append in Hg. case_bool_decide; [|by exists its].
    exists (it :: its). rewrite Hg, <- app_assoc. split; [done|]. by constructor.
Qed.

Definition isIPItem (it : item) : Prop := itemIPSet it <> [].

Lemma Forall2_singletons {A B} (P : A -> B -> Prop) (Q : B -> Prop) l k :
  Forall2 P l k -> Forall (fun x => forall y, P x y -> Q y) l -> Forall Q k.
Proof using Type. induction 1; intros Hl; constructor; apply Forall_cons in Hl as [??]; eauto. Qed.

Lemma cidr_builds_ip isSource label l g cond it :
  build (leafE cond g (Cause label (NewIPCIDRItem isSource l))) = Ok it -> isIPItem it.
Proof using Type. unfold NewIPCIDRItem. simpl. destruct (checkEach _ _ _ _); [by intros [= <-] | done]. Qed.

Lemma raw_builds_ip isSource texts g set it :
  build (rawLeaf texts g set (fun x : IPSet => RawIPCIDRItem isSource (IPSet_Contains x))) = Ok it -> isIPItem it.
Proof using Type. destruct set; [by intros [= <-] | done]. Qed.

Notation inGroup g := (fun br => applies br && bool_decide (into br = g)).

Lemma into_rawLeaf {A} texts g (x : option A) f : into (rawLeaf texts g x f) = g.
Proof using Type. by destruct x. Qed.

Lemma into_other g br brs : into br <> g -> List.filter (inGroup g) (br :: brs) = List.filter (inGroup g) brs.
Proof using Type. intros Hg. simpl. by rewrite bool_decide_eq_false_2, andb_false_r by done. Qed.

Lemma into_same g br brs rest :
  into br = g -> List.filter (inGroup g) brs = List.filter applies rest ->
  List.filter (inGroup g) (br :: brs) = List.filter applies (br :: rest).
Proof using Type. intros Hg Hr. simpl. rewrite bool_decide_eq_true_2, andb_true_r, Hr by done. done. Qed.

(** The two branches of the destination addresses. *)
Lemma ip_branches o :
  List.filter (inGroup GDestinationIPCIDR) (headlessBranches networkManager o) =
  List.filter applies
    [ leafE (nonempty (h_IPCIDR o)) GDestinationIPCIDR (Cause "ipcidr" (NewIPCIDRItem false (h_IPCIDR o)));
      rawLeaf (nonempty (h_IPCIDR o)) GDestinationIPCIDR (h_IPSet o) (fun x => RawIPCIDRItem false (IPSet_Contains x)) ].
Proof using Type.
  unfold headlessBranches.
  do 7 (rewrite into_other by (rewrite ?into_rawLeaf; discriminate)).
  do 2 (apply into_same; [rewrite ?into_rawLeaf; reflexivity|]).
  do 17 (rewrite into_other by (rewrite ?into_rawLeaf; discriminate)). done.
Qed.

Lemma default_IPSets o r :
  NewDefaultHeadlessRule networkManager o = Ok r -> nonempty (extractIPSetFromRule r) = isIPCIDRHeadlessRule o.
Proof using Type.
  unfold NewDefaultHeadlessRule. intros Hn. res_inv. rename x into b.
  destruct (foldl_group GDestinationIPCIDR _ _ _ ltac:(eassumption)) as (its & Hg & Hits). cbn [finish extractIPSetFromRule].
  change (b_destinationIPCIDR b) with (groupOf GDestinationIPCIDR b). rewrite Hg. cbn [groupOf emptyBuilder b_destinationIPCIDR app].
  assert (Forall isIPItem its /\ length its = if isIPCIDRHeadlessRule o then 1%nat else 0%nat) as [Hip Hlen].
  { rewrite ip_branches in Hits. split.
    - eapply Forall2_singletons; [exact Hits|]. apply List.Forall_forall. intros br Hbr. apply filter_In in Hbr as [[<-|[<-|[]]] _].
      + apply cidr_builds_ip.
      + apply raw_builds_ip.
    - rewrite <- (Forall2_length _ _ _ Hits). unfold isIPCIDRHeadlessRule. by destruct (h_IPCIDR o), (h_IPSet o). }
  destruct (isIPCIDRHeadlessRule o), its as [|it its]; simpl in Hlen; try lia; [|done].
  apply Forall_cons in Hip as [Hip _]. unfold isIPItem in Hip. simpl. by destruct (itemIPSet it).
Qed.

Lemma concat_nonempty {A} (ls : list (list A)) : nonempty (concat ls) = existsb nonempty ls.
Proof using Type. induction ls as [|l ls IH]; [done|]. destruct l; [exact IH | done]. Qed.

Lemma eachRule_Ok label (f : HeadlessRule -> res error rule) i rules rs :
  eachRule label f i rules = Ok rs -> Forall2 (fun h r => f h = Ok r) rules rs.
Proof using Type.
  revert i rs. induction rules as [|h rules IH]; intros i rs Hr; cbn [eachRule] in Hr; [by injection Hr as <-|].
  res_inv. constructor; [by eapply Cause_Ok | by eapply IH].
Qed.

Lemma existsb_Forall2 {A B} (f : A -> bool) (g : B -> bool) l k : Forall2 (fun x y => g y = f x) l k -> existsb g k = existsb f l.
Proof using Type. induction 1 as [|x y l k Hxy _ IH]; simpl; [done|]. by rewrite Hxy, IH. Qed.

Lemma rule_IPSets h : forall r, NewHeadlessRule networkManager h = Ok r ->
  nonempty (extractIPSetFromRule r) = HasHeadlessRule1 isIPCIDRHeadlessRule h.
Proof using Type.
  induction h as [o|mode rules invert IH] using headlessInd; intros r Hn; cbn [NewHeadlessRule] in Hn; destruct (Headless_IsValid _); try done;
    cbn [negb] in Hn.
  - by apply default_IPSets.
  - res_inv. cbn [extractIPSetFromRule HasHeadlessRule1]. rewrite concat_nonempty.
    match goal with He : eachRule _ _ _ _ = Ok ?l |- _ => apply eachRule_Ok in He; rename l into rs, He into Hrs end.
    induction Hrs as [|h r rules rs Hr _ IHr]; [done|]. apply Forall_cons in IH as [Hh IH]. simpl. by rewrite (Hh r Hr), IHr.
Qed.

(** The IP sets of built rules are there exactly when the metadata says so. *)
Lemma built_IPSets rules rs :
  buildRules networkManager rules = Ok rs -> ContainsIPCIDRRule (metadataOf rules) = nonempty (concat (map extractIPSetFromRule rs)).
Proof using Type.
  intros Hb. apply eachRule_Ok in Hb. rewrite concat_nonempty. simpl. unfold HasHeadlessRule.
  induction Hb as [|h r rules rs Hr _ IH]; [done|]. simpl. by rewrite IH, (rule_IPSets h r Hr).
Qed.

(** Where the rules of a set came from: its inline options, or a file. *)
Definition loadedFrom (o : RuleSetOptions) (rules : list HeadlessRule) : Prop :=
  rules = rs_Inline o \/ exists path, loadFile (rs_Format o) path = Ok rules.

(** The rules and the metadata are those of one load; the rules may be dropped. *)
Definition consistent (o : RuleSetOptions) s : Prop :=
  ls_fileFormat s = rs_Format o /\
  exists rules built, loadedFrom o rules /\ buildRules networkManager rules = Ok built /\
    ls_metadata s = metadataOf rules /\ (ls_rules s = built \/ ls_rules s = []).

Lemma reloadRules_consistent o rules s cbs s' :
  ls_fileFormat s = rs_Format o -> loadedFrom o rules -> reloadRules networkManager rules s = (Ok cbs, s') -> consistent o s'.
Proof using Type.
  intros Hf Hl. unfold reloadRules. destruct (buildRules networkManager rules) as [built|] eqn:E; [|done]. intros [= <- <-].
  split; [done|]. exists rules, built. repeat split; by auto.
Qed.

Lemma reloadFile_cases path s :
  (exists er, reloadFile networkManager path s = (Err er, s)) \/
  (exists rules cbs s', loadFile (ls_fileFormat s) path = Ok rules /\ reloadRules networkManager rules s = (Ok cbs, s') /\
     reloadFile networkManager path s = (Ok cbs, s')).
Proof using Type.
  unfold reloadFile. destruct (loadFile _ path) as [rules|er]; [|left; by exists er].
  destruct (reloadRules networkManager rules s) as [[cbs|er] s'] eqn:E.
  - right. by exists rules, cbs, s'.
  - left. exists er. unfold reloadRules in E. by destruct (buildRules networkManager rules); simplify_eq.
Qed.

Lemma exec_consistent o x s s' : consistent o s -> exec networkManager x s = Some s' -> consistent o s'.
Proof using Type.
  intros Hc. pose proof Hc as (Hf & rules & built & Hl & Hb & Hm & Hr). destruct x; cbn [exec].
  - intros [= <-]. destruct (reloadFile_cases path s) as [(er & ->)|(rules' & cbs & s1 & Hload & Hre & ->)]; [exact Hc|].
    eapply reloadRules_consistent; [exact Hf | right; rewrite <- Hf; by eexists | exact Hre].
  - intros [= <-]. split; [done|]. by exists rules, built.
  - unfold DecRef. cbv zeta. destruct (_ <? 0); [done|]. intros [= <-]. split; [done|]. by exists rules, built.
  - intros [= <-]. unfold Cleanup. case_match; [|done]. split; [done|]. exists rules, built. by auto.
  - intros [= <-]. split; [done|]. by exists rules, built.
  - intros [= <-]. split; [done|]. by exists rules, built.
  - intros [= <-]. split; [done|]. exists rules, built. by auto.
Qed.

Lemma New_consistent o s : NewLocalRuleSet networkManager o = Ok s -> consistent o s.
Proof using Type.
  unfold NewLocalRuleSet. destruct (bool_decide _).
  - destruct (negb _); [done|]. destruct (reloadRules networkManager (rs_Inline o) (emptyLocal o)) as [[cbs|] s1] eqn:E; [|done]. intros [= <-].
    eapply reloadRules_consistent; [|by left | exact E]. done.
  - destruct (reloadFile_cases (absPath (rs_Path o)) (emptyLocal o)) as [(er & ->)|(rules & cbs & s1 & Hload & Hre & ->)]; [done|].
    destruct (newWatcher _); [done|]. intros [= <-].
    destruct (reloadRules_consistent o rules (emptyLocal o) cbs s1) as (Hf & Hc); [done | right; by eexists | exact Hre|]. by split.
Qed.

(** C20. A rule set in use holds the rules and the metadata of one and the same load, or has dropped its
    rules; its metadata reports an address condition exactly when the loaded rules have IP sets. *)
Theorem rule_set_is_one_load (o : RuleSetOptions) (s : LocalRuleSet) :
  reachable networkManager o s ->
  exists rules built, loadedFrom o rules /\ buildRules networkManager rules = Ok built /\
    ls_metadata s = metadataOf rules /\ (ls_rules s = built \/ ls_rules s = []) /\
    ContainsIPCIDRRule (ls_metadata s) = nonempty (concat (map extractIPSetFromRule built)).
Proof using Type.
  intros Hr. assert (consistent o s) as (_ & rules & built & Hl & Hb & Hm & Hrules).
  { induction Hr as [s Hn|s x s' _ IH Hx]; [by apply New_consistent | by eapply exec_consistent]. }
  exists rules, built. rewrite Hm. by rewrite <- (built_IPSets rules built Hb).
Qed.

(** A reload that fails leaves the set as it was and calls nothing; one that succeeds installs the
    rules and the metadata of the file and calls every registered callback. *)
Theorem reload_all_or_nothing (path : string) (s : LocalRuleSet) :
  match reloadFile networkManager path s with
  | (Err _, s') => s' = s
  | (Ok called, s') =>
      called = ls_callbacks s /\
      exists rules, loadFile (ls_fileFormat s) path = Ok rules /\ buildRules networkManager rules = Ok (ls_rules s') /\
        ls_metadata s' = metadataOf rules /\ ls_refs s' = ls_refs s /\ ls_callbacks s' = ls_callbacks s
  end.
Proof using Type.
  unfold reloadFile. destruct (loadFile _ path) as [rules|]; [|done]. unfold reloadRules.
  destruct (buildRules networkManager rules) as [built|] eqn:E; [|done]. split; [done|]. by exists rules.
Qed.
End Invariant.

(** ** Compiled sets *)

Section Compiled.
Context `{UnicodeTables} `{MapOrder} `{RuleLibs} `{SrsLibs} `{!RuleSetLibs} `{!SrsCodecs} `{!SrsMatchers}.
Variable networkManager : bool.

Lemma loaded_isIPCIDR v o bs : source_ok o -> writeDefaultRule o v = Ok bs -> isIPCIDRHeadlessRule (loaded v false o) = isIPCIDRHeadlessRule o.
Proof using Type.
  intros [_ _ _ _ _ _ (E1 & E2 & E3 & E4)] Hw. unfold writeDefaultRule in Hw. res_inv.
  match goal with Ha : writeAll _ = Ok _ |- _ => destruct (writeAll_cidr v o _ Ha) as [_ Hdst] end.
  unfold isIPCIDRHeadlessRule. rewrite E3. unfold_loaded. rewrite none_builtSet by done. unfold empty. rewrite negb_involutive, orb_false_r.
  replace (nonempty _) with false; [done|]. by destruct (builtSet _).
Qed.

Lemma loaded_metadata v rules bs :
  Forall source_rule rules -> eachBytes (fun h => writeRule h v) rules = Ok bs -> metadataOf (map (loadedRule v false) rules) = metadataOf rules.
Proof using Type.
  intros Hs Hw. apply eachBytes_each in Hw. unfold metadataOf, HasHeadlessRule.
  assert (forall cond, (forall o bs, source_ok o -> writeDefaultRule o v = Ok bs -> cond (loaded v false o) = cond o) ->
    existsb (HasHeadlessRule1 cond) (map (loadedRule v false) rules) = existsb (HasHeadlessRule1 cond) rules) as Hhas.
  { intros cond Hcond. induction Hs as [|h rules Hh _ IH]; [done|]. apply Forall_cons in Hw as [[b Hb] Hw]. simpl. rewrite IH by done.
    by erewrite loaded_has. }
  rewrite !Hhas; [done | by intros; eapply loaded_isIPCIDR | done | done].
Qed.

(** C19. A rule set loaded from a compiled file behaves as the set with the source rules inline: where
    the inline set can be made, the file loads, with the same metadata, and both match every
    connection alike in every state of the rule cache. *)
Theorem binary_set_behaves_as_inline (v : Z) (file : list Z) (en : option error) (inline binary : RuleSetOptions) (s : LocalRuleSet) :
  1 <= v <= RuleSetVersionCurrent -> Z.of_nat (length (rs_Inline inline)) <= makeLimit -> Forall source_rule (rs_Inline inline) ->
  Write (rs_Inline inline) v = Ok file ->
  rs_Type inline = "inline" -> rs_Type binary = "local" -> rs_Format binary = "binary" ->
  openFile (absPath (rs_Path binary)) = Ok (mkSource file en) -> newWatcher (absPath (rs_Path binary)) = None ->
  NewLocalRuleSet networkManager inline = Ok s ->
  exists s', NewLocalRuleSet networkManager binary = Ok s' /\ ls_metadata s' = ls_metadata s /\
    forall e m c, Match e m s' c = Match e m s c.
Proof using All.
  intros Hv Hn Hs Hw Ei Eb Ef Ho Hwt Hnew. unfold NewLocalRuleSet in Hnew. rewrite Ei in Hnew.
  rewrite bool_decide_eq_true_2 in Hnew by done.
  destruct (negb (nonempty (rs_Inline inline))); [done|]. unfold reloadRules in Hnew.
  destruct (buildRules networkManager (rs_Inline inline)) as [rs|] eqn:Hb; [|done]. injection Hnew as <-.
  destruct (compiled_rules_alike networkManager v (rs_Inline inline) file en rs Hv Hn Hs Hw Hb) as (HR & rs' & Hrs' & Hmatch).
  assert (loadFile "binary" (absPath (rs_Path binary)) = Ok (map (loadedRule v false) (rs_Inline inline))) as Hload.
  { unfold loadFile. change (bool_decide ("binary" = "source") || bool_decide ("binary" = "")) with false.
    change (bool_decide ("binary" = "binary")) with true. cbv iota. rewrite Ho. cbn [mbind res_bind]. unfold srsRead. rewrite HR.
    cbn [mbind res_bind]. unfold Upgrade, RuleSetVersionCurrent in *. by replace ((1 <=? v) && (v <=? 4)) with true by lia. }
  change (buildRules networkManager (map (loadedRule v false) (rs_Inline inline)) = Ok rs') in Hrs'.
  unfold NewLocalRuleSet. rewrite Eb. rewrite bool_decide_eq_false_2 by discriminate. cbv zeta. unfold reloadFile.
  cbn [ls_fileFormat emptyLocal]. rewrite Ef, Hload. unfold reloadRules. rewrite Hrs', Hwt. eexists. split; [done|]. cbn [ls_metadata]. split.
  - unfold Write, writeRules in Hw. res_inv. by eapply loaded_metadata.
  - intros e m c. unfold Match. cbn [ls_rules]. by rewrite Hmatch.
Qed.

(** The query-type conditions of a rule set are decoded, compiled and loaded, and have no effect: a
    rule that has no other condition matches every connection. *)
Theorem query_type_is_ignored (types : list Z) (e : Surroundings) (m : Facts) (c : RuleCache) :
  types <> [] ->
  exists r, NewHeadlessRule networkManager (HeadlessDefault (set_QueryType types (zeroHeadless false))) = Ok r /\ matchRule e m r c = (true, c).
Proof using Type.
  intros Ht. destruct types as [|t types]; [done|]. exists (finish emptyBuilder false). split; [|reflexivity]. by destruct networkManager.
Qed.
End Compiled.

(** ** Examples *)

Module RuleSetSample.
Import SrsSample.

#[export] Instance setLibs : RuleSetLibs :=
  {| absPath p := p;
     readFile _ := Err (New "no such file");
     openFile p := if bool_decide (p = "/etc/rules.srs") then Ok (mkSource compiled None) else Err (New "no such file");
     decodeJSON _ := Err (New "bad JSON");
     newWatcher _ := None |}.

Definition inline : RuleSetOptions := mkRuleSetOptions _ "inline" "sites" "" sources "".
Definition binary : RuleSetOptions := mkRuleSetOptions _ "local" "sites" "binary" [] "/etc/rules.srs".
Definition inlineSet : LocalRuleSet := match NewLocalRuleSet true inline with Ok s => s | Err _ => emptyLocal inline end.
Definition binarySet : LocalRuleSet := match NewLocalRuleSet true binary with Ok s => s | Err _ => emptyLocal binary end.

Lemma binary_set_behaves_as_inline_witness :
  length (ls_rules inlineSet) = 2%nat /\
  exists s', NewLocalRuleSet true binary = Ok s' /\ ls_metadata s' = ls_metadata inlineSet /\
    forall e m c, Match e m s' c = Match e m inlineSet c.
Proof.
  split; [vm_compute; reflexivity|].
  exact (binary_set_behaves_as_inline true 4 compiled None inline binary inlineSet ltac:(done) ltac:(done) sources_ok
    ltac:(vm_compute; reflexivity) eq_refl eq_refl eq_refl eq_refl eq_refl ltac:(vm_compute; reflexivity)).
Defined.

Lemma rule_set_is_one_load_witness :
  let s := Close (IncRef binarySet) in
  exists rules built, loadedFrom binary rules /\ buildRules true rules = Ok built /\
    ls_metadata s = metadataOf rules /\ (ls_rules s = built \/ ls_rules s = []) /\
    ContainsIPCIDRRule (ls_metadata s) = nonempty (concat (map extractIPSetFromRule built)).
Proof.
  intros s. apply (rule_set_is_one_load true binary s).
  apply (reach_step true binary (IncRef binarySet) OpClose s); [|reflexivity].
  apply (reach_step true binary binarySet OpIncRef (IncRef binarySet)); [|reflexivity].
  apply reach_new. vm_compute. reflexivity.
Defined.

Lemma query_type_is_ignored_witness :
  exists r, NewHeadlessRule true (HeadlessDefault (set_QueryType [1; 28] (zeroHeadless false))) = Ok r /\
    matchRule RuleSample.quietNetwork (RuleSample.connection "in" "example.com" 1 443) r (fresh false) = (true, fresh false).
Proof.
  exact (query_type_is_ignored true [1; 28] RuleSample.quietNetwork (RuleSample.connection "in" "example.com" 1 443) (fresh false) ltac:(discriminate)).
Defined.
End RuleSetSample.
