(* ===== verification/Sniff.v ===== *)
(** * Protocol sniffing (src/fork/sing-box/common/sniff, and actionSniff of route/route.go)

    Before a connection is routed its first bytes or packets are read ahead and shown to the
    sniffers, which note the protocol, the domain and the client in the connection's metadata.
    What was read is kept and handed on.

    A sniffer gives [None] for a panic, else the metadata it leaves and its error.  The parsers of
    other packages are [SniffLibs]: TLS and HTTP heads, DNS messages, and QUIC, whose decryption
    is not modelled.  Failures of a read deadline show as the errors of reads. *)

From S2P Require Import Prelude GoStrings Wire Rules.

#[local] Open Scope Z_scope.

(** ** Errors *)

Definition ErrNeedMoreData : error := New "need more data".
Definition ErrInvalid : error := New "invalid argument".
Definition ErrShortBuffer : error := New "short buffer".

(** [E.Cause1(ErrNeedMoreData, err)]: an error that wraps both. *)
Definition NeedMore (cause : error) : error := Error "" [ErrNeedMoreData; cause].

(** [errors.Is(err, ErrNeedMoreData)]: somewhere in the tree. *)
Fixpoint isNeedMore (e : error) : bool :=
  match e with Error msg causes => (bool_decide (msg = "need more data") && match causes with [] => true | _ => false end) || existsb isNeedMore causes end.

(** [E.Errors]: the errors joined. *)
Definition Errors (es : list error) : option error :=
  match es with [] => None | [e] => Some e | _ => Some (Error "errors" es) end.

(** ** Metadata *)

Record SniffInfo := mkInfo {
  i_Protocol : string;
  i_Domain : string;
  i_Client : string;
  i_Destination : Socksaddr;
  i_SnifferNames : list string;
  i_SniffError : option error
}.

Definition setProtocol (p : string) (i : SniffInfo) : SniffInfo :=
  mkInfo p (i_Domain i) (i_Client i) (i_Destination i) (i_SnifferNames i) (i_SniffError i).
Definition setDomain (d : string) (i : SniffInfo) : SniffInfo :=
  mkInfo (i_Protocol i) d (i_Client i) (i_Destination i) (i_SnifferNames i) (i_SniffError i).
Definition setClient (c : string) (i : SniffInfo) : SniffInfo :=
  mkInfo (i_Protocol i) (i_Domain i) c (i_Destination i) (i_SnifferNames i) (i_SniffError i).
Definition setDestination (d : Socksaddr) (i : SniffInfo) : SniffInfo :=
  mkInfo (i_Protocol i) (i_Domain i) (i_Client i) d (i_SnifferNames i) (i_SniffError i).
Definition setOutcome (names : list string) (e : option error) (i : SniffInfo) : SniffInfo :=
  mkInfo (i_Protocol i) (i_Domain i) (i_Client i) (i_Destination i) names e.

(** What a sniffer does: [None] is a panic. *)
Definition Outcome : Type := option (option error * SniffInfo).

(** A stream is read from the buffers in turn; a packet is one piece. *)
Definition StreamSniffer : Type := SniffInfo -> list (list Z) -> Outcome.
Definition PacketSniffer : Type := SniffInfo -> list Z -> Outcome.

(** The parts of a DNS message the sniffer looks at. *)
Record DNSHead := mkDNSHead { Response : bool; nQuestion : nat; nAnswer : nat; nNs : nat }.

Class SniffLibs := {
  unpackDNS : list Z -> res error DNSHead;
  (** The TLS handshake: the server name of a client hello, or the error. *)
  tlsClientHello : list Z -> res error string;
  (** [http.ReadRequest]: the host, as an address string. *)
  readRequestHost : list Z -> res error string;
  isUnexpectedEOF : error -> bool;
  quicClientHello : PacketSniffer;
  IsDomainName : string -> bool
}.

(** ** Access to bytes *)

(** [packet[i]], which panics out of range. *)
Definition byteAt (packet : list Z) (i : nat) (k : Z -> Outcome) : Outcome :=
  match packet !! i with Some b => k b | None => None end.

(** [binary.BigEndian] of [packet[i:i+n]]. *)
Definition beAt (packet : list Z) (i n : nat) (k : Z -> Outcome) : Outcome :=
  if (i + n <=? length packet)%nat then k (be (take n (drop i packet))) else None.

Definition reject (i : SniffInfo) : Outcome := Some (Some ErrInvalid, i).
Definition accept (i : SniffInfo) : Outcome := Some (None, i).

(** ** Packet sniffers *)

Section Packets.
Context `{SniffLibs}.

Definition DomainNameQuery : PacketSniffer := fun i packet =>
  match unpackDNS packet with
  | Err e => Some (Some e, i)
  | Ok msg =>
      if Response msg || (nQuestion msg =? 0)%nat || (0 <? nAnswer msg)%nat || (0 <? nNs msg)%nat then Some (None, i)
      else accept (setProtocol "dns" i)
  end.

Definition DTLSRecord : PacketSniffer := fun i packet =>
  if (length packet <? 13)%nat then reject i else
  byteAt packet 0 (fun contentType =>
  if negb (bool_decide (contentType ∈ [20; 21; 22; 23; 25])) then reject i else
  byteAt packet 1 (fun versionMajor =>
  if negb (versionMajor =? 254) then reject i else
  byteAt packet 2 (fun versionMinor =>
  if negb (versionMinor =? 255) && negb (versionMinor =? 253) then reject i else
  accept (setProtocol "dtls" i)))).

(** The delays are compared as float64 multiples of 1/65536, which are exact. *)
Definition NTP : PacketSniffer := fun i packet =>
  if (length packet <? 48)%nat then reject i else
  byteAt packet 0 (fun firstByte =>
  let li := Z.land (Z.shiftr firstByte 6) 3 in
  let vn := Z.land (Z.shiftr firstByte 3) 7 in
  let mode := Z.land firstByte 7 in
  if 3 <? li then reject i else
  if negb (vn =? 3) && negb (vn =? 4) then reject i else
  if negb (mode =? 3) then reject i else
  beAt packet 4 4 (fun rootDelay =>
  beAt packet 8 4 (fun rootDispersion =>
  if 16 * 65536 <? rootDelay then reject i else
  if 16 * 65536 <? rootDispersion then reject i else
  accept (setProtocol "ntp" i)))).

Definition STUNMessage : PacketSniffer := fun i packet =>
  if (length packet <? 20)%nat then reject i else
  beAt packet 4 4 (fun cookie =>
  if negb (cookie =? 554869826) then reject i else
  beAt packet 2 2 (fun len =>
  if Z.of_nat (length packet) <? 20 + len then reject i else
  accept (setProtocol "stun" i))).

Definition UDPTracker : PacketSniffer := fun i packet =>
  if (length packet <? 16)%nat then reject i else
  beAt packet 0 8 (fun protocolID =>
  if negb (protocolID =? 4497486125440) then reject i else
  beAt packet 8 4 (fun connectFlag =>
  if negb (connectFlag =? 0) then reject i else
  accept (setProtocol "bittorrent" i))).

(** The loop of [UTP] over the extensions; a seek may leave the packet, the next read then fails. *)
Fixpoint utpExtensions (fuel : nat) (extension : Z) (s : Source) : option (option error) :=
  if extension =? 0 then Some None else
  match fuel with
  | O => None
  | S fuel =>
      match readUint 1 s with
      | Some (Err e) => Some (Some e)
      | Some (Ok (extension, s)) =>
          if 4 <? extension then Some (Some ErrInvalid) else
          match readUint 1 s with
          | Some (Err e) => Some (Some e)
          | Some (Ok (len, s)) => utpExtensions fuel extension (mkSource (drop (Z.to_nat len) (rest s)) (ending s))
          | None => None
          end
      | None => None
      end
  end.

Definition UTP : PacketSniffer := fun i packet =>
  if (length packet <? 20)%nat then reject i else
  byteAt packet 0 (fun b =>
  let version := Z.land b 15 in
  let ty := Z.shiftr b 4 in
  if negb (version =? 1) || (4 <? ty) then reject i else
  byteAt packet 1 (fun extension =>
  match utpExtensions (S (length packet)) extension (mkSource (drop 20 packet) None) with
  | None => None
  | Some (Some e) => Some (Some e, i)
  | Some None => accept (setProtocol "bittorrent" i)
  end)).
End Packets.

(** ** Stream sniffers *)

Section Streams.
Context `{SniffLibs}.

(** A read that wants more data, and a comparison. *)
Definition need {A} (p : Parser A) : Parser A := fun s =>
  match p s with Some (Err e) => Some (Err (NeedMore e)) | r => r end.
Definition check (b : bool) : Parser unit := if b then mret tt else fail ErrInvalid.

(** A sniffer by a parser of the stream. *)
Definition byParser (protocol : string) (p : Parser unit) : StreamSniffer := fun i pieces =>
  match p (mkSource (concat pieces) None) with
  | None => None
  | Some (Err e) => Some (Some e, i)
  | Some (Ok _) => accept (setProtocol protocol i)
  end.

Definition rdpHead : Parser unit :=
  tpktVersion ← need (readUint 1); _ ← check (tpktVersion =? 3);
  tpktReserved ← need (readUint 1); _ ← check (tpktReserved =? 0);
  tpktLength ← need (readUint 2); _ ← check (tpktLength =? 19);
  cotpLength ← need (readUint 1); _ ← check (cotpLength =? 14);
  cotpTpduType ← need (readUint 1); _ ← check (cotpTpduType =? 224);
  _ ← need (readFull 5);
  rdpType ← need (readUint 1); _ ← check (rdpType =? 1);
  rdpFlags ← need (readUint 1);
  rdpLength ← need (readUint 1); check (rdpLength =? 8).

Definition RDP : StreamSniffer := byParser "rdp" rdpHead.

(** The flags and counts of a DNS query over TCP, as far as they have arrived. *)
Definition queryBytes (packet : list Z) : bool :=
  let zero k := match packet !! k with Some b => b =? 0 | None => true end in
  negb (match packet !! 2%nat with Some b => negb (Z.land b 128 =? 0) | None => false end) &&
  negb (match packet !! 4%nat, packet !! 5%nat with Some a, Some b => (a =? 0) && (b =? 0) | _, _ => false end) &&
  zero 6%nat && zero 7%nat && zero 8%nat && zero 9%nat.

Definition StreamDomainNameQuery : StreamSniffer := fun i pieces =>
  match need (readUint 2) (mkSource (concat pieces) None) with
  | None => None
  | Some (Err e) => Some (Some e, i)
  | Some (Ok (len, s)) =>
      if len <? 12 then reject i else
      let packet := take (Z.to_nat len) (rest s) in
      if negb (queryBytes packet) then reject i else
      match need (readFull (Z.to_nat len)) s with
      | None => None
      | Some (Err e) => Some (Some e, i)
      | Some (Ok (packet, _)) => DomainNameQuery i packet
      end
  end.

(** One [Read] of a [MultiReader]: from the first buffer that has bytes left. *)
Fixpoint readOnce (n : nat) (pieces : list (list Z)) : option (list Z * list (list Z)) :=
  match pieces with
  | [] => None
  | [] :: pieces => readOnce n pieces
  | piece :: pieces => Some (take n piece, drop n piece :: pieces)
  end.

Definition btHeader : list Z := (fun c => Z.of_N (code c)) <$> bytes "BitTorrent protocol".

(** The protocol name is read by a single [Read]. *)
Definition BitTorrent : StreamSniffer := fun i pieces =>
  match readOnce 1 pieces with
  | None => Some (Some (NeedMore EOF), i)
  | Some (first, pieces) =>
      if negb (bool_decide (first = [19])) then reject i else
      let (protocol, err) := match readOnce 19 pieces with None => ([], Some EOF) | Some (l, _) => (l, None) end in
      if negb (bool_decide (protocol = take (length protocol) btHeader)) then reject i else
      match err with
      | Some e => Some (Some (NeedMore e), i)
      | None => if (length protocol <? 19)%nat then Some (Some ErrNeedMoreData, i) else accept (setProtocol "bittorrent" i)
      end
  end.

Definition sshPrefix : list Z := (fun c => Z.of_N (code c)) <$> bytes "SSH-2.0-".

Definition LF : Z := 10.
Definition CR : Z := 13.

Fixpoint untilLF (l : list Z) : option (list Z) :=
  match l with
  | [] => None
  | b :: l => if b =? LF then Some [] else line ← untilLF l; Some (b :: line)
  end.

Definition dropCR (line : list Z) : list Z :=
  match rev line with b :: l => if b =? CR then rev l else line | [] => line end.

(** [bufio.Reader.ReadLine] with a buffer of 4096 bytes, on a stream that is not empty. *)
Definition readLine (l : list Z) : list Z :=
  match untilLF (take 4096 l) with
  | Some line => dropCR line
  | None => if (4096 <=? length l)%nat then dropCR (take 4096 l) else l
  end.

Definition ofBytesZ (l : list Z) : string := ofBytes ((fun b => ascii_of_N (Z.to_N b)) <$> l).

Definition SSH : StreamSniffer := fun i pieces =>
  let l := concat pieces in
  let prefix := take 8 l in
  if negb (bool_decide (prefix = take (length prefix) sshPrefix)) then reject i else
  if (length prefix <? 8)%nat then Some (Some (NeedMore EOF), i) else
  let line := readLine l in
  (* the slice [8:] of the first line *)
  if (length line <? 8)%nat then None else accept (setClient (ofBytesZ (drop 8 line)) (setProtocol "ssh" i)).

Definition HTTPHost : StreamSniffer := fun i pieces =>
  match readRequestHost (concat pieces) with
  | Err e => Some (Some (if isUnexpectedEOF e then NeedMore e else e), i)
  | Ok host => accept (setDomain host (setProtocol "http" i))
  end.

Definition TLSClientHello : StreamSniffer := fun i pieces =>
  match tlsClientHello (concat pieces) with
  | Err e => Some (Some (if isUnexpectedEOF e then NeedMore e else e), i)
  | Ok serverName => accept (setDomain serverName (setProtocol "tls" i))
  end.

(** ** Reading ahead *)

(** A stream connection: the pieces its reads will deliver, then an error. *)
Record StreamConn := mkConn { c_pieces : list (list Z); c_end : error }.

(** A buffer with its capacity; [buf.NewPacket] has 65535. *)
Definition packetSize : nat := Z.to_nat 65535.

(** [buffer.ReadOnceFrom]: one read into the free part. *)
Definition ReadOnceFrom (capacity : nat) (buffer : list Z) (c : StreamConn) : option error * list Z * StreamConn :=
  let free := (capacity - length buffer)%nat in
  if (free =? 0)%nat then (Some ErrShortBuffer, buffer, c) else
  match c_pieces c with
  | [] => (Some (c_end c), buffer, c)
  | p :: ps =>
      (None, buffer ++ take free p, mkConn (if (length p <=? free)%nat then ps else drop free p :: ps) (c_end c))
  end.

(** One round of the sniffers: the first that accepts ends it; the errors are joined. *)
Fixpoint tryStream (sniffers : list StreamSniffer) (pieces : list (list Z)) (errs : list error) (i : SniffInfo) : Outcome :=
  match sniffers with
  | [] => Some (Errors errs, i)
  | sniffer :: sniffers =>
      match sniffer i pieces with
      | None => None
      | Some (None, i) => Some (None, i)
      | Some (Some e, i) => tryStream sniffers pieces (errs ++ [e]) i
      end
  end.

(** The loop of [PeekStream]; [first] on its first round, [sniffError] from the round before.
    [None] is a panic of a sniffer or missing fuel. *)
Fixpoint peekLoop (fuel : nat) (capacity : nat) (sniffers : list StreamSniffer) (buffers : list (list Z)) (first : bool)
    (sniffError : option error) (buffer : list Z) (c : StreamConn) (i : SniffInfo) : option (option error * list Z * StreamConn * SniffInfo) :=
  match fuel with
  | O => None
  | S fuel =>
      let '(err, buffer, c) := ReadOnceFrom capacity buffer c in
      match err with
      | Some e => Some (if first then Some (Error "read payload" [e]) else sniffError, buffer, c, i)
      | None =>
          match tryStream sniffers (buffers ++ [buffer]) [] i with
          | None => None
          | Some (None, i) => Some (None, buffer, c, i)
          | Some (Some e, i) =>
              if isNeedMore e then peekLoop fuel capacity sniffers buffers false (Some e) buffer c i
              else Some (Some e, buffer, c, i)
          end
      end
  end.

Definition PeekStream (sniffers : list StreamSniffer) (buffers : list (list Z)) (c : StreamConn) (i : SniffInfo) :
    option (option error * list Z * StreamConn * SniffInfo) :=
  peekLoop (S (S (length (c_pieces c)))) packetSize sniffers buffers true None [] c i.

(** [PeekPacket]. *)
Fixpoint tryPacket (sniffers : list PacketSniffer) (packet : list Z) (errs : list error) (i : SniffInfo) : Outcome :=
  match sniffers with
  | [] => Some (Errors errs, i)
  | sniffer :: sniffers =>
      match sniffer i packet with
      | None => None
      | Some (None, i) => Some (None, i)
      | Some (Some e, i) => tryPacket sniffers packet (errs ++ [e]) i
      end
  end.
Definition PeekPacket (sniffers : list PacketSniffer) (packet : list Z) (i : SniffInfo) : Outcome := tryPacket sniffers packet [] i.
End Streams.

(** ** The sniff action *)

Record SniffAction := mkSniffAction {
  a_SnifferNames : list string;
  a_StreamSniffers : list StreamSniffer;
  a_PacketSniffers : list PacketSniffer;
  a_OverrideDestination : bool
}.

(** Server-first protocols are not sniffed: SMTP, IMAP and POP3. *)
Definition Skip (i : SniffInfo) : bool := bool_decide (sa_port (i_Destination i) ∈ [25; 465; 587; 143; 993; 110; 995]).

Record PacketBuffer := mkPacket { p_data : list Z; p_destination : Socksaddr }.

(** What reading a packet connection brings: a packet, an error, or the end of the context. *)
Inductive packetEvent := Packet (p : PacketBuffer) | ReadFails (e : error) | Cancelled (e : error).

(** A packet connection: what its reads bring, then an error. *)
Record PacketConn := mkPacketConn { pc_events : list packetEvent; pc_end : error }.

Definition nextEvent (c : PacketConn) : packetEvent * PacketConn :=
  match pc_events c with
  | [] => (ReadFails (pc_end c), c)
  | ev :: evs => (ev, mkPacketConn evs (pc_end c))
  end.

Section Action.
Context `{SniffLibs}.
(** [errors.Is(err, context.DeadlineExceeded)]. *)
Variable isDeadline : error -> bool.
Implicit Types (a : SniffAction) (i : SniffInfo).

Definition defaultStreamSniffers : list StreamSniffer :=
  [TLSClientHello; HTTPHost; StreamDomainNameQuery; BitTorrent; SSH; RDP].
Definition defaultPacketSniffers : list PacketSniffer :=
  [DomainNameQuery; quicClientHello; STUNMessage; UTP; UDPTracker; DTLSRecord; NTP].

(** The same sniffers have already failed for good. *)
Definition failedBefore a i : bool :=
  bool_decide (i_SnifferNames i = a_SnifferNames a) && match i_SniffError i with Some e => negb (isNeedMore e) | None => false end.
Definition quicMoreData a i : bool :=
  bool_decide (i_SnifferNames i = a_SnifferNames a) && match i_SniffError i with Some e => isNeedMore e | None => false end.

(** A sniffed domain as the destination. *)
Definition overrideDestination a i : SniffInfo :=
  if a_OverrideDestination a && IsDomainName (i_Domain i)
  then setDestination (mkSocksaddr None (sa_port (i_Destination i)) (i_Domain i)) i else i.

(** [actionSniff] on a stream: the buffer read, when it is not empty. *)
Definition sniffStream a (buffers : list (list Z)) (c : StreamConn) i : option (option (list Z) * StreamConn * SniffInfo) :=
  if Skip i then Some (None, c, i) else
  if negb (bool_decide (i_Protocol i = "")) then Some (None, c, i) else
  if match a_StreamSniffers a, a_PacketSniffers a with [], _ :: _ => true | _, _ => false end then Some (None, c, i) else
  if failedBefore a i then Some (None, c, i) else
  let sniffers := match a_StreamSniffers a with [] => defaultStreamSniffers | l => l end in
  match PeekStream sniffers buffers c i with
  | None => None
  | Some (err, buffer, c, i) =>
      let i := setOutcome (a_SnifferNames a) err i in
      let i := match err with None => overrideDestination a i | Some _ => i end in
      Some (match buffer with [] => None | _ => Some buffer end, c, i)
  end.

(** The caller, matchRule, keeps the buffers. *)
Definition keepBuffer (buffers : list (list Z)) (new : option (list Z)) : list (list Z) :=
  match new with Some b => buffers ++ [b] | None => buffers end.

Definition peekOne a i (packet : list Z) : Outcome :=
  let sniffers := match a_PacketSniffers a with [] => defaultPacketSniffers | l => l end in
  match PeekPacket (if quicMoreData a i then [quicClientHello] else sniffers) packet i with
  | None => None
  | Some (err, i) => Some (err, setOutcome (a_SnifferNames a) err i)
  end.

Definition wantsMore (err : option error) : bool := match err with Some e => isNeedMore e | None => false end.

(** The packets kept from earlier actions, up to the first that settles it. *)
Fixpoint sniffKept a (kept : list PacketBuffer) i : option (option (option error) * SniffInfo) :=
  match kept with
  | [] => Some (None, i)
  | p :: kept =>
      match peekOne a i (p_data p) with
      | None => None
      | Some (err, i) => if wantsMore err then sniffKept a kept i else Some (Some err, i)
      end
  end.

(** New packets are read until one settles it; [out] are the packets to return. *)
Fixpoint sniffNew (fuel : nat) a (out : list PacketBuffer) (c : PacketConn) i :
    option (list PacketBuffer * option error * option error * PacketConn * SniffInfo) :=
  match fuel with
  | O => None
  | S fuel =>
      let (ev, c) := nextEvent c in
      match ev with
      | Cancelled e => Some (out, Some e, None, c, i)
      | ReadFails e => if isDeadline e then Some (out, None, Some e, c, i) else Some (out, Some e, Some e, c, i)
      | Packet p =>
          match peekOne a i (p_data p) with
          | None => None
          | Some (err, i) =>
              if wantsMore err then sniffNew fuel a (out ++ [p]) c i else Some (out ++ [p], None, err, c, i)
          end
      end
  end.

(** [actionSniff] on packets: the packets it returns, and the error that ends the routing. *)
Definition sniffPackets a (kept : list PacketBuffer) (c : PacketConn) i :
    option (list PacketBuffer * option error * PacketConn * SniffInfo) :=
  if Skip i then Some ([], None, c, i) else
  if negb (bool_decide (i_Protocol i = "")) then Some ([], None, c, i) else
  if match a_PacketSniffers a, a_StreamSniffers a with [], _ :: _ => true | _, _ => false end then Some ([], None, c, i) else
  if failedBefore a i then Some ([], None, c, i) else
  let finally err i := match err with None => overrideDestination a i | Some _ => i end in
  match sniffKept a kept i with
  | None => None
  | Some (Some err, i) => Some ([], None, c, finally err i)
  | Some (None, i) =>
      match sniffNew (S (length (pc_events c))) a kept c i with
      | None => None
      | Some (out, Some fatal, _, c, i) => Some (out, Some fatal, c, i)
      | Some (out, None, err, c, i) => Some (out, None, c, finally err i)
      end
  end.

(** The caller, matchRule, appends the packets that are returned. *)
Definition keepPackets (kept new : list PacketBuffer) : list PacketBuffer := kept ++ new.
End Action.

(** ** Sniffers do not panic *)

Section Safety.
Context `{SniffLibs}.

Lemma byteAt_some packet k f : (k < length packet)%nat -> (forall b, is_Some (f b)) -> is_Some (byteAt packet k f).
Proof using Type. intros Hk Hf. unfold byteAt. destruct (lookup_lt_is_Some_2 packet k Hk) as [b ->]. apply Hf. Qed.

Lemma beAt_some packet k n f : (k + n <= length packet)%nat -> (forall v, is_Some (f v)) -> is_Some (beAt packet k n f).
Proof using Type. intros Hk Hf. unfold beAt. rewrite (proj2 (Nat.leb_le _ _)) by done. apply Hf. Qed.

Ltac sniff_safe :=
  repeat first
    [ progress cbv zeta
    | match goal with
      | |- is_Some (if (length ?p <? ?n)%nat then _ else _) => destruct (Nat.ltb_spec (length p) n); [done|]
      | |- is_Some (if ?b then _ else _) => destruct b; [done|]
      | |- is_Some (byteAt _ _ _) => apply byteAt_some; [lia | intros ?]
      | |- is_Some (beAt _ _ _ _) => apply beAt_some; [lia | intros ?]
      end
    | done ].

Lemma DTLSRecord_safe i packet : is_Some (DTLSRecord i packet).
Proof using Type. unfold DTLSRecord. sniff_safe. Qed.
Lemma NTP_safe i packet : is_Some (NTP i packet).
Proof using Type. unfold NTP. sniff_safe. Qed.
Lemma STUNMessage_safe i packet : is_Some (STUNMessage i packet).
Proof using Type. unfold STUNMessage. sniff_safe. Qed.
Lemma UDPTracker_safe i packet : is_Some (UDPTracker i packet).
Proof using Type. unfold UDPTracker. sniff_safe. Qed.

Lemma utpExtensions_ends fuel extension s : (length (rest s) < fuel)%nat -> is_Some (utpExtensions fuel extension s).
Proof using Type.
  revert extension s. induction fuel as [|fuel IH]; intros extension s Hf; [lia|]. cbn [utpExtensions]. destruct (extension =? 0); [done|].
  pose proof (yields_readUint 1 s) as H1. unfold yields in H1. destruct (readUint 1 s) as [[[ext s1]|]|]; [|done|done]. destruct (4 <? ext); [done|].
  pose proof (yields_readUint 1 s1) as H2. unfold yields in H2. destruct (readUint 1 s1) as [[[len s2]|]|]; [|done|done].
  apply IH. simpl. rewrite length_drop. lia.
Qed.

Lemma UTP_safe i packet : is_Some (UTP i packet).
Proof using Type.
  unfold UTP. sniff_safe.
  match goal with |- context [utpExtensions ?f ?e ?s] => destruct (utpExtensions_ends f e s) as [r ->] end; [simpl; rewrite length_drop; lia|].
  by destruct r.
Qed.

Lemma DomainNameQuery_safe i packet : is_Some (DomainNameQuery i packet).
Proof using Type. unfold DomainNameQuery. by repeat case_match. Qed.

Lemma need_yields {A} d (p : Parser A) s : yields d p s -> yields d (need p) s.
Proof using Type. unfold yields, need. by destruct (p s) as [[[a s']|]|]. Qed.

Lemma check_yields b s : yields 0 (check b) s.
Proof using Type. unfold check. destruct b; [apply yields_ret | done]. Qed.

Lemma yields_then {A B} d (p : Parser A) (f : A -> Parser B) s : yields d p s -> (forall a s', yields 0 (f a) s') -> yields 0 (p ≫= f) s.
Proof using Type. intros Hp Hf. apply (yields_le (d + 0)); [lia|]. apply yields_bind; [done|]. intros. apply Hf. Qed.

Lemma rdpHead_yields s : yields 0 rdpHead s.
Proof using Type.
  unfold rdpHead.
  repeat first [ apply check_yields
               | eapply yields_then; [first [apply need_yields, yields_readUint | apply need_yields, yields_readFull | apply check_yields]|]; intros ? ? ].
Qed.

Lemma RDP_safe i pieces : is_Some (RDP i pieces).
Proof using Type.
  unfold RDP, byParser. pose proof (rdpHead_yields (mkSource (concat pieces) None)) as Hy. unfold yields in Hy. by repeat case_match.
Qed.

Lemma StreamDomainNameQuery_safe i pieces : is_Some (StreamDomainNameQuery i pieces).
Proof using Type.
  unfold StreamDomainNameQuery. pose proof (need_yields _ _ _ (yields_readUint 2 (mkSource (concat pieces) None))) as Hy. unfold yields in Hy.
  destruct (need _ _) as [[[len s]|]|]; [|done|done]. destruct (len <? 12); [done|]. cbv zeta. destruct (negb _); [done|].
  pose proof (need_yields _ _ _ (yields_readFull (Z.to_nat len) s)) as Hf. unfold yields in Hf.
  destruct (need _ _) as [[[packet s']|]|]; [|done|done]. apply DomainNameQuery_safe.
Qed.

Lemma BitTorrent_safe i pieces : is_Some (BitTorrent i pieces).
Proof using Type. unfold BitTorrent. by repeat case_match. Qed.

(** The first line is no shorter than the prefix that was seen, as that has no line break. *)
Lemma untilLF_app l k line : LF ∉ l -> untilLF (l ++ k) = Some line -> exists line', line = l ++ line'.
Proof using Type.
  revert line. induction l as [|b l IH]; intros line Hl Hu; [by exists line|]. cbn [untilLF app] in Hu. apply not_elem_of_cons in Hl as [Hb Hl].
  replace (b =? LF) with false in Hu by (symmetry; apply Z.eqb_neq; congruence).
  destruct (untilLF (l ++ k)) as [line1|]; [|done]. injection Hu as <-. destruct (IH line1 Hl eq_refl) as [line' ->]. by exists line'.
Qed.

Lemma dropCR_length l k : CR ∉ l -> (length l <= length (dropCR (l ++ k)))%nat.
Proof using Type.
  intros Hl. unfold dropCR. rewrite rev_app_distr. destruct (rev k) as [|b k'] eqn:Ek.
  - simpl. destruct (rev l) as [|b l'] eqn:El; [rewrite length_app; lia|]. replace (b =? CR) with false; [rewrite length_app; lia|].
    symmetry. apply Z.eqb_neq. intros ->. apply Hl. rewrite <- (rev_involutive l), El. apply list_elem_of_In, in_or_app. right. by left.
  - simpl. apply (f_equal length) in Ek. rewrite length_rev in Ek. simpl in Ek.
    destruct (b =? CR); rewrite ?length_rev, !length_app, ?length_rev; lia.
Qed.

Lemma readLine_length l k : LF ∉ l -> CR ∉ l -> (length l <= 4096)%nat -> (length l <= length (readLine (l ++ k)))%nat.
Proof using Type.
  intros Hlf Hcr Hlen. unfold readLine. rewrite (take_app_ge l k) by lia. destruct (untilLF _) as [line|] eqn:E.
  - destruct (untilLF_app l _ line Hlf E) as [line' ->]. by apply dropCR_length.
  - destruct (4096 <=? _)%nat; [by apply dropCR_length | rewrite length_app; lia].
Qed.

Lemma SSH_safe i pieces : is_Some (SSH i pieces).
Proof using Type.
  unfold SSH. cbv zeta. case_bool_decide as Hp; [|done]. simpl negb. cbv iota. destruct (Nat.ltb_spec (length (take 8 (concat pieces))) 8) as [|H8]; [done|].
  assert (length (take 8 (concat pieces)) = 8)%nat as E8 by (rewrite length_take in *; lia). rewrite E8 in Hp.
  assert (8 <= length (readLine (concat pieces)))%nat as Hl.
  { rewrite <- (take_drop 8 (concat pieces)). rewrite <- E8 at 1. apply readLine_length; [rewrite Hp; decide_vm | rewrite Hp; decide_vm | lia]. }
  rewrite (proj2 (Nat.ltb_ge _ _)) by done. done.
Qed.
End Safety.

(** ** Reading ahead keeps the connection's data *)

Section Conservation.
Context `{SniffLibs}.

Definition stream_safe (sn : StreamSniffer) : Prop := forall i pieces, is_Some (sn i pieces).
Definition packet_safe (sn : PacketSniffer) : Prop := forall i packet, is_Some (sn i packet).

Definition content (c : StreamConn) : list Z := concat (c_pieces c).

Lemma ReadOnceFrom_content capacity buffer c err buffer' c' :
  (length buffer <= capacity)%nat -> ReadOnceFrom capacity buffer c = (err, buffer', c') ->
  buffer' ++ content c' = buffer ++ content c /\ (length buffer' <= capacity)%nat /\ c_end c' = c_end c.
Proof using Type.
  intros Hb. unfold ReadOnceFrom. cbv zeta. destruct (_ =? 0)%nat; [by intros [= <- <- <-]|].
  destruct c as [[|p ps] en]; cbn [c_pieces c_end]; intros [= <- <- <-]; [done|]. unfold content. cbn [c_pieces c_end].
  rewrite length_app, length_take. split; [|split; [lia | done]].
  destruct (Nat.leb_spec (length p) (capacity - length buffer)) as [Hle|Hlt]; rewrite <- app_assoc; f_equal.
  - by rewrite take_ge by lia.
  - cbn [concat]. by rewrite app_assoc, take_drop.
Qed.

(** A successful read takes a piece off, or fills the buffer. *)
Lemma ReadOnceFrom_progress capacity buffer c buffer' c' :
  ReadOnceFrom capacity buffer c = (None, buffer', c') ->
  (length (c_pieces c') < length (c_pieces c))%nat \/ (length (c_pieces c') = length (c_pieces c) /\ (capacity <= length buffer')%nat).
Proof using Type.
  unfold ReadOnceFrom. cbv zeta. destruct (_ =? 0)%nat; [done|]. destruct c as [[|p ps] en]; cbn [c_pieces c_end]; [done|]. intros [= <- <-].
  destruct (Nat.leb_spec (length p) (capacity - length buffer)) as [Hle|Hlt]; cbn [c_pieces length]; [left; lia|].
  right. rewrite length_app, length_take. split; [done | lia].
Qed.

Lemma ReadOnceFrom_full capacity buffer c : (capacity <= length buffer)%nat -> ReadOnceFrom capacity buffer c = (Some ErrShortBuffer, buffer, c).
Proof using Type. intros Hb. unfold ReadOnceFrom. cbv zeta. by replace (capacity - length buffer)%nat with 0%nat by lia. Qed.

Lemma tryStream_safe sniffers pieces errs i : Forall stream_safe sniffers -> is_Some (tryStream sniffers pieces errs i).
Proof using Type.
  intros Hs. revert errs i. induction Hs as [|sn sniffers Hsn _ IH]; intros errs i; [done|]. cbn [tryStream].
  destruct (Hsn i pieces) as [[[e|] i'] ->]; [apply IH | done].
Qed.

Lemma peekLoop_spec fuel capacity sniffers buffers first err buffer c i :
  Forall stream_safe sniffers -> (length buffer <= capacity)%nat ->
  (S (length (c_pieces c)) < fuel)%nat \/ ((1 <= fuel)%nat /\ (capacity <= length buffer)%nat) ->
  exists err' buffer' c' i', peekLoop fuel capacity sniffers buffers first err buffer c i = Some (err', buffer', c', i') /\
    buffer' ++ content c' = buffer ++ content c /\ (length buffer' <= capacity)%nat.
Proof using Type.
  intros Hs. revert first err buffer c i. induction fuel as [|fuel IH]; intros first err buffer c i Hb Hf; [lia|]. cbn [peekLoop].
  destruct (ReadOnceFrom capacity buffer c) as [[rerr buffer1] c1] eqn:E.
  destruct (ReadOnceFrom_content _ _ _ _ _ _ Hb E) as (Hc & Hb1 & _). destruct rerr as [e|]; [by repeat eexists|].
  destruct (tryStream_safe sniffers (buffers ++ [buffer1]) [] i Hs) as [[[e|] i1] ->]; [|by repeat eexists].
  destruct (isNeedMore e); [|by repeat eexists].
  destruct (IH false (Some e) buffer1 c1 i1 Hb1) as (err' & buffer' & c' & i' & -> & Hc' & Hb').
  - destruct Hf as [Hf|[_ Hfull]].
    + destruct (ReadOnceFrom_progress _ _ _ _ _ E) as [Hp|[Hp Hfull]]; [left; lia | right; split; [lia | done]].
    + by rewrite ReadOnceFrom_full in E.
  - exists err', buffer', c', i'. split; [done|]. split; [by rewrite Hc' | done].
Qed.

Lemma default_stream_safe : Forall stream_safe defaultStreamSniffers.
Proof using Type.
  assert (stream_safe TLSClientHello) by (intros i p; unfold TLSClientHello; by case_match).
  assert (stream_safe HTTPHost) by (intros i p; unfold HTTPHost; by case_match).
  repeat constructor; try done; intros i p;
    [apply StreamDomainNameQuery_safe | apply BitTorrent_safe | apply SSH_safe | apply RDP_safe].
Qed.

(** C21. The sniff action on a stream returns, and no byte is lost, added or moved: the buffers kept for
    the outbound and what the connection still delivers are together what they were.  A buffer
    never exceeds the size of a packet buffer. *)
Theorem sniffing_keeps_the_stream (a : SniffAction) (buffers : list (list Z)) (c : StreamConn) (i : SniffInfo) :
  Forall stream_safe (a_StreamSniffers a) ->
  exists new c' i', sniffStream a buffers c i = Some (new, c', i') /\
    concat (keepBuffer buffers new) ++ content c' = concat buffers ++ content c /\
    (length (default [] new) <= packetSize)%nat.
Proof using Type.
  intros Hs. unfold sniffStream.
  do 4 (match goal with |- context [if ?b then Some (None, c, i) else _] => destruct b end;
        [exists None, c, i; split; [done|]; split; [done | simpl; lia]|]).
  set (sniffers := match a_StreamSniffers a with [] => _ | _ => _ end).
  assert (Forall stream_safe sniffers) as Hsn by (subst sniffers; destruct (a_StreamSniffers a); [apply default_stream_safe | done]).
  destruct (peekLoop_spec (S (S (length (c_pieces c)))) packetSize sniffers buffers true None [] c i Hsn) as (err & buffer & c' & i' & Hp & Hc & Hb);
    [simpl; lia | left; lia|].
  unfold PeekStream. rewrite Hp. eexists _, c', _. split; [done|]. simpl in Hc. destruct buffer as [|b buffer]; cbn [keepBuffer default]; simpl in Hc.
  - split; [by rewrite Hc | simpl; lia].
  - split; [|done]. rewrite concat_app. cbn [concat]. rewrite app_nil_r, <- app_assoc. f_equal. exact Hc.
Qed.
End Conservation.

(** ** Verdicts do not depend on fragmentation *)

Section Stability.
Context `{SniffLibs}.

(** What a parser settles on a part of the stream, it settles alike on more of it. *)
Definition settles {A} (p : Parser A) : Prop := forall r k,
  match p (mkSource r None) with
  | Some (Ok (a, s')) => exists r', s' = mkSource r' None /\ p (mkSource (r ++ k) None) = Some (Ok (a, mkSource (r' ++ k) None))
  | Some (Err e) => isNeedMore e = false -> p (mkSource (r ++ k) None) = Some (Err e)
  | None => True
  end.

Lemma settles_readFull n : settles (need (readFull n)).
Proof using Type.
  intros r k. unfold need, readFull. cbn [rest ending]. destruct (Nat.leb_spec n (length r)) as [Hn|Hn]; [|done].
  exists (drop n r). split; [done|]. rewrite length_app, (proj2 (Nat.leb_le n _)) by lia. by rewrite take_app_le, drop_app_le by lia.
Qed.

Lemma settles_check b : settles (check b).
Proof using Type. intros r k. destruct b; [by exists r | done]. Qed.

Lemma settles_bind {A B} (p : Parser A) (f : A -> Parser B) : settles p -> (forall a, settles (f a)) -> settles (p ≫= f).
Proof using Type.
  intros Hp Hf r k. specialize (Hp r k). unfold mbind, Parser_bind. destruct (p (mkSource r None)) as [[[a s']|e]|]; [| |done].
  - destruct Hp as (r' & -> & ->). apply Hf.
  - intros He. by rewrite (Hp He).
Qed.

Lemma settles_readUint n : settles (need (readUint n)).
Proof using Type.
  intros r k. pose proof (settles_readFull n r k) as Hr. unfold need, readUint in *. unfold mbind, Parser_bind, mret, Parser_ret in *.
  destruct (readFull n (mkSource r None)) as [[[l s']|e]|]; [| |done].
  - destruct Hr as (r' & -> & Hr). exists r'. split; [done|]. destruct (readFull n (mkSource (r ++ k) None)) as [[[l2 s2]|]|]; try done.
    by simplify_eq.
  - done.
Qed.

Lemma settles_rdpHead : settles rdpHead.
Proof using Type.
  unfold rdpHead.
  repeat first [ apply settles_check
               | apply settles_bind; [first [apply settles_readUint | apply settles_readFull | apply settles_check]|]; intros ? ].
Qed.

(** A sniffer whose verdict on the beginning of a stream, once it does not ask for more, stands. *)
Definition verdict_stands (sn : StreamSniffer) : Prop := forall i l k e i1,
  sn i [l] = Some (e, i1) -> wantsMore e = false -> exists i2, sn i [l ++ k] = Some (e, i2).

Lemma RDP_stands : verdict_stands RDP.
Proof using Type.
  intros i l k e i1. unfold RDP, byParser. cbn [concat]. rewrite !app_nil_r. pose proof (settles_rdpHead l k) as Hs.
  destruct (rdpHead (mkSource l None)) as [[[[] s']|er]|]; [| |done].
  - destruct Hs as (r' & _ & ->). intros [= <- <-] _. by eexists.
  - intros [= <- <-] Hm. rewrite (Hs Hm). by eexists.
Qed.

Lemma queryBytes_take n l k : queryBytes (take n l) = false -> queryBytes (take n (l ++ k)) = false.
Proof using Type.
  assert (forall j b, take n l !! j = Some b -> take n (l ++ k) !! j = Some b) as Hle.
  { intros j b Hj. apply lookup_take_Some in Hj as [Hj Hn]. apply lookup_take_Some. split; [by apply lookup_app_l_Some | done]. }
  unfold queryBytes. intros Hq. apply not_true_iff_false. intros Hq'. apply not_true_iff_false in Hq. apply Hq. clear Hq.
  rewrite !andb_true_iff in *. destruct_and!. split_and!;
  repeat match goal with
  | |- context [match take n l !! ?j with _ => _ end] => let E := fresh in destruct (take n l !! j) eqn:E; [apply Hle in E; rewrite E in *|]
  end; done.
Qed.

Lemma StreamDomainNameQuery_stands : verdict_stands StreamDomainNameQuery.
Proof using Type.
  intros i l k e i1. unfold StreamDomainNameQuery. cbn [concat]. rewrite !app_nil_r. pose proof (settles_readUint 2 l k) as Hs.
  destruct (need (readUint 2) (mkSource l None)) as [[[len s']|er]|]; [| |done].
  - destruct Hs as (r' & -> & ->). cbn [rest]. destruct (len <? 12); [intros [= <- <-] _; by eexists|]. cbv zeta.
    destruct (queryBytes (take (Z.to_nat len) r')) eqn:Eq; cbn [negb].
    + pose proof (settles_readFull (Z.to_nat len) r' k) as Hf. destruct (need (readFull _) (mkSource r' None)) as [[[packet s2]|er]|] eqn:En; [| |done].
      * destruct Hf as (r2 & -> & ->). intros Hd _.
        assert (take (Z.to_nat len) (r' ++ k) = take (Z.to_nat len) r') as ->.
        { unfold need, readFull in En. cbn [rest] in En. destruct (Nat.leb_spec (Z.to_nat len) (length r')); [|done]. by rewrite take_app_le. }
        rewrite Eq. simpl. by eexists.
      * intros [= <- <-] Hm. unfold need, readFull in En. cbn [rest ending] in En. destruct (_ <=? _)%nat; [done|]. injection En as <-. done.
    + rewrite (queryBytes_take _ _ k Eq). intros [= <- <-] _. by eexists.
  - intros [= <- <-] Hm. rewrite (Hs Hm). by eexists.
Qed.

(** A prefix that does not match still does not when more follows. *)
Lemma prefix_mismatch n (l k h : list Z) :
  take n l <> take (length (take n l)) h -> take n (l ++ k) <> take (length (take n (l ++ k))) h.
Proof using Type.
  intros Hp Hp'. apply Hp.
  assert (take n l = take (length (take n l)) (take n (l ++ k))) as Ht.
  { rewrite take_take, length_take. replace (Nat.min (Nat.min n (length l)) n) with (Nat.min n (length l)) by lia.
    rewrite take_app_le by lia. destruct (decide (length l <= n)%nat); [rewrite !take_ge by lia; done|]. by replace (Nat.min n (length l)) with n by lia. }
  rewrite Ht at 1. rewrite Hp', take_take. f_equal. rewrite !length_take, length_app. lia.
Qed.

Lemma SSH_stands : verdict_stands SSH.
Proof using Type.
  intros i l k e i1. unfold SSH at 1. cbn [concat]. rewrite !app_nil_r. cbv zeta. case_bool_decide as Hp; cbn [negb].
  - destruct (Nat.ltb_spec (length (take 8 l)) 8) as [|H8]; [by intros [= <- <-]|]. destruct (_ <? 8)%nat; [done|]. intros [= <- <-] _.
    destruct (SSH_safe i [l ++ k]) as [r Hr]. rewrite Hr. revert Hr. unfold SSH. cbn [concat]. rewrite !app_nil_r. cbv zeta. rewrite length_take in H8.
    rewrite !take_app_le by lia. rewrite (bool_decide_eq_true_2 _ Hp). cbn [negb]. rewrite (proj2 (Nat.ltb_ge _ _)) by (rewrite length_take; lia).
    destruct (_ <? 8)%nat; [done|]. intros [= <-]. by eexists.
  - intros [= <- <-] _. unfold SSH. cbn [concat]. rewrite !app_nil_r. cbv zeta. rewrite bool_decide_eq_false_2 by (by apply prefix_mismatch). by eexists.
Qed.

Lemma readOnce_1 n b l : readOnce n [b :: l] = Some (take n (b :: l), [drop n (b :: l)]).
Proof using Type. done. Qed.

Lemma BitTorrent_stands : verdict_stands BitTorrent.
Proof using Type.
  intros i l k e i1. unfold BitTorrent. destruct l as [|b l]; [by intros [= <- <-]|].
  change ((b :: l) ++ k) with (b :: (l ++ k)). rewrite !readOnce_1. change (take 1 (b :: ?l)) with [b]. change (drop 1 (b :: ?l)) with l.
  case_bool_decide as Hb; cbn [negb]; [|by intros [= <- <-] _; exists i].
  destruct l as [|b2 l]; [by intros [= <- <-]|]. change ((b2 :: l) ++ k) with (b2 :: (l ++ k)). rewrite !readOnce_1.
  change (b2 :: l ++ k) with ((b2 :: l) ++ k). set (l2 := b2 :: l). cbv iota beta zeta.
  case_bool_decide as Hp; cbn [negb].
  - destruct (Nat.ltb_spec (length (take 19 l2)) 19) as [|H19]; [by intros [= <- <-]|]. rewrite length_take in H19. rewrite take_app_le by lia.
    rewrite (bool_decide_eq_true_2 _ Hp). cbn [negb]. rewrite (proj2 (Nat.ltb_ge _ _)) by (rewrite length_take; lia). intros [= <- <-] _. by eexists.
  - intros [= <- <-] _. rewrite bool_decide_eq_false_2 by (by apply prefix_mismatch). by eexists.
Qed.

(** The verdict of a built-in stream sniffer does not depend on how the stream is cut: once it
    accepts or rejects the beginning of a stream, it does so however much more has arrived. *)
Theorem stream_verdicts_stand (sn : StreamSniffer) (i : SniffInfo) (l k : list Z) (e : option error) (i1 : SniffInfo) :
  In sn [RDP; SSH; StreamDomainNameQuery; BitTorrent] ->
  sn i [l] = Some (e, i1) -> wantsMore e = false -> exists i2, sn i [l ++ k] = Some (e, i2).
Proof using Type.
  intros Hin. assert (verdict_stands sn) as Hv; [|apply Hv].
  destruct Hin as [<-|[<-|[<-|[<-|[]]]]]; [apply RDP_stands | apply SSH_stands | apply StreamDomainNameQuery_stands | apply BitTorrent_stands].
Qed.
End Stability.

(** ** Packets *)

Section PacketConservation.
Context `{SniffLibs}.
Variable isDeadline : error -> bool.
Implicit Types (a : SniffAction) (i : SniffInfo).

Lemma tryPacket_safe sniffers packet errs i : Forall packet_safe sniffers -> is_Some (tryPacket sniffers packet errs i).
Proof using Type.
  intros Hs. revert errs i. induction Hs as [|sn sniffers Hsn _ IH]; intros errs i; [done|]. cbn [tryPacket].
  destruct (Hsn i packet) as [[[e|] i'] ->]; [apply IH | done].
Qed.

Lemma default_packet_safe : packet_safe quicClientHello -> Forall packet_safe defaultPacketSniffers.
Proof using Type.
  intros Hq. repeat constructor; try done; intros i p;
    [apply DomainNameQuery_safe | apply STUNMessage_safe | apply UTP_safe | apply UDPTracker_safe | apply DTLSRecord_safe | apply NTP_safe].
Qed.

Lemma peekOne_safe a i packet : packet_safe quicClientHello -> Forall packet_safe (a_PacketSniffers a) -> is_Some (peekOne a i packet).
Proof using Type.
  intros Hq Hs. unfold peekOne, PeekPacket. cbv zeta.
  match goal with |- context [tryPacket ?l packet [] i] => assert (Forall packet_safe l) as Hl end.
  { destruct (quicMoreData a i); [by repeat constructor|]. destruct (a_PacketSniffers a); [by apply default_packet_safe | done]. }
  by destruct (tryPacket_safe _ packet [] i Hl) as [[e i'] ->].
Qed.

Lemma sniffKept_safe a kept i : packet_safe quicClientHello -> Forall packet_safe (a_PacketSniffers a) -> is_Some (sniffKept a kept i).
Proof using Type.
  intros Hq Hs. revert i. induction kept as [|p kept IH]; intros i; [done|]. cbn [sniffKept].
  destruct (peekOne_safe a i (p_data p) Hq Hs) as [[e i'] ->]. destruct (wantsMore e); [apply IH | done].
Qed.

(** The events taken off the connection are the packets returned, and at most one other. *)
Lemma sniffNew_spec fuel a out c i :
  packet_safe quicClientHello -> Forall packet_safe (a_PacketSniffers a) -> (length (pc_events c) < fuel)%nat ->
  exists new used fatal err c' i', sniffNew isDeadline fuel a out c i = Some (out ++ new, fatal, err, c', i') /\
    pc_events c = (Packet <$> new) ++ used ++ pc_events c' /\ (length used <= 1)%nat /\ Forall (fun ev => forall p, ev <> Packet p) used.
Proof using Type.
  intros Hq Hs. revert out c i. induction fuel as [|fuel IH]; intros out c i Hf; [lia|]. cbn [sniffNew].
  destruct c as [evs en]. unfold nextEvent. cbn [pc_events pc_end] in *. destruct evs as [|ev evs].
  { exists [], []. rewrite app_nil_r. destruct (isDeadline en); repeat eexists; simpl; (done || lia || constructor). }
  destruct ev as [p|e|e].
  - destruct (peekOne_safe a i (p_data p) Hq Hs) as [[e i1] ->]. destruct (wantsMore e).
    + destruct (IH (out ++ [p]) (mkPacketConn evs en) i1) as (new & used & fatal & err & c' & i' & -> & He & Hu & Hn); [simpl in *; lia|].
      exists (p :: new), used, fatal, err, c', i'. rewrite <- app_assoc. split; [done|]. split; [|done]. simpl. f_equal. exact He.
    + exists [p], []. repeat eexists; simpl; (done || lia || constructor).
  - exists [], [ReadFails e]. rewrite app_nil_r. destruct (isDeadline e); repeat eexists; simpl; try (done || lia); by repeat constructor.
  - exists [], [Cancelled e]. rewrite app_nil_r. repeat eexists; simpl; try (done || lia); by repeat constructor.
Qed.

(** The first sniff action of a packet connection returns, and keeps the packets it took off the
    connection, in order and once each. *)
Lemma first_sniff_keeps_packets a c i :
  packet_safe quicClientHello -> Forall packet_safe (a_PacketSniffers a) ->
  exists new used fatal c' i', sniffPackets isDeadline a [] c i = Some (new, fatal, c', i') /\
    pc_events c = (Packet <$> keepPackets [] new) ++ used ++ pc_events c' /\ Forall (fun ev => forall p, ev <> Packet p) used.
Proof using Type.
  intros Hq Hs. unfold sniffPackets.
  do 4 (match goal with |- context [if ?b then Some ([], None, c, i) else _] => destruct b end; [exists [], [], None, c, i; by repeat split; constructor|]).
  cbn [sniffKept]. destruct (sniffNew_spec (S (length (pc_events c))) a [] c i Hq Hs ltac:(lia)) as (new & used & fatal & err & c' & i' & -> & He & _ & Hn).
  destruct fatal as [fe|]; by exists new, used; repeat eexists.
Qed.

(** A second sniff action on a packet connection that the kept packets do not settle returns the
    kept packets again: the outbound is given each of them twice. *)
Theorem sniffing_again_duplicates_packets (a : SniffAction) (kept : list PacketBuffer) (c : PacketConn) (i i0 : SniffInfo) :
  packet_safe quicClientHello -> Forall packet_safe (a_PacketSniffers a) ->
  Skip i = false -> i_Protocol i = "" -> (a_PacketSniffers a = [] -> a_StreamSniffers a = []) -> failedBefore a i = false ->
  sniffKept a kept i = Some (None, i0) ->
  exists returned new fatal c' i', sniffPackets isDeadline a kept c i = Some (returned, fatal, c', i') /\
    keepPackets kept returned = kept ++ kept ++ new.
Proof using Type.
  intros Hq Hs E1 E2 E3 E4 Hk. unfold sniffPackets. rewrite E1, E4, Hk, (bool_decide_eq_true_2 _ E2). cbn [negb].
  replace (match a_PacketSniffers a with [] => _ | _ => _ end) with false
    by (destruct (a_PacketSniffers a); [by rewrite E3 by done | done]).
  destruct (sniffNew_spec (S (length (pc_events c))) a kept c i0 Hq Hs ltac:(lia)) as (new & used & fatal & err & c' & i' & -> & _).
  unfold keepPackets. destruct fatal as [fe|]; by exists (kept ++ new), new; repeat eexists.
Qed.

(** A DNS message that is not a query ends the sniffing of a packet as a success without a
    protocol: the sniffers after it are not asked. *)
Theorem dns_response_ends_sniffing (a : SniffAction) (i : SniffInfo) (packet : list Z) (msg : DNSHead) :
  a_PacketSniffers a = [] -> quicMoreData a i = false -> unpackDNS packet = Ok msg -> Response msg = true ->
  peekOne a i packet = Some (None, setOutcome (a_SnifferNames a) None i).
Proof using Type.
  intros Ea Eq Eu Er. unfold peekOne, PeekPacket. cbv zeta. rewrite Eq, Ea. cbn [tryPacket defaultPacketSniffers].
  unfold DomainNameQuery. by rewrite Eu, Er.
Qed.

(** A BitTorrent handshake whose first bytes were kept by an earlier action is not recognised,
    however much of it has arrived: the sniffer reads from one buffer only. *)
Theorem split_handshake_not_recognised (i : SniffInfo) (l k : list Z) :
  19 :: btHeader = l ++ k -> (1 < length l)%nat -> k <> [] -> BitTorrent i [l; k] = Some (Some ErrNeedMoreData, i).
Proof using Type.
  intros Hl Hlen Hk. destruct l as [|b [|b2 l]]; [simpl in Hlen; lia | simpl in Hlen; lia|]. cbn [app] in Hl.
  unfold BitTorrent. assert (length btHeader = 19%nat) as H19 by done. revert Hl H19. generalize btHeader. intros h Hl H19. injection Hl as <- ->. cbn [readOnce]. change (take 1 (19 :: ?l)) with [19]. change (drop 1 (19 :: ?l)) with l.
  rewrite bool_decide_eq_true_2 by done. cbn [negb readOnce].
  assert (length (b2 :: l) < 19)%nat as Hlt.
  { cbn [length] in *. rewrite length_app in H19. destruct k; [done|]. simpl in H19. lia. }
  rewrite (take_ge (b2 :: l)) by lia. change (b2 :: l ++ k) with ((b2 :: l) ++ k). rewrite take_app_length.
  rewrite bool_decide_eq_true_2 by done. cbn [negb]. by rewrite (proj2 (Nat.ltb_lt _ _)).
Qed.
End PacketConservation.

(** ** Examples *)

Module SniffSample.
(** Stand-ins: packets that begin with 128 are DNS responses, those with 192 parts of a QUIC hello. *)
#[export] Instance libs : SniffLibs :=
  {| unpackDNS p := match p with 128 :: _ => Ok (mkDNSHead true 1 1 0) | _ => Err (New "dns: overflow") end;
     tlsClientHello _ := Err (New "tls: first record does not look like a TLS handshake");
     readRequestHost _ := Err (New "malformed HTTP request");
     isUnexpectedEOF _ := false;
     quicClientHello i p := match p with 192 :: _ => Some (Some ErrNeedMoreData, i) | _ => Some (Some ErrInvalid, i) end;
     IsDomainName d := negb (bool_decide (d = "")) |}.

Definition fresh : SniffInfo := mkInfo "" "" "" (mkSocksaddr None 443 "example.com") [] None.
Definition anyAction : SniffAction := mkSniffAction [] [] [] false.

Definition ssh : StreamConn :=
  mkConn [[83; 83; 72]; [45; 50; 46; 48; 45; 79; 112; 101; 110; 13; 10; 0]; [1; 2; 3]] EOF.

Lemma sniffing_keeps_the_stream_witness :
  exists new c' i', sniffStream anyAction [] ssh fresh = Some (new, c', i') /\
    concat (keepBuffer [] new) ++ content c' = concat [] ++ content ssh /\ (length (default [] new) <= packetSize)%nat.
Proof. exact (sniffing_keeps_the_stream anyAction [] ssh fresh (Forall_nil_2 _)). Defined.

Example ssh_is_recognised :
  match sniffStream anyAction [] ssh fresh with Some (_, c, i) => (i_Protocol i, i_Client i, content c) | None => ("", "", []) end =
    ("ssh", "Open", [1; 2; 3]).
Proof. vm_compute. reflexivity. Qed.

Definition rdp : list Z := [3; 0; 0; 19; 14; 224; 0; 0; 0; 0; 0; 1; 0; 8].

Lemma stream_verdicts_stand_witness : exists i2, RDP fresh [rdp ++ [0; 3; 0]] = Some (None, i2).
Proof.
  exact (stream_verdicts_stand RDP fresh rdp [0; 3; 0] None (setProtocol "rdp" fresh) (or_introl eq_refl) ltac:(vm_compute; reflexivity) eq_refl).
Defined.

Definition hello : PacketBuffer := mkPacket [192; 1; 2] (mkSocksaddr None 443 "example.com").
(** After a first action that read one packet and timed out. *)
Definition waiting : SniffInfo := setOutcome [] (Some ErrNeedMoreData) fresh.
Definition quiet : PacketConn := mkPacketConn [ReadFails (New "i/o timeout")] EOF.

Lemma libs_quic_safe : packet_safe quicClientHello.
Proof. intros i p. unfold quicClientHello, libs. by repeat case_match. Qed.

Lemma sniffing_again_duplicates_packets_witness :
  exists returned new fatal c' i', sniffPackets (fun _ => true) anyAction [hello] quiet waiting = Some (returned, fatal, c', i') /\
    keepPackets [hello] returned = [hello] ++ [hello] ++ new.
Proof.
  exact (sniffing_again_duplicates_packets (fun _ => true) anyAction [hello] quiet waiting (setOutcome [] (Some ErrNeedMoreData) waiting)
    libs_quic_safe (Forall_nil_2 _) ltac:(vm_compute; reflexivity) eq_refl (fun _ => eq_refl) ltac:(vm_compute; reflexivity) ltac:(vm_compute; reflexivity)).
Defined.

Lemma dns_response_ends_sniffing_witness : peekOne anyAction fresh [128; 0] = Some (None, setOutcome [] None fresh).
Proof. exact (dns_response_ends_sniffing anyAction fresh [128; 0] (mkDNSHead true 1 1 0) eq_refl ltac:(vm_compute; reflexivity) eq_refl eq_refl). Defined.

Lemma split_handshake_not_recognised_witness : BitTorrent fresh [take 10 (19 :: btHeader); drop 10 (19 :: btHeader)] = Some (Some ErrNeedMoreData, fresh).
Proof.
  exact (split_handshake_not_recognised fresh (take 10 (19 :: btHeader)) (drop 10 (19 :: btHeader)) ltac:(vm_compute; reflexivity)
    ltac:(vm_compute; lia) ltac:(vm_compute; discriminate)).
Defined.
End SniffSample.
