(* ===== verification/TLSFragment.v ===== *)
(** * TLS fragmentation (src/fork/sing-box/common/tlsfragment)

    [Conn] splits the first write of a connection inside the server name of a TLS client hello,
    into several packets, several TLS records or both.  The client hello is data of the proxied
    client.

    In [IndexTLSServerName] and below the outer [None] is a panic or missing fuel, the inner one
    the nil the source returns.  Lengths keep their width: extension lengths are uint16. *)

From S2P Require Import Prelude GoStrings Wire.

#[local] Open Scope Z_scope.

(** ** Finding the server name *)

Record MyServerName := mkServerName { sn_Index : Z; sn_Length : Z; sn_ServerName : list Z }.

#[export] Instance MyServerName_eq_dec : EqDecision MyServerName.
Proof. solve_decision. Defined.

Definition shiftIndex (n : Z) (s : option MyServerName) : option MyServerName :=
  (fun s => mkServerName (sn_Index s + n) (sn_Length s) (sn_ServerName s)) <$> s.

(** [uint16(l[i])<<8 | uint16(l[i+1])]. *)
Definition u16At (l : list Z) (i : nat) : option Z := a ← l !! i; b ← l !! S i; Some (a * 256 + b).

(** [l[i:]] and [l[i:j]]. *)
Definition sliceFrom (l : list Z) (i : Z) : option (list Z) := if i <=? Z.of_nat (length l) then Some (drop (Z.to_nat i) l) else None.
Definition slice (l : list Z) (i j : Z) : option (list Z) :=
  if (i <=? j) && (j <=? Z.of_nat (length l)) then Some (take (Z.to_nat (j - i)) (drop (Z.to_nat i) l)) else None.

(** The loop over the extensions. *)
Fixpoint extensionLoop (fuel : nat) (exs : list Z) (currentIndex : Z) : option (option MyServerName) :=
  if len exs =? 0 then Some None else
  match fuel with
  | O => None
  | S fuel =>
      if len exs <? 4 then Some None else
      exType ← u16At exs 0; exLen ← u16At exs 2;
      if len exs <? 4 + exLen then Some None else
      sex ← slice exs 4 (4 + exLen);
      if exType =? 0 then
        if len sex <? 5 then Some None else
        sniType ← sex !! 2%nat;
        if negb (sniType =? 0) then Some None else
        sniLen ← u16At sex 3;
        name ← sliceFrom sex 5;
        Some (Some (mkServerName (currentIndex + 4 + 5) sniLen name))
      else
        (* the index is of type uint16 *)
        exs ← sliceFrom exs ((4 + exLen) mod 2 ^ 16);
        extensionLoop fuel exs (currentIndex + 4 + exLen)
  end.

Definition indexTLSServerNameFromExtensions (exs : list Z) : option (option MyServerName) :=
  if len exs =? 0 then Some None else
  if len exs <? 2 then Some None else
  exsLen ← u16At exs 0;
  exs ← sliceFrom exs 2;
  if len exs <? exsLen then Some None else
  extensionLoop (length exs) exs 2.

Definition indexTLSServerNameFromHandshake (handshake : list Z) : option (option MyServerName) :=
  if len handshake <? 6 + 32 + 1 then Some None else
  handshakeType ← handshake !! 0%nat;
  if negb (handshakeType =? 1) then Some None else
  a ← handshake !! 1%nat; b ← handshake !! 2%nat; c ← handshake !! 3%nat;
  let handshakeLen := a * 65536 + b * 256 + c in
  body ← sliceFrom handshake 4;
  if negb (len body =? handshakeLen) then Some None else
  tlsVersion ← u16At handshake 4;
  if negb (Z.land tlsVersion 65532 =? 768) && negb (tlsVersion =? 772) then Some None else
  sessionIDLen ← handshake !! 38%nat;
  let currentIndex := 6 + 32 + 1 + sessionIDLen in
  if len handshake <? currentIndex then Some None else
  cipherSuites ← sliceFrom handshake currentIndex;
  if len cipherSuites <? 2 then Some None else
  csLen ← u16At cipherSuites 0;
  if len cipherSuites <? 2 + csLen + 1 then Some None else
  compressMethodLen ← cipherSuites !! Z.to_nat (2 + csLen);
  let currentIndex := currentIndex + (2 + csLen + 1 + compressMethodLen) in
  if len handshake <? currentIndex then Some None else
  exs ← sliceFrom handshake currentIndex;
  serverName ← indexTLSServerNameFromExtensions exs;
  Some (shiftIndex currentIndex serverName).

Definition IndexTLSServerName (payload : list Z) : option (option MyServerName) :=
  if len payload <? 5 then Some None else
  contentType ← payload !! 0%nat;
  if negb (contentType =? 22) then Some None else
  segmentLen ← u16At payload 3;
  if len payload <? 5 + segmentLen then Some None else
  handshake ← sliceFrom payload 5;
  serverName ← indexTLSServerNameFromHandshake handshake;
  Some (shiftIndex 5 serverName).

(** ** Splitting *)

(** [strings.Split(name, ".")]. *)
Fixpoint splitDots (cur l : list Z) : list (list Z) :=
  match l with
  | [] => [cur]
  | b :: l => if b =? 46 then cur :: splitDots [] l else splitDots (cur ++ [b]) l
  end.
Definition Split (name : list Z) : list (list Z) := splitDots [] name.
Definition countDots (name : list Z) : nat := length (List.filter (fun b => b =? 46) name).

Class FragmentLibs := {
  (** [publicsuffix.List.PublicSuffix]. *)
  PublicSuffix : list Z -> list Z;
  (** The results of [rand.Intn], by call. *)
  Intn : nat -> Z -> Z
}.

(** Go's [rand.Intn(n)] is in [0, n). *)
Class FragmentLaws `{FragmentLibs} := { Intn_range : forall k n, 0 < n -> 0 <= Intn k n < n }.

Section Fragments.
Context `{FragmentLibs}.

(** The labels that are split; the slice expression panics when it ends before the first. *)
Definition labels (name : list Z) : option (list (list Z)) :=
  let splits := Split name in
  splits ← (if bool_decide (PublicSuffix name = []) then Some splits
            else if (countDots name <=? length splits)%nat then Some (take (length splits - countDots name) splits) else None);
  Some splits.

(** The first label is skipped with its dot when it is "...". *)
Definition dropEllipsis (splits : list (list Z)) (currentIndex : Z) : list (list Z) * Z :=
  match splits with
  | s :: (_ :: _) as rest => if bool_decide (s = [46; 46; 46]) then (rest, currentIndex + len s + 1) else (splits, currentIndex)
  | _ => (splits, currentIndex)
  end.

(** The loop over the labels; [rand.Intn] panics on an empty one. *)
Fixpoint splitIndexes (k : nat) (splits : list (list Z)) (currentIndex : Z) : option (list Z) :=
  match splits with
  | [] => Some []
  | s :: splits =>
      if len s =? 0 then None else
      rest ← splitIndexes (S k) splits (currentIndex + len s + match splits with [] => 0 | _ => 1 end);
      Some ((currentIndex + Intn k (len s)) :: rest)
  end.

(** The pieces of [b] between the indexes; [from] is where the current piece starts. *)
Fixpoint pieces (b : list Z) (from : Z) (indexes : list Z) : option (list (list Z)) :=
  match indexes with
  | [] => p ← sliceFrom b from; Some [p]
  | i :: indexes => p ← slice b from i; ps ← pieces b i indexes; Some (p :: ps)
  end.

(** A TLS record around a payload: its type and version, and its length as uint16. *)
Definition record (b payload : list Z) : list Z := take 3 b ++ bePut 2 (len payload mod 2 ^ 16) ++ payload.

(** What is written for the first packet: a list of writes. *)
Definition fragments (splitPacket splitRecord : bool) (b : list Z) (name : MyServerName) : option (list (list Z)) :=
  splits ← labels (sn_ServerName name);
  let (splits, currentIndex) := dropEllipsis splits (sn_Index name) in
  indexes ← splitIndexes 0 splits currentIndex;
  (* the loop runs once more than there are indexes and reads the first one *)
  match indexes with
  | [] => None
  | _ =>
      ps ← pieces b 0 indexes;
      if splitRecord then
        match ps with
        | first :: ps =>
            first ← sliceFrom first 5;
            let records := record b <$> (first :: ps) in
            Some (if splitPacket then records else [concat records])
        | [] => None
        end
      else Some (if splitPacket then ps else [])
  end.

(** [Conn]: the operations of the connection below fail by an oracle on their number. *)
Record Conn := mkConn {
  tcpConn : bool;
  firstPacketWritten : bool;
  splitPacket : bool;
  splitRecord : bool;
  (** What was written to the connection below, and the operations done. *)
  written : list (list Z);
  operations : nat
}.

Variable failing : nat -> option error.

Definition operate (c : Conn) : option error * Conn :=
  (failing (operations c), mkConn (tcpConn c) (firstPacketWritten c) (splitPacket c) (splitRecord c) (written c) (S (operations c))).
Definition writeOut (p : list Z) (c : Conn) : option error * Conn :=
  match failing (operations c) with
  | Some e => (Some e, mkConn (tcpConn c) (firstPacketWritten c) (splitPacket c) (splitRecord c) (written c) (S (operations c)))
  | None => (None, mkConn (tcpConn c) (firstPacketWritten c) (splitPacket c) (splitRecord c) (written c ++ [p]) (S (operations c)))
  end.
Definition setNoDelay (c : Conn) : option error * Conn := if tcpConn c then operate c else (None, c).

Fixpoint writeAll (ps : list (list Z)) (c : Conn) : option error * Conn :=
  match ps with
  | [] => (None, c)
  | p :: ps => match writeOut p c with (Some e, c) => (Some e, c) | (None, c) => writeAll ps c end
  end.

Definition markWritten (c : Conn) : Conn := mkConn (tcpConn c) true (splitPacket c) (splitRecord c) (written c) (operations c).

(** The writes of the fragments and the reset of the option, the first failure ending them. *)
Definition sendFragments (ps : list (list Z)) (n : Z) (c : Conn) : (Z * option error) * Conn :=
  let (err, c) := writeAll ps c in
  match err with
  | Some e => ((0, Some e), c)
  | None =>
      let (err, c) := setNoDelay c in
      match err with Some e => ((0, Some e), c) | None => ((n, None), c) end
  end.

(** [Conn.Write]: the count and error; [None] is a panic or a search that does not end. *)
Definition Write (b : list Z) (c : Conn) : option ((Z * option error) * Conn) :=
  let plain c := let (err, c) := writeOut b c in ((match err with None => len b | Some _ => 0 end, err), c) in
  if firstPacketWritten c then Some (plain c) else
  name ← IndexTLSServerName b;
  match name with
  | None => Some (let (r, c) := plain c in (r, markWritten c))
  | Some name =>
      let (err, c) := if splitPacket c then setNoDelay c else (None, c) in
      match err with
      | Some e => Some ((0, Some e), markWritten c)
      | None =>
          ps ← fragments (splitPacket c) (splitRecord c) b name;
          Some (let (r, c) := sendFragments ps (len b) c in (r, markWritten c))
      end
  end.
End Fragments.

(** ** The search ends inside the payload *)

(** [name] stands in [l] at index [i]. *)
Definition standsAt (l : list Z) (i : Z) (name : list Z) : Prop := exists pre post, l = pre ++ name ++ post /\ i = len pre.
(** The search ended, and what it found stands in [l], [base] before its index. *)
Definition located (l : list Z) (base : Z) (r : option (option MyServerName)) : Prop :=
  exists s, r = Some s /\ forall name, s = Some name -> standsAt l (sn_Index name - base) (sn_ServerName name).

Lemma located_none l base : located l base (Some None).
Proof. by exists None. Qed.
#[local] Hint Resolve located_none : core.

Lemma standsAt_drop k l i name : (k <= length l)%nat -> standsAt (drop k l) i name -> standsAt l (Z.of_nat k + i) name.
Proof.
  intros Hk (pre & post & Heq & ->). exists (take k l ++ pre), post.
  rewrite <- (take_drop k l) at 1. rewrite Heq, <- !app_assoc. split; [done|]. unfold len. rewrite length_app, length_take. lia.
Qed.

Lemma located_drop k l base base' r :
  (k <= length l)%nat -> base' = base - Z.of_nat k -> located (drop k l) base r -> located l base' r.
Proof.
  intros Hk -> (s & -> & Hs). exists s. split; [done|]. intros name ->. specialize (Hs name eq_refl).
  replace (sn_Index name - (base - Z.of_nat k)) with (Z.of_nat k + (sn_Index name - base)) by lia. by apply standsAt_drop.
Qed.

Lemma located_shift l base n (r : option (option MyServerName)) :
  located l base r -> located l (base + n) (s ← r; Some (shiftIndex n s)).
Proof.
  intros (s & -> & Hs). exists (shiftIndex n s). split; [done|]. intros name. destruct s as [s|]; [|done]. simpl. intros [= <-].
  simpl. specialize (Hs s eq_refl). by replace (sn_Index s + n - (base + n)) with (sn_Index s - base) by lia.
Qed.

Lemma lookup_byte (l : list Z) (i : nat) : is_bytes l -> (i < length l)%nat -> exists b, l !! i = Some b /\ 0 <= b < 256.
Proof.
  intros Hl Hi. destruct (lookup_lt_is_Some_2 l i Hi) as [b Hb]. exists b. split; [done|]. exact (Forall_lookup_1 _ _ _ _ Hl Hb).
Qed.

Lemma u16At_bytes (l : list Z) (i : nat) : is_bytes l -> (S i < length l)%nat -> exists v, u16At l i = Some v /\ 0 <= v < 65536.
Proof.
  intros Hl Hi. unfold u16At. destruct (lookup_byte l i) as (a & -> & Ha); [done|lia|].
  destruct (lookup_byte l (S i)) as (b & -> & Hb); [done..|]. simpl. eexists. split; [done|]. lia.
Qed.

Lemma sliceFrom_in l i : i <= len l -> sliceFrom l i = Some (drop (Z.to_nat i) l).
Proof. unfold sliceFrom, len. intros. by rewrite (proj2 (Z.leb_le _ _)). Qed.

Lemma slice_in l i j : i <= j <= len l -> slice l i j = Some (take (Z.to_nat (j - i)) (drop (Z.to_nat i) l)).
Proof. unfold slice, len. intros. by rewrite !(proj2 (Z.leb_le _ _)) by lia. Qed.

Lemma bytes_drop n l : is_bytes l -> is_bytes (drop n l).
Proof. apply Forall_drop. Qed.

Lemma bytes_take n l : is_bytes l -> is_bytes (take n l).
Proof. apply Forall_take. Qed.
#[local] Hint Resolve bytes_drop bytes_take : core.

(** One bounds check of the source: the branch that returns nil, or the fact it establishes. *)
Ltac bound :=
  match goal with
  | |- located _ _ (if ?c then Some None else _) => destruct c eqn:?; [by auto|]; bool_inv
  end.

Ltac unbind := cbn [mbind option_bind].

Lemma extensionLoop_located fuel exs ci :
  is_bytes exs -> len exs < 65536 -> (length exs <= fuel)%nat -> located exs ci (extensionLoop fuel exs ci).
Proof.
  revert exs ci. induction fuel as [|fuel IH]; intros exs ci Hb Hlen Hfuel.
  { destruct exs; [simpl; auto|simpl in Hfuel; lia]. }
  cbn [extensionLoop]. bound. bound. unfold len in *.
  destruct (u16At_bytes exs 0) as (exType & -> & _); [done|lia|].
  destruct (u16At_bytes exs 2) as (exLen & -> & HexLen); [done|lia|]. unbind. bound.
  rewrite slice_in by (unfold len; lia). unbind. replace (4 + exLen - 4) with exLen by lia. change (Z.to_nat 4) with 4%nat.
  set (sex := take (Z.to_nat exLen) (drop 4 exs)).
  assert (Z.of_nat (length sex) = exLen) as Hsex by (unfold sex; rewrite length_take, length_drop; lia).
  assert (is_bytes sex) by (unfold sex; auto).
  destruct (exType =? 0).
  - bound. destruct (lookup_byte sex 2) as (sniType & -> & _); [done|lia|]. unbind. bound.
    destruct (u16At_bytes sex 3) as (sniLen & -> & _); [done|lia|].
    rewrite sliceFrom_in by (unfold len; lia). unbind. eexists. split; [done|]. intros name [= <-]. simpl.
    replace (ci + 4 + 5 - ci) with (Z.of_nat 4 + (Z.of_nat 5 + 0)) by lia. apply standsAt_drop; [lia|].
    apply standsAt_drop; [rewrite length_drop; lia|]. exists [], (drop (Z.to_nat exLen) (drop 4 exs)).
    split; [|done]. simpl. rewrite <- (take_drop (Z.to_nat exLen) (drop 4 exs)) at 1. fold sex.
    rewrite drop_app_le by lia. done.
  - rewrite Z.mod_small by lia. rewrite sliceFrom_in by (unfold len; lia). unbind.
    apply (located_drop (Z.to_nat (4 + exLen)) _ (ci + 4 + exLen)); [lia|lia|].
    apply IH; [auto|unfold len; rewrite length_drop; lia|rewrite length_drop; lia].
Qed.

Lemma extensions_located exs : is_bytes exs -> len exs < 65536 -> located exs 0 (indexTLSServerNameFromExtensions exs).
Proof.
  intros Hb Hlen. unfold indexTLSServerNameFromExtensions. bound. bound. unfold len in *.
  destruct (u16At_bytes exs 0) as (exsLen & -> & _); [done|lia|]. rewrite sliceFrom_in by (unfold len; lia). unbind. bound.
  change (Z.to_nat 2) with 2%nat. apply (located_drop 2 _ 2); [lia|done|].
  apply extensionLoop_located; [auto|unfold len; rewrite length_drop; lia|done].
Qed.

Lemma handshake_located h : is_bytes h -> len h < 65536 -> located h 0 (indexTLSServerNameFromHandshake h).
Proof.
  intros Hb Hlen. unfold indexTLSServerNameFromHandshake. bound. unfold len in *.
  destruct (lookup_byte h 0) as (? & -> & _); [done|lia|]. unbind. bound.
  destruct (lookup_byte h 1) as (? & -> & _); [done|lia|]. destruct (lookup_byte h 2) as (? & -> & _); [done|lia|].
  destruct (lookup_byte h 3) as (? & -> & _); [done|lia|]. rewrite sliceFrom_in by (unfold len; lia). unbind. bound.
  destruct (u16At_bytes h 4) as (? & -> & _); [done|lia|]. unbind. bound.
  destruct (lookup_byte h 38) as (sid & -> & Hsid); [done|lia|]. unbind. bound.
  rewrite sliceFrom_in by (unfold len; lia). unbind. set (cs := drop _ h).
  assert (length cs = length h - Z.to_nat (6 + 32 + 1 + sid))%nat as Hcs by apply length_drop.
  assert (is_bytes cs) by (unfold cs; auto). clearbody cs. bound.
  destruct (u16At_bytes cs 0) as (csLen & -> & HcsLen); [done|lia|]. unbind. bound.
  destruct (lookup_byte cs (Z.to_nat (2 + csLen))) as (cm & -> & Hcm); [done|lia|]. unbind. bound.
  rewrite sliceFrom_in by (unfold len; lia). unbind.
  set (k := 6 + 32 + 1 + sid + (2 + csLen + 1 + cm)) in *.
  apply (located_drop (Z.to_nat k) _ (0 + k)); [lia|lia|]. apply located_shift.
  apply extensions_located; [auto|unfold len; rewrite length_drop; lia].
Qed.

(** The search for the server name in a first packet of less than 2^16 bytes ends without a panic:
    no slice bound is exceeded whatever lengths the client claims, and a name it returns stands in
    the packet at the index it returns, after the record header. *)
Lemma server_name_in_payload payload :
  is_bytes payload -> len payload < 65536 ->
  exists r, IndexTLSServerName payload = Some r /\
            forall name, r = Some name -> standsAt payload (sn_Index name) (sn_ServerName name) /\ 5 <= sn_Index name.
Proof.
  intros Hb Hlen. assert (located (drop 5 payload) 5 (IndexTLSServerName payload) /\ ((length payload < 5)%nat -> IndexTLSServerName payload = Some None)) as [(r & Hr & Hat) Hshort].
  { unfold IndexTLSServerName. split; [|intros ?; unfold len; by rewrite (proj2 (Z.ltb_lt _ _)) by lia].
    bound. unfold len in *. destruct (lookup_byte payload 0) as (? & -> & _); [done|lia|]. unbind. bound.
    destruct (u16At_bytes payload 3) as (? & -> & _); [done|lia|]. unbind. bound. rewrite sliceFrom_in by (unfold len; lia). unbind.
    apply (located_shift _ 0 5), handshake_located; [auto|unfold len; rewrite length_drop; lia]. }
  exists r. split; [done|]. intros name ->. specialize (Hat name eq_refl).
  destruct (decide (length payload < 5)%nat) as [Hs|Hs]; [rewrite (Hshort Hs) in Hr; done|]. split.
  - apply (standsAt_drop 5) in Hat; [|lia]. by replace (Z.of_nat 5 + (sn_Index name - 5)) with (sn_Index name) in Hat by lia.
  - destruct Hat as (pre & post & _ & Heq). unfold len in Heq. lia.
Qed.

(** The increment is of type uint16: at an extension of 65532 bytes the loop stays where it is, so
    that no number of iterations ends it. *)
Lemma extension_of_65532_bytes exs ty :
  65536 <= len exs -> u16At exs 0 = Some ty -> ty <> 0 -> u16At exs 2 = Some 65532 ->
  (forall fuel ci, extensionLoop (S fuel) exs ci = extensionLoop fuel exs (ci + 65536)) /\
  (forall fuel ci, extensionLoop fuel exs ci = None).
Proof.
  intros Hlen Ht Hty He.
  assert (forall fuel ci, extensionLoop (S fuel) exs ci = extensionLoop fuel exs (ci + 65536)) as Hstep.
  { intros fuel ci. cbn [extensionLoop]. rewrite (proj2 (Z.eqb_neq _ _)), (proj2 (Z.ltb_ge _ _)), Ht, He by lia. unbind.
    rewrite (proj2 (Z.ltb_ge _ _)), slice_in by lia. unbind. rewrite (proj2 (Z.eqb_neq ty _)) by lia.
    change ((4 + 65532) mod 2 ^ 16) with 0. rewrite sliceFrom_in by lia. unbind.
    replace (ci + 4 + 65532) with (ci + 65536) by lia. done. }
  split; [done|]. induction fuel as [|fuel IH]; intros ci; [|by rewrite Hstep].
  cbn [extensionLoop]. by rewrite (proj2 (Z.eqb_neq _ _)) by lia.
Qed.

(** ** The fragments are the packet *)

Lemma Split_not_nil name : Split name <> [].
Proof. unfold Split. generalize (@nil Z). induction name as [|b l IH]; intros cur; simpl; [done|]. case_match; [done|apply IH]. Qed.

Lemma splitDots_length cur l : length (splitDots cur l) = S (countDots l).
Proof. revert cur. induction l as [|b l IH]; intros cur; simpl; [done|]. unfold countDots. simpl. case_match; simpl; by rewrite IH. Qed.

(** Under a public suffix the subtraction leaves the first label alone. *)
Lemma labels_spec `{FragmentLibs} name :
  labels name = Some (if bool_decide (PublicSuffix name = []) then Split name else take 1 (Split name)).
Proof.
  unfold labels. case_bool_decide; [done|]. unfold Split. rewrite splitDots_length, (proj2 (Nat.leb_le _ _)) by lia. unbind.
  do 2 f_equal. lia.
Qed.

(** A label holds no dot, so the branch for "..." is never taken. *)
Lemma splitDots_no_dot cur l : 46 ∉ cur -> Forall (fun s => 46 ∉ s) (splitDots cur l).
Proof.
  revert cur. induction l as [|b l IH]; intros cur Hc; simpl; [by constructor|]. case_match; bool_inv.
  - constructor; [done|]. apply IH. set_solver.
  - apply IH. set_solver.
Qed.

Lemma labels_no_dot `{FragmentLibs} name splits : labels name = Some splits -> Forall (fun s => 46 ∉ s) splits.
Proof.
  rewrite labels_spec. intros [= <-]. assert (Forall (fun s => 46 ∉ s) (Split name)) by (apply splitDots_no_dot; set_solver).
  case_match; [done|by apply Forall_take].
Qed.

Lemma dropEllipsis_id splits i : Forall (fun s => 46 ∉ s) splits -> dropEllipsis splits i = (splits, i).
Proof.
  unfold dropEllipsis. intros Hs. destruct splits as [|s [|s' splits]]; [done..|]. case_bool_decide as Heq; [|done]. subst.
  apply Forall_cons_1 in Hs as [Hs _]. set_solver.
Qed.

(** The bytes the labels span, with the dots between them. *)
Fixpoint span (splits : list (list Z)) : Z :=
  match splits with [] => 0 | s :: splits => len s + match splits with [] => 0 | _ => 1 + span splits end end.

Fixpoint ascending (lo : Z) (indexes : list Z) (hi : Z) : Prop :=
  match indexes with [] => lo <= hi | i :: indexes => lo <= i /\ ascending i indexes hi end.

Lemma ascending_weaken lo lo' indexes hi hi' : lo' <= lo -> hi <= hi' -> ascending lo indexes hi -> ascending lo' indexes hi'.
Proof.
  intros Hlo Hhi. revert lo lo' Hlo. induction indexes as [|i indexes IH]; intros lo lo' Hlo; simpl; [lia|].
  intros [? H]. split; [lia|]. by apply (IH i).
Qed.

Lemma span_splitDots cur l : span (splitDots cur l) = len cur + len l.
Proof.
  revert cur. unfold len. induction l as [|b l IH]; intros cur; simpl; [unfold len; lia|]. case_match.
  - cbn [span]. pose proof (splitDots_length [] l). destruct (splitDots [] l) eqn:Hs; [done|]. rewrite <- Hs, IH. unfold len. simpl. lia.
  - rewrite IH, length_app. simpl. lia.
Qed.

Lemma span_labels `{FragmentLibs} name splits : labels name = Some splits -> span splits <= len name.
Proof.
  rewrite labels_spec. intros [= <-]. pose proof (span_splitDots [] name) as Hs. unfold len in *. simpl in Hs. fold (Split name) in Hs.
  case_match; [lia|]. destruct (Split name) as [|s splits]; simpl in *; [lia|].
  assert (0 <= span splits) by (clear; induction splits as [|? ? IH]; simpl; [lia|]; unfold len; destruct splits; lia).
  destruct splits; lia.
Qed.

Section Cuts.
Context `{FragmentLaws}.

Lemma splitIndexes_ascending k splits ci :
  [] ∉ splits -> exists indexes, splitIndexes k splits ci = Some indexes /\ length indexes = length splits /\
                                 ascending ci indexes (ci + span splits).
Proof.
  revert k ci. induction splits as [|s splits IH]; intros k ci Hne.
  { exists []. repeat split. simpl. lia. }
  apply not_elem_of_cons in Hne as [Hs Hne]. cbn [splitIndexes].
  assert (0 < len s) as Hpos by (destruct s; [done|unfold len; simpl; lia]). rewrite (proj2 (Z.eqb_neq _ _)) by lia.
  pose proof (Intn_range k (len s) Hpos) as Hr.
  destruct (IH (S k) (ci + len s + match splits with [] => 0 | _ => 1 end) Hne) as (rest & -> & Hl & Ha). unbind.
  eexists. split; [done|]. split; [simpl; by rewrite Hl|]. simpl. split; [lia|].
  eapply ascending_weaken; [| |exact Ha]; destruct splits; simpl; lia.
Qed.

Lemma splitIndexes_empty_label k splits ci : [] ∈ splits -> splitIndexes k splits ci = None.
Proof.
  revert k ci. induction splits as [|s splits IH]; intros k ci; [by intros ?%not_elem_of_nil|].
  rewrite elem_of_cons. intros [<-|Hin]; cbn [splitIndexes]; [done|]. case_match; [done|]. by rewrite IH.
Qed.

Lemma pieces_concat b from indexes :
  0 <= from -> ascending from indexes (len b) ->
  exists ps, pieces b from indexes = Some ps /\ concat ps = drop (Z.to_nat from) b /\ length ps = S (length indexes).
Proof.
  revert from. induction indexes as [|i indexes IH]; intros from Hf; cbn [pieces ascending].
  { intros Hb. rewrite sliceFrom_in by done. unbind. eexists. split; [done|]. split; [|done]. simpl. by rewrite app_nil_r. }
  intros [Hi Ha]. assert (i <= len b) by (clear -Ha; revert i Ha; induction indexes as [|j indexes IH]; simpl; intros; [done|]; destruct Ha as [? ?%IH]; lia).
  rewrite slice_in by lia. unbind. destruct (IH i) as (ps & -> & Hc & Hl); [lia|done|]. unbind. eexists. split; [done|].
  split; [|simpl; by rewrite Hl]. simpl. rewrite Hc. replace (Z.to_nat i) with (Z.to_nat from + Z.to_nat (i - from))%nat by lia.
  rewrite <- drop_drop. apply take_drop.
Qed.
End Cuts.

(** A reader of TLS records: the header and payload of each. *)
Fixpoint parseRecords (fuel : nat) (l : list Z) : option (list (list Z * list Z)) :=
  match l, fuel with
  | [], _ => Some []
  | _, O => None
  | _, S fuel =>
      n ← u16At l 3;
      if len l <? 5 + n then None else
      rs ← parseRecords fuel (drop (5 + Z.to_nat n) l);
      Some ((take 3 l, take (Z.to_nat n) (drop 5 l)) :: rs)
  end.

Lemma parseRecords_records b ps fuel :
  (3 <= length b)%nat -> Forall (fun p => len p < 65536) ps -> (length ps <= fuel)%nat ->
  parseRecords fuel (concat (record b <$> ps)) = Some ((fun p => (take 3 b, p)) <$> ps).
Proof.
  intros Hb. revert fuel. induction ps as [|p ps IH]; intros fuel Hps Hf; [by destruct fuel|].
  destruct fuel as [|fuel]; [simpl in Hf; lia|]. apply Forall_cons_1 in Hps as [Hp Hps].
  destruct b as [|b0 [|b1 [|b2 b]]]; [simpl in Hb; lia..|].
  cbn [fmap list_fmap concat]. unfold record at 1. rewrite Z.mod_small by (unfold len in *; lia). cbn [take app bePut parseRecords].
  unfold u16At at 1. cbn [lookup list_lookup]. unbind.
  assert (len p / 256 mod 256 * 256 + len p mod 256 = len p) as Hlen.
  { rewrite (Z.mod_small (_ / _)); [pose proof (Z.div_mod (len p) 256); lia|]. unfold len in *. split; [apply Z.div_pos; lia|apply Z.div_lt_upper_bound; lia]. }
  simpl. rewrite Hlen. unfold len at 1. rewrite (proj2 (Z.ltb_ge _ _)) by (unfold len; simpl; rewrite length_app; lia).
  unfold len. rewrite Nat2Z.id, drop_app_length, drop_0, take_app_length. rewrite (IH fuel) by (simpl in Hf; done || lia). done.
Qed.

Lemma concat_pieces_length (ps : list (list Z)) : Forall (fun p => (length p <= length (concat ps))%nat) ps.
Proof.
  induction ps as [|p ps IH]; [constructor|]. simpl. rewrite length_app. constructor; [lia|]. eapply Forall_impl; [exact IH|]. simpl. lia.
Qed.

Lemma concat_records_length b ps : (length ps <= length (concat (record b <$> ps)))%nat.
Proof.
  induction ps as [|p ps IH]; [done|]. cbn [fmap list_fmap concat]. unfold record at 1. rewrite !length_app, bePut_length. simpl in *. lia.
Qed.

Section FirstWrite.
Context `{FragmentLaws} (failing : nat -> option error).

(** What is written for a packet with a server name: the pieces between the cuts, or a record
    around each. *)
Lemma fragments_spec sp sr b name splits :
  standsAt b (sn_Index name) (sn_ServerName name) -> 5 <= sn_Index name -> len b < 65536 ->
  labels (sn_ServerName name) = Some splits -> [] ∉ splits ->
  exists first ps, fragments sp sr b name = Some (if sr then let rs := record b <$> (drop 5 first :: ps) in if sp then rs else [concat rs]
                                                  else if sp then first :: ps else []) /\
                   concat (first :: ps) = b /\ (5 <= length first)%nat /\ length ps = length splits.
Proof.
  intros (pre & post & Hb & Hi) H5 Hlen Hlab Hne. unfold fragments. rewrite Hlab. unbind.
  rewrite dropEllipsis_id by by eapply labels_no_dot.
  destruct (splitIndexes_ascending 0 splits (sn_Index name) Hne) as (indexes & -> & Hl & Ha). unbind.
  assert (splits <> []) as Hnil.
  { rewrite labels_spec in Hlab. injection Hlab as <-. pose proof (Split_not_nil (sn_ServerName name)). destruct (Split _); [done|]. by case_bool_decide. }
  apply span_labels in Hlab.
  assert (len b = sn_Index name + len (sn_ServerName name) + len post) as Hlb by (rewrite Hb, Hi; unfold len; rewrite !length_app; lia).
  assert (ascending (sn_Index name) indexes (len b)) as Ha' by (eapply ascending_weaken; [| |exact Ha]; unfold len in *; lia).
  destruct indexes as [|i indexes]; [by destruct splits|]. destruct Ha' as [Hi' Ha'].
  destruct (pieces_concat b 0 (i :: indexes)) as (ps & Hps & Hc & Hpl); [lia|split; [lia|done]|]. rewrite Hps. unbind.
  cbn [pieces] in Hps. unfold slice in Hps. destruct (_ && _) eqn:Hin; [|done]. cbn [mbind option_bind] in Hps. bool_inv.
  destruct (pieces b i indexes) as [ps'|] eqn:Hrest; [|done]. injection Hps as <-.
  eexists _, ps'. split; [|split; [exact Hc|]].
  - destruct sr; [|done]. rewrite sliceFrom_in; [done|]. unfold len. rewrite length_take, length_drop. lia.
  - rewrite length_take, length_drop. simpl in *. lia.
Qed.

Lemma writeAll_ok ps c :
  (forall k, failing k = None) ->
  exists n, writeAll failing ps c = (None, mkConn (tcpConn c) (firstPacketWritten c) (splitPacket c) (splitRecord c) (written c ++ ps) n).
Proof.
  intros Hok. revert c. induction ps as [|p ps IH]; intros c; cbn [writeAll]; [exists (operations c); rewrite app_nil_r; by destruct c|].
  unfold writeOut. rewrite Hok. edestruct IH as [n ->]. exists n. simpl. by rewrite <- app_assoc.
Qed.

Lemma sendFragments_ok ps n c :
  (forall k, failing k = None) ->
  exists c', sendFragments failing ps n c = ((n, None), c') /\ written c' = written c ++ ps.
Proof.
  intros Hok. unfold sendFragments. destruct (writeAll_ok ps c Hok) as (k & ->). unfold setNoDelay, operate. rewrite Hok.
  cbn [tcpConn written]. destruct (tcpConn c); eexists; split; reflexivity.
Qed.

(** The option set before the fragments: the connection otherwise as it was. *)
Definition noDelay (c : Conn) : Conn :=
  if splitPacket c && tcpConn c
  then mkConn (tcpConn c) (firstPacketWritten c) (splitPacket c) (splitRecord c) (written c) (S (operations c)) else c.

Lemma setNoDelay_ok c :
  (splitPacket c = true -> tcpConn c = true -> failing (operations c) = None) ->
  (if splitPacket c then setNoDelay failing c else (None, c)) = (None, noDelay c).
Proof.
  intros Hok. unfold setNoDelay, operate, noDelay. destruct (splitPacket c), (tcpConn c) eqn:Ht; simpl; [|done..]. by rewrite Hok.
Qed.

Lemma noDelay_same c : splitPacket (noDelay c) = splitPacket c /\ splitRecord (noDelay c) = splitRecord c /\ written (noDelay c) = written c.
Proof. unfold noDelay. by destruct (_ && _). Qed.

(** C27. The first write, of a packet of less than 65536 bytes, on a connection that splits packets,
    records or both, with nothing below it failing and no empty label to cut in the server name: it
    reports the whole packet, and what went out is the packet.  Split into packets the writes are its
    pieces in order, one more than there are labels to cut; split into records, a reader of records
    gets, under the packet's own type and version, payloads that are the packet's content in order. *)
Theorem first_write_carries_the_packet b c :
  is_bytes b -> len b < 65536 -> (forall k, failing k = None) ->
  firstPacketWritten c = false -> splitPacket c || splitRecord c = true ->
  (forall name splits, IndexTLSServerName b = Some (Some name) -> labels (sn_ServerName name) = Some splits -> [] ∉ splits) ->
  exists c' out,
    Write failing b c = Some ((len b, None), c') /\ written c' = written c ++ out /\ firstPacketWritten c' = true /\
    match IndexTLSServerName b with
    | Some (Some name) =>
        (splitPacket c = true -> labels (sn_ServerName name) = Some (take (length out - 1) (Split (sn_ServerName name)))) /\
        if splitRecord c
        then exists rs, parseRecords (length (concat out)) (concat out) = Some rs /\
                        Forall (fun h => h = take 3 b) rs.*1 /\ concat rs.*2 = drop 5 b
        else concat out = b
    | _ => out = [b]
    end.
Proof.
  intros Hb Hlen Hok Hfirst Hsplit Hlabels. unfold Write. rewrite Hfirst.
  destruct (server_name_in_payload b Hb Hlen) as (r & Hr & Hat). rewrite Hr in *. unbind.
  destruct r as [name|].
  2:{ unfold writeOut. rewrite Hok. eexists _, [b]. repeat split. }
  destruct (Hat name eq_refl) as [Hst H5]. pose proof (labels_spec (sn_ServerName name)) as Hsp.
  specialize (Hlabels name _ eq_refl Hsp).
  rewrite (setNoDelay_ok c) by auto. destruct (noDelay_same c) as (-> & -> & Hnd).
  destruct (fragments_spec (splitPacket c) (splitRecord c) b name _ Hst H5 Hlen Hsp Hlabels) as (first & ps & -> & Hc & H5' & Hps). unbind.
  edestruct (sendFragments_ok) as (c' & -> & Hw); [done|]. exists (markWritten c'). eexists. split; [done|]. split; [simpl; rewrite Hw, Hnd; done|]. split; [done|].
  split.
  { intros ->. rewrite Hsp. f_equal. replace (length _ - 1)%nat with (length ps) by (destruct (splitRecord c); simpl; rewrite ?length_fmap; lia).
    rewrite Hps. case_bool_decide; [by rewrite firstn_all|]. rewrite length_take. pose proof (Split_not_nil (sn_ServerName name)).
    destruct (Split _); [done|]. done. }
  destruct (splitRecord c); [|by destruct (splitPacket c)].
  assert (concat (if splitPacket c then record b <$> (drop 5 first :: ps) else [concat (record b <$> (drop 5 first :: ps))]) =
          concat (record b <$> (drop 5 first :: ps))) as -> by (destruct (splitPacket c); [done|]; cbn [concat]; by rewrite app_nil_r).
  eexists. split; [apply parseRecords_records|].
  - rewrite <- Hc. simpl. rewrite length_app. lia.
  - pose proof (concat_pieces_length (drop 5 first :: ps)) as Hp. apply (Forall_impl _ _ _ Hp). intros p Hle.
    rewrite <- Hc in Hlen. unfold len in *. simpl in *. rewrite length_app in *. rewrite length_drop in Hle. lia.
  - apply concat_records_length.
  - rewrite <- !list_fmap_compose. split; [apply Forall_fmap, Forall_true; done|].
    replace (snd ∘ _ <$> _) with (drop 5 first :: ps) by (symmetry; apply list_fmap_id). rewrite <- Hc. cbn [concat]. by rewrite drop_app_le.
Qed.

(** C28. What a first packet of less than 65536 bytes can do to the process, where setting the
    no-delay option, if packets are split over TCP, succeeds: the write panics exactly when the name
    has an empty label among those to cut, which a client decides. *)
Theorem first_write_panics_iff b c :
  is_bytes b -> len b < 65536 -> firstPacketWritten c = false ->
  (splitPacket c = true -> tcpConn c = true -> failing (operations c) = None) ->
  Write failing b c = None <->
  exists name splits, IndexTLSServerName b = Some (Some name) /\ labels (sn_ServerName name) = Some splits /\ [] ∈ splits.
Proof.
  intros Hb Hlen Hfirst Hok. unfold Write. rewrite Hfirst. destruct (server_name_in_payload b Hb Hlen) as (r & Hr & Hat). rewrite Hr. unbind.
  destruct r as [name|]; [|by split; [|intros (? & ? & [=] & _)]]. destruct (Hat name eq_refl) as [Hst H5].
  pose proof (labels_spec (sn_ServerName name)) as Hsp. set (splits := if bool_decide _ then _ else _) in Hsp.
  rewrite (setNoDelay_ok c Hok).
  destruct (decide ([] ∈ splits)) as [Hin|Hni].
  - split; [by intros; exists name, splits|]. intros _. unfold fragments. rewrite Hsp. unbind.
    rewrite dropEllipsis_id by by eapply labels_no_dot. by rewrite splitIndexes_empty_label.
  - edestruct fragments_spec as (first & ps & -> & _); [done..|]. unbind. split; [by destruct (sendFragments _ _ _ _)|].
    intros (? & ? & [= <-] & Hl & Hin). rewrite Hsp in Hl. by injection Hl as <-.
Qed.
End FirstWrite.

(** ** A client hello *)

Module FragmentSample.
(** The suffix after the last dot; cuts in the middle of a label. *)
#[local] Instance sampleLibs : FragmentLibs := {| PublicSuffix := fun name => List.last (Split name) []; Intn := fun _ n => n / 2 |}.
#[local] Instance sampleLaws : FragmentLaws.
Proof. constructor. intros k n Hn. simpl. split; [apply Z.div_pos; lia|apply Z.div_lt; lia]. Qed.

(** A hello with one cipher suite and a server name extension. *)
Definition hello (name : list Z) : list Z :=
  let ext := [0; 0] ++ bePut 2 (5 + len name) ++ bePut 2 (3 + len name) ++ [0] ++ bePut 2 (len name) ++ name in
  let body := [3; 3] ++ repeat 7 32 ++ [0; 0; 2; 19; 1; 1; 0] ++ bePut 2 (len ext) ++ ext in
  [22; 3; 1] ++ bePut 2 (4 + len body) ++ [1] ++ bePut 3 (len body) ++ body.

Definition www_go_dev : list Z := [119; 119; 119; 46; 103; 111; 46; 100; 101; 118].
Definition fresh (packet record : bool) : Conn := mkConn true false packet record [] 0.

Lemma first_write_carries_the_packet_witness :
  exists c' out, Write (fun _ => None) (hello www_go_dev) (fresh true true) = Some ((len (hello www_go_dev), None), c') /\ written c' = [] ++ out /\ length out = 2%nat.
Proof.
  destruct (first_write_carries_the_packet (fun _ => None) (hello www_go_dev) (fresh true true)) as (c' & out & Hw & Ho & _ & _).
  - decide_vm.
  - reflexivity.
  - reflexivity.
  - reflexivity.
  - reflexivity.
  - intros name splits. vm_compute. intros [= <-] [= <-]. intros [[=]|[]%not_elem_of_nil]%elem_of_cons.
  - exists c', out. split; [exact Hw|]. split; [exact Ho|]. vm_compute in Hw. injection Hw as <-. simpl in Ho. by rewrite <- Ho.
Defined.

Lemma first_write_panics_iff_witness : Write (fun _ => None) (hello []) (fresh true false) = None.
Proof.
  apply (first_write_panics_iff (fun _ => None) (hello []) (fresh true false)).
  - decide_vm.
  - reflexivity.
  - reflexivity.
  - reflexivity.
  - eexists _, _. split; [vm_compute; reflexivity|]. split; [vm_compute; reflexivity|]. set_solver.
Defined.

(** Without either flag the packet is dropped and reported as written. *)
Example neither_flag :
  (fun r => (r.1, written r.2)) <$> Write (fun _ => None) (hello www_go_dev) (fresh false false) = Some ((len (hello www_go_dev), None), []).
Proof. reflexivity. Qed.
End FragmentSample.
