(* ===== verification/DNSClient.v ===== *)
(** * The DNS client (src/fork/sing-box/dns/client.go, extension_edns0_subnet.go)

    [Client] answers a question from its cache or by a transport, lowers the times to live of a
    response to one value, and keeps it.  The cache holds the response itself and not a copy, so
    what [Exchange] changes in it after [storeCache] is in the cache; here the response is put
    into the cache as [Exchange] leaves it.

    Outside the repository are the LRU cache [FreeLRU], the store of rejected responses and the
    address conversions of the sing library; messages are those of miekg/dns.  Times are in
    nanoseconds.  Queries run at once: [reachable] takes what they do to the cache, asking it and
    keeping a response, in any order.  The lock that makes a query wait for another one of the same
    question leaves fewer orders, and is in [DNSLock]. *)

From S2P Require Import Prelude GoStrings Rules.

#[local] Open Scope Z_scope.

(** ** Messages *)

Record Question := mkQuestion { q_Name : string; q_Qtype : Z; q_Qclass : Z }.

#[export] Instance Question_eq_dec : EqDecision Question.
Proof. solve_decision. Defined.
#[export] Instance Question_countable : Countable Question.
Proof.
  refine (inj_countable' (fun q => (q_Name q, q_Qtype q, q_Qclass q)) (fun '(n, t, c) => mkQuestion n t c) _). by intros [].
Defined.

(** The options of an OPT record: the client subnet and the others. *)
Inductive EDNSOption :=
| EDNS0_SUBNET (Family SourceNetmask : Z) (Address : option Addr)
| EDNS0_Other (code : Z) (data : list Z).

Inductive RData :=
| RD_A (ip : list Z)
| RD_AAAA (ip : list Z)
| RD_CNAME (Target : string)
| RD_TXT (Txt : list string)
| RD_MX (Preference : Z) (Mx : string)
| RD_SOA (Minttl : Z)
| RD_OPT (Option : list EDNSOption)
(** The keys and texts of the parameters. *)
| RD_HTTPS (Value : list (Z * string))
| RD_Other (data : list Z).

Record RR := mkRR { rr_Name : string; rr_Rrtype : Z; rr_Class : Z; rr_Ttl : Z; rr_Data : RData }.

Definition TypeA : Z := 1.
Definition TypeCNAME : Z := 5.
Definition TypeAAAA : Z := 28.
Definition TypeOPT : Z := 41.
Definition TypeHTTPS : Z := 65.
Definition ClassINET : Z := 1.
Definition SVCB_IPV4HINT : Z := 4.
Definition SVCB_IPV6HINT : Z := 6.
Definition RcodeSuccess : Z := 0.
Definition RcodeFormatError : Z := 1.
Definition RcodeNameError : Z := 3.
Definition RcodeRefused : Z := 5.

(** [m_Other]: the header bits the client neither reads nor writes. *)
Record Msg := mkMsg {
  m_Id : Z;
  m_Response : bool;
  m_Authoritative : bool;
  m_RecursionDesired : bool;
  m_RecursionAvailable : bool;
  m_Other : Z;
  m_Rcode : Z;
  m_Question : list Question;
  m_Answer : list RR;
  m_Ns : list RR;
  m_Extra : list RR
}.

Definition setId (id : Z) (m : Msg) : Msg :=
  mkMsg id (m_Response m) (m_Authoritative m) (m_RecursionDesired m) (m_RecursionAvailable m) (m_Other m) (m_Rcode m)
    (m_Question m) (m_Answer m) (m_Ns m) (m_Extra m).
Definition setExtra (extra : list RR) (m : Msg) : Msg :=
  mkMsg (m_Id m) (m_Response m) (m_Authoritative m) (m_RecursionDesired m) (m_RecursionAvailable m) (m_Other m) (m_Rcode m)
    (m_Question m) (m_Answer m) (m_Ns m) extra.
(** A change of every record of the three sections. *)
Definition mapRecords (f : RR -> RR) (m : Msg) : Msg :=
  mkMsg (m_Id m) (m_Response m) (m_Authoritative m) (m_RecursionDesired m) (m_RecursionAvailable m) (m_Other m) (m_Rcode m)
    (m_Question m) (f <$> m_Answer m) (f <$> m_Ns m) (f <$> m_Extra m).
Definition records (m : Msg) : list RR := m_Answer m ++ m_Ns m ++ m_Extra m.
Definition setTtl (ttl : Z) (r : RR) : RR := mkRR (rr_Name r) (rr_Rrtype r) (rr_Class r) ttl (rr_Data r).
Definition setData (d : RData) (r : RR) : RR := mkRR (rr_Name r) (rr_Rrtype r) (rr_Class r) (rr_Ttl r) d.

Definition isOPT (r : RR) : bool := rr_Rrtype r =? TypeOPT.

(** ** Errors and strategies *)

Inductive dnsError :=
| RcodeError (rcode : Z)
| ErrNotCached
| ErrResponseRejected
| ErrResponseRejectedCached
| Failure (e : error)
| Caused (label : string) (e : dnsError)
| Joined (es : list dnsError).

(** [errors.As] for a response code. *)
Fixpoint asRcode (e : dnsError) : option Z :=
  match e with
  | RcodeError n => Some n
  | Caused _ e => asRcode e
  | Joined es => head (omap asRcode es)
  | _ => None
  end.

(** [errors.Is] for a rejected response, cached or not. *)
Fixpoint isRejected (e : dnsError) : bool :=
  match e with
  | ErrResponseRejected | ErrResponseRejectedCached => true
  | Caused _ e => isRejected e
  | Joined es => existsb isRejected es
  | _ => false
  end.

Inductive DomainStrategy := AsIS | PreferIPv4 | PreferIPv6 | IPv4Only | IPv6Only.

#[export] Instance DomainStrategy_eq_dec : EqDecision DomainStrategy.
Proof. solve_decision. Defined.

(** ** The cache and the stores around it *)

(** The key of an entry: the question, and the tag of the transport when caches are independent. *)
Definition CacheKey : Type := Question * option string.

(** A cache of values with lifetimes; two of them are used, by key and value types. *)
Class FreeLRU (K V : Type) `{Countable K} := {
  lru : Type;
  newSharded : Z -> lru;
  (** [GetWithLifetime], [Get] without the time: a read reorders the entries. *)
  lruGet : Z -> K -> lru -> option (V * option Z) * lru;
  lruAdd : Z -> K -> V -> lru -> lru;
  (** A lifetime, in nanoseconds. *)
  lruAddWithLifetime : Z -> K -> V -> Z -> lru -> lru;
  lruRemove : K -> lru -> lru;
  lruPurge : lru -> lru;
  (** The entries a cache holds. *)
  lruContent : lru -> gmap K (V * option Z)
}.
Arguments lru K V {_ _ _}.

(** What the LRU cache promises: it gives back what was put in, and may forget at any time. *)
Class FreeLRULaws (K V : Type) `{FreeLRU K V} := {
  lru_new capacity : lruContent (newSharded capacity) = ∅;
  lru_get now k c r c' : lruGet now k c = (r, c') -> lruContent c' ⊆ lruContent c /\ (forall v, r = Some v -> lruContent c !! k = Some v);
  lru_add now k v c : lruContent (lruAdd now k v c) ⊆ <[k := (v, None)]> (lruContent c);
  lru_addWithLifetime now k v d c :
    exists expireAt, expireAt <= now + d /\ lruContent (lruAddWithLifetime now k v d c) ⊆ <[k := (v, Some expireAt)]> (lruContent c);
  lru_remove k c : lruContent (lruRemove k c) ⊆ delete k (lruContent c);
  lru_purge c : lruContent (lruPurge c) = ∅
}.

Class DNSLibs := {
  (** [M.AddrFromIP] and [M.ParseAddr]; [None] is the invalid address. *)
  AddrFromIP : list Z -> option Addr;
  ParseAddr : string -> option Addr;
  (** [Addr.AsSlice]. *)
  addrBytes : Addr -> list Z;
  (** miekg/dns: the OPT record of a message, its version and DO bit, and adding one of a UDP size. *)
  IsEdns0 : Msg -> option RR;
  Version : RR -> Z;
  Do : RR -> bool;
  SetEdns0 : Z -> bool -> Msg -> Msg;
  IsFqdn : string -> bool;
  Fqdn : string -> string;
  (** The store of rejected responses. *)
  RDRCStore : Type;
  LoadRDRC : RDRCStore -> string -> string -> Z -> bool;
  SaveRDRC : RDRCStore -> string -> string -> Z -> RDRCStore
}.

(** An OPT record keeps the EDNS version in bits 16 to 23 of its TTL and DO in bit 15. *)
Class DNSLaws `{DNSLibs} := {
  IsEdns0_None m : IsEdns0 m = None <-> Forall (fun r => isOPT r = false) (m_Extra m);
  IsEdns0_Some m opt : IsEdns0 m = Some opt -> opt ∈ m_Extra m /\ isOPT opt = true;
  Version_bits opt : Version opt = Z.land (Z.shiftr (rr_Ttl opt) 16) 255;
  Do_bit opt : Do opt = Z.testbit (rr_Ttl opt) 15;
  SetEdns0_Extra size do m : exists name,
    SetEdns0 size do m = setExtra (m_Extra m ++ [mkRR name TypeOPT size (if do then 2 ^ 15 else 0) (RD_OPT [])]) m
}.

(** ** The client subnet *)

Fixpoint findOption (j : nat) (options : list EDNSOption) : option nat :=
  match options with
  | [] => None
  | EDNS0_SUBNET _ _ _ :: _ => Some j
  | _ :: options => findOption (S j) options
  end.

(** The search for an OPT record and a subnet option in it; a record of another type forgets the
    OPT record found before it. *)
Fixpoint findSubnet (i : nat) (extra : list RR) (optRecord : option nat) : option nat * option nat :=
  match extra with
  | [] => (optRecord, None)
  | r :: extra =>
      match rr_Data r with
      | RD_OPT options =>
          match findOption 0 options with
          | Some j => (Some i, Some j)
          | None => findSubnet (S i) extra (Some i)
          end
      | _ => findSubnet (S i) extra None
      end
  end.

Definition subnetOption (p : Prefix) : EDNSOption :=
  EDNS0_SUBNET (if addr_width (prefix_addr p) =? 32 then 1 else 2) (prefix_len p mod 256) (Some (prefix_addr p)).

Definition putOption (p : Prefix) (j : option nat) (r : RR) : RR :=
  match rr_Data r with
  | RD_OPT options =>
      setData (RD_OPT match j with Some j => <[j := subnetOption p]> options | None => options ++ [subnetOption p] end) r
  | _ => r
  end.

Definition SetClientSubnet (message : Msg) (p : Prefix) : Msg :=
  match findSubnet 0 (m_Extra message) None with
  | (None, _) => setExtra (m_Extra message ++ [mkRR "." TypeOPT 0 0 (RD_OPT [subnetOption p])]) message
  | (Some i, j) => setExtra (alter (putOption p j) i (m_Extra message)) message
  end.

(** ** Times to live *)

Definition wrapU32 (z : Z) : Z := z mod 2 ^ 32.
Definition Second : Z := 1000000000.

(** The lowest positive TTL of a list of records, as the loops find it. *)
Definition ttlStep (acc : Z) (r : RR) : Z :=
  if (acc =? 0) || (0 <? rr_Ttl r) && (rr_Ttl r <? acc) then rr_Ttl r else acc.
Definition lowestTTL (m : Msg) : Z := foldl ttlStep 0 (records m).

Fixpoint extractNegativeTTL (ns : list RR) : option Z :=
  match ns with
  | [] => None
  | r :: ns =>
      match rr_Data r with
      | RD_SOA minttl => Some (if rr_Ttl r <? minttl then rr_Ttl r else minttl)
      | _ => extractNegativeTTL ns
      end
  end.

Definition timeToLive (rewriteTTL : option Z) (response : Msg) : Z :=
  let ttl := match m_Answer response with [] => default 0 (extractNegativeTTL (m_Ns response)) | _ => 0 end in
  let ttl := if ttl =? 0 then lowestTTL response else ttl in
  default ttl rewriteTTL.

(** ** Fixed responses *)

Definition fixedHead (id rcode : Z) (question : list Question) (answer : list RR) : Msg :=
  mkMsg id true true true true 0 rcode question answer [] [].
Definition FixedResponseStatus (message : Msg) (rcode : Z) : Msg := fixedHead (m_Id message) rcode (m_Question message) [].

(** [strings.Split] at commas. *)
Fixpoint splitCommas (s : string) : list string :=
  match s with
  | EmptyString => [EmptyString]
  | String a s =>
      if bool_decide (a = ","%char) then EmptyString :: splitCommas s
      else match splitCommas s with p :: ps => String a p :: ps | [] => [] end
  end.

Section Addresses.
Context `{DNSLibs}.

Definition fixedRecord (q : Question) (ttl : Z) (a : Addr) : option RR :=
  if (addr_width a =? 32) && (q_Qtype q =? TypeA) then Some (mkRR (q_Name q) TypeA ClassINET ttl (RD_A (addrBytes a)))
  else if (addr_width a =? 128) && (q_Qtype q =? TypeAAAA) then Some (mkRR (q_Name q) TypeAAAA ClassINET ttl (RD_AAAA (addrBytes a)))
  else None.
Definition FixedResponse (id : Z) (q : Question) (addresses : list Addr) (ttl : Z) : Msg :=
  fixedHead id RcodeSuccess [q] (omap (fixedRecord q ttl) addresses).
Definition FixedResponseCNAME (id : Z) (q : Question) (record : string) (ttl : Z) : Msg :=
  fixedHead id RcodeSuccess [q] [mkRR (q_Name q) TypeCNAME ClassINET ttl (RD_CNAME record)].
Definition FixedResponseTXT (id : Z) (q : Question) (texts : list string) (ttl : Z) : Msg :=
  fixedHead id RcodeSuccess [q] [mkRR (q_Name q) TypeA ClassINET ttl (RD_TXT texts)].
Definition FixedResponseMX (id : Z) (q : Question) (mxs : list (Z * string)) (ttl : Z) : Msg :=
  fixedHead id RcodeSuccess [q] ((fun mx => mkRR (q_Name q) TypeA ClassINET ttl (RD_MX mx.1 mx.2)) <$> mxs).

Definition recordAddresses (r : RR) : list (option Addr) :=
  match rr_Data r with
  | RD_A ip => [AddrFromIP ip]
  | RD_AAAA ip => [AddrFromIP ip]
  | RD_HTTPS values =>
      concat ((fun kv => if (kv.1 =? SVCB_IPV4HINT) || (kv.1 =? SVCB_IPV6HINT)
                         then ParseAddr <$> splitCommas kv.2 else []) <$> values)
  | _ => []
  end.
Definition MessageToAddresses (response : Msg) : list (option Addr) :=
  if negb (m_Rcode response =? RcodeSuccess) then [] else concat (recordAddresses <$> m_Answer response).
End Addresses.

(** ** The client *)

Record Transport := mkTransport {
  t_Tag : string;
  t_Type : string;
  (** A legacy transport's strategy and client subnet. *)
  t_Legacy : option (DomainStrategy * Prefix);
  (** [Exchange], given the transport tag the context carries. *)
  t_Exchange : string -> Msg -> res dnsError Msg
}.

Record DNSQueryOptions := mkQueryOptions {
  Strategy : DomainStrategy;
  LookupStrategy : DomainStrategy;
  o_DisableCache : bool;
  o_RewriteTTL : option Z;
  o_ClientSubnet : Prefix
}.

Section Client.
Context `{!FreeLRU CacheKey Msg} `{!DNSLibs}.
(** What a checker reads and changes. *)
Context {St : Type}.

Record Client := mkClient {
  disableCache : bool;
  disableExpire : bool;
  independentCache : bool;
  clientSubnet : Prefix;
  rdrc : option RDRCStore;
  cache : lru CacheKey Msg
}.
Implicit Types (c : Client) (t : Transport) (o : DNSQueryOptions).

Definition setCache (l : lru CacheKey Msg) c : Client :=
  mkClient (disableCache c) (disableExpire c) (independentCache c) (clientSubnet c) (rdrc c) l.
Definition setRDRC (r : option RDRCStore) c : Client :=
  mkClient (disableCache c) (disableExpire c) (independentCache c) (clientSubnet c) r (cache c).

Definition NewClient (disable expire independent : bool) (capacity : Z) (subnet : Prefix) : Client :=
  mkClient disable expire independent subnet None (newSharded (if capacity <? 1024 then 1024 else capacity)).
Definition Start (init : option RDRCStore) c : Client := setRDRC init c.
Definition ClearCache c : Client := if disableCache c then c else setCache (lruPurge (cache c)) c.

(** The key of a question under a transport; the callers without one have no independent caches. *)
Definition keyOf c (q : Question) (tag : string) : CacheKey := (q, if independentCache c then Some tag else None).

Definition storeCache (now : Z) (tag : string) (q : Question) (message : Msg) (ttl : Z) c : Client :=
  if ttl =? 0 then c else
  setCache (if disableExpire c then lruAdd now (keyOf c q tag) message (cache c)
            else lruAddWithLifetime now (keyOf c q tag) message (Second * ttl) (cache c)) c.

(** A cached response with its remaining TTL. *)
Definition loadResponse (now : Z) (q : Question) (tag : string) c : option (Msg * Z) * Client :=
  let (r, l) := lruGet now (keyOf c q tag) (cache c) in
  let c := setCache l c in
  match r with
  | None => (None, c)
  | Some (response, expireAt) =>
      if disableExpire c then (Some (response, 0), c) else
      let expireAt := default 0 expireAt in
      if expireAt <? now then (None, setCache (lruRemove (keyOf c q tag) (cache c)) c) else
      let originTTL := lowestTTL response in
      let nowTTL := (expireAt - now) / Second in
      let response :=
        if 0 <? originTTL
        then mapRecords (fun r => setTtl (wrapU32 (rr_Ttl r - wrapU32 (originTTL - nowTTL))) r) response
        else mapRecords (setTtl (wrapU32 nowTTL)) response in
      (Some (response, nowTTL), c)
  end.

(** A request the cache may answer. *)
Definition isSimpleRequest (message : Msg) o : bool :=
  (length (m_Question message) =? 1)%nat && negb (nonempty (m_Ns message)) &&
  match m_Extra message with
  | [] => true
  | [opt] => isOPT opt && (0 <? rr_Class opt) && (rr_Ttl opt =? 0) && match rr_Data opt with RD_OPT [] => true | _ => false end
  | _ => false
  end && negb (Prefix_IsValid (o_ClientSubnet o)).

(** The hints of the family a strategy excludes. *)
Definition filterHints (strategy : DomainStrategy) (r : RR) : RR :=
  match rr_Data r with
  | RD_HTTPS values =>
      match strategy with
      | IPv4Only => setData (RD_HTTPS (List.filter (fun kv => negb (kv.1 =? SVCB_IPV6HINT)) values)) r
      | IPv6Only => setData (RD_HTTPS (List.filter (fun kv => negb (kv.1 =? SVCB_IPV4HINT)) values)) r
      | _ => r
      end
  | _ => r
  end.
Definition setAnswer (answer : list RR) (m : Msg) : Msg :=
  mkMsg (m_Id m) (m_Response m) (m_Authoritative m) (m_RecursionDesired m) (m_RecursionAvailable m) (m_Other m) (m_Rcode m)
    (m_Question m) answer (m_Ns m) (m_Extra m).

(** The OPT record of a response to a request without one, or of a lower version. *)
Definition adjustEDNS (message response : Msg) : Msg :=
  match IsEdns0 response with
  | None => response
  | Some ropt =>
      let strip := setExtra (List.filter (fun r => negb (isOPT r)) (m_Extra response)) response in
      match IsEdns0 message with
      | None => strip
      | Some qopt => if Version qopt <? Version ropt then SetEdns0 (rr_Class ropt) (Do ropt) strip else response
      end
  end.

(** What an accepted response becomes, and its time to live. *)
Definition finishResponse (message : Msg) (q : Question) o (response : Msg) : Msg * Z :=
  let response := if q_Qtype q =? TypeHTTPS then setAnswer (filterHints (Strategy o) <$> m_Answer response) response else response in
  let ttl := timeToLive (o_RewriteTTL o) response in
  (adjustEDNS message (setId (m_Id message) (mapRecords (setTtl ttl) response)), ttl).

Definition strategyExcludes (q : Question) o : bool :=
  (q_Qtype q =? TypeA) && bool_decide (Strategy o = IPv6Only) || (q_Qtype q =? TypeAAAA) && bool_decide (Strategy o = IPv4Only).

(** Whether the checker of a rule refuses a response, and its state. *)
Definition rejects (checker : option (list (option Addr) -> St -> bool * St)) (response : Msg) (s : St) : bool * St :=
  match checker with
  | None => (false, s)
  | Some accept =>
      if negb (m_Rcode response =? RcodeSuccess) || negb (nonempty (m_Answer response)) then (true, s)
      else let (ok, s) := accept (MessageToAddresses response) s in (negb ok, s)
  end.

(** The response of the transport, or one for the response code its error carries. *)
Definition transportAnswer t (message : Msg) : res dnsError Msg :=
  match t_Exchange t (t_Tag t) message with
  | Ok response => Ok response
  | Err e => match asRcode e with Some rcode => Ok (FixedResponseStatus message rcode) | None => Err e end
  end.

(** From the transport on: [message] with its client subnet, [noCache] as computed before. *)
Definition exchangeByTransport (ctxTag : option string) (after : Z) t (message : Msg) (q : Question) o
    (checker : option (list (option Addr) -> St -> bool * St)) (noCache : bool) (s : St) c : res dnsError Msg * St * Client :=
  if bool_decide (ctxTag = Some (t_Tag t)) then (Err (Failure (New ("DNS query loopback in transport[" +:+ t_Tag t +:+ "]"))), s, c) else
  if negb noCache && match checker, rdrc c with Some _, Some r => LoadRDRC r (t_Tag t) (q_Name q) (q_Qtype q) | _, _ => false end
  then (Err ErrResponseRejectedCached, s, c) else
  match transportAnswer t message with
  | Err e => (Err e, s, c)
  | Ok response =>
      let noCache := noCache || negb (m_Rcode response =? RcodeSuccess) && negb (m_Rcode response =? RcodeNameError) in
      let (rejected, s) := rejects checker response s in
      if rejected then
        (Err ErrResponseRejected, s,
         if noCache then c else setRDRC ((fun r => SaveRDRC r (t_Tag t) (q_Name q) (q_Qtype q)) <$> rdrc c) c)
      else
        let (response, ttl) := finishResponse message q o response in
        (Ok response, s, if noCache then c else storeCache after (t_Tag t) q response ttl c)
  end.

Definition withSubnet (message : Msg) o c : Msg :=
  let p := if Prefix_IsValid (o_ClientSubnet o) then o_ClientSubnet o else clientSubnet c in
  if Prefix_IsValid p then SetClientSubnet message p else message.

(** [Client.Exchange]: [now] when the cache is asked and [after] when the response is kept. *)
Definition Exchange (ctxTag : option string) (now after : Z) t (message : Msg) o
    (checker : option (list (option Addr) -> St -> bool * St)) (s : St) c : res dnsError Msg * St * Client :=
  match m_Question message with
  | [] => (Ok (FixedResponseStatus message RcodeFormatError), s, c)
  | q :: _ =>
      if strategyExcludes q o then (Ok (FixedResponseStatus message RcodeSuccess), s, c) else
      let message := withSubnet message o c in
      let noCache := negb (isSimpleRequest message o) || disableCache c || o_DisableCache o in
      if noCache then exchangeByTransport ctxTag after t message q o checker noCache s c else
      match loadResponse now q (t_Tag t) c with
      | (Some (response, _), c) => (Ok (setId (m_Id message) response), s, c)
      | (None, c) => exchangeByTransport ctxTag after t message q o checker noCache s c
      end
  end.

(** [FqdnToDomain]. *)
Definition FqdnToDomain (fqdn : string) : string :=
  if IsFqdn fqdn then String.substring 0 (String.length fqdn - 1) fqdn else fqdn.

(** [err] of [questionCache] is [ErrNotCached] when nothing is cached. *)
Definition questionCache (now : Z) (q : Question) (tag : string) c : res dnsError (list (option Addr)) * Client :=
  match loadResponse now q tag c with
  | (None, c) => (Err ErrNotCached, c)
  | (Some (response, _), c) =>
      (if negb (m_Rcode response =? RcodeSuccess) then Err (RcodeError (m_Rcode response)) else Ok (MessageToAddresses response), c)
  end.

Definition addressesOf (r : res dnsError Msg) : res dnsError (list (option Addr)) :=
  response ← r;
  if negb (m_Rcode response =? RcodeSuccess) then Err (RcodeError (m_Rcode response)) else Ok (MessageToAddresses response).

Definition lookupToExchange (ctxTag : option string) (now after : Z) t (name : string) (qType : Z) o
    (checker : option (list (option Addr) -> St -> bool * St)) (s : St) c : res dnsError (list (option Addr)) * St * Client :=
  let q := mkQuestion name qType ClassINET in
  let exchange c :=
    let '(r, s, c) := Exchange ctxTag now after t (mkMsg 0 false false true false 0 0 [q] [] [] []) o checker s c in
    (addressesOf r, s, c) in
  if disableCache c || o_DisableCache o then exchange c else
  match questionCache now q (t_Tag t) c with
  | (Err ErrNotCached, c) => exchange c
  | (r, c) => (r, s, c)
  end.

Definition sortAddresses {A} (response4 response6 : list A) (strategy : DomainStrategy) : list A :=
  match strategy with PreferIPv6 => response6 ++ response4 | _ => response4 ++ response6 end.

Definition okOr {A} (r : res dnsError (list A)) : list A := match r with Ok l => l | Err _ => [] end.
Definition errOf {A} (r : res dnsError A) : list dnsError := match r with Ok _ => [] | Err e => [e] end.

(** [Client.Lookup]; the two exchanges of the group are taken one after the other, [time] giving
    the successive readings of the clock.  The error of the group, if any, is returned when neither
    has an address. *)
Definition Lookup (ctxTag : option string) (time : nat -> Z) t (domain : string) o
    (checker : option (list (option Addr) -> St -> bool * St)) (s : St) c : list (option Addr) * option dnsError * St * Client :=
  let dnsName := Fqdn (FqdnToDomain domain) in
  let strategy := match LookupStrategy o with AsIS => Strategy o | s => s end in
  let single qType :=
    let '(r, s, c) := lookupToExchange ctxTag (time 0%nat) (time 1%nat) t dnsName qType o checker s c in
    (okOr r, head (errOf r), s, c) in
  match strategy with
  | IPv4Only => single TypeA
  | IPv6Only => single TypeAAAA
  | _ =>
      let '(r4, s, c) := lookupToExchange ctxTag (time 0%nat) (time 1%nat) t dnsName TypeA o checker s c in
      let '(r6, s, c) := lookupToExchange ctxTag (time 2%nat) (time 3%nat) t dnsName TypeAAAA o checker s c in
      let '(l, e) := match okOr r4, okOr r6 with
                     | [], [] => ([], match errOf r4 ++ errOf r6 with [] => None | es => Some (Joined es) end)
                     | l4, l6 => (sortAddresses l4 l6 strategy, None)
                     end in
      (l, e, s, c)
  end.

(** [Client.LookupCache]: the addresses, when the cache has what the strategy asks for. *)
Definition LookupCache (now : Z) (domain : string) (strategy : DomainStrategy) c : option (list (option Addr)) * Client :=
  if disableCache c || independentCache c then (None, c) else
  let dnsName := Fqdn (FqdnToDomain domain) in
  let question qType := mkQuestion dnsName qType ClassINET in
  let single qType :=
    match questionCache now (question qType) "" c with
    | (Err ErrNotCached, c) => (None, c)
    | (r, c) => (Some (okOr r), c)
    end in
  match strategy with
  | IPv4Only => single TypeA
  | IPv6Only => single TypeAAAA
  | _ =>
      match loadResponse now (question TypeA) "" c with
      | (None, c) => (None, c)
      | (Some (response4, _), c) =>
          match loadResponse now (question TypeAAAA) "" c with
          | (None, c) => (None, c)
          | (Some (response6, _), c) =>
              (Some (sortAddresses (MessageToAddresses response4) (MessageToAddresses response6) strategy), c)
          end
      end
  end.

Definition ExchangeCache (now : Z) (message : Msg) c : option Msg * Client :=
  if disableCache c || independentCache c then (None, c) else
  match m_Question message with
  | [q] =>
      match loadResponse now q "" c with
      | (None, c) => (None, c)
      | (Some (response, _), c) => (Some (setId (m_Id message) response), c)
      end
  | _ => (None, c)
  end.
End Client.

(** ** Times to live of kept responses *)

(** The integers of a message are of their type. *)
Definition uint32 (z : Z) : Prop := 0 <= z < 2 ^ 32.
Definition rr_typed (r : RR) : Prop := uint32 (rr_Ttl r) /\ forall minttl, rr_Data r = RD_SOA minttl -> uint32 minttl.
Definition typed (m : Msg) : Prop := Forall rr_typed (records m).

Lemma foldl_ttlStep_range l acc : uint32 acc -> Forall rr_typed l -> uint32 (foldl ttlStep acc l).
Proof.
  revert acc. induction l as [|r l IH]; intros acc Hacc; simpl; [done|]. intros [[Hr _] Hl]%Forall_cons_1. apply IH; [|done].
  unfold ttlStep. by case_match.
Qed.

(** The loops find the lowest TTL that is not zero. *)
Lemma foldl_ttlStep_spec l acc :
  0 <= acc -> Forall (fun r => 0 <= rr_Ttl r) l ->
  let ttl := foldl ttlStep acc l in
  (forall x, x = acc \/ (exists r, r ∈ l /\ x = rr_Ttl r) -> 0 < x -> 0 < ttl <= x) /\
  (ttl = acc \/ exists r, r ∈ l /\ ttl = rr_Ttl r).
Proof.
  revert acc. induction l as [|r l IH]; intros acc Hacc Hl; cbv zeta; simpl.
  { split; [|by left]. intros x [->|(r & ?%not_elem_of_nil & _)]; [lia|done]. }
  apply Forall_cons_1 in Hl as [Hr Hl].
  assert (0 <= ttlStep acc r) as Hs by (unfold ttlStep; case_match; done).
  destruct (IH (ttlStep acc r) Hs Hl) as [Hmin Hin]. split.
  - intros x Hx Hpos. assert (forall y, 0 < y -> y = acc \/ y = rr_Ttl r -> 0 < ttlStep acc r <= y) as Hstep.
    { intros y Hy Hyy. unfold ttlStep. destruct (Z.eqb_spec acc 0), (Z.ltb_spec 0 (rr_Ttl r)), (Z.ltb_spec (rr_Ttl r) acc); simpl; destruct Hyy; lia. }
    destruct Hx as [->|(r0 & [->|Hr0]%elem_of_cons & ->)].
    + specialize (Hstep acc Hpos (or_introl eq_refl)). specialize (Hmin _ (or_introl eq_refl)). lia.
    + specialize (Hstep _ Hpos (or_intror eq_refl)). specialize (Hmin _ (or_introl eq_refl)). lia.
    + apply Hmin; [|done]. right. by exists r0.
  - destruct Hin as [->|(r0 & Hr0 & ->)].
    + unfold ttlStep. case_match; [right; exists r; split; [left|done]|by left].
    + right. exists r0. split; [by right|done].
Qed.

Lemma foldl_ttlStep_same ttl l acc :
  0 <= ttl -> (acc = 0 \/ acc = ttl) -> Forall (fun r => rr_Ttl r = ttl) l -> foldl ttlStep acc l = if nonempty l then ttl else acc.
Proof.
  intros Ht. revert acc. induction l as [|r l IH]; intros acc Hacc Hl; simpl; [done|]. apply Forall_cons_1 in Hl as [Hr Hl].
  assert (ttlStep acc r = ttl) as -> by (unfold ttlStep; rewrite Hr; destruct Hacc as [->| ->]; simpl; [done|]; rewrite Z.ltb_irrefl, andb_false_r, orb_false_r; by destruct (_ =? 0)).
  rewrite IH by auto. by destruct l.
Qed.

Lemma extractNegativeTTL_range ns ttl : Forall rr_typed ns -> extractNegativeTTL ns = Some ttl -> uint32 ttl.
Proof.
  induction ns as [|r ns IH]; simpl; [done|]. intros [[Ht Hd] Hns]%Forall_cons_1. destruct (rr_Data r) eqn:E; try by apply IH.
  intros [= <-]. specialize (Hd _ eq_refl). by case_match.
Qed.

Lemma timeToLive_range rewriteTTL m : typed m -> (forall v, rewriteTTL = Some v -> uint32 v) -> uint32 (timeToLive rewriteTTL m).
Proof.
  intros Hm Hr. unfold timeToLive. destruct rewriteTTL as [v|]; [by apply Hr|]. cbn [default].
  assert (uint32 0) by (unfold uint32; lia).
  case_match; [apply foldl_ttlStep_range; done|]. case_match; [|done]. destruct (extractNegativeTTL (m_Ns m)) eqn:E; [|done].
  eapply extractNegativeTTL_range; [|exact E]. unfold typed, records in Hm. by apply Forall_app in Hm as [_ [Hm _]%Forall_app].
Qed.

Lemma records_mapRecords f m : records (mapRecords f m) = f <$> records m.
Proof. unfold records. simpl. by rewrite !fmap_app. Qed.

Lemma Version_small `{DNSLaws} opt : uint32 (rr_Ttl opt) -> rr_Ttl opt < 65536 -> Version opt = 0.
Proof. intros [Hp _] Hlt. rewrite Version_bits, Z.shiftr_div_pow2, Z.div_small by (simpl; lia). done. Qed.

Lemma Version_nonneg `{DNSLaws} opt : 0 <= Version opt.
Proof. rewrite Version_bits. apply Z.land_nonneg. right. lia. Qed.

(** The times to live of a kept response, where the OPT record was not made anew. *)
Lemma adjustEDNS_ttls `{DNSLaws} message response ttl :
  uint32 ttl -> Forall (fun r => rr_Ttl r = ttl) (records response) -> IsEdns0 message = None \/ ttl < 65536 ->
  Forall (fun r => rr_Ttl r = ttl) (records (adjustEDNS message response)).
Proof.
  intros Ht Hall Hcase. unfold adjustEDNS. destruct (IsEdns0 response) as [ropt|] eqn:Er; [|done].
  assert (Forall (fun r => rr_Ttl r = ttl) (records (setExtra (List.filter (fun r => negb (isOPT r)) (m_Extra response)) response))) as Hstrip.
  { unfold records in *. simpl. rewrite !Forall_app in *. destruct Hall as (? & ? & Hx). split; [done|]. split; [done|].
    rewrite Forall_forall in *. intros r Hr. apply Hx. apply list_elem_of_In in Hr. apply filter_In in Hr as [Hr _]. by apply list_elem_of_In. }
  destruct (IsEdns0 message) as [qopt|] eqn:Eq; [|done]. destruct Hcase as [Hcase|Hlt]; [done|].
  apply IsEdns0_Some in Er as [Hin _]. unfold records in Hall. rewrite !Forall_app in Hall. destruct Hall as (Ha & Hn & Hx).
  assert (rr_Ttl ropt = ttl) as Hr by (rewrite Forall_forall in Hx; by apply Hx). rewrite (Version_small ropt) by (by rewrite Hr).
  rewrite (proj2 (Z.ltb_ge _ _)) by apply Version_nonneg. unfold records. by rewrite !Forall_app.
Qed.

Lemma finishResponse_ttls `{DNSLaws} message q o response kept ttl :
  finishResponse message q o response = (kept, ttl) -> uint32 ttl -> IsEdns0 message = None \/ ttl < 65536 ->
  Forall (fun r => rr_Ttl r = ttl) (records kept).
Proof.
  unfold finishResponse. intros [= <- Httl] Ht Hcase. rewrite Httl. apply adjustEDNS_ttls; [done| |done].
  change (records (setId (m_Id message) ?m)) with (records m). rewrite records_mapRecords. apply Forall_fmap, Forall_true. done.
Qed.

Lemma filterHints_typed strategy r : rr_typed r -> rr_typed (filterHints strategy r).
Proof.
  intros [Ht Hd]. destruct r as [n t c ttl d]. unfold filterHints. simpl in *.
  destruct d; try by split. destruct strategy; by split.
Qed.

Lemma finishResponse_range `{DNSLibs} message q o response kept ttl :
  finishResponse message q o response = (kept, ttl) -> typed response -> (forall v, o_RewriteTTL o = Some v -> uint32 v) -> uint32 ttl.
Proof.
  unfold finishResponse. intros [= _ <-] Ht Hr. apply timeToLive_range; [|done]. case_match; [|done].
  unfold typed, records in *. simpl. rewrite !Forall_app in *. destruct Ht as (Ha & ? & ?). split; [|done].
  apply Forall_fmap. eapply Forall_impl; [exact Ha|]. intros r Htr. by apply filterHints_typed.
Qed.

(** ** What the cache holds *)

Section Kept.
Context `{!FreeLRU CacheKey Msg} `{!FreeLRULaws CacheKey Msg} `{!DNSLibs} `{!DNSLaws}.
Implicit Types (c : Client) (t : Transport) (o : DNSQueryOptions).

Definition transport_typed t : Prop := forall m response, t_Exchange t (t_Tag t) m = Ok response -> typed response.
Definition options_typed o : Prop := forall v, o_RewriteTTL o = Some v -> uint32 v.

(** A response a transport gave, to which request and when. *)
Record Answered := mkAnswered {
  a_Transport : Transport;
  a_Request : Msg;
  a_Question : Question;
  a_Options : DNSQueryOptions;
  a_Response : Msg;
  a_At : Z
}.
Definition a_Kept (a : Answered) : Msg := (finishResponse (a_Request a) (a_Question a) (a_Options a) (a_Response a)).1.
Definition a_Ttl (a : Answered) : Z := (finishResponse (a_Request a) (a_Question a) (a_Options a) (a_Response a)).2.
Definition genuine (a : Answered) : Prop :=
  transportAnswer (a_Transport a) (a_Request a) = Ok (a_Response a) /\ head (m_Question (a_Request a)) = Some (a_Question a) /\
  typed (a_Response a) /\ options_typed (a_Options a) /\ uint32 (a_Ttl a).

(** What an exchange asks of the transport. *)
Definition answeredTo (after : Z) t (message : Msg) (q : Question) o : list Answered :=
  match transportAnswer t message with
  | Ok response => [mkAnswered t message q o response after]
  | Err _ => []
  end.
Definition askedBy (after : Z) t (message : Msg) o c : list Answered :=
  match m_Question message with
  | q :: _ => answeredTo after t (withSubnet message o c) q o
  | [] => []
  end.

(** The states of a client, with the answers so far and the time of the last operation. *)
Inductive reachable : list Answered -> Z -> Client -> Prop :=
| reach_new disable expire independent capacity subnet now : reachable [] now (NewClient disable expire independent capacity subnet)
| reach_start h now c init : reachable h now c -> reachable h now (Start init c)
| reach_clear h now c : reachable h now c -> reachable h now (ClearCache c)
| reach_wait h now now' c : reachable h now c -> now <= now' -> reachable h now' c
| reach_load h clock c now q tag r c' :
    reachable h clock c -> clock <= now -> loadResponse now q tag c = (r, c') -> reachable h now c'
| reach_exchange (X : Type) h clock c ctxTag now after t message o (checker : option (list (option Addr) -> X -> bool * X)) s r c' :
    reachable h clock c -> clock <= now <= after -> transport_typed t -> options_typed o ->
    Exchange ctxTag now after t message o checker s c = (r, c') -> reachable (askedBy after t message o c ++ h) after c'
(** The end of an exchange that others run beside: what [Exchange] does once the cache was asked. *)
| reach_transport (X : Type) h clock c ctxTag after t message q o (checker : option (list (option Addr) -> X -> bool * X)) noCache s r c' :
    reachable h clock c -> clock <= after -> transport_typed t -> options_typed o -> head (m_Question message) = Some q ->
    exchangeByTransport ctxTag after t message q o checker noCache s c = (r, c') -> reachable (answeredTo after t message q o ++ h) after c'.

(** An entry is what was kept of an answer to its question, by its transport where caches are
    independent, and expires with it. *)
Definition keptEntry (h : list Answered) (clock : Z) c (k : CacheKey) (m : Msg) (e : option Z) : Prop :=
  exists a, a ∈ h /\ genuine a /\ keyOf c (a_Question a) (t_Tag (a_Transport a)) = k /\ m = a_Kept a /\ a_At a <= clock /\
    if disableExpire c then e = None else exists x, e = Some x /\ x <= a_At a + Second * a_Ttl a.
Definition cacheOK (h : list Answered) (clock : Z) c : Prop :=
  forall k m e, lruContent (cache c) !! k = Some (m, e) -> keptEntry h clock c k m e.

Lemma cacheOK_sub h clock h' clock' c c' :
  (forall a, a ∈ h -> a ∈ h') -> clock <= clock' -> disableExpire c' = disableExpire c -> independentCache c' = independentCache c ->
  lruContent (cache c') ⊆ lruContent (cache c) -> cacheOK h clock c -> cacheOK h' clock' c'.
Proof.
  intros Hh Hclock He Hi Hsub Hok k m e Hk. eapply lookup_weaken in Hk; [|exact Hsub].
  destruct (Hok k m e Hk) as (a & Ha & Hg & Hkey & Hm & Hat & Hexp). exists a. unfold keyOf in *. rewrite Hi, He.
  split_and!; [by apply Hh|done|done|done|lia|done].
Qed.

Lemma loadResponse_sub now q tag c r c' :
  loadResponse now q tag c = (r, c') ->
  disableExpire c' = disableExpire c /\ independentCache c' = independentCache c /\ disableCache c' = disableCache c /\
  clientSubnet c' = clientSubnet c /\ lruContent (cache c') ⊆ lruContent (cache c).
Proof.
  unfold loadResponse. destruct (lruGet now (keyOf c q tag) (cache c)) as [g l] eqn:Hg. apply lru_get in Hg as [Hsub _].
  destruct g as [[m e]|]; [|intros [= _ <-]; done]. cbn [disableExpire setCache].
  case_match; [intros [= _ <-]; done|]. case_match; intros [= _ <-]; [|done].
  repeat split; try done. cbn [cache setCache keyOf independentCache]. etrans; [apply lru_remove|]. etrans; [apply delete_subseteq|done].
Qed.

Lemma m_Question_withSubnet message o c : m_Question (withSubnet message o c) = m_Question message.
Proof. unfold withSubnet, SetClientSubnet. repeat case_match; done. Qed.

Lemma storeCache_ok h clock after a c :
  cacheOK h clock c -> clock <= after -> a ∈ h -> genuine a -> a_At a = after ->
  cacheOK h after (storeCache after (t_Tag (a_Transport a)) (a_Question a) (a_Kept a) (a_Ttl a) c).
Proof.
  intros Hok Hc Ha Hg Hat. unfold storeCache. case_match; [by eapply cacheOK_sub|].
  assert (forall l e, lruContent l ⊆ <[keyOf c (a_Question a) (t_Tag (a_Transport a)) := (a_Kept a, e)]> (lruContent (cache c)) ->
          (if disableExpire c then e = None else exists x, e = Some x /\ x <= a_At a + Second * a_Ttl a) -> cacheOK h after (setCache l c)) as Hput.
  { intros l e Hsub He k m e' Hk. eapply lookup_weaken in Hk; [|exact Hsub]. apply lookup_insert_Some in Hk as [[<- [= <- <-]]|[_ Hk]].
    - exists a. split_and!; try done. lia.
    - destruct (Hok k m e' Hk) as (a' & ? & ? & ? & ? & ? & ?). exists a'. split_and!; try done. lia. }
  destruct (disableExpire c) eqn:Hd.
  - eapply Hput; [apply lru_add|done].
  - destruct (lru_addWithLifetime after (keyOf c (a_Question a) (t_Tag (a_Transport a))) (a_Kept a) (Second * a_Ttl a) (cache c)) as (x & Hx & Hsub).
    eapply Hput; [exact Hsub|]. exists x. split; [done|]. lia.
Qed.

Lemma transportAnswer_typed t message response : transport_typed t -> transportAnswer t message = Ok response -> typed response.
Proof.
  intros Ht. unfold transportAnswer. destruct (t_Exchange t (t_Tag t) message) as [m|e] eqn:E; [intros [= <-]; by eapply Ht|].
  destruct (asRcode e); [|done]. intros [= <-]. constructor.
Qed.

Lemma setRDRC_ok h clock c r : cacheOK h clock c -> cacheOK h clock (setRDRC r c).
Proof. intros Hok. by eapply cacheOK_sub in Hok. Qed.

Lemma exchangeByTransport_ok {St : Type} h clock ctxTag after t req q o (checker : option (list (option Addr) -> St -> bool * St)) noCache s c :
  cacheOK h clock c -> clock <= after -> head (m_Question req) = Some q -> transport_typed t -> options_typed o ->
  (forall response, transportAnswer t req = Ok response -> mkAnswered t req q o response after ∈ h) ->
  cacheOK h after (exchangeByTransport ctxTag after t req q o checker noCache s c).2.
Proof.
  intros Hok Hc Hq Ht Ho Hin. assert (cacheOK h after c) as Hok' by by eapply cacheOK_sub.
  unfold exchangeByTransport. case_match; [done|]. case_match; [done|].
  destruct (transportAnswer t req) as [response|e] eqn:Ha; [|done].
  set (nc := noCache || _). cbv zeta. destruct (rejects checker response s) as [[] s']; [destruct nc; [done|by apply setRDRC_ok]|].
  destruct (finishResponse req q o response) as [kept ttl] eqn:Hf. cbn [snd]. destruct nc; [done|].
  set (a := mkAnswered t req q o response after).
  assert (genuine a) as Hg.
  { split; [done|]. split; [done|]. split; [by eapply transportAnswer_typed|]. split; [done|]. unfold a_Ttl. subst a. cbn [a_Request a_Question a_Options a_Response].
    rewrite Hf. eapply finishResponse_range; [exact Hf|by eapply transportAnswer_typed|done]. }
  pose proof (storeCache_ok h clock after a c Hok Hc (Hin _ eq_refl) Hg eq_refl) as Hst.
  unfold a_Kept, a_Ttl in Hst. subst a. cbn [a_Request a_Question a_Options a_Response a_Transport] in Hst. by rewrite Hf in Hst.
Qed.

Lemma Exchange_ok {St : Type} h clock ctxTag now after t message o (checker : option (list (option Addr) -> St -> bool * St)) s c :
  cacheOK h clock c -> clock <= now <= after -> transport_typed t -> options_typed o ->
  cacheOK (askedBy after t message o c ++ h) after (Exchange ctxTag now after t message o checker s c).2.
Proof.
  intros Hok [Hc1 Hc2] Ht Ho. set (h' := askedBy after t message o c ++ h).
  assert (forall clock', clock <= clock' -> cacheOK h' clock' c) as Hok'.
  { intros clock' ?. eapply cacheOK_sub; [|done..]. intros a Ha. apply elem_of_app. by right. }
  unfold Exchange. destruct (m_Question message) as [|q qs] eqn:Hq; [apply Hok'; lia|].
  case_match; [apply Hok'; lia|].
  assert (head (m_Question (withSubnet message o c)) = Some q) as Hq' by by rewrite m_Question_withSubnet, Hq.
  assert (forall response, transportAnswer t (withSubnet message o c) = Ok response ->
          mkAnswered t (withSubnet message o c) q o response after ∈ h') as Hin.
  { intros response Hr. apply elem_of_app. left. unfold askedBy, answeredTo. rewrite Hq, Hr. by left. }
  case_match; [apply (exchangeByTransport_ok h' now); try done; by apply Hok'|].
  destruct (loadResponse now q (t_Tag t) c) as [r c1] eqn:Hl. apply loadResponse_sub in Hl as (He & Hi & _ & _ & Hsub).
  assert (forall clock', clock <= clock' -> cacheOK h' clock' c1) as Hok1 by (intros; by eapply cacheOK_sub; [..|apply (Hok' clock')]).
  destruct r as [[response ttl]|]; [apply Hok1; lia|]. apply (exchangeByTransport_ok h' now); try done. by apply Hok1.
Qed.

Lemma reachable_ok h clock c : reachable h clock c -> cacheOK h clock c.
Proof.
  induction 1 as [| |h now c _ IH|h now now' c _ IH Hc|h clock c now q tag r c' _ IH Hc Hl|X h clock c ctxTag now after t message o checker s r c' _ IH Hc Ht Ho Hx|
    X h clock c ctxTag after t message q o checker noCache s r c' _ IH Hc Ht Ho Hq Hx].
  - intros k m e. unfold NewClient. cbn [cache]. by rewrite lru_new, lookup_empty.
  - by apply setRDRC_ok.
  - unfold ClearCache. case_match; [done|]. intros k m e. cbn [cache setCache]. by rewrite lru_purge, lookup_empty.
  - by eapply cacheOK_sub.
  - apply loadResponse_sub in Hl as (He & Hi & _ & _ & Hsub). by eapply cacheOK_sub.
  - pose proof (Exchange_ok h clock ctxTag now after t message o checker s c IH Hc Ht Ho) as Hok. by rewrite Hx in Hok.
  - assert (cacheOK (answeredTo after t message q o ++ h) clock c) as Hok.
    { eapply cacheOK_sub; [|done..]. intros a Ha. apply elem_of_app. by right. }
    pose proof (exchangeByTransport_ok _ clock ctxTag after t message q o checker noCache s c Hok Hc Hq Ht Ho) as Hok'. rewrite Hx in Hok'.
    apply Hok'. intros response Hr. apply elem_of_app. left. unfold answeredTo. rewrite Hr. by left.
Qed.

(** The other operations of the client are made of these steps. *)
Lemma ExchangeCache_reachable h clock now message c :
  reachable h clock c -> clock <= now -> reachable h now (ExchangeCache now message c).2.
Proof.
  intros Hr Hc. assert (reachable h now c) by by eapply reach_wait. unfold ExchangeCache. destruct (_ || _); [done|].
  destruct (m_Question message) as [|q [|? ?]]; [done| |done].
  destruct (loadResponse now q "" c) as [[[m ttl]|] c'] eqn:Hl; by eapply reach_load.
Qed.

Lemma questionCache_reachable h clock now q tag c :
  reachable h clock c -> clock <= now -> reachable h now (questionCache now q tag c).2.
Proof.
  intros Hr Hc. unfold questionCache. destruct (loadResponse now q tag c) as [[[m ttl]|] c'] eqn:Hl; by eapply reach_load.
Qed.

Lemma LookupCache_reachable h clock now domain strategy c :
  reachable h clock c -> clock <= now -> reachable h now (LookupCache now domain strategy c).2.
Proof.
  intros Hr Hc. assert (reachable h now c) by by eapply reach_wait. unfold LookupCache. destruct (_ || _); [done|]. cbv zeta.
  assert (forall qType, reachable h now (match questionCache now (mkQuestion (Fqdn (FqdnToDomain domain)) qType ClassINET) "" c with
            (Err ErrNotCached, c) => (None, c) | (r, c) => (Some (okOr r), c) end).2) as Hs.
  { intros qType. pose proof (questionCache_reachable h now now (mkQuestion (Fqdn (FqdnToDomain domain)) qType ClassINET) "" c) as Hq.
    destruct (questionCache _ _ _ _) as [[l|[]] c']; by apply Hq. }
  destruct strategy; try apply Hs;
    (destruct (loadResponse now _ "" c) as [[[m ttl]|] c'] eqn:Hl; [|by eapply reach_load]);
    (destruct (loadResponse now _ "" c') as [[[m' ttl']|] c2] eqn:Hl2; (eapply (reach_load h now c'); [by eapply reach_load|done|exact Hl2])).
Qed.

Lemma lookupToExchange_reachable {St : Type} h clock ctxTag now after t name qType o (checker : option (list (option Addr) -> St -> bool * St)) s c :
  reachable h clock c -> clock <= now <= after -> transport_typed t -> options_typed o ->
  exists h', reachable (h' ++ h) after (lookupToExchange ctxTag now after t name qType o checker s c).2.
Proof.
  intros Hr Hc Ht Ho. unfold lookupToExchange. set (q := mkQuestion name qType ClassINET). set (msg := mkMsg 0 false false true false 0 0 [q] [] [] []).
  cbv zeta.
  assert (forall c, reachable h now c -> exists h', reachable (h' ++ h) after
    (let '(r, s, c) := Exchange ctxTag now after t msg o checker s c in (addressesOf r, s, c)).2) as Hx.
  { intros c0 Hr0. exists (askedBy after t msg o c0).
    destruct (Exchange ctxTag now after t msg o checker s c0) as [[r s'] c'] eqn:He. eapply reach_exchange; try exact He; done || lia. }
  assert (reachable h now c) by (eapply reach_wait; [done|lia]).
  destruct (_ || _); [by apply Hx|]. pose proof (questionCache_reachable h now now q (t_Tag t) c) as Hq.
  assert (forall c', reachable h now c' -> exists h', reachable (h' ++ h) after c') as Hdone by (intros c' ?; exists []; eapply reach_wait; [done|lia]).
  destruct (questionCache now q (t_Tag t) c) as [[l|[]] c']; [apply Hdone|apply Hdone|apply Hx|apply Hdone..]; by apply Hq.
Qed.

Lemma Lookup_reachable {St : Type} h clock ctxTag time t domain o (checker : option (list (option Addr) -> St -> bool * St)) s c :
  reachable h clock c -> clock <= time 0%nat -> (forall k, time k <= time (S k)) -> transport_typed t -> options_typed o ->
  exists h', reachable (h' ++ h) (time 3%nat) (Lookup ctxTag time t domain o checker s c).2.
Proof.
  intros Hr Hc Hm Ht Ho. unfold Lookup. set (name := Fqdn _). cbv zeta.
  pose proof (Hm 0%nat). pose proof (Hm 1%nat). pose proof (Hm 2%nat).
  assert (forall qType, exists h', reachable (h' ++ h) (time 1%nat) (lookupToExchange ctxTag (time 0%nat) (time 1%nat) t name qType o checker s c).2) as Hone
    by (intros; by eapply lookupToExchange_reachable).
  assert (forall qType, exists h', reachable (h' ++ h) (time 3%nat)
    (let '(r, s, c) := lookupToExchange ctxTag (time 0%nat) (time 1%nat) t name qType o checker s c in (okOr r, head (errOf r), s, c)).2) as Hs.
  { intros qType. destruct (Hone qType) as [h' Hh']. exists h'. destruct (lookupToExchange _ _ _ _ _ _ _ _ _ _) as [[r s'] c'].
    eapply reach_wait; [exact Hh'|lia]. }
  assert (exists h', reachable (h' ++ h) (time 3%nat)
    (let '(r4, s, c) := lookupToExchange ctxTag (time 0%nat) (time 1%nat) t name TypeA o checker s c in
     lookupToExchange ctxTag (time 2%nat) (time 3%nat) t name TypeAAAA o checker s c).2) as (h2 & Htwo).
  { destruct (Hone TypeA) as [h' Hh']. destruct (lookupToExchange _ _ _ _ _ TypeA _ _ _ _) as [[r4 s4] c4].
    eapply (lookupToExchange_reachable _ _ ctxTag (time 2%nat) (time 3%nat) t name TypeAAAA o checker s4) in Hh' as [h2 Hh2]; [|lia|done|done].
    exists (h2 ++ h'). by rewrite <- app_assoc. }
  destruct (match LookupStrategy o with AsIS => Strategy o | s => s end); try apply Hs;
    (exists h2; destruct (lookupToExchange _ _ _ _ _ TypeA _ _ _ _) as [[r4 s4] c4]; cbn [snd] in Htwo;
     destruct (lookupToExchange _ _ _ _ _ TypeAAAA _ _ _ _) as [[r6 s6] c6]; by destruct (okOr r4), (okOr r6)).
Qed.

(** *** What is served of an answer *)

Definition sameButTtl (r r' : RR) : Prop := r' = setTtl (rr_Ttl r') r.

(** The address hints of the family that is not asked for. *)
Definition excludedHint (strategy : DomainStrategy) (key : Z) : bool :=
  match strategy with IPv4Only => key =? SVCB_IPV6HINT | IPv6Only => key =? SVCB_IPV4HINT | _ => false end.

(** An answer record [r'] made of [r]: an HTTPS record asked for as such is without those hints. *)
Definition sameButHints (q : Question) o (r r' : RR) : Prop :=
  match rr_Data r with
  | RD_HTTPS values =>
      if q_Qtype q =? TypeHTTPS
      then sameButTtl (setData (RD_HTTPS (List.filter (fun kv => negb (excludedHint (Strategy o) kv.1)) values)) r) r'
      else sameButTtl r r'
  | _ => sameButTtl r r'
  end.

(** The additional records: without OPT records if the request had none, or with a new one, of the
    size of one that was there, where the request's is of a lower version than the one the time to
    live is taken for. *)
Definition extraServed (a : Answered) (extra : list RR) : Prop :=
  let given := m_Extra (a_Response a) in
  let rest := List.filter (fun r => negb (isOPT r)) given in
  match IsEdns0 (a_Request a) with
  | None => Forall2 sameButTtl rest extra
  | Some qopt =>
      if Version qopt <? Z.land (Z.shiftr (a_Ttl a) 16) 255
      then Forall2 sameButTtl given extra /\ rest = given \/
           exists old opt, old ∈ given /\ isOPT old = true /\ isOPT opt = true /\ rr_Class opt = rr_Class old /\ rr_Data opt = RD_OPT [] /\
             Forall2 sameButTtl (rest ++ [opt]) extra
      else Forall2 sameButTtl given extra
  end.

Record servedAs (a : Answered) (m : Msg) : Prop := {
  sv_id : m_Id m = m_Id (a_Request a);
  sv_head : m_Response m = m_Response (a_Response a) /\ m_Authoritative m = m_Authoritative (a_Response a) /\
    m_RecursionDesired m = m_RecursionDesired (a_Response a) /\ m_RecursionAvailable m = m_RecursionAvailable (a_Response a) /\
    m_Other m = m_Other (a_Response a) /\ m_Rcode m = m_Rcode (a_Response a);
  sv_question : m_Question m = m_Question (a_Response a);
  sv_answer : Forall2 (sameButHints (a_Question a) (a_Options a)) (m_Answer (a_Response a)) (m_Answer m);
  sv_ns : Forall2 sameButTtl (m_Ns (a_Response a)) (m_Ns m);
  sv_extra : extraServed a (m_Extra m)
}.

Lemma sameButTtl_set x r r' : sameButTtl r r' -> sameButTtl r (setTtl x r').
Proof. unfold sameButTtl. intros ->. done. Qed.
Lemma sameButHints_set q o x r r' : sameButHints q o r r' -> sameButHints q o r (setTtl x r').
Proof. unfold sameButHints. repeat case_match; apply sameButTtl_set. Qed.
Lemma Forall2_retimed (P : RR -> RR -> Prop) f l l' :
  (forall r r', P r r' -> P r (setTtl (f r') r')) -> Forall2 P l l' -> Forall2 P l ((fun r => setTtl (f r) r) <$> l').
Proof. intros HP Hl. apply Forall2_fmap_r. eapply Forall2_impl; [exact Hl|]. apply HP. Qed.
Lemma sameButTtl_all f l : Forall2 sameButTtl l ((fun r => setTtl (f r) r) <$> l).
Proof. apply Forall2_fmap_r. by apply Forall_Forall2_diag, Forall_true. Qed.

(** Counting down changes times to live only. *)
Lemma servedAs_map a f m : servedAs a m -> servedAs a (mapRecords (fun r => setTtl (f r) r) m).
Proof.
  assert (forall l l', Forall2 sameButTtl l l' -> Forall2 sameButTtl l ((fun r => setTtl (f r) r) <$> l')) as Ht
    by (intros l l'; apply Forall2_retimed; intros; by apply sameButTtl_set).
  intros [? ? ? Ha Hn Hx]. split; cbn; try done; [|by apply Ht|].
  - apply Forall2_retimed; [|done]. intros r r'. apply sameButHints_set.
  - unfold extraServed in *. case_match; [|by apply Ht]. case_match; [|by apply Ht].
    destruct Hx as [[Hx ->]|(old & opt & ? & ? & ? & ? & ? & Hx)]; [left; by split; [apply Ht|]|]. right. exists old, opt. split_and!; try done. by apply Ht.
Qed.

Lemma filter_true {A} (l : list A) : List.filter (fun _ => true) l = l.
Proof. induction l as [|x l IH]; cbn; by rewrite ?IH. Qed.

Lemma filterHints_spec q o ttl r : q_Qtype q = TypeHTTPS -> sameButHints q o r (setTtl ttl (filterHints (Strategy o) r)).
Proof.
  intros Hq. unfold sameButHints, filterHints. rewrite Hq. destruct r as [n t c ttl0 d]. cbn. destruct d; try done.
  unfold sameButTtl. destruct (Strategy o); cbn; by rewrite ?filter_true.
Qed.

Lemma sameButHints_other q o ttl r : q_Qtype q <> TypeHTTPS -> sameButHints q o r (setTtl ttl r).
Proof. intros Hq%Z.eqb_neq. unfold sameButHints. rewrite Hq. by case_match. Qed.

Lemma isOPT_setTtl ttl r : isOPT (setTtl ttl r) = isOPT r.
Proof. done. Qed.
Lemma filter_retimed ttl l : List.filter (fun r => negb (isOPT r)) (setTtl ttl <$> l) = setTtl ttl <$> List.filter (fun r => negb (isOPT r)) l.
Proof. induction l as [|r l IH]; cbn; [done|]. rewrite isOPT_setTtl. destruct (isOPT r); cbn; by rewrite IH. Qed.

(** The additional records of a kept response. *)
Lemma adjustEDNS_extra a m :
  m_Extra m = setTtl (a_Ttl a) <$> m_Extra (a_Response a) -> extraServed a (m_Extra (adjustEDNS (a_Request a) m)).
Proof.
  intros Hm. unfold adjustEDNS, extraServed. set (given := m_Extra (a_Response a)) in *.
  pose proof (fun l => sameButTtl_all (fun _ => a_Ttl a) l) as Hall. cbn in Hall.
  destruct (IsEdns0 m) as [ropt|] eqn:Er.
  - apply IsEdns0_Some in Er as [Hin Hopt]. rewrite Hm in Hin. apply list_elem_of_fmap in Hin as (old & -> & Hin).
    destruct (IsEdns0 (a_Request a)) as [qopt|]; [|cbn; rewrite Hm, filter_retimed; apply Hall].
    rewrite (Version_bits (setTtl _ old)). cbn [rr_Ttl setTtl]. destruct (_ <? _); [|rewrite Hm; apply Hall]. right.
    edestruct SetEdns0_Extra as (name & ->). exists old, (mkRR name TypeOPT (rr_Class old) 0 (RD_OPT [])). split; [done|]. split; [by rewrite <- (isOPT_setTtl (a_Ttl a))|].
    split; [reflexivity|]. split; [reflexivity|]. split; [reflexivity|]. cbn. rewrite Hm, filter_retimed.
    apply Forall2_app; [apply Hall|]. by constructor.
  - apply IsEdns0_None in Er. rewrite Hm, Forall_fmap in Er.
    assert (List.filter (fun r => negb (isOPT r)) given = given) as Hrest.
    { clear Hm. induction Er as [|r l Hr _ IH]; cbn; [done|]. unfold compose in Hr. rewrite isOPT_setTtl in Hr. by rewrite Hr, IH. }
    rewrite Hrest, Hm. destruct (IsEdns0 (a_Request a)) as [qopt|]; [|apply Hall]. destruct (_ <? _); [|apply Hall]. left. split; [apply Hall|done].
Qed.

Lemma setExtra_id m : setExtra (m_Extra m) m = m.
Proof. by destruct m. Qed.
Lemma adjustEDNS_only message m : exists extra, adjustEDNS message m = setExtra extra m.
Proof.
  unfold adjustEDNS. destruct (IsEdns0 m); [|eexists; symmetry; apply setExtra_id].
  destruct (IsEdns0 message); [|by eexists]. case_match; [|eexists; symmetry; apply setExtra_id].
  edestruct SetEdns0_Extra as (name & ->). by eexists.
Qed.

#[local] Arguments a_Ttl : simpl never.

(** A kept response is the transport's, but for its times to live, the hints and the OPT record. *)
Lemma kept_served a : servedAs a (a_Kept a).
Proof.
  unfold a_Kept, finishResponse. cbv zeta. cbn [fst].
  set (resp := if q_Qtype (a_Question a) =? TypeHTTPS then _ else _).
  set (m := setId (m_Id (a_Request a)) (mapRecords (setTtl (timeToLive (o_RewriteTTL (a_Options a)) resp)) resp)).
  assert (timeToLive (o_RewriteTTL (a_Options a)) resp = a_Ttl a) as Ht by done.
  assert (extraServed a (m_Extra (adjustEDNS (a_Request a) m))) as Hx.
  { apply adjustEDNS_extra. cbn. rewrite Ht. subst resp. by destruct (_ =? _). }
  destruct (adjustEDNS_only (a_Request a) m) as (extra & He). rewrite He in *. subst m. rewrite Ht in *.
  pose proof (fun l => sameButTtl_all (fun _ => a_Ttl a) l) as Hall. cbn in Hall.
  split; cbn; try done; [subst resp; by destruct (_ =? _)..| |subst resp; by destruct (_ =? _)].
  subst resp. destruct (Z.eqb_spec (q_Qtype (a_Question a)) TypeHTTPS) as [Hq|Hq]; cbn.
  - rewrite <- list_fmap_compose. apply Forall2_fmap_r, Forall_Forall2_diag, Forall_true. intros r. by apply filterHints_spec.
  - apply Forall2_fmap_r, Forall_Forall2_diag, Forall_true. intros r. by apply sameButHints_other.
Qed.

(** Without a value in the options an answer is kept no longer than any of its records asks for. *)
Lemma kept_shortest a r :
  typed (a_Response a) -> o_RewriteTTL (a_Options a) = None -> m_Answer (a_Response a) <> [] -> r ∈ records (a_Response a) ->
  0 < rr_Ttl r -> a_Ttl a <= rr_Ttl r.
Proof.
  intros Hty Ho Ha Hr Hpos. unfold a_Ttl, finishResponse. cbv zeta. cbn [snd]. rewrite Ho.
  set (resp := if q_Qtype (a_Question a) =? TypeHTTPS then _ else _).
  assert (rr_Ttl <$> records resp = rr_Ttl <$> records (a_Response a)) as Hsame.
  { subst resp. case_match; [|done]. unfold records. rewrite !fmap_app. cbn. f_equal. rewrite <- list_fmap_compose. apply list_fmap_ext.
    intros _ x _. unfold compose, filterHints. by repeat case_match. }
  assert (exists x, x ∈ records resp /\ rr_Ttl x = rr_Ttl r) as (x & Hx & Hxr).
  { assert (rr_Ttl r ∈ rr_Ttl <$> records resp) as (x & Hx & Hin)%list_elem_of_fmap by (rewrite Hsame; by apply list_elem_of_fmap_2). eauto. }
  assert (m_Answer resp <> []) as Hna by (subst resp; case_match; [cbn; by destruct (m_Answer (a_Response a))|done]).
  unfold timeToLive. destruct (m_Answer resp) as [|y l] eqn:E; [done|]. cbn [default].
  change (0 =? 0) with true. cbv iota. unfold lowestTTL.
  destruct (foldl_ttlStep_spec (records resp) 0) as [Hmin _]; [done| |].
  - change (Forall ((fun z => 0 <= z) ∘ rr_Ttl) (records resp)). rewrite <- Forall_fmap, Hsame. apply Forall_fmap. eapply Forall_impl; [exact Hty|]. intros z [[Hz _] _]. exact Hz.
  - rewrite <- Hxr in *. apply (Hmin (rr_Ttl x)); [right; eauto|done].
Qed.

Lemma wrapU32_small z : 0 <= z < 2 ^ 32 -> wrapU32 z = z.
Proof. intros Hz. by apply Z.mod_small. Qed.

(** The records of a cached response count down together. *)
Lemma countdown m ttl nowTTL :
  uint32 ttl -> 0 <= nowTTL <= ttl -> Forall (fun r => rr_Ttl r = ttl) (records m) ->
  let served := if 0 <? lowestTTL m then mapRecords (fun r => setTtl (wrapU32 (rr_Ttl r - wrapU32 (lowestTTL m - nowTTL))) r) m
                else mapRecords (setTtl (wrapU32 nowTTL)) m in
  Forall (fun r => rr_Ttl r = nowTTL) (records served).
Proof.
  intros Ht Hn Hall. unfold lowestTTL. rewrite (foldl_ttlStep_same ttl) by (done || (left; done) || apply Ht). cbv zeta.
  destruct (records m) as [|r0 l] eqn:Hr; cbn [nonempty].
  - change (0 <? 0) with false. cbv iota. rewrite records_mapRecords, Hr. constructor.
  - unfold uint32 in Ht. case_match; bool_inv; rewrite records_mapRecords, Hr, Forall_fmap.
    + eapply Forall_impl; [exact Hall|]. intros r Hrt. unfold compose. cbn [rr_Ttl setTtl]. rewrite Hrt.
      rewrite (wrapU32_small (ttl - nowTTL)) by lia. rewrite wrapU32_small; lia.
    + apply Forall_true. intros r. unfold compose. cbn [rr_Ttl setTtl]. apply wrapU32_small. lia.
Qed.


(** ** Client subnets *)

Lemma findOption_lt options k j : findOption k options = Some j -> (k <= j < k + length options)%nat.
Proof.
  revert k. induction options as [|o options IH]; intros k; simpl; [done|]. destruct o; [intros [= <-]; lia|].
  intros Hf%IH. lia.
Qed.

Lemma findSubnet_cases extra n opt i j :
  findSubnet n extra opt = (Some i, j) ->
  (opt = Some i /\ j = None) \/ exists r options, (n <= i)%nat /\ extra !! (i - n)%nat = Some r /\ rr_Data r = RD_OPT options /\
    match j with Some j => (j < length options)%nat | None => True end.
Proof.
  revert n opt. induction extra as [|r extra IH]; intros n opt; simpl; [intros [= -> <-]; by left|]. intros Hf. right.
  destruct (rr_Data r) as [| | | | | |options| |] eqn:Ed;
    try (apply IH in Hf as [[? _]|(r' & options' & Hn & Hr & Hd & Hj)]; [done|]; exists r', options'; split; [lia|];
         replace (i - n)%nat with (S (i - S n)) by lia; done).
  destruct (findOption 0 options) as [k|] eqn:Ek.
  - injection Hf as <- <-. exists r, options. rewrite Nat.sub_diag. apply findOption_lt in Ek. split; [lia|]. split; [done|]. split; [done|]. lia.
  - apply IH in Hf as [[[= <-] ->]|(r' & options' & Hn & Hr & Hd & Hj)].
    + exists r, options. rewrite Nat.sub_diag. split; [lia|]. done.
    + exists r', options'. split; [lia|]. replace (i - n)%nat with (S (i - S n)) by lia. done.
Qed.

Lemma SetClientSubnet_not_simple message p o : isSimpleRequest (SetClientSubnet message p) o = false.
Proof.
  unfold isSimpleRequest, SetClientSubnet. destruct (findSubnet 0 (m_Extra message) None) as [[i|] j] eqn:Hf.
  - apply findSubnet_cases in Hf as [[? _]|(r & options & _ & Hr & Hd & Hj)]; [done|]. rewrite Nat.sub_0_r in Hr. cbn [m_Extra m_Question m_Ns setExtra].
    destruct (m_Extra message) as [|r0 [|r1 extra]]; [done| |destruct i as [|[|i]]; simpl; by rewrite andb_false_r].
    destruct i; [|done]. injection Hr as ->. simpl. unfold putOption. rewrite Hd. cbn [rr_Data setData].
    assert (exists (x1 : EDNSOption) l, match j with Some j => <[j:=subnetOption p]> options | None => options ++ [subnetOption p] end = x1 :: l) as (x1 & l & ->).
    { destruct j as [j|]; [destruct options as [|x1 options]; [simpl in Hj; lia|]; destruct j; simpl; by eexists _, _|].
      destruct options; simpl; by eexists _, _. }
    by rewrite !andb_false_r.
  - cbn [m_Extra m_Question m_Ns setExtra]. destruct (m_Extra message) as [|r0 [|r1 extra]]; simpl; by rewrite !andb_false_r.
Qed.

(** With a client subnet, the client's or the query's, a query neither reads the cache nor changes
    it: an answer meant for one subnet is never served to another. *)
Theorem client_subnet_bypasses_cache {St : Type} ctxTag now after t message o (checker : option (list (option Addr) -> St -> bool * St)) s c l :
  Prefix_IsValid (o_ClientSubnet o) = true \/ Prefix_IsValid (clientSubnet c) = true ->
  exists r, Exchange ctxTag now after t message o checker s c = (r, c) /\
            Exchange ctxTag now after t message o checker s (setCache l c) = (r, setCache l c).
Proof.
  intros Hp. unfold Exchange. destruct (m_Question message) as [|q qs]; [by eexists|]. destruct (strategyExcludes q o); [by eexists|].
  assert (forall c, Prefix_IsValid (o_ClientSubnet o) = true \/ Prefix_IsValid (clientSubnet c) = true ->
          isSimpleRequest (withSubnet message o c) o = false) as Hs.
  { intros c0 Hc0. unfold withSubnet. destruct (Prefix_IsValid (o_ClientSubnet o)) eqn:Ho.
    - rewrite Ho. apply SetClientSubnet_not_simple.
    - destruct Hc0 as [?| ->]; [done|]. apply SetClientSubnet_not_simple. }
  rewrite !Hs by done. cbn [negb orb]. change (withSubnet message o (setCache l c)) with (withSubnet message o c).
  unfold exchangeByTransport. cbn [negb andb orb]. case_bool_decide; [by eexists|].
  destruct (transportAnswer t _) as [response|e]; [|by eexists]. destruct (rejects checker response s) as [[] s']; [by eexists|].
  destruct (finishResponse _ _ _ _) as [kept ttl]. by eexists.
Qed.

(** ** A time to live in an OPT record *)

(** The response of [finishResponse] when the version read from the TTL is above the request's. *)
Lemma finishResponse_replaced message q o response kept ttl qopt :
  finishResponse message q o response = (kept, ttl) -> IsEdns0 message = Some qopt -> rr_Ttl qopt = 0 ->
  Exists (fun r => isOPT r = true) (m_Extra response) -> 0 < Z.land (Z.shiftr ttl 16) 255 ->
  exists extra opt, m_Extra kept = extra ++ [opt] /\ rr_Ttl opt = (if Z.testbit ttl 15 then 2 ^ 15 else 0) /\
    Forall (fun r => rr_Ttl r = ttl) (m_Answer kept ++ m_Ns kept ++ extra).
Proof.
  unfold finishResponse. intros [= <- Httl] Hq Hq0 Hopt Hver. rewrite Httl.
  set (resp := if q_Qtype q =? TypeHTTPS then _ else response).
  assert (m_Extra resp = m_Extra response) as Hx by (subst resp; by destruct (q_Qtype q =? TypeHTTPS)).
  set (m := setId (m_Id message) (mapRecords (setTtl ttl) resp)).
  assert (Forall (fun r => rr_Ttl r = ttl) (records m)) as Hall.
  { change (records m) with (records (mapRecords (setTtl ttl) resp)). rewrite records_mapRecords. apply Forall_fmap, Forall_true. done. }
  unfold adjustEDNS. destruct (IsEdns0 m) as [ropt|] eqn:Er.
  2:{ apply IsEdns0_None in Er. cbn [m m_Extra setId mapRecords] in Er. rewrite Hx, Forall_fmap in Er.
      apply Exists_exists in Hopt as (r & Hr & Ho). rewrite Forall_forall in Er. specialize (Er r Hr). unfold compose in Er. cbn in Er.
      unfold isOPT in *. cbn in Er. by rewrite Er in Ho. }
  rewrite Hq. apply IsEdns0_Some in Er as [Hin _].
  unfold records in Hall. rewrite !Forall_app in Hall. destruct Hall as (Ha & Hn & He).
  assert (rr_Ttl ropt = ttl) as Hr by (rewrite Forall_forall in He; by apply He).
  rewrite !Version_bits, Hq0, Hr. change (Z.land (Z.shiftr 0 16) 255) with 0. rewrite (proj2 (Z.ltb_lt _ _)) by done.
  rewrite Do_bit, Hr. edestruct (SetEdns0_Extra) as (name & ->).
  eexists _, _. cbn [m_Extra setExtra m_Answer m_Ns]. split; [done|]. split; [done|].
  rewrite !Forall_app. split; [done|]. split; [done|]. rewrite Forall_forall in *. intros r Hr'. apply He.
  apply list_elem_of_In in Hr'. apply filter_In in Hr' as [Hr' _]. by apply list_elem_of_In.
Qed.

(** An OPT record is given the time to live too, where its version and DO bit are kept: a value
    above 2^16 makes the record look of a later version, so that it is replaced, and bit 15 of the
    value becomes the DO bit of the new one, a TTL of 32768.  A cached answer is then counted down
    from that: it is served with more time to live than it was kept with. *)
Theorem replaced_opt_inflates_ttl message q o response kept ttl qopt now tag c x l :
  finishResponse message q o response = (kept, ttl) -> uint32 ttl ->
  IsEdns0 message = Some qopt -> rr_Ttl qopt = 0 -> Exists (fun r => isOPT r = true) (m_Extra response) ->
  0 < Z.land (Z.shiftr ttl 16) 255 -> Z.testbit ttl 15 = true ->
  disableExpire c = false -> lruGet now (keyOf c q tag) (cache c) = (Some (kept, Some x), l) ->
  32768 < (x - now) / Second -> ttl + (x - now) / Second - 32768 < 2 ^ 32 -> 32768 < ttl ->
  exists served c', loadResponse now q tag c = (Some (served, (x - now) / Second), c') /\
    Forall (fun r => rr_Ttl r = ttl + (x - now) / Second - 32768 /\ ttl < rr_Ttl r) (m_Answer served).
Proof.
  intros Hf Ht Hq Hq0 Hopt Hver Hbit Hd Hget Hnow Hmax Hbig.
  destruct (finishResponse_replaced _ _ _ _ _ _ _ Hf Hq Hq0 Hopt Hver) as (extra & opt & Hx & Ho & Hall). rewrite Hbit in Ho.
  assert (lowestTTL kept = 32768) as Hlow.
  { unfold uint32 in Ht. assert (Forall (fun r => rr_Ttl r = ttl \/ r = opt) (records kept)) as Hrec.
    { unfold records. rewrite Hx, !app_assoc, Forall_app. split; [|constructor; [by right|constructor]]. rewrite <- app_assoc.
      eapply Forall_impl; [exact Hall|]. auto. }
    destruct (foldl_ttlStep_spec (records kept) 0) as [Hmin Hin]; [done| |].
    { eapply Forall_impl; [exact Hrec|]. intros r [->| ->]; [lia|]. by rewrite Ho. }
    fold (lowestTTL kept) in Hmin, Hin. assert (opt ∈ records kept) as Hino by (unfold records; rewrite Hx; set_solver).
    specialize (Hmin (rr_Ttl opt) (or_intror (ex_intro _ opt (conj Hino eq_refl)))). rewrite Ho in Hmin. specialize (Hmin ltac:(lia)).
    destruct Hin as [Hin|(r & Hr & Hin)]; [lia|]. rewrite Forall_forall in Hrec. destruct (Hrec r Hr) as [Hrt| ->]; lia. }
  unfold loadResponse. rewrite Hget. cbn [disableExpire setCache]. rewrite Hd. change (default 0 (Some x)) with x.
  assert (now <= x) by (unfold Second in *; pose proof (Z.div_lt_upper_bound (x - now) 1000000000 1); lia).
  rewrite (proj2 (Z.ltb_ge _ _)), Hlow by done. change (0 <? 32768) with true. cbv iota zeta. eexists _, _. split; [done|].
  cbn [m_Answer mapRecords]. apply Forall_fmap. apply Forall_app in Hall as [Ha _]. eapply Forall_impl; [exact Ha|].
  intros r Hr. unfold compose. cbn [rr_Ttl setTtl]. rewrite Hr. unfold uint32 in Ht.
  assert (wrapU32 (ttl - wrapU32 (32768 - (x - now) / Second)) = ttl + (x - now) / Second - 32768) as ->; [|lia].
  unfold wrapU32. rewrite Zminus_mod_idemp_r. replace (ttl - (32768 - (x - now) / Second)) with (ttl + (x - now) / Second - 32768) by lia.
  apply Z.mod_small. lia.
Qed.

End Kept.

(** ** A client with a cache that forgets nothing *)

Module DNSSample.
#[export] Instance sampleLRU K V `{Countable K} : FreeLRU K V := {|
  lru := gmap K (V * option Z);
  newSharded := fun _ => ∅;
  lruGet := fun _ k c => (c !! k, c);
  lruAdd := fun _ k m c => <[k := (m, None)]> c;
  lruAddWithLifetime := fun now k m d c => <[k := (m, Some (now + d))]> c;
  lruRemove := fun k c => delete k c;
  lruPurge := fun _ => ∅;
  lruContent := fun c => c
|}.
#[export] Instance sampleLRULaws K V `{Countable K} : FreeLRULaws K V.
Proof.
  constructor; try done; simpl.
  - intros now k c r c' [= <- <-]. by split.
  - intros now k m d c. exists (now + d). by split.
Qed.

#[export] Instance sampleDNS : DNSLibs := {|
  AddrFromIP := fun ip => Some (mkAddr (8 * Z.of_nat (length ip)) (foldl (fun acc b => acc * 256 + b) 0 ip));
  ParseAddr := fun _ => None;
  addrBytes := fun _ => [];
  IsEdns0 := fun m => last (List.filter isOPT (m_Extra m));
  Version := fun opt => Z.land (Z.shiftr (rr_Ttl opt) 16) 255;
  Do := fun opt => Z.testbit (rr_Ttl opt) 15;
  SetEdns0 := fun size do m => setExtra (m_Extra m ++ [mkRR "." TypeOPT size (if do then 2 ^ 15 else 0) (RD_OPT [])]) m;
  IsFqdn := fun s => bool_decide (String.substring (String.length s - 1) 1 s = ".");
  Fqdn := fun s => if bool_decide (String.substring (String.length s - 1) 1 s = ".") then s else s +:+ ".";
  RDRCStore := unit;
  LoadRDRC := fun _ _ _ _ => false;
  SaveRDRC := fun s _ _ _ => s
|}.
#[export] Instance sampleDNSLaws : DNSLaws.
Proof.
  constructor; try done; simpl.
  - intros m. induction (m_Extra m) as [|r l IH]; simpl; [done|]. rewrite Forall_cons. destruct (isOPT r) eqn:E.
    + rewrite last_None. naive_solver.
    + rewrite <- IH. naive_solver.
  - intros m opt Hl. apply last_Some in Hl as [l Hl]. assert (opt ∈ List.filter isOPT (m_Extra m)) as Hin by (rewrite Hl; set_solver).
    apply list_elem_of_In in Hin. apply filter_In in Hin as [Hin ?]. split; [by apply list_elem_of_In|done].
  - intros size do m. by exists ".".
Qed.

Definition nowhere : Prefix := mkPrefix (mkAddr 0 0) (-1).
Definition plain : DNSQueryOptions := mkQueryOptions AsIS AsIS false None nowhere.
Definition q : Question := mkQuestion "go.dev." TypeA ClassINET.
Definition opt : RR := mkRR "." TypeOPT 1232 0 (RD_OPT []).
(** A server whose answer is to be kept for two days. *)
Definition answer (m : Msg) : Msg :=
  mkMsg (m_Id m) true false true true 0 0 (m_Question m) [mkRR "go.dev." TypeA ClassINET 172800 (RD_A [1; 2; 3; 4])] [] [opt].
Definition server : Transport := mkTransport "remote" "udp" None (fun _ m => Ok (answer m)).
Definition ask (extra : list RR) : Msg := mkMsg 7 false false true false 0 0 [q] [] [] extra.
Definition client : Client := NewClient false false false 0 nowhere.
Definition afterOne (extra : list RR) : Client := (Exchange None 0 0 server (ask extra) plain (@None (_ -> unit -> bool * unit)) tt client).2.

Lemma server_typed : transport_typed server.
Proof. intros m response [= <-]. repeat constructor; by simpl. Qed.

Lemma afterOne_reachable extra : reachable (askedBy 0 server (ask extra) plain client ++ []) 0 (afterOne extra).
Proof.
  eapply (reach_exchange unit [] 0 client None 0 0 server (ask extra) plain None tt _ _ (reach_new _ _ _ _ _ _));
    [done|apply server_typed|by intros ? [=]|]. apply surjective_pairing.
Qed.

(** The answer from the cache after a hundred seconds. *)
Definition later : Z := 100 * Second.
Definition hit : option (Msg * Z) * Client := loadResponse later q "remote" (afterOne []).
Definition hitMsg : Msg := default (ask []) (fst <$> hit.1).
Lemma hit_eq : loadResponse later q "remote" (afterOne []) = (Some (hitMsg, 172700), hit.2).
Proof. rewrite (surjective_pairing (loadResponse _ _ _ _)). by f_equal. Qed.


Definition home : Prefix := mkPrefix (mkAddr 32 (10 * 2 ^ 24)) 8.
Lemma client_subnet_bypasses_cache_witness :
  exists r, Exchange None 0 0 server (ask []) (mkQueryOptions AsIS AsIS false None home) None tt client = (r, client).
Proof.
  destruct (client_subnet_bypasses_cache None 0 0 server (ask []) (mkQueryOptions AsIS AsIS false None home) None tt client (cache client))
    as (r & Hr & _); [left; reflexivity|]. by exists r.
Defined.

Lemma replaced_opt_inflates_ttl_witness :
  exists served c', loadResponse Second q "remote" (afterOne [opt]) = (Some (served, 172799), c') /\
    Forall (fun r => rr_Ttl r = 312831 /\ 172800 < rr_Ttl r) (m_Answer served).
Proof.
  apply (replaced_opt_inflates_ttl (ask [opt]) q plain (answer (ask [opt])) (finishResponse (ask [opt]) q plain (answer (ask [opt]))).1
    172800 opt Second "remote" (afterOne [opt]) (172800 * Second) (cache (afterOne [opt])));
    first [reflexivity | by constructor | by vm_compute | idtac].
Defined.
End DNSSample.
