(* ===== verification/DNSUDP.v ===== *)
(** * DNS over UDP (src/fork/sing-box/dns/transport/udp.go)

    Queries share one connection and are told apart by the id they are sent with.  Every query is a
    goroutine, and so is the receiving loop of every connection; what they do between two locks or
    waits is one step here, and a run is any sequence of steps, with the answers of the network and
    the context as its labels.  A channel that is closed is a flag; the channel [done] of the
    transport is replaced when it is closed, so that it is the number of its generation.  Packing
    and unpacking of messages, their OPT record, and the TCP transport that is asked when a response is truncated,
    are parameters. *)

From S2P Require Import Prelude GoStrings Rules DNSClient.

#[local] Open Scope Z_scope.

Class UDPLibs := {
  PackBuffer : Msg -> res error (list Z);
  Unpack : list Z -> res error Msg;
  Truncated : Msg -> bool;
  (** [IsEdns0] and [UDPSize]: the size in the OPT record of a message. *)
  ednsSize : Msg -> option Z
}.

Definition ErrClosed : error := New "file already closed".

(** ** State *)

(** Where the receiving loop of a connection is; [LEnded]: it has returned. *)
Inductive loopPhase :=
| LAlloc
| LRead (size : Z)
| LLookup (message : Msg)
| LComplete (callback : nat) (message : Msg)
| LEnded.

(** [received]: what was read from the socket, oldest first; [sentData]: what was written to it. *)
Record dnsConnection := mkConnection {
  c_done : bool;
  c_err : option error;
  queryId : Z;
  callbacks : gmap Z nat;
  socketClosed : bool;
  sentData : list (list Z);
  received : list (list Z);
  loop : loopPhase
}.

Record UDPTransport := mkTransport { udpSize : Z; done : nat; conn : option nat }.

(** Where a query is; [QTCP]: it has been handed to the TCP transport. *)
Inductive queryPhase :=
| QResize
| QOpen
| QRegister (c : nat)
| QWrite
| QWait (channel : nat)
| QCleanup (r : res error Msg)
| QTCP
| QReturned (r : res error Msg).

(** The variables of [exchange]: the message, the connection and [exMessage.Id] once the callback
    is registered under it, and the message of the callback once it is done. *)
Record Query := mkQuery { q_message : Msg; q_sent : option (nat * Z); q_callback : option Msg; q_phase : queryPhase }.

Record World := mkWorld { transport : UDPTransport; conns : list dnsConnection; queries : list Query }.
Implicit Types (w : World) (q : Query) (k : dnsConnection).

Definition NewUDPRaw : World := mkWorld (mkTransport 2048 0 None) [] [].

Definition setPhase (p : queryPhase) q : Query := mkQuery (q_message q) (q_sent q) (q_callback q) p.
Definition setLoop (p : loopPhase) k : dnsConnection := mkConnection (c_done k) (c_err k) (queryId k) (callbacks k) (socketClosed k) (sentData k) (received k) p.
Definition setCallbacks (m : gmap Z nat) k : dnsConnection := mkConnection (c_done k) (c_err k) (queryId k) m (socketClosed k) (sentData k) (received k) (loop k).
Definition addSent (l : list Z) k : dnsConnection := mkConnection (c_done k) (c_err k) (queryId k) (callbacks k) (socketClosed k) (sentData k ++ [l]) (received k) (loop k).
Definition addReceived (l : list Z) k : dnsConnection := mkConnection (c_done k) (c_err k) (queryId k) (callbacks k) (socketClosed k) (sentData k) (received k ++ [l]) (loop k).
Definition putQuery (i : nat) q w : World := mkWorld (transport w) (conns w) (<[i := q]> (queries w)).
Definition putConn (c : nat) k w : World := mkWorld (transport w) (<[c := k]> (conns w)) (queries w).
Definition putTransport (t : UDPTransport) w : World := mkWorld t (conns w) (queries w).

(** ** Steps *)

(** [dnsConnection.Close]. *)
Definition closeConn (e : error) k : dnsConnection :=
  mkConnection true (if c_done k then c_err k else Some e) (queryId k) (callbacks k) true (sentData k) (received k) (loop k).

(** [Close] of the transport. *)
Definition UDP_Close w : World :=
  let t := transport w in putTransport (mkTransport (udpSize t) (S (done t)) (conn t)) w.

(** The size the query asks for; a larger one wakes all that wait for [done]. *)
Definition resize `{UDPLibs} (m : Msg) (t : UDPTransport) : UDPTransport :=
  match ednsSize m with
  | Some size => if udpSize t <? size then mkTransport size (S (done t)) (conn t) else t
  | None => t
  end.

Definition newConnection : dnsConnection := mkConnection false None 0 ∅ false [] [] LAlloc.

(** [open], where [dialled] is the dialer's answer if it is asked. *)
Definition openConn (dialled : option error) w : res error nat * World :=
  let t := transport w in
  let live := c ← conn t; k ← conns w !! c; if c_done k then None else Some c in
  match live with
  | Some c => (Ok c, w)
  | None =>
      match dialled with
      | Some e => (Err e, w)
      | None => (Ok (length (conns w)), mkWorld (mkTransport (udpSize t) (done t) (Some (length (conns w)))) (conns w ++ [newConnection]) (queries w))
      end
  end.

(** The next id, and the callback of query [i] under it. *)
Definition register (i : nat) k : Z * dnsConnection :=
  let id := (queryId k + 1) mod 2 ^ 16 in
  (id, mkConnection (c_done k) (c_err k) id (<[id := i]> (callbacks k)) (socketClosed k) (sentData k) (received k) (loop k)).

(** What a goroutine learns at a step from outside of the transport. *)
Inductive answer :=
| Go
| Dialled (e : option error)
| Wrote (e : option error)
| CallbackDone
| ConnDone
| TransportDone
| ContextDone (e : error)
| TCPAnswer (r : res error Msg).

Section Steps.
Context `{UDPLibs}.

(** What [Exchange] does with the result of [exchange]. *)
Definition finish (r : res error Msg) : queryPhase :=
  match r with
  | Err e => QReturned (Err e)
  | Ok response => if Truncated response then QTCP else QReturned (Ok response)
  end.

(** [exMessage] is packed and written. *)
Definition writeQuery (i : nat) q (c : nat) (id : Z) (e : option error) w : option World :=
  k ← conns w !! c;
  Some match PackBuffer (setId id (q_message q)) with
       | Err er => putQuery i (setPhase (QCleanup (Err er)) q) w
       | Ok raw =>
           match e with
           | Some er => putQuery i (setPhase (QCleanup (Err er)) q) (putConn c (closeConn er k) w)
           | None => putQuery i (setPhase (QWait (done (transport w))) q) (putConn c (addSent raw k) w)
           end
       end.

(** One step of query [i]; [None]: it cannot take that step now. *)
Definition stepQuery (i : nat) (a : answer) w : option World :=
  q ← queries w !! i;
  match q_phase q, a with
  | QResize, Go => Some (putQuery i (setPhase QOpen q) (putTransport (resize (q_message q) (transport w)) w))
  | QOpen, Dialled e =>
      match openConn e w with
      | (Err er, w) => Some (putQuery i (setPhase (QReturned (Err er)) q) w)
      | (Ok c, w) => Some (putQuery i (setPhase (QRegister c) q) w)
      end
  | QRegister c, Go =>
      k ← conns w !! c;
      let (id, k) := register i k in
      Some (putQuery i (mkQuery (q_message q) (Some (c, id)) (q_callback q) QWrite) (putConn c k w))
  | QWrite, Wrote e => '(c, id) ← q_sent q; writeQuery i q c id e w
  | QWait _, CallbackDone => m ← q_callback q; Some (putQuery i (setPhase (QCleanup (Ok (setId (m_Id (q_message q)) m))) q) w)
  | QWait _, ConnDone =>
      '(c, _) ← q_sent q; k ← conns w !! c; e ← c_err k;
      if c_done k then Some (putQuery i (setPhase (QCleanup (Err e)) q) w) else None
  | QWait channel, TransportDone => if (channel <? done (transport w))%nat then Some (putQuery i (setPhase (QCleanup (Err ErrClosed)) q) w) else None
  | QWait _, ContextDone e =>
      '(c, _) ← q_sent q; k ← conns w !! c;
      Some (putQuery i (setPhase (QCleanup (Err e)) q) (putConn c (closeConn e k) w))
  | QCleanup r, Go =>
      '(c, id) ← q_sent q; k ← conns w !! c;
      Some (putQuery i (setPhase (finish r) q) (putConn c (setCallbacks (delete id (callbacks k)) k) w))
  | QTCP, TCPAnswer r => Some (putQuery i (setPhase (QReturned r) q) w)
  | _, _ => None
  end.

(** The callback of a query is completed, once. *)
Definition complete (j : nat) (m : Msg) w : World :=
  match queries w !! j with
  | Some q => match q_callback q with
              | Some _ => w
              | None => putQuery j (mkQuery (q_message q) (q_sent q) (Some m) (q_phase q)) w
              end
  | None => w
  end.

(** One step of the receiving loop of connection [c]; [datagram] is the answer of the socket. *)
Definition stepLoop (c : nat) (datagram : res error (list Z)) w : option World :=
  k ← conns w !! c;
  match loop k with
  | LAlloc => Some (putConn c (setLoop (LRead (udpSize (transport w))) k) w)
  | LRead size =>
      Some match datagram with
           | Err e => putConn c (setLoop LEnded (closeConn e k)) w
           | Ok l =>
               let l := take (Z.to_nat size) l in
               match Unpack l with
               | Err e => putConn c (setLoop LEnded (closeConn e (addReceived l k))) w
               | Ok m => putConn c (setLoop (LLookup m) (addReceived l k)) w
               end
           end
  | LLookup m => Some (putConn c (setLoop (match callbacks k !! m_Id m with Some j => LComplete j m | None => LAlloc end) k) w)
  | LComplete j m => Some (complete j m (putConn c (setLoop LAlloc k) w))
  | LEnded => None
  end.

Inductive action :=
| Exchange (message : Msg)
| Step (i : nat) (a : answer)
| Receive (c : nat) (datagram : res error (list Z))
| CloseTransport.

Definition step (a : action) w : option World :=
  match a with
  | Exchange m => Some (mkWorld (transport w) (conns w) (queries w ++ [mkQuery m None None QResize]))
  | Step i a => stepQuery i a w
  | Receive c l => stepLoop c l w
  | CloseTransport => Some (UDP_Close w)
  end.

Inductive reachable : World -> Prop :=
| reachable_new : reachable NewUDPRaw
| reachable_step w a w' : reachable w -> step a w = Some w' -> reachable w'.

Fixpoint perform (l : list action) w : option World :=
  match l with [] => Some w | a :: l => w ← step a w; perform l w end.
End Steps.

(** ** Answers reach the query they are for *)

Section Safety.
Context `{UDPLibs}.

(** Query [j] was sent over connection [c] as [id]; message [m] was received on connection [c]. *)
Definition knows w (j c : nat) (id : Z) : Prop := exists q, queries w !! j = Some q /\ q_sent q = Some (c, id).
Definition heardOn k (m : Msg) : Prop := exists l, l ∈ received k /\ Unpack l = Ok m.
Definition heard w (c : nat) (m : Msg) : Prop := exists k, conns w !! c = Some k /\ heardOn k m.

(** What the query returns for the message of its callback. *)
Definition answered q (m : Msg) : Msg := setId (m_Id (q_message q)) m.

Record okConn (K : nat -> nat -> Z -> Prop) (c : nat) k : Prop := {
  ok_callbacks : forall id j, callbacks k !! id = Some j -> K j c id;
  ok_loop : match loop k with
            | LLookup m => heardOn k m
            | LComplete j m => heardOn k m /\ K j c (m_Id m)
            | _ => True
            end
}.

Record okQuery (R : nat -> Msg -> Prop) q : Prop := {
  ok_answer : forall m, q_callback q = Some m -> exists c, q_sent q = Some (c, m_Id m) /\ R c m;
  ok_result : match q_phase q with
              | QCleanup (Ok r) => exists m, q_callback q = Some m /\ r = answered q m
              | QTCP => exists m, q_callback q = Some m /\ Truncated (answered q m) = true
              | QReturned (Ok r) => exists m, q_callback q = Some m /\ (Truncated (answered q m) = true \/ r = answered q m)
              | QResize | QOpen | QRegister _ => q_sent q = None
              | _ => True
              end
}.

Definition wf w : Prop :=
  (forall c k, conns w !! c = Some k -> okConn (knows w) c k) /\ (forall j q, queries w !! j = Some q -> okQuery (heard w) q).

Lemma okConn_mono (K K' : nat -> nat -> Z -> Prop) c k : (forall j c id, K j c id -> K' j c id) -> okConn K c k -> okConn K' c k.
Proof using Type. intros HK [H1 H2]. constructor; [by eauto|]. destruct (loop k); try done. destruct H2. by eauto. Qed.
Lemma okQuery_mono (R R' : nat -> Msg -> Prop) q : (forall c m, R c m -> R' c m) -> okQuery R q -> okQuery R' q.
Proof using Type. intros HR [H1 H2]. constructor; [|done]. intros m Hm. destruct (H1 m Hm) as (c & ? & ?). by eauto. Qed.

Lemma putQuery_wf i q q' w : wf w -> queries w !! i = Some q -> (forall x, q_sent q = Some x -> q_sent q' = Some x) ->
  okQuery (heard w) q' -> wf (putQuery i q' w).
Proof using Type.
  intros [Hc Hq] Hi Hs Hq'. split; cbn [putQuery conns queries].
  - intros c k Hk. eapply okConn_mono; [|by apply Hc]. intros j c' id (q0 & Hj & Hs0). destruct (decide (j = i)) as [->|Hne].
    + exists q'. simplify_eq. cbn. rewrite list_lookup_insert_eq by (by eapply lookup_lt_Some). auto.
    + exists q0. cbn. by rewrite list_lookup_insert_ne.
  - intros j q0 Hj. destruct (decide (j = i)) as [->|Hne].
    + rewrite list_lookup_insert_eq in Hj by (by eapply lookup_lt_Some). by simplify_eq.
    + rewrite list_lookup_insert_ne in Hj by done. by eapply Hq.
Qed.

Lemma putConn_wf c k k' w : wf w -> conns w !! c = Some k -> (forall l, l ∈ received k -> l ∈ received k') ->
  okConn (knows w) c k' -> wf (putConn c k' w).
Proof using Type.
  intros [Hc Hq] Hk Hr Hk'. split; cbn [putConn conns queries].
  - intros c0 k0 Hk0. destruct (decide (c0 = c)) as [->|Hne].
    + rewrite list_lookup_insert_eq in Hk0 by (by eapply lookup_lt_Some). by simplify_eq.
    + rewrite list_lookup_insert_ne in Hk0 by done. by apply Hc.
  - intros j q Hj. eapply okQuery_mono; [|by eapply Hq]. intros c0 m (k0 & Hk0 & l & Hl & Hm). destruct (decide (c0 = c)) as [->|Hne].
    + exists k'. cbn. rewrite list_lookup_insert_eq by (by eapply lookup_lt_Some). simplify_eq. split; [done|]. exists l. auto.
    + exists k0. cbn. rewrite list_lookup_insert_ne by done. split; [done|]. by exists l.
Qed.

Lemma putTransport_wf t w : wf w -> wf (putTransport t w).
Proof using Type. done. Qed.

Lemma addQuery_wf m w : wf w -> wf (mkWorld (transport w) (conns w) (queries w ++ [mkQuery m None None QResize])).
Proof using Type.
  intros [Hc Hq]. split; cbn [conns queries].
  - intros c k Hk. eapply okConn_mono; [|by apply Hc]. intros j c' id (q0 & Hj & Hs0). exists q0. cbn. split; [by apply lookup_app_l_Some|done].
  - intros j q [Hj|[_ Hj]]%lookup_app_Some; [by eapply Hq|]. apply list_lookup_singleton_Some in Hj as [_ <-]. by constructor.
Qed.

Lemma openConn_wf e w r w' : wf w -> openConn e w = (r, w') -> wf w' /\ queries w' = queries w.
Proof using Type.
  intros Hwf. unfold openConn. destruct (_ ≫= _) as [c|]; [by intros [= <- <-]|]. destruct e as [e|]; [by intros [= <- <-]|].
  intros [= <- <-]. split; [|done]. destruct Hwf as [Hc Hq]. split; cbn [conns queries].
  - intros c k [Hk|[_ Hk]]%lookup_app_Some; [by apply Hc|]. apply list_lookup_singleton_Some in Hk as [_ <-]. constructor; [|done]. intros id j Hid. cbn in Hid. by rewrite lookup_empty in Hid.
  - intros j q Hj. eapply okQuery_mono; [|by eapply Hq]. intros c m (k & Hk & Hm). exists k. split; [by apply lookup_app_l_Some|done].
Qed.

(** A change of a connection that leaves its callbacks and its loop. *)
Lemma quiet_wf c k k' w : wf w -> conns w !! c = Some k -> received k' = received k -> callbacks k' = callbacks k -> loop k' = loop k -> wf (putConn c k' w).
Proof using Type.
  intros Hwf Hk Hr Hcb Hl. eapply putConn_wf; [done..|by rewrite Hr|]. destruct (proj1 Hwf _ _ Hk) as [H1 H2].
  constructor; [by rewrite Hcb|]. rewrite Hl. unfold heardOn in *. by rewrite Hr.
Qed.

(** A phase with the query's variables kept. *)
Lemma setPhase_wf i q p w : wf w -> queries w !! i = Some q ->
  (okQuery (heard w) q -> match p with
   | QCleanup (Ok r) => exists m, q_callback q = Some m /\ r = answered q m
   | QTCP => exists m, q_callback q = Some m /\ Truncated (answered q m) = true
   | QReturned (Ok r) => exists m, q_callback q = Some m /\ (Truncated (answered q m) = true \/ r = answered q m)
   | QResize | QOpen | QRegister _ => q_sent q = None
   | _ => True
   end) -> wf (putQuery i (setPhase p q) w).
Proof using Type.
  intros Hwf Hi Hp. eapply putQuery_wf; [done..|]. pose proof (proj2 Hwf _ _ Hi) as Hq. constructor; [by apply Hq|]. by apply Hp.
Qed.

Lemma writeQuery_wf i q c id e w w' : wf w -> queries w !! i = Some q -> writeQuery i q c id e w = Some w' -> wf w'.
Proof using Type.
  intros Hwf Hi. unfold writeQuery. destruct (conns w !! c) as [k|] eqn:Hk; cbn [mbind option_bind]; [|done].
  destruct (PackBuffer _) as [raw|er]; [destruct e as [er|]|]; intros [= <-]; (apply setPhase_wf; [|done..]); [..|done]; by eapply quiet_wf.
Qed.

Lemma register_wf i q c k w : wf w -> queries w !! i = Some q -> q_sent q = None -> conns w !! c = Some k ->
  wf (putQuery i (mkQuery (q_message q) (Some (c, (register i k).1)) (q_callback q) QWrite) (putConn c (register i k).2 w)).
Proof using Type.
  intros Hwf Hi Hs Hk. set (q' := mkQuery _ _ _ _). change (wf (putConn c (register i k).2 (putQuery i q' w))).
  pose proof (proj2 Hwf _ _ Hi) as Hq. assert (q_callback q = None) as Hn.
  { destruct (q_callback q) as [m|] eqn:E; [|done]. destruct (ok_answer _ _ Hq m E) as (c' & E' & _). by rewrite Hs in E'. }
  assert (wf (putQuery i q' w)) as Hwf'.
  { eapply putQuery_wf; [done..|by rewrite Hs|]. constructor; [|done]. cbn. by rewrite Hn. }
  eapply putConn_wf; [done..|]. destruct (proj1 Hwf' c k Hk) as [H1 H2]. constructor; [|done].
  intros id j. cbn. rewrite lookup_insert_Some. intros [[<- <-]|[_ Hj]]; [|by apply H1].
  exists q'. cbn. by rewrite list_lookup_insert_eq by (by eapply lookup_lt_Some).
Qed.

Lemma stepQuery_wf i a w w' : wf w -> stepQuery i a w = Some w' -> wf w'.
Proof using Type.
  intros Hwf. unfold stepQuery. destruct (queries w !! i) as [q|] eqn:Hi; cbn [mbind option_bind]; [|done].
  pose proof (ok_result _ _ (proj2 Hwf _ _ Hi)) as Hr.
  destruct (q_phase q) as [| |c| |g|r| |r] eqn:Ep, a; try done.
  - intros [= <-]. by apply (setPhase_wf i q QOpen (putTransport _ w)).
  - destruct (openConn e w) as [[c|er] w1] eqn:E; intros [= <-]; destruct (openConn_wf _ _ _ _ Hwf E) as [Hwf1 Hq1]; apply setPhase_wf; by rewrite ?Hq1.
  - destruct (conns w !! c) as [k|] eqn:Hk; cbn [mbind option_bind]; [|done]. intros [= <-]. by apply (register_wf i q c k).
  - destruct (q_sent q) as [[c id]|]; cbn [mbind option_bind]; [|done]. by apply writeQuery_wf.
  - destruct (q_callback q) as [m|] eqn:E; cbn [mbind option_bind]; [|done]. intros [= <-]. apply setPhase_wf; [done..|]. intros _. by exists m.
  - destruct (q_sent q) as [[c id]|]; cbn [mbind option_bind]; [|done]. destruct (conns w !! c) as [k|]; cbn [mbind option_bind]; [|done].
    destruct (c_err k); cbn [mbind option_bind]; [|done]. destruct (c_done k); [|done]. intros [= <-]. by apply setPhase_wf.
  - destruct (g <? _)%nat; [|done]. intros [= <-]. by apply setPhase_wf.
  - destruct (q_sent q) as [[c id]|]; cbn [mbind option_bind]; [|done]. destruct (conns w !! c) as [k|] eqn:Hk; cbn [mbind option_bind]; [|done].
    intros [= <-]. apply setPhase_wf; [by eapply quiet_wf|done..].
  - destruct (q_sent q) as [[c id]|]; cbn [mbind option_bind]; [|done]. destruct (conns w !! c) as [k|] eqn:Hk; cbn [mbind option_bind]; [|done].
    intros [= <-]. apply setPhase_wf; [|done|].
    + eapply putConn_wf; [done..|]. destruct (proj1 Hwf c k Hk) as [H1 H2]. constructor; [|done]. cbn. intros id' j [_ Hj]%lookup_delete_Some. by apply H1.
    + intros _. unfold finish. destruct r as [r|er]; [|done]. destruct Hr as (m & Hm & ->). destruct (Truncated _) eqn:Et; exists m; [done|]. split; [done|by right].
  - intros [= <-]. apply setPhase_wf; [done..|]. intros _. destruct r; [|done]. destruct Hr as (m & Hm & Ht). exists m. split; [done|by left].
Qed.

Lemma complete_wf c j m w : wf w -> knows w j c (m_Id m) -> heard w c m -> wf (complete j m w).
Proof using Type.
  intros Hwf (q & Hj & Hs) Hm. unfold complete. rewrite Hj. destruct (q_callback q) as [m'|] eqn:E; [done|]. eapply putQuery_wf; [done..|].
  pose proof (proj2 Hwf _ _ Hj) as [_ Hr]. constructor; cbn [q_callback q_sent q_phase].
  - intros ? [= <-]. by exists c.
  - destruct (q_phase q) as [| |?| |?|[r|]| |[r|]]; try done; destruct Hr as (m' & E' & _); by rewrite E in E'.
Qed.

Lemma stepLoop_wf c l w w' : wf w -> stepLoop c l w = Some w' -> wf w'.
Proof using Type.
  intros Hwf. unfold stepLoop. destruct (conns w !! c) as [k|] eqn:Hk; cbn [mbind option_bind]; [|done].
  destruct (proj1 Hwf c k Hk) as [H1 H2]. destruct (loop k) as [|size|m|j m|] eqn:El; try done.
  - intros [= <-]. by eapply putConn_wf.
  - intros [= <-]. destruct l as [l|e]; [|by eapply putConn_wf]. set (l' := take _ l).
    destruct (Unpack l') as [m|e] eqn:Eu; (eapply putConn_wf; [done..|cbn; set_solver|constructor; [done|]]); [|done].
    exists l'. split; [cbn; set_solver|done].
  - intros [= <-]. eapply putConn_wf; [done..|]. constructor; [done|]. cbn. destruct (callbacks k !! m_Id m) as [j|] eqn:Ej; [|done]. split; [done|by apply H1].
  - intros [= <-]. destruct H2 as [Hm Hj]. apply (complete_wf c); [by eapply putConn_wf|done|]. exists (setLoop LAlloc k). cbn.
    by rewrite list_lookup_insert_eq by (by eapply lookup_lt_Some).
Qed.

Lemma reachable_wf w : reachable w -> wf w.
Proof using Type.
  induction 1 as [|w a w' _ IH Hs]; [by split|]. destruct a; cbn in Hs.
  - injection Hs as <-. by apply addQuery_wf.
  - by eapply stepQuery_wf.
  - by eapply stepLoop_wf.
  - by injection Hs as <-.
Qed.

(** ** Ids *)

(** A query is sent on [c]; how many were. *)
Definition sentOn (c : nat) (x : option (nat * Z)) : bool := match x with Some (c', _) => (c' =? c)%nat | None => false end.
Definition sentCount (c : nat) w : Z := Z.of_nat (length (List.filter (sentOn c) (q_sent <$> queries w))).

(** The callback of the query is meant to be registered. *)
Definition pending q : Prop := match q_phase q with QWrite | QWait _ | QCleanup _ => True | _ => False end.

(** Until an id is used again, ids are those of one query, and pending queries are found by them. *)
Record okIds (c : nat) k w : Prop := {
  ids_next : queryId k = sentCount c w;
  ids_range : forall j q id, queries w !! j = Some q -> q_sent q = Some (c, id) -> 1 <= id <= sentCount c w;
  ids_pending : forall j q id, queries w !! j = Some q -> q_sent q = Some (c, id) -> pending q -> callbacks k !! id = Some j;
  ids_unique : forall j q j' q' id, queries w !! j = Some q -> q_sent q = Some (c, id) -> queries w !! j' = Some q' -> q_sent q' = Some (c, id) -> j = j'
}.

Record numbered w : Prop := {
  num_conn : forall j q c id, queries w !! j = Some q -> q_sent q = Some (c, id) -> (c < length (conns w))%nat;
  num_ids : forall c k, conns w !! c = Some k -> sentCount c w < 2 ^ 16 -> okIds c k w
}.

(** A query of [w'] has been one of [w], sent the same, and pending if it is. *)
Definition follows w w' : Prop :=
  q_sent <$> queries w' = q_sent <$> queries w /\
  forall j q', queries w' !! j = Some q' -> exists q, queries w !! j = Some q /\ q_sent q = q_sent q' /\ (pending q' -> pending q).

Lemma okIds_follows c k k' w w' : follows w w' -> queryId k' = queryId k ->
  (forall j q id, queries w' !! j = Some q -> q_sent q = Some (c, id) -> pending q -> callbacks k !! id = Some j -> callbacks k' !! id = Some j) ->
  okIds c k w -> okIds c k' w'.
Proof using Type.
  intros [Hs Hq] Hn Hcb [H1 H2 H3 H4]. assert (sentCount c w' = sentCount c w) as Hc by (unfold sentCount; by rewrite Hs). constructor.
  - by rewrite Hn, Hc.
  - intros j q' id Hj Hid. destruct (Hq j q' Hj) as (q & ? & E & _). rewrite Hc. eapply H2; [done|]. by rewrite E.
  - intros j q' id Hj Hid Hp. destruct (Hq j q' Hj) as (q & ? & E & Ep). eapply Hcb; [done..|]. eapply H3; [done| |by apply Ep]. by rewrite E.
  - intros j q j' q' id Hj Hid Hj' Hid'. destruct (Hq j q Hj) as (q1 & ? & E & _), (Hq j' q' Hj') as (q2 & ? & E' & _).
    eapply (H4 j q1 j' q2 id); [done|by rewrite E|done|by rewrite E'].
Qed.

Lemma follows_putQuery i q q' w : queries w !! i = Some q -> q_sent q' = q_sent q -> (pending q' -> pending q) -> follows w (putQuery i q' w).
Proof using Type.
  intros Hi Hs Hp. split; cbn [putQuery queries].
  - rewrite list_fmap_insert, Hs. apply list_insert_id. by rewrite list_lookup_fmap, Hi.
  - intros j q0 Hj. destruct (decide (j = i)) as [->|Hne].
    + rewrite list_lookup_insert_eq in Hj by (by eapply lookup_lt_Some). simplify_eq. by exists q.
    + rewrite list_lookup_insert_ne in Hj by done. by exists q0.
Qed.

(** A step of a query that keeps its connection's callbacks. *)
Lemma putQuery_numbered i q q' w : queries w !! i = Some q -> q_sent q' = q_sent q -> (pending q' -> pending q) -> numbered w -> numbered (putQuery i q' w).
Proof using Type.
  intros Hi Hs Hp [Hc Hn]. pose proof (follows_putQuery i q q' w Hi Hs Hp) as Hf. constructor.
  - intros j q0 c id Hj Hid. destruct (proj2 Hf j q0 Hj) as (q1 & Hq1 & E & _). eapply Hc; [done|]. by rewrite E.
  - intros c k Hk Hl. eapply okIds_follows; [done..|]. apply Hn; [done|]. unfold sentCount in *. by rewrite (proj1 Hf) in Hl.
Qed.

Lemma putConn_numbered c k k' w : conns w !! c = Some k -> queryId k' = queryId k -> callbacks k' = callbacks k -> numbered w -> numbered (putConn c k' w).
Proof using Type.
  intros Hk Hq Hcb [Hc Hn]. constructor; cbn [putConn queries conns].
  - intros. rewrite length_insert. by eapply Hc.
  - intros c0 k0 Hk0 Hl. destruct (decide (c0 = c)) as [->|Hne].
    + rewrite list_lookup_insert_eq in Hk0 by (by eapply lookup_lt_Some). simplify_eq.
      eapply okIds_follows; [|done| |by apply Hn]; [split; [done|]; intros j q Hj; by exists q|]. intros. by rewrite Hcb.
    + rewrite list_lookup_insert_ne in Hk0 by done. destruct (Hn c0 k0 Hk0 Hl). by constructor.
Qed.

Lemma addQuery_numbered m w : numbered w -> numbered (mkWorld (transport w) (conns w) (queries w ++ [mkQuery m None None QResize])).
Proof using Type.
  set (q0 := mkQuery _ _ _ _). set (w' := mkWorld _ _ _). intros [Hc Hn].
  assert (forall j q x, queries w' !! j = Some q -> q_sent q = Some x -> queries w !! j = Some q) as Hold.
  { intros j q x [Hj|[_ Hj]]%lookup_app_Some Hx; [done|]. apply list_lookup_singleton_Some in Hj as [_ <-]. done. }
  assert (forall c, sentCount c w' = sentCount c w) as Hcount.
  { intros c. unfold sentCount, w'. cbn [queries]. by rewrite fmap_app, List.filter_app, length_app, Nat.add_0_r. }
  constructor; [by eauto|]. intros c k Hk Hl. rewrite Hcount in Hl. destruct (Hn c k Hk Hl) as [H1 H2 H3 H4].
  constructor; rewrite ?Hcount; eauto.
Qed.

Lemma openConn_numbered e w r w' : openConn e w = (r, w') -> numbered w -> numbered w' /\ queries w' = queries w.
Proof using Type.
  unfold openConn. destruct (_ ≫= _) as [c|]; [by intros [= <- <-]|]. destruct e as [e|]; [by intros [= <- <-]|].
  intros [= <- <-] [Hc Hn]. split; [|done]. constructor; cbn [conns queries].
  - intros j q c id Hj Hid. rewrite length_app. pose proof (Hc j q c id Hj Hid). lia.
  - intros c k [Hk|[Hge Hk]]%lookup_app_Some Hl; [destruct (Hn c k Hk Hl); by constructor|]. apply list_lookup_singleton_Some in Hk as [Hc0 <-].
    assert (forall j q id, queries w !! j = Some q -> q_sent q = Some (c, id) -> False) as Hnone by (intros j q id Hj Hid; pose proof (Hc j q c id Hj Hid); lia).
    constructor; cbn [queries]; [|naive_solver..]. unfold sentCount. cbn. assert (List.filter (sentOn c) (q_sent <$> queries w) = []) as ->; [|done].
    clear -Hnone. induction (queries w) as [|q l IH]; [done|]. cbn. unfold sentOn at 1. destruct (q_sent q) as [[c' id]|] eqn:E.
    + destruct (Nat.eqb_spec c' c) as [->|]; [destruct (Hnone 0%nat q id); done|]. apply IH. intros j q' id'. apply (Hnone (S j)).
    + apply IH. intros j q' id'. apply (Hnone (S j)).
Qed.

Lemma count_insert c i x l : l !! i = Some None -> length (List.filter (sentOn c) (<[i := x]> l)) = ((if sentOn c x then 1 else 0) + length (List.filter (sentOn c) l))%nat.
Proof using Type.
  revert i. induction l as [|y l IH]; intros [|i] Hi; [done..| |].
  - cbn in Hi. simplify_eq. cbn. by destruct (sentOn c x).
  - change (<[S i := x]> (y :: l)) with (y :: <[i := x]> l). cbn [List.filter]. specialize (IH i Hi). destruct (sentOn c y); cbn [length]; rewrite IH; lia.
Qed.

Lemma register_numbered i q c k w p : numbered w -> queries w !! i = Some q -> q_sent q = None -> conns w !! c = Some k ->
  numbered (putQuery i (mkQuery (q_message q) (Some (c, (register i k).1)) (q_callback q) p) (putConn c (register i k).2 w)).
Proof using Type.
  intros [Hc Hn] Hi Hs Hk. set (id0 := (register i k).1). set (q' := mkQuery _ _ _ _). set (w' := putQuery _ _ _). assert (q_sent q' = Some (c, id0)) as Hq' by done.
  assert (forall j q1 x, queries w' !! j = Some q1 -> q_sent q1 = Some x -> (j = i /\ q1 = q') \/ (j <> i /\ queries w !! j = Some q1)) as Hold.
  { intros j q1 x Hj Hx. unfold w' in Hj. cbn in Hj. destruct (decide (j = i)) as [->|Hne].
    - rewrite list_lookup_insert_eq in Hj by (by eapply lookup_lt_Some). left. by simplify_eq.
    - rewrite list_lookup_insert_ne in Hj by done. by right. }
  assert (forall c0, sentCount c0 w' = (if (c =? c0)%nat then 1 else 0) + sentCount c0 w) as Hcount.
  { intros c0. unfold sentCount, w'. cbn [putQuery putConn queries]. rewrite list_fmap_insert, count_insert by (rewrite list_lookup_fmap, Hi; cbn; congruence).
    cbn. destruct (c =? c0)%nat; lia. }
  constructor.
  - intros j q1 c1 id Hj Hid. unfold w'. cbn [putQuery putConn conns]. rewrite length_insert. destruct (Hold j q1 _ Hj Hid) as [[-> ->]|[_ Hj']].
    + rewrite Hq' in Hid. injection Hid as <- <-. by eapply lookup_lt_Some.
    + by eapply Hc.
  - intros c0 k0 Hk0 Hl. unfold w' in Hk0. cbn [putQuery putConn conns] in Hk0. rewrite Hcount in Hl. destruct (decide (c0 = c)) as [->|Hne].
    + rewrite list_lookup_insert_eq in Hk0 by (by eapply lookup_lt_Some). simplify_eq. rewrite Nat.eqb_refl in Hl.
      destruct (Hn c k Hk) as [H1 H2 H3 H4]; [lia|]. assert (id0 = 1 + sentCount c w) as Hid0.
      { unfold id0. cbn. rewrite H1, Z.mod_small by (unfold sentCount in *; lia). lia. }
      constructor; rewrite ?Hcount, ?Nat.eqb_refl.
      * change (id0 = 1 + sentCount c w). done.
      * intros j q1 id Hj Hid. destruct (Hold j q1 _ Hj Hid) as [[-> ->]|[_ Hj']]; [rewrite Hq' in Hid; injection Hid as <-; unfold sentCount in *; lia|]. pose proof (H2 j q1 id Hj' Hid). lia.
      * intros j q1 id Hj Hid Hp. change (<[id0 := i]> (callbacks k) !! id = Some j). destruct (Hold j q1 _ Hj Hid) as [[-> ->]|[_ Hj']].
        -- rewrite Hq' in Hid. injection Hid as <-. apply lookup_insert_eq.
        -- pose proof (H2 j q1 id Hj' Hid). rewrite lookup_insert_ne by lia. by eapply H3.
      * intros j q1 j' q2 id Hj Hid Hj' Hid'. destruct (Hold j q1 _ Hj Hid) as [[-> ->]|[_ Hj1]], (Hold j' q2 _ Hj' Hid') as [[-> ->]|[_ Hj2]].
        -- done.
        -- rewrite Hq' in Hid. injection Hid as <-. pose proof (H2 j' q2 id0 Hj2 Hid'). lia.
        -- rewrite Hq' in Hid'. injection Hid' as <-. pose proof (H2 j q1 id0 Hj1 Hid). lia.
        -- by eapply H4.
    + rewrite list_lookup_insert_ne in Hk0 by done. rewrite (proj2 (Nat.eqb_neq c c0)) in Hl by done. destruct (Hn c0 k0 Hk0) as [H1 H2 H3 H4]; [lia|].
      assert (forall j q1 id, queries w' !! j = Some q1 -> q_sent q1 = Some (c0, id) -> queries w !! j = Some q1) as Hold'.
      { intros j q1 id Hj Hid. destruct (Hold j q1 _ Hj Hid) as [[-> ->]|[_ Hj']]; [rewrite Hq' in Hid; congruence|done]. }
      constructor; rewrite ?Hcount, ?(proj2 (Nat.eqb_neq c c0)) by done; rewrite ?Z.add_0_l; [done|by eauto..|].
      intros j q1 j' q2 id Hj Hid Hj' Hid'. eapply H4; by eauto.
Qed.

(** The deferred removal of a callback. *)
Lemma cleanup_numbered i q c k id p w : numbered w -> queries w !! i = Some q -> q_sent q = Some (c, id) -> conns w !! c = Some k ->
  ~ pending (setPhase p q) -> numbered (putQuery i (setPhase p q) (putConn c (setCallbacks (delete id (callbacks k)) k) w)).
Proof using Type.
  intros Hnum Hi Hs Hk Hp. set (k' := setCallbacks _ _). change (numbered (putConn c k' (putQuery i (setPhase p q) w))).
  assert (numbered (putQuery i (setPhase p q) w)) as [Hc Hn] by (by apply (putQuery_numbered i q)). constructor; cbn [putConn queries conns].
  - intros. rewrite length_insert. by eapply Hc.
  - intros c0 k0 Hk0 Hl. destruct (decide (c0 = c)) as [->|Hne].
    + rewrite list_lookup_insert_eq in Hk0 by (by eapply lookup_lt_Some). simplify_eq. destruct (Hn c k Hk Hl) as [H1 H2 H3 H4].
      constructor; [done..| |done]. intros j q1 id1 Hj Hid1 Hp1. cbn. rewrite lookup_delete_ne; [by eapply H3|]. intros <-.
      assert (queries (putQuery i (setPhase p q) w) !! i = Some (setPhase p q)) as Hi' by (cbn; by rewrite list_lookup_insert_eq by (by eapply lookup_lt_Some)).
      assert (j = i) as -> by (eapply H4; [exact Hj|exact Hid1|exact Hi'|exact Hs]). change (queries (putQuery i (setPhase p q) w) !! i = Some q1) in Hj. rewrite Hi' in Hj. injection Hj as <-. done.
    + rewrite list_lookup_insert_ne in Hk0 by done. destruct (Hn c0 k0 Hk0 Hl). by constructor.
Qed.

Lemma stepQuery_numbered i a w w' : wf w -> numbered w -> stepQuery i a w = Some w' -> numbered w'.
Proof using Type.
  intros Hwf Hnum. unfold stepQuery. destruct (queries w !! i) as [q|] eqn:Hi; cbn [mbind option_bind]; [|done].
  pose proof (ok_result _ _ (proj2 Hwf _ _ Hi)) as Hr.
  assert (forall p w0, numbered w0 -> queries w0 = queries w -> (pending (setPhase p q) -> pending q) -> numbered (putQuery i (setPhase p q) w0)) as Hset
    by (intros p w0 H0 Hq0 Hp; apply (putQuery_numbered i q); by rewrite ?Hq0).
  destruct (q_phase q) as [| |c| |g|r| |r] eqn:Ep, a; try done.
  - intros [= <-]. by apply Hset; [destruct Hnum as [Hc Hn]; constructor; [done|]; intros c k Hk Hl; destruct (Hn c k Hk Hl)|..].
  - destruct (openConn e w) as [[c|er] w1] eqn:E; intros [= <-]; destruct (openConn_numbered _ _ _ _ E Hnum) as [Hnum1 Hq1]; by apply Hset.
  - destruct (conns w !! c) as [k|] eqn:Hk; cbn [mbind option_bind]; [|done]. intros [= <-]. by apply (register_numbered i q c k).
  - destruct (q_sent q) as [[c id]|]; cbn [mbind option_bind]; [|done]. unfold writeQuery. destruct (conns w !! c) as [k|] eqn:Hk; cbn [mbind option_bind]; [|done].
    assert (pending q) as Hp by (unfold pending; by rewrite Ep).
    destruct (PackBuffer _) as [raw|er]; [destruct e as [er|]|]; intros [= <-]; apply Hset; try done; by eapply putConn_numbered.
  - destruct (q_callback q) as [m|] eqn:E; cbn [mbind option_bind]; [|done]. intros [= <-]. apply Hset; [done..|]. intros _. unfold pending. by rewrite Ep.
  - destruct (q_sent q) as [[c id]|]; cbn [mbind option_bind]; [|done]. destruct (conns w !! c) as [k|]; cbn [mbind option_bind]; [|done].
    destruct (c_err k); cbn [mbind option_bind]; [|done]. destruct (c_done k); [|done]. intros [= <-]. apply Hset; [done..|]. intros _. unfold pending. by rewrite Ep.
  - destruct (g <? _)%nat; [|done]. intros [= <-]. apply Hset; [done..|]. intros _. unfold pending. by rewrite Ep.
  - destruct (q_sent q) as [[c id]|]; cbn [mbind option_bind]; [|done]. destruct (conns w !! c) as [k|] eqn:Hk; cbn [mbind option_bind]; [|done].
    intros [= <-]. apply Hset; [by eapply putConn_numbered|done|]. intros _. unfold pending. by rewrite Ep.
  - destruct (q_sent q) as [[c id]|] eqn:Es; cbn [mbind option_bind]; [|done]. destruct (conns w !! c) as [k|] eqn:Hk; cbn [mbind option_bind]; [|done].
    intros [= <-]. eapply cleanup_numbered; [done..|]. unfold finish, pending. destruct r as [r|]; cbn; [|tauto]. destruct (Truncated r); cbn; tauto.
  - intros [= <-]. by apply Hset.
Qed.

Lemma stepLoop_numbered c l w w' : numbered w -> stepLoop c l w = Some w' -> numbered w'.
Proof using Type.
  intros Hnum. unfold stepLoop. destruct (conns w !! c) as [k|] eqn:Hk; cbn [mbind option_bind]; [|done].
  destruct (loop k) as [|size|m|j m|] eqn:El; try done; intros [= <-].
  - by eapply putConn_numbered.
  - destruct l as [l|e]; [destruct (Unpack _)|]; by eapply putConn_numbered.
  - by eapply putConn_numbered.
  - assert (numbered (putConn c (setLoop LAlloc k) w)) as Hnum' by (by eapply putConn_numbered). unfold complete.
    destruct (queries (putConn _ _ _) !! j) as [q|] eqn:Hj; [|done]. destruct (q_callback q); [done|]. by eapply putQuery_numbered.
Qed.

Lemma reachable_numbered w : reachable w -> numbered w.
Proof using Type.
  induction 1 as [|w a w' Hr IH Hs]; [by constructor; intros|]. destruct a; cbn in Hs.
  - injection Hs as <-. by apply addQuery_numbered.
  - eapply stepQuery_numbered; [by apply reachable_wf|done..].
  - by eapply stepLoop_numbered.
  - injection Hs as <-. destruct IH as [Hc Hn]. constructor; [done|]. intros c k Hk Hl. by destruct (Hn c k Hk Hl).
Qed.

(** C25. However the goroutines of an UDP transport interleave, and whatever the network does: a query
    that returns a response, and was not sent on to TCP, returns a message received on the
    connection the query went out on, under the id it went out with, with its own id put back.
    As long as fewer than 65536 queries were sent on that connection, no other query ever had
    this id there, and a query that still waits is the one its id is looked up to. *)
Theorem dns_answers_reach_their_query w j q : reachable w -> queries w !! j = Some q ->
  (forall r, q_phase q = QReturned (Ok r) ->
    exists m c k, q_sent q = Some (c, m_Id m) /\ conns w !! c = Some k /\ (exists l, l ∈ received k /\ Unpack l = Ok m) /\
      (Truncated (setId (m_Id (q_message q)) m) = false -> r = setId (m_Id (q_message q)) m)) /\
  (forall c k id, q_sent q = Some (c, id) -> conns w !! c = Some k -> sentCount c w < 2 ^ 16 ->
    (forall j' q', queries w !! j' = Some q' -> q_sent q' = Some (c, id) -> j' = j) /\
    (forall g, q_phase q = QWait g -> callbacks k !! id = Some j)).
Proof using Type.
  intros Hw Hj. pose proof (proj2 (reachable_wf w Hw) j q Hj) as [Ha Hr]. split.
  - intros r Hp. rewrite Hp in Hr. destruct Hr as (m & Hm & Hor). destruct (Ha m Hm) as (c & Hs & k & Hk & Hh).
    exists m, c, k. split_and!; [done..|]. intros Ht. unfold answered in Hor. destruct Hor; [congruence|done].
  - intros c k id Hs Hk Hl. destruct (num_ids w (reachable_numbered w Hw) c k Hk Hl) as [_ _ H3 H4]. split.
    + intros j' q' Hj' Hs'. by eapply H4.
    + intros g Hg. eapply H3; [done..|]. unfold pending. by rewrite Hg.
Qed.

(** Closing the transport closes no connection: its socket stays open and its loop goes on. *)
Lemma close_keeps_connections w : conns (UDP_Close w) = conns w.
Proof using Type. done. Qed.
End Safety.

Lemma perform_reachable `{UDPLibs} l w w' : reachable w -> perform l w = Some w' -> reachable w'.
Proof.
  revert w. induction l as [|a l IH]; intros w Hw; cbn; [by intros [= <-]|]. destruct (step a w) as [w1|] eqn:E; cbn; [|done]. apply IH. by eapply reachable_step.
Qed.

(** ** Examples *)

Module UDPSample.
(** Messages of which only the id counts, in one byte. *)
Definition message (id : Z) : Msg := mkMsg id true false false false 0 0 [] [] [] [].
Definition large (id : Z) : Msg := setExtra [mkRR "." TypeOPT 4096 0 (RD_OPT [])] (message id).
#[local] Instance libs : UDPLibs := {|
  PackBuffer m := Ok [m_Id m];
  Unpack l := match l with [id] => Ok (message id) | _ => Err (New "dns: buffer size too small") end;
  Truncated _ := false;
  ednsSize m := rr_Class <$> List.find isOPT (m_Extra m) |}.

(** A query up to its wait, and a datagram through the loop. *)
Definition ask (i : nat) : list action := [Step i Go; Step i (Dialled None); Step i Go; Step i (Wrote None)].
Definition arrives (c : nat) (l : list Z) : list action := [Receive c (Ok l); Receive c (Ok l); Receive c (Ok l); Receive c (Ok l)].
Definition returns (i : nat) (a : answer) : list action := [Step i a; Step i Go].

(** Two queries with the same id are answered in the other order. *)
Definition crossed : list action :=
  [Exchange (message 7); Exchange (message 7)] ++ ask 0 ++ ask 1 ++ arrives 0 [2] ++ arrives 0 [1] ++ returns 0 CallbackDone ++ returns 1 CallbackDone.
Definition final (l : list action) : World := default NewUDPRaw (perform l NewUDPRaw).

Lemma dns_answers_reach_their_query_witness :
  (queries (final crossed) !! 1%nat) = Some (mkQuery (message 7) (Some (0%nat, 2)) (Some (message 2)) (QReturned (Ok (message 7)))) /\
  exists m c k, Some (0%nat, 2) = Some (c, m_Id m) /\ conns (final crossed) !! c = Some k /\ (exists l, l ∈ received k /\ Unpack l = Ok m) /\
    (Truncated (setId 7 m) = false -> message 7 = setId 7 m).
Proof.
  assert (reachable (final crossed)) as Hr by (apply (perform_reachable crossed NewUDPRaw); [constructor|vm_compute; reflexivity]).
  assert (queries (final crossed) !! 1%nat = Some (mkQuery (message 7) (Some (0%nat, 2)) (Some (message 2)) (QReturned (Ok (message 7))))) as E by (vm_compute; reflexivity).
  split; [exact E|]. exact (proj1 (dns_answers_reach_their_query _ _ _ Hr E) (message 7) eq_refl).
Defined.

(** A query that asks for larger responses wakes another that waits, which fails as if the
    transport were closed. *)
Example larger_query_fails_another :
  (q_phase <$> queries (final ([Exchange (message 7)] ++ ask 0 ++ [Exchange (large 8)] ++ ask 1 ++ returns 0 TransportDone)) !! 0%nat) =
    Some (QReturned (Err ErrClosed)).
Proof. vm_compute. reflexivity. Qed.

(** After the transport is closed the socket is open and its loop takes the next datagram. *)
Example open_after_close :
  let w := final ([Exchange (message 7)] ++ ask 0 ++ [CloseTransport] ++ returns 0 TransportDone ++ [Receive 0 (Ok [1])]) in
  (q_phase <$> queries w !! 0%nat) = Some (QReturned (Err ErrClosed)) /\
  ((fun k => (socketClosed k, loop k)) <$> conns w !! 0%nat) = Some (false, LRead 2048).
Proof. vm_compute. done. Qed.

(** Ids wrap, and one that is still in use is given again: the callback of the earlier query is
    replaced. *)
Example id_used_again : let k := mkConnection false None 65535 {[ 0 := 3%nat ]} false [] [] LAlloc in
  callbacks (register 9 k).2 !! 0 = Some 9%nat.
Proof. reflexivity. Qed.
End UDPSample.
