(* ===== verification/Hosts.v ===== *)
(** * The hosts DNS server (src/fork/sing-box/dns/transport/hosts/hosts.go, hosts_file.go)

    Names are looked up in predefined entries and then in hosts files, which are read again when
    they have changed.  Times are in nanoseconds.  What the file system answers at a lookup is an
    argument; the canonical form of names (miekg/dns) and the parsing of addresses (net/netip) are
    parameters.  A carriage return at the end of a line is a space like any other, so that lines
    end at a line feed. *)

From S2P Require Import Prelude GoStrings Rules DNSClient.

#[local] Open Scope Z_scope.

Class HostsLibs := {
  CanonicalName : string -> string;
  ParseHostAddr : string -> option Addr
}.

Definition cacheMaxAge : Z := 5 * 10 ^ 9.
(** The zero [time.Time]. *)
Definition zeroTime : Z := -62135596800 * 10 ^ 9.

(** ** Lines and fields *)

Definition flushField (field : list ascii) : list string := if nonempty field then [ofBytes field] else [].

(** [strings.Fields]; [field] is what of the present field was read. *)
Fixpoint fieldsFrom (field l : list ascii) : list string :=
  match l with
  | [] => flushField field
  | a :: t =>
      if space1 a then flushField field ++ fieldsFrom [] t else
      match t with
      | [] => fieldsFrom (field ++ [a]) t
      | b :: t1 =>
          if space2 a b then flushField field ++ fieldsFrom [] t1 else
          match t1 with
          | [] => fieldsFrom (field ++ [a]) t
          | c :: t2 => if space3 a b c then flushField field ++ fieldsFrom [] t2 else fieldsFrom (field ++ [a]) t
          end
      end
  end.
Definition Fields (l : list ascii) : list string := fieldsFrom [] l.

(** The lines of a file, and a line up to its comment. *)
Fixpoint linesFrom (line l : list ascii) : list (list ascii) :=
  match l with
  | [] => [line]
  | a :: t => if Ascii.eqb a (ascii_of_nat 10) then line :: linesFrom [] t else linesFrom (line ++ [a]) t
  end.
Fixpoint beforeComment (l : list ascii) : list ascii :=
  match l with [] => [] | a :: t => if Ascii.eqb a "#" then [] else a :: beforeComment t end.

(** ** Files *)

Record File := mkFile { byName : gmap string (list Addr); expire : Z; modTime : Z; size : Z }.
Implicit Types (f : File).

Definition NewFile : File := mkFile ∅ zeroTime zeroTime 0.

(** What the file system answers: [stat], and the bytes of the file, [None] if it cannot be opened
    or read. *)
Record FS := mkFS { fs_stat : option (Z * Z); fs_content : option (list ascii) }.

Section Hosts.
Context `{HostsLibs} `{!DNSLibs}.

Definition addName (addr : Addr) (m : gmap string (list Addr)) (name : string) : gmap string (list Addr) :=
  let name := CanonicalName name in <[name := default [] (m !! name) ++ [addr]]> m.

Definition addLine (m : gmap string (list Addr)) (line : list ascii) : gmap string (list Addr) :=
  match Fields (beforeComment line) with
  | text :: ((_ :: _) as names) => match ParseHostAddr text with Some addr => foldl (addName addr) m names | None => m end
  | _ => m
  end.

Definition parseHosts (content : list ascii) : gmap string (list Addr) := foldl addLine ∅ (linesFrom [] content).

Definition update (now : Z) (fs : FS) f : File :=
  if (now <? expire f) && bool_decide (byName f <> ∅) then f else
  match fs_stat fs with
  | None => f
  | Some (t, n) =>
      if (modTime f =? t) && (size f =? n) then mkFile (byName f) (now + cacheMaxAge) (modTime f) (size f) else
      match fs_content fs with
      | None => f
      | Some content => mkFile (parseHosts content) (now + cacheMaxAge) t n
      end
  end.

Definition Lookup (now : Z) (fs : FS) (name : string) f : list Addr * File :=
  let f := update now fs f in (default [] (byName f !! CanonicalName name), f).

(** ** The server *)

Record Transport := mkTransport { files : list File; predefined : gmap string (list Addr) }.

(** A file per path, or the default one; a later entry of a name replaces an earlier one. *)
Definition NewTransport (paths : list string) (entries : list (string * list Addr)) : Transport :=
  mkTransport (match paths with [] => [NewFile] | _ => (fun _ => NewFile) <$> paths end)
    (foldl (fun m e => <[CanonicalName e.1 := e.2]> m) ∅ entries).

Definition DefaultDNSTTL : Z := 600.

(** The loop over the files, each with what the file system answers for it. *)
Fixpoint lookupFiles (now : Z) (domain : string) (fss : list FS) (l : list File) : list Addr * list File :=
  match l, fss with
  | f :: l, fs :: fss =>
      let (addresses, f) := Lookup now fs domain f in
      if nonempty addresses then (addresses, f :: l) else
      let (addresses, l) := lookupFiles now domain fss l in (addresses, f :: l)
  | _, _ => ([], l)
  end.

Definition nameError (message : Msg) (q : Question) : Msg := mkMsg (m_Id message) true false false false 0 RcodeNameError [q] [] [] [].

Definition Exchange (now : Z) (fss : list FS) (message : Msg) (t : Transport) : option (Msg * Transport) :=
  q ← head (m_Question message);
  let domain := CanonicalName (q_Name q) in
  Some (if (q_Qtype q =? TypeA) || (q_Qtype q =? TypeAAAA) then
    match predefined t !! domain with
    | Some addresses => (FixedResponse (m_Id message) q addresses DefaultDNSTTL, t)
    | None =>
        let (addresses, l) := lookupFiles now domain fss (files t) in
        ((if nonempty addresses then FixedResponse (m_Id message) q addresses DefaultDNSTTL else nameError message q), mkTransport l (predefined t))
    end
  else (nameError message q, t)).

(** ** What a file says *)

(** The pairs of a file, line by line. *)
Definition lineEntries (line : list ascii) : list (string * Addr) :=
  match Fields (beforeComment line) with
  | text :: names => match ParseHostAddr text with Some addr => (fun name => (CanonicalName name, addr)) <$> names | None => [] end
  | [] => []
  end.
Definition entriesOf (content : list ascii) : list (string * Addr) := concat (lineEntries <$> linesFrom [] content).
Definition addressesOf (name : string) (l : list (string * Addr)) : list Addr := snd <$> List.filter (fun e => bool_decide (e.1 = name)) l.

Lemma addNames_entries addr names m name :
  default [] (foldl (addName addr) m names !! name) = default [] (m !! name) ++ addressesOf name ((fun n => (CanonicalName n, addr)) <$> names).
Proof using Type.
  revert m. induction names as [|n names IH]; intros m; cbn [foldl fmap list_fmap]; [by rewrite app_nil_r|]. rewrite IH. unfold addName, addressesOf. cbn [List.filter fst].
  case_bool_decide as E; [subst; rewrite lookup_insert_eq; cbn; by rewrite <-(assoc_L (++))|by rewrite lookup_insert_ne].
Qed.

Lemma addLine_entries m line name : default [] (addLine m line !! name) = default [] (m !! name) ++ addressesOf name (lineEntries line).
Proof using Type.
  unfold addLine, lineEntries. destruct (Fields (beforeComment line)) as [|text [|n names]]; [by rewrite app_nil_r|destruct (ParseHostAddr text); by rewrite app_nil_r|].
  destruct (ParseHostAddr text) as [addr|]; [|by rewrite app_nil_r]. apply addNames_entries.
Qed.

(** A name has the addresses of the lines that list it, in order. *)
Lemma parseHosts_entries content name : default [] (parseHosts content !! name) = addressesOf name (entriesOf content).
Proof using Type.
  unfold parseHosts, entriesOf. assert (forall l m, default [] (foldl addLine m l !! name) = default [] (m !! name) ++ addressesOf name (concat (lineEntries <$> l))) as Hall.
  { induction l as [|line l IH]; intros m; cbn [foldl fmap list_fmap concat]; [by rewrite app_nil_r|]. rewrite IH, addLine_entries.
    unfold addressesOf. rewrite List.filter_app, fmap_app. by rewrite (assoc_L (++)). }
  rewrite Hall, lookup_empty. done.
Qed.

(** ** A lookup is recent *)

(** A lookup: when, the stamp of the file (its time and size) and the name. *)
Record event := mkEvent { ev_now : Z; ev_stamp : Z * Z; ev_name : string }.

Section Recent.
(** The file can be read, and its stamp tells its content. *)
Variable version : Z * Z -> list ascii.

Definition fsOf (e : event) : FS := mkFS (Some (ev_stamp e)) (Some (version (ev_stamp e))).
Definition performLookup (e : event) f : list Addr * File := Lookup (ev_now e) (fsOf e) (ev_name e) f.
Fixpoint performAll (es : list event) f : File := match es with [] => f | e :: es => performAll es (performLookup e f).2 end.

(** The file is new, or holds what was there at an earlier lookup. *)
Definition recent (es : list event) f : Prop :=
  f = NewFile \/ exists e, e ∈ es /\ byName f = parseHosts (version (ev_stamp e)) /\ (modTime f, size f) = ev_stamp e /\ expire f = ev_now e + cacheMaxAge.

Lemma performLookup_recent es e f : recent es f -> ev_stamp e <> (zeroTime, 0) -> zeroTime <= ev_now e ->
  recent (es ++ [e]) (performLookup e f).2 /\
  exists e', e' ∈ es ++ [e] /\ (e' = e \/ ev_now e < ev_now e' + cacheMaxAge) /\ (performLookup e f).1 = addressesOf (CanonicalName (ev_name e)) (entriesOf (version (ev_stamp e'))).
Proof using Type.
  intros Hr He Hn. unfold performLookup, Lookup. cbn [fst snd].
  enough (recent (es ++ [e]) (update (ev_now e) (fsOf e) f) /\ exists e', e' ∈ es ++ [e] /\ (e' = e \/ ev_now e < ev_now e' + cacheMaxAge) /\
    byName (update (ev_now e) (fsOf e) f) = parseHosts (version (ev_stamp e'))) as (H1 & e' & H2 & H3 & H4)
    by (split; [done|]; exists e'; split_and!; [done..|]; by rewrite H4, parseHosts_entries).
  assert (e ∈ es ++ [e]) as Hin by set_solver. unfold update. destruct ((ev_now e <? expire f) && _) eqn:Ec.
  - apply andb_true_iff in Ec as [E1%Z.ltb_lt E2%bool_decide_eq_true]. destruct Hr as [->|(e' & He' & Hb & Hst & Hx)]; [done|]. split.
    + right. exists e'. split; [set_solver|done].
    + exists e'. split; [set_solver|]. split; [right; lia|done].
  - cbn [fsOf fs_stat fs_content]. destruct (ev_stamp e) as [t n] eqn:Es. destruct ((modTime f =? t) && (size f =? n)) eqn:Em.
    + apply andb_true_iff in Em as [<-%Z.eqb_eq <-%Z.eqb_eq]. destruct Hr as [->|(e' & He' & Hb & Hst & Hx)]; [by destruct He|].
      assert (byName f = parseHosts (version (ev_stamp e))) as Hbe by (rewrite Es, Hst; exact Hb).
      split; [right|]; exists e; cbn [byName modTime size expire]; [split_and!; [done|exact Hbe|by rewrite Es|done]|]. split_and!; [done|by left|]. exact Hbe.
    + split; [right|]; exists e; cbn [byName modTime size expire]; rewrite Es; [done|]. split_and!; [done|by left|done].
Qed.

(** Every lookup of a hosts file returns the addresses its lines list for the name, in order, as
    the file was at this lookup or at one less than five seconds before. *)
Theorem lookups_are_recent es e : Forall (fun e => ev_stamp e <> (zeroTime, 0) /\ zeroTime <= ev_now e) (es ++ [e]) ->
  exists e', e' ∈ es ++ [e] /\ (e' = e \/ ev_now e < ev_now e' + cacheMaxAge) /\
    (performLookup e (performAll es NewFile)).1 = addressesOf (CanonicalName (ev_name e)) (entriesOf (version (ev_stamp e'))).
Proof using Type.
  intros [Hes [[H1 H2] _]%Forall_cons]%Forall_app. apply performLookup_recent; [|done|done]. clear H1 H2.
  assert (forall es0 f, recent es0 f -> recent (es0 ++ es) (performAll es f)) as Hall; [|by apply (Hall []); left].
  induction Hes as [|x es [Hx1 Hx2] _ IH]; intros es0 f Hf; cbn [performAll]; [by rewrite app_nil_r|].
  change (x :: es) with ([x] ++ es). rewrite (assoc_L (++)). apply IH. by apply performLookup_recent.
Qed.
End Recent.
End Hosts.

(** ** Examples *)

Module HostsSample.
Definition one : Addr := mkAddr 32 1.
Definition two : Addr := mkAddr 32 2.
#[local] Instance libs : HostsLibs := {|
  CanonicalName s := s;
  ParseHostAddr s := if bool_decide (s = "1") then Some one else if bool_decide (s = "2") then Some two else None |}.
Definition newline : string := String (ascii_of_nat 10) "".
Definition old : list ascii := bytes ("1 a b # 2 a" +:+ newline +:+ "x a" +:+ newline +:+ "2  a").
Definition version (s : Z * Z) : list ascii := if s.1 =? 1 then old else bytes "2 a".
Definition first : event := mkEvent 0 (1, 9) "a".
(** The file has changed, but two seconds after the first lookup it is not read again. *)
Definition second : event := mkEvent (2 * 10 ^ 9) (2, 3) "a".

Lemma lookups_are_recent_witness : exists e', e' ∈ [first] ++ [second] /\ (e' = second \/ ev_now second < ev_now e' + cacheMaxAge) /\
  (performLookup version second (performAll version [first] NewFile)).1 = addressesOf (CanonicalName (ev_name second)) (entriesOf (version (ev_stamp e'))).
Proof. apply (lookups_are_recent version [first] second). repeat constructor; vm_compute; congruence. Defined.

Example served_from_cache : (performLookup version second (performAll version [first] NewFile)).1 = [one; two].
Proof. vm_compute. reflexivity. Qed.

(** The response to a question for the other family is empty and not a name error. *)
Example other_family_is_empty :
  option_map (fun r => (m_Rcode r.1, m_Answer r.1))
    (Exchange (H0 := DNSSample.sampleDNS) 0 [mkFS (Some (1, 9)) (Some old)] (mkMsg 7 false false true false 0 0 [mkQuestion "a" TypeAAAA 1] [] [] []) (NewTransport [] [])) = Some (0, []).
Proof. vm_compute. reflexivity. Qed.
End HostsSample.
