(* ===== verification/DNSRules.v ===== *)
(** * DNS rules (src/fork/sing-box/route/rule/rule_dns.go and the DNS actions of rule_action.go)

    A DNS rule is a rule on the query and, by its conditions on destination addresses, on the
    response: [Match] leaves those conditions out and [MatchAddressLimit], asked about a response,
    includes them.  The actions are those of a DNS query.  In the options an absent list and an
    empty one are the same. *)

From S2P Require Import Prelude GoStrings Rules RuleBuild Headless DNSClient.

#[local] Open Scope Z_scope.

(** ** Actions *)

Record DNSRouteOptions := mkDNSRouteOptions {
  dr_Strategy : DomainStrategy;
  dr_DisableCache : bool;
  dr_RewriteTTL : option Z;
  dr_ClientSubnet : Prefix
}.

Inductive dnsAction :=
| DNSNone
| DNSRoute (server : string) (opts : DNSRouteOptions)
| DNSRouteOpts (opts : DNSRouteOptions)
| DNSReject (method : string) (noDrop : bool)
| DNSPredefined (rcode : Z) (answer ns extra : list RR).

(** [option.DNSRuleAction]. *)
Record RawDNSRouteOptions := mkRawDNSRouteOptions {
  rd_Strategy : DomainStrategy;
  rd_DisableCache : bool;
  rd_RewriteTTL : option Z;
  rd_ClientSubnet : option Prefix
}.
Record DNSActionOptions := mkDNSActionOptions {
  ad_Action : string;
  ad_Server : string;
  ad_Route : RawDNSRouteOptions;
  ad_RouteOptions : RawDNSRouteOptions;
  ad_RejectMethod : string;
  ad_RejectNoDrop : bool;
  ad_Rcode : Z;
  ad_Answer : list RR;
  ad_Ns : list RR;
  ad_Extra : list RR
}.

(** The zero prefix, which is not valid. *)
Definition noPrefix : Prefix := mkPrefix (mkAddr 0 0) (-1).

Definition dnsRouteOptions (o : RawDNSRouteOptions) : DNSRouteOptions :=
  mkDNSRouteOptions (rd_Strategy o) (rd_DisableCache o) (rd_RewriteTTL o) (default noPrefix (rd_ClientSubnet o)).

Definition NewDNSRuleAction (a : DNSActionOptions) : res error dnsAction :=
  let act x := bool_decide (ad_Action a = x) in
  if act "" then Ok DNSNone
  else if act "route" then Ok (DNSRoute (ad_Server a) (dnsRouteOptions (ad_Route a)))
  else if act "route-options" then Ok (DNSRouteOpts (dnsRouteOptions (ad_RouteOptions a)))
  else if act "reject" then Ok (DNSReject (ad_RejectMethod a) (ad_RejectNoDrop a))
  else if act "predefined" then Ok (DNSPredefined (ad_Rcode a) (ad_Answer a) (ad_Ns a) (ad_Extra a))
  else Err (New ("panic: unknown rule action: " +:+ ad_Action a)).

(** [rewriteRecords]: a record for a wildcard is given the name asked for. *)
Definition HasSuffix (s suf : string) : bool :=
  (String.length suf <=? String.length s)%nat &&
  bool_decide (String.substring (String.length s - String.length suf) (String.length suf) s = suf).
Definition rewriteRecord (q : Question) (r : RR) : RR :=
  match rr_Name r with
  | String a rest =>
      if bool_decide (a = "*"%char) && HasSuffix (q_Name q) rest
      then mkRR (q_Name q) (rr_Rrtype r) (rr_Class r) (rr_Ttl r) (rr_Data r) else r
  | EmptyString => r
  end.
(** [RuleActionPredefined.Response]; the callers have one question. *)
Definition predefinedResponse (rcode : Z) (answer ns extra : list RR) (request : Msg) : option Msg :=
  q ← head (m_Question request);
  Some (mkMsg (m_Id request) true true true true 0 rcode (m_Question request)
    (rewriteRecord q <$> answer) (rewriteRecord q <$> ns) (rewriteRecord q <$> extra)).

(** ** Conditions *)

(** [option.RawDefaultDNSRule]. *)
Record RawDefaultDNSRule := mkRawDNSRule {
  d_Inbound : list string;
  d_IPVersion : Z;
  d_QueryType : list Z;
  d_Network : list string;
  d_AuthUser : list string;
  d_Protocol : list string;
  d_Domain : list string;
  d_DomainSuffix : list string;
  d_DomainKeyword : list string;
  d_DomainRegex : list string;
  d_Geosite : list string;
  d_SourceGeoIP : list string;
  d_GeoIP : list string;
  d_IPCIDR : list string;
  d_IPIsPrivate : bool;
  d_IPAcceptAny : bool;
  d_SourceIPCIDR : list string;
  d_SourceIPIsPrivate : bool;
  d_SourcePort : list Z;
  d_SourcePortRange : list string;
  d_Port : list Z;
  d_PortRange : list string;
  d_ProcessName : list string;
  d_ProcessPath : list string;
  d_ProcessPathRegex : list string;
  d_PackageName : list string;
  d_User : list string;
  d_UserID : list Z;
  d_Outbound : list string;
  d_ClashMode : string;
  d_NetworkType : list Z;
  d_NetworkIsExpensive : bool;
  d_NetworkIsConstrained : bool;
  d_WIFISSID : list string;
  d_WIFIBSSID : list string;
  d_InterfaceAddress : gmap string (list Prefix);
  d_NetworkInterfaceAddress : gmap Z (list Prefix);
  d_DefaultInterfaceAddress : list Prefix;
  d_RuleSet : list string;
  d_RuleSetIPCIDRMatchSource : bool;
  d_RuleSetIPCIDRAcceptEmpty : bool;
  d_Invert : bool;
  d_Deprecated_RulesetIPCIDRMatchSource : bool
}.

(** [option.DNSRule] after decoding, which leaves the two types only. *)
Inductive DNSRuleSpec :=
| DNSSpecDefault (o : RawDefaultDNSRule) (a : DNSActionOptions)
| DNSSpecLogical (mode : string) (rules : list DNSRuleSpec) (invert : bool) (a : DNSActionOptions).

Definition dnsSpecAction (s : DNSRuleSpec) : DNSActionOptions := match s with DNSSpecDefault _ a | DNSSpecLogical _ _ _ a => a end.

#[export] Instance EDNSOption_eq_dec : EqDecision EDNSOption.
Proof. solve_decision. Defined.
#[export] Instance RData_eq_dec : EqDecision RData.
Proof. solve_decision. Defined.
#[export] Instance RR_eq_dec : EqDecision RR.
Proof. solve_decision. Defined.
#[export] Instance RawDNSRouteOptions_eq_dec : EqDecision RawDNSRouteOptions.
Proof. solve_decision. Defined.
#[export] Instance DNSActionOptions_eq_dec : EqDecision DNSActionOptions.
Proof. solve_decision. Defined.
#[export] Instance RawDefaultDNSRule_eq_dec : EqDecision RawDefaultDNSRule.
Proof. solve_decision. Defined.

Definition zeroDNSRoute : RawDNSRouteOptions := mkRawDNSRouteOptions AsIS false None None.
Definition zeroDNSAction : DNSActionOptions := mkDNSActionOptions "" "" zeroDNSRoute zeroDNSRoute "" false 0 [] [] [].
Definition zeroDNSRule (invert : bool) : RawDefaultDNSRule :=
  mkRawDNSRule [] 0 [] [] [] [] [] [] [] [] [] [] [] [] false false [] false [] [] [] [] [] [] [] [] [] [] [] "" [] false false
    [] [] ∅ ∅ [] [] false false invert false.

(** [IsValid]: a default rule that differs from the empty one, its action included; a logical rule
    with sub-rules, all valid. *)
Fixpoint DNS_IsValid (s : DNSRuleSpec) : bool :=
  match s with
  | DNSSpecDefault o a => negb (bool_decide (o = zeroDNSRule (d_Invert o) /\ a = zeroDNSAction))
  | DNSSpecLogical _ rules _ _ => nonempty rules && forallb DNS_IsValid rules
  end.

Definition missingServer (checkServer : bool) (a : DNSActionOptions) : bool :=
  (bool_decide (ad_Action a = "") || bool_decide (ad_Action a = "route")) && bool_decide (ad_Server a = "") && checkServer.

Section Build.
Context `{RuleLibs} `{Registry}.

(** The branches of [NewDefaultDNSRule], in order. *)
Definition dnsBranches (o : RawDefaultDNSRule) : list branch :=
  [ leaf (nonempty (d_Inbound o)) GItems (InboundItem (d_Inbound o));
    leafE (0 <? d_IPVersion o) GItems
      (if (d_IPVersion o =? 4) || (d_IPVersion o =? 6) then Ok (IPVersionItem (d_IPVersion o =? 6))
       else Err (New ("invalid ip version: " +:+ Itoa (d_IPVersion o))));
    leaf (nonempty (d_QueryType o)) GItems (QueryTypeItem (d_QueryType o));
    leaf (nonempty (d_Network o)) GItems (NetworkItem (d_Network o));
    leaf (nonempty (d_AuthUser o)) GItems (AuthUserItem (d_AuthUser o));
    leaf (nonempty (d_Protocol o)) GItems (ProtocolItem (d_Protocol o));
    leafE (nonempty (d_Domain o) || nonempty (d_DomainSuffix o)) GDestinationAddress
      (NewDomainItem (d_Domain o) (d_DomainSuffix o));
    leaf (nonempty (d_DomainKeyword o)) GDestinationAddress (DomainKeywordItem (d_DomainKeyword o));
    leafE (nonempty (d_DomainRegex o)) GDestinationAddress (Cause "domain_regex" (NewDomainRegexItem (d_DomainRegex o)));
    refuse (nonempty (d_Geosite o)) "geosite database is deprecated in sing-box 1.8.0 and removed in sing-box 1.12.0";
    refuse (nonempty (d_SourceGeoIP o)) geoRemoved;
    refuse (nonempty (d_GeoIP o)) geoRemoved;
    leafE (nonempty (d_SourceIPCIDR o)) GSourceAddress (Cause "source_ip_cidr" (NewIPCIDRItem true (d_SourceIPCIDR o)));
    leafE (nonempty (d_IPCIDR o)) GDestinationIPCIDR (Cause "ip_cidr" (NewIPCIDRItem false (d_IPCIDR o)));
    leaf (d_SourceIPIsPrivate o) GSourceAddress (IPIsPrivateItem true);
    leaf (d_IPIsPrivate o) GDestinationIPCIDR (IPIsPrivateItem false);
    leaf (d_IPAcceptAny o) GDestinationIPCIDR IPAcceptAnyItem;
    leaf (nonempty (d_SourcePort o)) GSourcePort (PortItem true (d_SourcePort o));
    leafE (nonempty (d_SourcePortRange o)) GSourcePort (Cause "source_port_range" (NewPortRangeItem true (d_SourcePortRange o)));
    leaf (nonempty (d_Port o)) GDestinationPort (PortItem false (d_Port o));
    leafE (nonempty (d_PortRange o)) GDestinationPort (Cause "port_range" (NewPortRangeItem false (d_PortRange o)));
    leaf (nonempty (d_ProcessName o)) GItems (ProcessItem (d_ProcessName o));
    leaf (nonempty (d_ProcessPath o)) GItems (ProcessPathItem (d_ProcessPath o));
    leafE (nonempty (d_ProcessPathRegex o)) GItems (Cause "process_path_regex" (NewProcessPathRegexItem (d_ProcessPathRegex o)));
    leaf (nonempty (d_PackageName o)) GItems (PackageNameItem (d_PackageName o));
    leaf (nonempty (d_User o)) GItems (UserItem (d_User o));
    leaf (nonempty (d_UserID o)) GItems (UserIdItem (d_UserID o));
    leaf (nonempty (d_Outbound o)) GItems (OutboundItem (d_Outbound o));
    leaf (negb (bool_decide (d_ClashMode o = ""))) GItems (ClashModeItem (d_ClashMode o));
    leaf (nonempty (d_NetworkType o)) GItems (NetworkTypeItem (d_NetworkType o));
    leaf (d_NetworkIsExpensive o) GItems NetworkIsExpensiveItem;
    leaf (d_NetworkIsConstrained o) GItems NetworkIsConstrainedItem;
    leaf (nonempty (d_WIFISSID o)) GItems (WIFISSIDItem (d_WIFISSID o));
    leaf (nonempty (d_WIFIBSSID o)) GItems (WIFIBSSIDItem (d_WIFIBSSID o));
    leaf (negb (bool_decide (d_InterfaceAddress o = ∅))) GItems (InterfaceAddressItem (d_InterfaceAddress o));
    leaf (negb (bool_decide (d_NetworkInterfaceAddress o = ∅))) GItems (NetworkInterfaceAddressItem (d_NetworkInterfaceAddress o));
    leaf (nonempty (d_DefaultInterfaceAddress o)) GItems (DefaultInterfaceAddressItem (d_DefaultInterfaceAddress o));
    mkBranch (nonempty (d_RuleSet o)) GItems
      (Ok (RuleSetItem (ruleSetRules <$> d_RuleSet o) (d_RuleSetIPCIDRMatchSource o || d_Deprecated_RulesetIPCIDRMatchSource o)
             (d_RuleSetIPCIDRAcceptEmpty o))) ].

Definition NewDefaultDNSRule (o : RawDefaultDNSRule) (a : DNSActionOptions) : res error (rule * dnsAction) :=
  action ← NewDNSRuleAction a;
  b ← foldl addBranch (Ok emptyBuilder) (dnsBranches o);
  Ok (finish b (d_Invert o), action).

(** The loop of [NewLogicalDNSRule] over the sub-rules. *)
Definition dnsSubRules (f : DNSRuleSpec -> res error (rule * dnsAction)) : Z -> list DNSRuleSpec -> res error (list rule) :=
  fix go i l :=
    match l with
    | [] => Ok []
    | s :: l => r ← Cause ("sub rule[" +:+ Itoa i +:+ "]") (f s); rs ← go (i + 1) l; Ok (r.1 :: rs)
    end.

Fixpoint NewDNSRule (checkServer : bool) (s : DNSRuleSpec) : res error (rule * dnsAction) :=
  if negb (DNS_IsValid s) then Err (New "missing conditions") else
  if missingServer checkServer (dnsSpecAction s) then Err (New "missing server field") else
  match s with
  | DNSSpecDefault o a => NewDefaultDNSRule o a
  | DNSSpecLogical mode rules invert a =>
      action ← NewDNSRuleAction a;
      isAnd ← logicalMode mode;
      subs ← dnsSubRules (NewDNSRule false) 0 rules;
      Ok (LogicalRule subs isAnd invert, action)
  end.

(** [Router.Initialize] of the DNS router. *)
Fixpoint InitializeDNSRules (i : Z) (specs : list DNSRuleSpec) : res error (list (rule * dnsAction)) :=
  match specs with
  | [] => Ok []
  | s :: specs => r ← Cause ("parse dns rule[" +:+ Itoa i +:+ "]") (NewDNSRule true s); rs ← InitializeDNSRules (i + 1) specs; Ok (r :: rs)
  end.
End Build.

(** ** Matching *)

Definition setIgnore (b : bool) (c : RuleCache) : RuleCache :=
  mkCache (IPCIDRMatchSource c) (IPCIDRAcceptEmpty c) (SourceAddressMatch c) (SourcePortMatch c)
    (DestinationAddressMatch c) (DestinationPortMatch c) (DidMatch c) b.

Section Match.
Context `{UnicodeTables} `{MapOrder} `{RuleLibs}.

(** [RuleSetItem.ContainsDestinationIPCIDRRule], by the rules a set holds: its metadata says that
    they have IP sets exactly when they do. *)
Definition limitedItem (it : item) : bool :=
  match it with
  | RuleSetItem setList matchSource _ => negb matchSource && existsb (existsb (fun r => nonempty (extractIPSetFromRule r))) setList
  | Leaf _ => false
  end.

Fixpoint WithAddressLimit (r : rule) : bool :=
  match r with
  | DefaultRule items _ _ _ dips _ _ _ => nonempty dips || existsb limitedItem items
  | LogicalRule rules _ _ => existsb WithAddressLimit rules
  end.

Variable e : Surroundings.
Variable m : Facts.

(** [Match]: the conditions on the query; each default rule sets the flag that leaves the others out
    and clears it. *)
Fixpoint DNS_Match (r : rule) (c : RuleCache) : bool * RuleCache :=
  match r with
  | DefaultRule _ _ _ _ _ _ _ _ => let (b, c) := matchRule e m r (setIgnore true c) in (b, setIgnore false c)
  | LogicalRule rules isAnd invert => matchLogical DNS_Match rules isAnd invert c
  end.

(** [MatchAddressLimit]: all conditions. *)
Fixpoint MatchAddressLimit (r : rule) (c : RuleCache) : bool * RuleCache :=
  match r with
  | DefaultRule _ _ _ _ _ _ _ _ => matchRule e m r c
  | LogicalRule rules isAnd invert => matchLogical MatchAddressLimit rules isAnd invert c
  end.
End Match.

(** ** What an address limit adds *)

Section Limits.
Context `{UnicodeTables} `{MapOrder} `{RuleLibs}.
Variable e : Surroundings.
Variable m : Facts.

Lemma matchLogical_ext (f g : rule -> RuleCache -> bool * RuleCache) rules isAnd invert c :
  (forall r c, r ∈ rules -> f r c = g r c) -> matchLogical f rules isAnd invert c = matchLogical g rules isAnd invert c.
Proof using Type.
  intros Hfg. unfold matchLogical.
  assert (forall c, allS (fun r c => f r (ResetRuleCache c)) rules c = allS (fun r c => g r (ResetRuleCache c)) rules c /\
                    anyS (fun r c => f r (ResetRuleCache c)) rules c = anyS (fun r c => g r (ResetRuleCache c)) rules c) as Heq.
  { induction rules as [|r rules IH]; intros c0; [done|]. cbn [allS anyS]. rewrite (Hfg r) by set_solver. destruct (g r _) as [[] c1];
      split; try done; apply IH; intros; apply Hfg; set_solver. }
  destruct (Heq c) as [-> ->]. done.
Qed.

(** A response is checked by the whole rule. *)
Lemma MatchAddressLimit_whole r c : MatchAddressLimit e m r c = matchRule e m r c.
Proof using Type.
  revert r c. apply (ruleInd (fun _ => True) (fun r => forall c, MatchAddressLimit e m r c = matchRule e m r c)); [done | done | done |].
  intros rules isAnd invert IH c. cbn [MatchAddressLimit matchRule]. apply matchLogical_ext. intros r c0 Hr. rewrite Forall_forall in IH. by apply IH.
Qed.
End Limits.

(** ** The meaning of a match *)

Section Meaning.
Context `{UnicodeTables} `{MapOrder} `{RuleLibs}.
Variable e : Surroundings.
Variable m : Facts.

Definition meant (r : rule) : Prop :=
  plain r = true -> forall c, IgnoreDestinationIPCIDRMatch c = false ->
  (DNS_Match e m r (ResetRuleCache c)).1 = denote e m true r /\
  IgnoreDestinationIPCIDRMatch (DNS_Match e m r (ResetRuleCache c)).2 = false.

Lemma subrules_meant rules :
  Forall meant rules -> forallb plain rules = true -> forall c, IgnoreDestinationIPCIDRMatch c = false ->
  (anyS (fun r c => DNS_Match e m r (ResetRuleCache c)) rules c).1 = existsb (denote e m true) rules /\
  IgnoreDestinationIPCIDRMatch (anyS (fun r c => DNS_Match e m r (ResetRuleCache c)) rules c).2 = false /\
  (allS (fun r c => DNS_Match e m r (ResetRuleCache c)) rules c).1 = forallb (denote e m true) rules /\
  IgnoreDestinationIPCIDRMatch (allS (fun r c => DNS_Match e m r (ResetRuleCache c)) rules c).2 = false.
Proof using Type.
  induction 1 as [|r rules Hr _ IH]; intros Hp c Hc; [done|]. simpl in Hp. apply andb_true_iff in Hp as [Hp1 Hp2].
  specialize (Hr Hp1 c Hc) as [Hb Hi]. simpl. destruct (DNS_Match e m r (ResetRuleCache c)) as [b c']. simpl in Hb, Hi. subst b.
  destruct (IH Hp2 c' Hi) as (? & ? & ? & ?). by destruct (denote e m true r).
Qed.

(** A DNS rule without rule sets matches a query exactly when its conditions hold, those on the
    response left out. *)
Lemma DNS_Match_denote r : meant r.
Proof using Type.
  revert r. apply (ruleInd (fun _ => True) meant); [done | done | |].
  - intros items sas sps das dips dps all invert _ _ _ _ _ _ Hp c Hc. cbn [DNS_Match].
    change (setIgnore true (ResetRuleCache c)) with (ResetRuleCache (fresh true)).
    pose proof (plain_matches_reference e m _ (fresh true) Hp) as Hd. destruct (matchRule e m _ _) as [b c']. by split.
  - intros rules isAnd invert Hr Hp c Hc. cbn [DNS_Match denote]. unfold matchLogical.
    destruct (subrules_meant rules Hr Hp (ResetRuleCache c) Hc) as (Hany & Hany' & Hall & Hall').
    destruct isAnd; [destruct (allS _ rules _) as [b c'] | destruct (anyS _ rules _) as [b c']]; simpl in *; rewrite xorb_comm; split; try done; by f_equal.
Qed.
End Meaning.
