(* ===== verification/DNSRouter.v ===== *)
(** * The DNS router (src/fork/sing-box/dns/router.go)

    A query is answered from the client's cache; otherwise the DNS rules choose a transport and
    options, a rule with an address limit checks the response, and a rejected response sends the
    query on to the rules after it.

    The metadata of the query is [Facts] and the rule cache, which matching and checking share: the
    checker of a response is asked on the flags the rule's own match left.  A panic of the source
    is an error whose message starts with "panic"; [None] is a loop that was given too little fuel. *)

From S2P Require Import Prelude GoStrings Rules RuleBuild DNSClient DNSRules.

#[local] Open Scope Z_scope.

#[export] Instance Addr_countable : Countable Addr.
Proof. refine (inj_countable' (fun a => (addr_width a, addr_bits a)) (fun '(w, b) => mkAddr w b) _). by intros []. Defined.

Definition isFakeIP (t : Transport) : bool := bool_decide (t_Type t = "fakeip").

Definition isAddressQuery (message : Msg) : bool :=
  existsb (fun q => (q_Qtype q =? TypeA) || (q_Qtype q =? TypeAAAA) || (q_Qtype q =? TypeHTTPS)) (m_Question message).

Definition setStrategy (s : DomainStrategy) (o : DNSQueryOptions) : DNSQueryOptions :=
  mkQueryOptions s (LookupStrategy o) (o_DisableCache o) (o_RewriteTTL o) (o_ClientSubnet o).
Definition setSubnet (p : Prefix) (o : DNSQueryOptions) : DNSQueryOptions :=
  mkQueryOptions (Strategy o) (LookupStrategy o) (o_DisableCache o) (o_RewriteTTL o) p.

(** What a rule's options change in those of the query. *)
Definition applyOptions (fakeIP : bool) (a : DNSRouteOptions) (o : DNSQueryOptions) : DNSQueryOptions :=
  mkQueryOptions
    (match dr_Strategy a with AsIS => Strategy o | s => s end) (LookupStrategy o)
    (fakeIP || dr_DisableCache a || o_DisableCache o)
    (match dr_RewriteTTL a with None => o_RewriteTTL o | v => v end)
    (if Prefix_IsValid (dr_ClientSubnet a) then dr_ClientSubnet a else o_ClientSubnet o).

(** A legacy transport's options stand in for missing ones. *)
Definition applyLegacy (t : Transport) (o : DNSQueryOptions) : DNSQueryOptions :=
  match t_Legacy t with
  | None => o
  | Some (strategy, subnet) =>
      let o := match Strategy o with AsIS => setStrategy strategy o | _ => o end in
      if Prefix_IsValid (o_ClientSubnet o) then o else setSubnet subnet o
  end.

Definition withDefaultStrategy (dflt : DomainStrategy) (o : DNSQueryOptions) : DNSQueryOptions :=
  match Strategy o with AsIS => setStrategy dflt o | _ => o end.

(** The metadata of a query: the inbound's, about the name asked for. *)
Definition queryFacts (domain : string) (qType ipVersion : Z) (m : Facts) : Facts :=
  mkFacts (f_Inbound m) ipVersion (f_Network m) (f_Source m) (mkSocksaddr None 0 "") (f_User m) (f_Protocol m) domain (f_Client m)
    (f_DestinationAddresses m) (f_ProcessInfo m) qType (f_Outbound m).
Definition setAddresses (l : list Addr) (m : Facts) : Facts :=
  mkFacts (f_Inbound m) (f_IPVersion m) (f_Network m) (f_Source m) (f_Destination m) (f_User m) (f_Protocol m) (f_Domain m) (f_Client m)
    l (f_ProcessInfo m) (f_QueryType m) (f_Outbound m).

Inductive selection :=
| ByRule (t : option Transport) (r : rule) (a : dnsAction) (after : list (rule * dnsAction))
| ByDefault (t : Transport).

Section DNSRouter.
Context `{UnicodeTables} `{MapOrder} `{RuleLibs} `{!FreeLRU CacheKey Msg} `{!FreeLRU (option Addr) string} `{!DNSLibs}.
Variable e : Surroundings.

Record DNSRouter := mkDNSRouter {
  r_rules : list (rule * dnsAction);
  r_transports : gmap string Transport;
  r_default : Transport;
  r_strategy : DomainStrategy;
  r_client : Client;
  (** [None]: reverse mapping is off. *)
  r_reverse : option (lru (option Addr) string)
}.
Implicit Types (R : DNSRouter) (o : DNSQueryOptions) (c : RuleCache).

Definition setClient (cl : Client) R : DNSRouter :=
  mkDNSRouter (r_rules R) (r_transports R) (r_default R) (r_strategy R) cl (r_reverse R).
Definition setReverse (l : option (lru (option Addr) string)) R : DNSRouter :=
  mkDNSRouter (r_rules R) (r_transports R) (r_default R) (r_strategy R) (r_client R) l.

(** [matchDNS]: [rules] are those from the current index on. *)
Fixpoint matchDNS R (m : Facts) (allowFakeIP isAddress : bool) (rules : list (rule * dnsAction)) o c :
    selection * DNSQueryOptions * RuleCache :=
  match rules with
  | [] => (ByDefault (r_default R), o, c)
  | (r, a) :: rules =>
      if WithAddressLimit r && negb isAddress then matchDNS R m allowFakeIP isAddress rules o c else
      let (b, c) := DNS_Match e m r (ResetRuleCache c) in
      if negb b then matchDNS R m allowFakeIP isAddress rules o c else
      match a with
      | DNSRoute server opts =>
          match r_transports R !! server with
          | None => matchDNS R m allowFakeIP isAddress rules o c
          | Some t =>
              if isFakeIP t && negb allowFakeIP then matchDNS R m allowFakeIP isAddress rules o c
              else (ByRule (Some t) r a rules, applyLegacy t (applyOptions (isFakeIP t) opts o), c)
          end
      | DNSRouteOpts opts => matchDNS R m allowFakeIP isAddress rules (applyOptions false opts o) c
      | DNSReject _ _ | DNSPredefined _ _ _ _ => (ByRule None r a rules, o, c)
      | DNSNone => matchDNS R m allowFakeIP isAddress rules o c
      end
  end.

(** The zero [netip.Addr], which an address that does not parse is. *)
Definition zeroAddr : Addr := mkAddr 0 0.

(** The checker of a rule with an address limit: the rule on the response's addresses.  They stay in
    the metadata, where the conditions on queries do not read them. *)
Definition responseCheck (m : Facts) (r : rule) : option (list (option Addr) -> RuleCache -> bool * RuleCache) :=
  if WithAddressLimit r then Some (fun addrs c => MatchAddressLimit e (setAddresses (default zeroAddr <$> addrs) m) r c) else None.

(** [client.Exchange] without a transport: only what comes before its tag is read returns. *)
Definition exchangeNil (now : Z) (message : Msg) o (cl : Client) : res dnsError Msg * Client :=
  let panics := Err (Failure (New "panic: nil DNS transport")) in
  match m_Question message with
  | [] => (Ok (FixedResponseStatus message RcodeFormatError), cl)
  | q :: _ =>
      if strategyExcludes q o then (Ok (FixedResponseStatus message RcodeSuccess), cl) else
      let message := withSubnet message o cl in
      if negb (isSimpleRequest message o) || disableCache cl || o_DisableCache o || independentCache cl then (panics, cl) else
      match loadResponse now q "" cl with
      | (Some (response, _), cl) => (Ok (setId (m_Id message) response), cl)
      | (None, cl) => (panics, cl)
      end
  end.

Definition ErrDrop : dnsError := Failure (New "drop by rule").
Definition refused (message : Msg) (q : Question) : Msg := mkMsg (m_Id message) true false false false 0 RcodeRefused [q] [] [] [].

(** The loop of [Exchange] over the rules; [time] gives the readings of the clock from [k] on.  The
    result, the last transport, and the state. *)
Fixpoint exchangeLoop (fuel : nat) R (m : Facts) (ctxTag : option string) (time : nat -> Z) (k : nat) (message : Msg) (q : Question) o
    (rules : list (rule * dnsAction)) c (cl : Client) : option (res dnsError Msg * option Transport * Client) :=
  match fuel with
  | O => None
  | S fuel =>
      let '(sel, dnsOptions, c) := matchDNS R m true (isAddressQuery message) rules o c in
      let dnsOptions' := withDefaultStrategy (r_strategy R) dnsOptions in
      match sel with
      | ByRule _ _ (DNSPredefined rcode answer ns extra) _ =>
          Some (match predefinedResponse rcode answer ns extra message with
                | Some response => Ok response
                | None => Err (Failure (New "panic: index out of range"))
                end, None, cl)
      | ByRule t r a after =>
          let send :=
            match t with
            | None =>
                let (res, cl) := exchangeNil (time k) message dnsOptions' cl in Some (res, None, cl)
            | Some t =>
                let '(res, c, cl) := Exchange ctxTag (time k) (time (S k)) t message dnsOptions' (responseCheck m r) c cl in
                if WithAddressLimit r && match res with Err er => isRejected er | Ok _ => false end
                then exchangeLoop fuel R m ctxTag time (S (S k)) message q o after c cl
                else Some (res, Some t, cl)
            end in
          match a with
          | DNSReject method _ =>
              if bool_decide (method = "default") then Some (Ok (refused message q), None, cl)
              else if bool_decide (method = "drop") then Some (Err ErrDrop, None, cl)
              else send
          | _ => send
          end
      | ByDefault t =>
          let '(res, _, cl) := Exchange ctxTag (time k) (time (S k)) t message dnsOptions' None c cl in
          Some (res, Some t, cl)
      end
  end.

(** The reverse mapping learns the addresses of an answer. *)
Definition learn (now : Z) (response : Msg) (l : lru (option Addr) string) : lru (option Addr) string :=
  foldl (fun l r =>
    match rr_Data r with
    | RD_A ip | RD_AAAA ip => lruAddWithLifetime now (AddrFromIP ip) (FqdnToDomain (rr_Name r)) (rr_Ttl r * Second) l
    | _ => l
    end) l (m_Answer response).

Definition learnFrom (now : Z) (t : option Transport) (res : res dnsError Msg) R : DNSRouter :=
  match res, r_reverse R with
  | Ok response, Some l =>
      if nonempty (m_Answer response) && match t with Some t => negb (isFakeIP t) | None => true end
      then setReverse (Some (learn now response l)) R else R
  | _, _ => R
  end.

(** [Router.Exchange]; [via] is the transport of the options, [c] the rule cache of the context and
    [learned] when the reverse mapping is updated. *)
Definition RouterExchange R (m : Facts) (ctxTag : option string) (time : nat -> Z) (message : Msg) (via : option Transport) o c (learned : Z) :
    option (res dnsError Msg * DNSRouter) :=
  match m_Question message with
  | [q] =>
      match ExchangeCache (time 0%nat) message (r_client R) with
      | (Some response, cl) => Some (Ok response, learnFrom learned None (Ok response) (setClient cl R))
      | (None, cl) =>
          let ipVersion := if q_Qtype q =? TypeA then 4 else if q_Qtype q =? TypeAAAA then 6 else f_IPVersion m in
          let m := queryFacts (FqdnToDomain (q_Name q)) (q_Qtype q) ipVersion m in
          '(res, t, cl) ←
            match via with
            | Some t =>
                let o := withDefaultStrategy (r_strategy R) (applyLegacy t o) in
                let '(res, _, cl) := Exchange ctxTag (time 1%nat) (time 2%nat) t message o None c cl in
                Some (res, Some t, cl)
            | None => exchangeLoop (S (length (r_rules R))) R m ctxTag time 1 message q o (r_rules R) c cl
            end;
          Some (res, learnFrom learned t res (setClient cl R))
      end
  | qs => Some (Ok (mkMsg (m_Id message) true false false false 0 RcodeFormatError qs [] [] []), R)
  end.

(** ** Lookups *)

Definition ErrRejectedRule : dnsError := Failure (New "rejected").

(** [printResult], which also wraps the error. *)
Definition printResult (domain : string) (addrs : list (option Addr)) (err : option dnsError) : option dnsError :=
  let err := match err, addrs with None, [] => Some (Failure (New "empty result")) | _, _ => err end in
  Caused ("lookup " +:+ domain) <$> err.

(** The addresses of a predefined answer. *)
Definition predefinedAddresses (answer : list RR) : list (option Addr) :=
  omap (fun r => match rr_Data r with RD_A ip | RD_AAAA ip => Some (AddrFromIP ip) | _ => None end) answer.

(** The loop of [Lookup]; [err] is what the round before left. *)
Fixpoint lookupLoop (fuel : nat) R (m : Facts) (ctxTag : option string) (time : nat -> Z) (k : nat) (domain : string) o
    (rules : list (rule * dnsAction)) (err : option dnsError) c (cl : Client) :
    option (list (option Addr) * option dnsError * Client) :=
  match fuel with
  | O => None
  | S fuel =>
      let '(sel, dnsOptions, c) := matchDNS R m false true rules o c in
      let dnsOptions' := withDefaultStrategy (r_strategy R) dnsOptions in
      let finish addrs err cl := Some (addrs, printResult domain addrs err, cl) in
      match sel with
      | ByRule _ _ (DNSReject _ _) _ => Some ([], Some ErrRejectedRule, cl)
      | ByRule _ _ (DNSPredefined rcode answer _ _) _ =>
          if negb (rcode =? RcodeSuccess) then finish [] (Some (RcodeError rcode)) cl
          else finish (predefinedAddresses answer) err cl
      | ByRule None _ _ _ => Some ([], Some (Failure (New "panic: nil DNS transport")), cl)
      | ByRule (Some t) r _ after =>
          let '(addrs, err, c, cl) := Lookup ctxTag (fun i => time (k + i)%nat) t domain dnsOptions' (responseCheck m r) c cl in
          match responseCheck m r, err with
          | Some _, Some er => lookupLoop fuel R m ctxTag time (k + 4) domain o after (printResult domain addrs (Some er)) c cl
          | _, _ => finish addrs err cl
          end
      | ByDefault t =>
          let '(addrs, err, _, cl) := Lookup ctxTag (fun i => time (k + i)%nat) t domain dnsOptions' None c cl in finish addrs err cl
      end
  end.

(** [Router.Lookup]; with a transport of the options a legacy one gives its subnet only. *)
Definition RouterLookup R (m : Facts) (ctxTag : option string) (time : nat -> Z) (domain : string) (via : option Transport) o c :
    option (list (option Addr) * option dnsError * DNSRouter) :=
  match LookupCache (time 0%nat) domain (Strategy o) (r_client R) with
  | (Some [], cl) => Some ([], Some (Failure (New ("lookup " +:+ domain +:+ ": empty result (cached)"))), setClient cl R)
  | (Some addrs, cl) => Some (addrs, None, setClient cl R)
  | (None, cl) =>
      let m := queryFacts (FqdnToDomain domain) (f_QueryType m) (f_IPVersion m) m in
      '(addrs, err, cl) ←
        match via with
        | Some t =>
            let o := match t_Legacy t with
                     | None => o
                     | Some (_, subnet) =>
                         let o := withDefaultStrategy (r_strategy R) o in
                         if Prefix_IsValid (o_ClientSubnet o) then o else setSubnet subnet o
                     end in
            let o := withDefaultStrategy (r_strategy R) o in
            let '(addrs, err, _, cl) := Lookup ctxTag (fun i => time (S i)) t domain o None c cl in
            Some (addrs, printResult domain addrs err, cl)
        | None => lookupLoop (S (length (r_rules R))) R m ctxTag time 1 domain o (r_rules R) None c cl
        end;
      Some (addrs, err, setClient cl R)
  end.

Definition LookupReverseMapping (now : Z) (ip : option Addr) R : option string * DNSRouter :=
  match r_reverse R with
  | None => (None, R)
  | Some l => let (r, l) := lruGet now ip l in (fst <$> r, setReverse (Some l) R)
  end.

Definition RouterClearCache R : DNSRouter := setClient (ClearCache (r_client R)) R.
End DNSRouter.

(** ** The loops end *)

Section Ends.
Context `{UnicodeTables} `{MapOrder} `{RuleLibs} `{!FreeLRU CacheKey Msg} `{!FreeLRU (option Addr) string} `{!DNSLibs}.
Variable e : Surroundings.

Lemma matchDNS_after R m allow isAddress rules o c t r a after o' c' :
  matchDNS e R m allow isAddress rules o c = (ByRule t r a after, o', c') -> (length after < length rules)%nat.
Proof.
  revert o c. induction rules as [|[r0 a0] rules IH]; intros o c; cbn [matchDNS length]; [done|].
  assert (forall o c, matchDNS e R m allow isAddress rules o c = (ByRule t r a after, o', c') -> (length after < S (length rules))%nat) as IH'
    by (intros ? ? Hm%IH; lia).
  destruct (_ && _); [apply IH'|]. destruct (DNS_Match e m r0 (ResetRuleCache c)) as [[] c1]; cbn [negb]; [|apply IH'].
  destruct a0 as [|server opts|opts| |]; [apply IH'| |apply IH'|intros [= _ _ _ <- _ _]; lia..].
  destruct (r_transports R !! server) as [t0|]; [|apply IH']. destruct (_ && _); [apply IH'|]. intros [= _ _ _ <- _ _]. lia.
Qed.

Lemma exchangeLoop_ends fuel R m ctxTag time k message q o rules c cl :
  (length rules < fuel)%nat -> is_Some (exchangeLoop e fuel R m ctxTag time k message q o rules c cl).
Proof.
  revert k rules c cl. induction fuel as [|fuel IH]; intros k rules c cl Hf; [lia|]. cbn [exchangeLoop].
  destruct (matchDNS e R m true (isAddressQuery message) rules o c) as [[sel o1] c1] eqn:Hm. cbv zeta.
  destruct sel as [t r a after|t]; [|by destruct (Exchange _ _ _ _ _ _ _ _ _) as [[? ?] ?]]. apply matchDNS_after in Hm.
  set (send := match t with Some _ => _ | None => _ end).
  assert (is_Some send) as Hsend.
  { subst send. destruct t as [t|]; [|by destruct (exchangeNil _ _ _ _)]. destruct (Exchange _ _ _ _ _ _ _ _ _) as [[res c2] cl2].
    destruct (_ && _); [|done]. apply IH. lia. }
  destruct a; try done. destruct (bool_decide _); [done|]. by destruct (bool_decide _).
Qed.

Lemma lookupLoop_ends fuel R m ctxTag time k domain o rules err c cl :
  (length rules < fuel)%nat -> is_Some (lookupLoop e fuel R m ctxTag time k domain o rules err c cl).
Proof.
  revert k rules err c cl. induction fuel as [|fuel IH]; intros k rules err c cl Hf; [lia|]. cbn [lookupLoop].
  destruct (matchDNS e R m false true rules o c) as [[sel o1] c1] eqn:Hm. cbv zeta.
  destruct sel as [t r a after|t]; [|by destruct (Lookup _ _ _ _ _ _ _ _) as [[[? ?] ?] ?]]. apply matchDNS_after in Hm.
  assert (is_Some (match t with
    | Some t => let '(addrs, err, c, cl) := Lookup ctxTag (fun i => time (k + i)%nat) t domain (withDefaultStrategy (r_strategy R) o1) (responseCheck e m r) c1 cl in
        match responseCheck e m r, err with
        | Some _, Some er => lookupLoop e fuel R m ctxTag time (k + 4) domain o after (printResult domain addrs (Some er)) c cl
        | _, _ => Some (addrs, printResult domain addrs err, cl)
        end
    | None => Some ([], Some (Failure (New "panic: nil DNS transport")), cl) end)) as Hsend.
  { destruct t as [t|]; [|done]. destruct (Lookup _ _ _ _ _ _ _ _) as [[[addrs err'] c2] cl2]. destruct (responseCheck e m r), err'; try done.
    apply IH. lia. }
  destruct a; [destruct t; exact Hsend..|destruct t; by eexists|]. destruct t, (negb _); by eexists.
Qed.

End Ends.

(** ** Which rule answers *)

Section Chosen.
Context `{UnicodeTables} `{MapOrder} `{RuleLibs} `{!FreeLRU CacheKey Msg} `{!FreeLRU (option Addr) string} `{!DNSLibs}.
Variable e : Surroundings.
Implicit Types (R : DNSRouter) (ra : rule * dnsAction).

(** A rule's conditions on the query hold; a rule with an address limit is for address queries. *)
Definition matches (m : Facts) (isAddress : bool) ra : bool :=
  negb (WithAddressLimit ra.1 && negb isAddress) && denote e m true ra.1.
(** Where the action of a rule sends the query, if anywhere: no transport for an own answer. *)
Definition target R (allowFakeIP : bool) (a : dnsAction) : option (option Transport) :=
  match a with
  | DNSRoute server _ => t ← r_transports R !! server; if isFakeIP t && negb allowFakeIP then None else Some (Some t)
  | DNSReject _ _ | DNSPredefined _ _ _ _ => Some None
  | _ => None
  end.
Definition decides R m allowFakeIP isAddress ra : Prop := matches m isAddress ra = true /\ is_Some (target R allowFakeIP ra.2).
#[local] Instance decides_dec R m allowFakeIP isAddress ra : Decision (decides R m allowFakeIP isAddress ra).
Proof using Type. unfold decides. apply _. Defined.
(** The options of a rule that only sets options. *)
Definition addOptions (m : Facts) (isAddress : bool) (o : DNSQueryOptions) ra : DNSQueryOptions :=
  match ra.2 with DNSRouteOpts opts => if matches m isAddress ra then applyOptions false opts o else o | _ => o end.

(** The first rule that decides answers, with the options of the matching rules before it. *)
Definition chosen R m allowFakeIP isAddress (rules : list (rule * dnsAction)) (o : DNSQueryOptions) : selection * DNSQueryOptions :=
  match list_find (decides R m allowFakeIP isAddress) rules with
  | None => (ByDefault (r_default R), foldl (addOptions m isAddress) o rules)
  | Some (i, (r, a)) =>
      let o := foldl (addOptions m isAddress) o (take i rules) in
      match a, target R allowFakeIP a with
      | DNSRoute _ opts, Some (Some t) => (ByRule (Some t) r a (drop (S i) rules), applyLegacy t (applyOptions (isFakeIP t) opts o))
      | _, _ => (ByRule None r a (drop (S i) rules), o)
      end
  end.

Lemma chosen_skip R m allow isAddress ra rules o :
  ~ decides R m allow isAddress ra -> chosen R m allow isAddress (ra :: rules) o = chosen R m allow isAddress rules (addOptions m isAddress o ra).
Proof using Type.
  intros Hd. unfold chosen. cbn [list_find]. rewrite decide_False by done.
  destruct (list_find _ rules) as [[i [r a]]|]; [|done]. done.
Qed.

(** C23. Rules without rule sets choose as their conditions say: the query goes to the first rule in
    order whose conditions on the query hold and whose action answers or names a usable server,
    with the options of the route-options rules before it that hold; to the default server when
    there is none.  The state the rules share while they are matched makes no difference. *)
Theorem dns_rules_choose_in_order R m allowFakeIP isAddress rules o c :
  forallb (fun ra => plain ra.1) rules = true -> IgnoreDestinationIPCIDRMatch c = false ->
  (matchDNS e R m allowFakeIP isAddress rules o c).1 = chosen R m allowFakeIP isAddress rules o.
Proof using Type.
  revert o c. induction rules as [|[r a] rules IH]; intros o c Hp Hc; [done|]. cbn [forallb fst] in Hp. apply andb_true_iff in Hp as [Hp1 Hp2].
  specialize (IH) as IH'. cbn [matchDNS].
  destruct (WithAddressLimit r && negb isAddress) eqn:Hlim.
  { rewrite chosen_skip by (intros [Hm _]; unfold matches in Hm; cbn [fst] in Hm; by rewrite Hlim in Hm).
    unfold addOptions, matches. cbn [fst snd]. rewrite Hlim. destruct a; by apply IH. }
  destruct (DNS_Match_denote e m r Hp1 c Hc) as [Hd Hi]. destruct (DNS_Match e m r (ResetRuleCache c)) as [b c1]. cbn [fst snd] in Hd, Hi. subst b.
  assert (matches m isAddress (r, a) = denote e m true r) as Hmatch by (unfold matches; cbn [fst]; by rewrite Hlim).
  destruct (denote e m true r) eqn:Hdn; cbn [negb].
  2:{ rewrite chosen_skip by (intros [Hm _]; congruence). unfold addOptions. rewrite Hmatch. destruct a; by apply IH. }
  assert (is_Some (target R allowFakeIP a) -> list_find (decides R m allowFakeIP isAddress) ((r, a) :: rules) = Some (0%nat, (r, a))) as Hfirst
    by (intros Ht; cbn [list_find]; by rewrite decide_True by (split; [by rewrite Hmatch|done])).
  assert (target R allowFakeIP a = None -> forall o', addOptions m isAddress o (r, a) = o' ->
          chosen R m allowFakeIP isAddress ((r, a) :: rules) o = chosen R m allowFakeIP isAddress rules o') as Hskip
    by (intros Ht o' <-; apply chosen_skip; intros [_ Hs]; cbn [snd] in Hs; by rewrite Ht in Hs; destruct Hs).
  destruct a as [|server opts|opts|method noDrop|rcode answer ns extra]; cbn [target] in *.
  - rewrite (Hskip eq_refl _ eq_refl). by apply IH.
  - destruct (r_transports R !! server) as [t|] eqn:Ht; cbn [mbind option_bind] in *; [|rewrite (Hskip eq_refl _ eq_refl); by apply IH].
    destruct (isFakeIP t && negb allowFakeIP) eqn:Hf; [rewrite (Hskip eq_refl _ eq_refl); by apply IH|].
    unfold chosen. rewrite Hfirst by done. cbn [target]. rewrite Ht. cbn [mbind option_bind]. by rewrite Hf.
  - rewrite (Hskip eq_refl (applyOptions false opts o)) by (unfold addOptions; cbn [snd]; by rewrite Hmatch). by apply IH.
  - unfold chosen. by rewrite Hfirst.
  - unfold chosen. by rewrite Hfirst.
Qed.

Lemma tryGroup_nil {A} (f : A -> RuleCache -> bool * RuleCache) fl c : tryGroup f fl [] c = c.
Proof using Type. done. Qed.

(** A rule on the addresses of a response alone accepts every later response once it has accepted
    one: the flag its match set is still set when the other family's response is checked. *)
Theorem accepted_family_admits_the_other m (dips : list item) c addrs addrs' check c' :
  let r := DefaultRule [] [] [] [] dips [] dips false in
  responseCheck e m r = Some check -> IgnoreDestinationIPCIDRMatch c = false ->
  check addrs c = (true, c') -> (check addrs' c').1 = true.
Proof using Type.
  intros r. unfold responseCheck. subst r. cbn [WithAddressLimit existsb]. rewrite orb_false_r.
  destruct dips as [|it dips]; [done|]. cbn [nonempty]. intros [= <-] Hc.
  set (m1 := setAddresses _ m). set (m2 := setAddresses _ m).
  pose proof (match_keeps e m1 (DefaultRule [] [] [] [] (it :: dips) [] (it :: dips) false) c) as Hk. intros Hm.
  cbn [matchRule] in Hk. cbv beta in Hm. cbn [MatchAddressLimit matchRule] in Hm. rewrite Hm in Hk.
  cbn [snd] in Hk. revert Hm. cbn [MatchAddressLimit matchRule]. unfold matchDefault. cbn [nonempty negb allS]. rewrite !tryGroup_nil, Hc. cbn [andb orb].
  set (c1 := tryGroup _ FDestinationAddress (it :: dips) c).
  assert (IgnoreDestinationIPCIDRMatch c' = false) as Hc' by congruence.
  destruct (IgnoreDestinationIPCIDRMatch c1) eqn:Hi1; cbn [negb andb orb].
  { intros Heq. assert (c1 = c') as <- by (by destruct (negb (DidMatch c1)); injection Heq). congruence. }
  destruct (DestinationAddressMatch c1) eqn:Hd; cbn [negb andb]; [|done].
  intros Heq. assert (c1 = c') as <- by (by destruct (negb (DidMatch c1)); injection Heq).
  rewrite Hi1. cbn [negb andb orb]. unfold tryGroup. cbn [getFlag]. rewrite Hd, Hi1. cbn [negb andb orb]. rewrite Hd. cbn [negb]. by destruct (negb (DidMatch c1)).
Qed.
End Chosen.

(** ** A router with two servers *)

Module DNSRouterSample.
Import RuleSample DNSSample.

(** A server that answers from one network of each family. *)
Definition dual (tag : string) (v4 v6 : list Z) : Transport :=
  mkTransport tag "udp" None (fun _ m =>
    match m_Question m with
    | q :: _ =>
        Ok (mkMsg (m_Id m) true false true true 0 0 [q]
          [if q_Qtype q =? TypeA then mkRR (q_Name q) TypeA ClassINET 300 (RD_A v4) else mkRR (q_Name q) TypeAAAA ClassINET 300 (RD_AAAA v6)] [] [])
    | [] => Err (Failure (New "no question"))
    end).
Definition public6 : list Z := [32; 1; 13; 184; 0; 0; 0; 0; 0; 0; 0; 0; 0; 0; 0; 1].
Definition inside : Transport := dual "inside" [10; 0; 0; 1] public6.
Definition outside : Transport := dual "outside" [1; 1; 1; 1] public6.

Definition keep : DNSRouteOptions := mkDNSRouteOptions AsIS false None noPrefix.
(** Responses with private addresses only. *)
Definition privateOnly : rule := DefaultRule [] [] [] [] [Leaf (IPIsPrivateItem false)] [] [Leaf (IPIsPrivateItem false)] false.
Definition anyQuery : rule := DefaultRule [] [] [] [] [] [] [] false.
Definition named (name : string) : rule := DefaultRule [] [] [] [Leaf (DomainItem [name] [])] [] [] [Leaf (DomainItem [name] [])] false.

Definition router (rules : list (rule * dnsAction)) : DNSRouter :=
  mkDNSRouter rules (<["inside" := inside]> (<["outside" := outside]> ∅)) outside AsIS client None.
Definition query : Facts := connection "in" "" 1000 53.
Definition times : nat -> Z := fun k => Z.of_nat k * Second.
Definition lookup (rules : list (rule * dnsAction)) : option (list (option Addr) * bool) :=
  (fun r => (r.1.1, bool_decide (is_Some r.1.2))) <$> RouterLookup quietNetwork (router rules) query None times "go.dev" None plain (fresh false).
Definition exchange (rules : list (rule * dnsAction)) : option (res dnsError (list RR)) :=
  (fun r => match r.1 with Ok m => Ok (m_Answer m) | Err er => Err er end) <$>
    RouterExchange quietNetwork (router rules) query None times (ask []) None plain (fresh false) 0.

Definition v4 (a b c d : Z) : option Addr := AddrFromIP [a; b; c; d].

Lemma dns_rules_choose_in_order_witness :
  (matchDNS quietNetwork (router []) (queryFacts "go.dev" 1 4 query) true true
    [(named "go.dev", DNSRouteOpts (mkDNSRouteOptions IPv4Only true None noPrefix)); (named "go.dev", DNSRoute "inside" keep)] plain (fresh false)).1 =
  (ByRule (Some inside) (named "go.dev") (DNSRoute "inside" keep) [], mkQueryOptions IPv4Only AsIS true None nowhere).
Proof.
  rewrite (dns_rules_choose_in_order quietNetwork (router []) (queryFacts "go.dev" 1 4 query) true true
    [(named "go.dev", DNSRouteOpts (mkDNSRouteOptions IPv4Only true None noPrefix)); (named "go.dev", DNSRoute "inside" keep)] plain (fresh false));
    [|reflexivity|reflexivity]. vm_compute. reflexivity.
Defined.

Definition privateCheck : list (option Addr) -> RuleCache -> bool * RuleCache :=
  fun addrs c => MatchAddressLimit quietNetwork (setAddresses (default zeroAddr <$> addrs) query) privateOnly c.
Definition afterA : RuleCache := (privateCheck [v4 10 0 0 1] (fresh false)).2.

Lemma accepted_family_admits_the_other_witness :
  responseCheck quietNetwork query privateOnly = Some privateCheck /\ (privateCheck [AddrFromIP public6] (fresh false)).1 = false /\
  (privateCheck [AddrFromIP public6] afterA).1 = true.
Proof.
  split; [reflexivity|]. split; [reflexivity|].
  apply (accepted_family_admits_the_other quietNetwork query [Leaf (IPIsPrivateItem false)] (fresh false) [v4 10 0 0 1] [AddrFromIP public6] privateCheck afterA);
    reflexivity.
Defined.

(** The rule for private addresses lets the public address of the other family through. *)
Example lookup_leaks : lookup [(privateOnly, DNSRoute "inside" keep)] = Some ([v4 10 0 0 1; AddrFromIP public6], false).
Proof. vm_compute. reflexivity. Qed.

(** A predefined answer after a rejected response is returned together with the old error. *)
Example stale_error :
  lookup [(privateOnly, DNSRoute "outside" keep);
          (anyQuery, DNSPredefined 0 [mkRR "go.dev." TypeA ClassINET 60 (RD_A [9; 9; 9; 9])] [] [])] = Some ([v4 9 9 9 9], true).
Proof. vm_compute. reflexivity. Qed.

(** The options of a route-options rule are lost when a later rule's response is rejected. *)
Definition rewrite60 : DNSRouteOptions := mkDNSRouteOptions AsIS false (Some 60) noPrefix.
Example options_kept : exchange [(anyQuery, DNSRouteOpts rewrite60); (anyQuery, DNSRoute "outside" keep)] =
  Some (Ok [mkRR "go.dev." TypeA ClassINET 60 (RD_A [1; 1; 1; 1])]).
Proof. vm_compute. reflexivity. Qed.
Example options_lost :
  exchange [(anyQuery, DNSRouteOpts rewrite60); (privateOnly, DNSRoute "outside" keep); (anyQuery, DNSRoute "outside" keep)] =
  Some (Ok [mkRR "go.dev." TypeA ClassINET 300 (RD_A [1; 1; 1; 1])]).
Proof. vm_compute. reflexivity. Qed.

(** The reject method "reply", which the options accept, has no case. *)
Example reply_panics : exchange [(anyQuery, DNSReject "reply" false)] = Some (Err (Failure (New "panic: nil DNS transport"))).
Proof. vm_compute. reflexivity. Qed.
End DNSRouterSample.
