(* ===== verification/Lifecycle.v ===== *)
(** * The stages of a start (src/fork/sing-box/adapter/lifecycle.go)

    What the managers, the box and the outbounds share: the stages an object goes through when the
    box starts, and their names. *)

From S2P Require Import Prelude GoStrings.

#[local] Open Scope Z_scope.

Inductive StartStage := StartStateInitialize | StartStateStart | StartStatePostStart | StartStateStarted.

#[export] Instance StartStage_eq_dec : EqDecision StartStage.
Proof. solve_decision. Defined.

Definition stageNumber (s : StartStage) : Z :=
  match s with StartStateInitialize => 0 | StartStateStart => 1 | StartStatePostStart => 2 | StartStateStarted => 3 end.
Definition ListStartStages : list StartStage := [StartStateInitialize; StartStateStart; StartStatePostStart; StartStateStarted].
Definition stageString (s : StartStage) : string :=
  match s with
  | StartStateInitialize => "initialize"
  | StartStateStart => "start"
  | StartStatePostStart => "post-start"
  | StartStateStarted => "finish-start"
  end.

(** All stages for an object that is created late, up to the first error, which [label] names. *)
Fixpoint throughStages (start : StartStage -> option error) (label : string) (l : list StartStage) : option error :=
  match l with
  | [] => None
  | s :: l => match start s with Some e => Some (Error (stageString s +:+ " " +:+ label) [e]) | None => throughStages start label l end
  end.

(** One stage for objects in order, up to the first error. *)
Fixpoint stageAll {A : Type} (start : A -> option error) (label : A -> string) (s : StartStage) (l : list A) : option error :=
  match l with
  | [] => None
  | x :: l => match start x with Some e => Some (Error (stageString s +:+ " " +:+ label x) [e]) | None => stageAll start label s l end
  end.
