(* ===== verification/Dependencies.v ===== *)
(** * Starting objects after those they depend on
      (startOutbounds in src/fork/sing-box/adapter/outbound/manager.go,
       startTransports in src/fork/sing-box/dns/transport_manager.go)

    The two functions are one program over different objects: passes over the list start what has
    all its dependencies started, until everything is or a pass starts nothing; then a search for
    the reason ends in a circle or a missing dependency.  [Startable] is what they ask of the
    objects, and the words of their messages. *)

From S2P Require Import Prelude GoStrings.

Class Startable (T : Type) := {
  st_tag : T -> string;
  st_type : T -> string;
  st_dependencies : T -> list string;
  st_start : T -> option error;
  (** "outbound/" and "outbound", or "dns/" and "server". *)
  st_prefix : string;
  st_noun : string
}.

(** ** Who depends on whom *)

Definition addDepend (tag : string) (d : gmap string (list string)) (dependency : string) : gmap string (list string) :=
  <[dependency := default [] (d !! dependency) ++ [tag]]> d.

(** What a removal does to the table. *)
Definition dropDepend (tag : string) (d : gmap string (list string)) (dependency : string) : gmap string (list string) :=
  let l := default [] (d !! dependency) in
  if bool_decide (length l = 1%nat) then delete dependency d
  else <[dependency := List.filter (fun x => negb (bool_decide (x = tag))) l]> d.

Definition joinComma (l : list string) : string :=
  match l with [] => "" | x :: l => foldl (fun acc y => acc +:+ ", " +:+ y) x l end.

(** ** Start-up *)

Section Start.
Context {T : Type} `{Startable T}.
Implicit Types (o : T) (byTag : gmap string T).

(** The objects started so far, by tag, in order; [startPass] is one pass of the loop. *)
Fixpoint startPass (l : list T) (order : list string) : res error (list string) :=
  match l with
  | [] => Ok order
  | o :: l =>
      if bool_decide (st_tag o ∈ order) then startPass l order
      else if forallb (fun d => bool_decide (d ∈ order)) (st_dependencies o)
      then match st_start o with
           | Some e => Err (Error ("start " +:+ st_prefix +:+ st_type o +:+ "[" +:+ st_tag o +:+ "]") [e])
           | None => startPass l (order ++ [st_tag o])
           end
      else startPass l order
  end.

Definition arrow (l : list string) : string :=
  match l with [] => "" | x :: l => foldl (fun acc y => acc +:+ " -> " +:+ y) x l end.

(** Follow the first dependency that is not started until one is missing or repeats. *)
Fixpoint lint (fuel : nat) (order tree : list string) o byTag : option error :=
  match fuel with
  | O => None
  | S fuel =>
      let problem := default "" (List.find (fun d => negb (bool_decide (d ∈ order))) (st_dependencies o)) in
      if bool_decide (problem ∈ tree)
      then Some (New ("circular " +:+ st_noun +:+ " dependency: " +:+ arrow tree +:+ " -> " +:+ problem))
      else match byTag !! problem with
           | None => Some (New ("dependency[" +:+ problem +:+ "] not found for " +:+ st_noun +:+ "[" +:+ st_tag o +:+ "]"))
           | Some o' => lint fuel order (tree ++ [problem]) o' byTag
           end
  end.

(** The number of tags bounds the path [lint] follows. *)
Definition lintFuel byTag : nat := S (S (size byTag)).

(** The loop over the passes; the outer [None] is out of fuel. *)
Fixpoint startLoop (fuel : nat) (l : list T) (order : list string) byTag : option (res error (list string)) :=
  match fuel with
  | O => None
  | S fuel =>
      match startPass l order with
      | Err e => Some (Err e)
      | Ok order' =>
          if (length order' =? length l)%nat then Some (Ok order')
          else if bool_decide (length order' <> length order) then startLoop fuel l order' byTag
          else match List.find (fun o => negb (bool_decide (st_tag o ∈ order'))) l with
               | None => Some (Err (New ("panic: nil " +:+ st_noun)))
               | Some o => match lint (lintFuel byTag) order' [st_tag o] o byTag with
                           | None => None
                           | Some e => Some (Err e)
                           end
               end
      end
  end.

(** Each pass but the last two starts an object. *)
Definition startObjects (l : list T) byTag : option (res error (list string)) := startLoop (S (S (length l))) l [] byTag.

(** ** Dependencies are started first *)

(** The orders in which objects of [l] can be started: each after its dependencies. *)
Inductive startedIn (l : list T) : list string -> Prop :=
| started_none : startedIn l []
| started_next order o :
    startedIn l order -> o ∈ l -> st_tag o ∉ order -> (forall d, d ∈ st_dependencies o -> d ∈ order) ->
    startedIn l (order ++ [st_tag o]).

Lemma startedIn_NoDup l order : startedIn l order -> NoDup order.
Proof using Type.
  induction 1 as [|order o _ IH _ Hn _]; [constructor|]. apply NoDup_app. split_and!; [done | set_solver | apply NoDup_singleton].
Qed.

Lemma startedIn_tags l order : startedIn l order -> order ⊆ st_tag <$> l.
Proof using Type. induction 1 as [|order o _ IH Ho _ _]; [set_solver|]. apply (list_elem_of_fmap_2 st_tag) in Ho. set_solver. Qed.

Lemma startedIn_length l order : startedIn l order -> (length order <= length l)%nat.
Proof using Type.
  intros Hs. rewrite <- (length_fmap st_tag l). apply submseteq_length, NoDup_submseteq; [by eapply startedIn_NoDup|].
  apply startedIn_tags in Hs. set_solver.
Qed.

Lemma startedIn_before l order :
  startedIn l order -> NoDup (st_tag <$> l) -> forall o d, o ∈ l -> st_tag o ∈ order -> d ∈ st_dependencies o ->
  exists pre post, order = pre ++ st_tag o :: post /\ d ∈ pre.
Proof using Type.
  intros Hs Hnd. induction Hs as [|order o' _ IH Ho' Hn Hd]; intros o d Ho Hin Hdep; [by apply not_elem_of_nil in Hin|].
  apply elem_of_app in Hin as [Hin|Hin].
  - destruct (IH o d Ho Hin Hdep) as (pre & post & -> & Hp). exists pre, (post ++ [st_tag o']). split; [by rewrite <- app_assoc | done].
  - apply list_elem_of_singleton in Hin. assert (o = o') as <- by (by eapply NoDup_fmap_eq). exists order, []. split; [done | by apply Hd].
Qed.

Lemma startPass_started (k l : list T) order order' :
  (forall o, o ∈ l -> o ∈ k) -> startedIn k order -> startPass l order = Ok order' ->
  startedIn k order' /\ (length order <= length order')%nat.
Proof using Type.
  revert order. induction l as [|o l IH]; intros order Hsub Hs; cbn [startPass]; [by intros [= <-]|].
  assert (forall x, x ∈ l -> x ∈ k) as Hsub' by (intros x Hx; apply Hsub; by right).
  case_bool_decide as Hin; [by apply IH|]. destruct (forallb _ _) eqn:Ed; [|by apply IH].
  destruct (st_start o); [done|]. intros Hp. destruct (IH (order ++ [st_tag o])) as [Hs' Hl]; [done | | done |].
  - constructor; [done | apply Hsub; left | done |]. intros d Hd. rewrite forallb_forall in Ed.
    by apply list_elem_of_In, Ed, bool_decide_eq_true in Hd.
  - split; [done|]. rewrite length_app in Hl. simpl in Hl. lia.
Qed.

Lemma lint_total fuel order tree o byTag :
  NoDup tree -> (forall t, t ∈ tail tree -> t ∈ dom byTag) -> tree <> [] ->
  (size byTag + 3 <= fuel + length tree)%nat -> is_Some (lint fuel order tree o byTag).
Proof using Type.
  revert tree o. induction fuel as [|fuel IH]; intros tree o Hnd Hdom Hne Hf.
  - exfalso. assert (length (tail tree) <= size byTag)%nat as Hl.
    { rewrite <- size_dom. rewrite <- (size_list_to_set (C := gset string)) by (destruct tree; [done | by apply NoDup_cons in Hnd as [_ ?]]).
      apply subseteq_size. intros t Ht. apply Hdom. by apply elem_of_list_to_set in Ht. }
    destruct tree; simpl in *; [done | lia].
  - cbn [lint]. case_bool_decide as Hin; [eauto|]. destruct (byTag !! _) as [o'|] eqn:E; [|eauto].
    apply IH.
    + apply NoDup_app. split_and!; [done | | apply NoDup_singleton]. intros x Hx ->%list_elem_of_singleton. done.
    + destruct tree as [|t tree]; [done|]. simpl. intros x [Hx|Hx]%elem_of_app; [by apply Hdom|].
      apply list_elem_of_singleton in Hx as ->. apply elem_of_dom. eauto.
    + by destruct tree.
    + rewrite length_app. simpl. lia.
Qed.

Lemma startLoop_spec fuel l order byTag :
  startedIn l order -> (length l + 2 <= fuel + length order)%nat ->
  exists r, startLoop fuel l order byTag = Some r /\
    forall order', r = Ok order' -> startedIn l order' /\ length order' = length l.
Proof using Type.
  revert order. induction fuel as [|fuel IH]; intros order Hs Hf; [apply startedIn_length in Hs; lia|]. cbn [startLoop].
  destruct (startPass l order) as [order'|e] eqn:E; [|eexists; by split].
  apply (startPass_started l) in E as [Hs' Hl]; [|done|done].
  destruct (Nat.eqb_spec (length order') (length l)); [eexists; split; [done|]; by intros ? [= <-]|].
  case_bool_decide; [apply IH; [done | lia]|]. destruct (List.find _ l) as [o|] eqn:Ef; [|eexists; by split].
  destruct (lint_total (lintFuel byTag) order' [st_tag o] o byTag) as [e ->]; [apply NoDup_singleton | set_solver | done | unfold lintFuel; simpl; lia|].
  eexists. by split.
Qed.

(** ** What can be started is started *)

Definition orderable (l : list T) : Prop := exists full, startedIn l full /\ length full = length l.

Lemma startPass_all (l : list T) order :
  (forall o, o ∈ l -> st_start o = None) ->
  exists more, startPass l order = Ok (order ++ more) /\ forall o, o ∈ l -> (forall d, d ∈ st_dependencies o -> d ∈ order) -> st_tag o ∈ order ++ more.
Proof using Type.
  revert order. induction l as [|o l IH]; intros order Hst; cbn [startPass].
  { exists []. split; [by rewrite app_nil_r|]. intros o Ho. by apply elem_of_nil in Ho. }
  assert (forall x, x ∈ l -> st_start x = None) as Hst' by (intros x Hx; apply Hst; by right).
  destruct (decide (st_tag o ∈ order)) as [Hin|Hin].
  { rewrite bool_decide_eq_true_2 by done. destruct (IH order Hst') as (more & -> & Hm). exists more. split; [done|].
    intros x [->|Hx]%elem_of_cons Hd; [apply elem_of_app; by left|by apply Hm]. }
  rewrite bool_decide_eq_false_2 by done. destruct (forallb _ _) eqn:Ed.
  - rewrite (Hst o) by (by left). destruct (IH (order ++ [st_tag o]) Hst') as (more & -> & Hm). exists (st_tag o :: more).
    rewrite <-(assoc_L (++)) in *. split; [done|]. intros x [->|Hx]%elem_of_cons Hd; [apply elem_of_app; right; by left|].
    apply Hm; [done|]. intros d Hd'. apply elem_of_app. left. by apply Hd.
  - destruct (IH order Hst') as (more & -> & Hm). exists more. split; [done|]. intros x [->|Hx]%elem_of_cons Hd; [|by apply Hm].
    exfalso. apply not_true_iff_false in Ed. apply Ed. apply forallb_forall. intros d Hd'%list_elem_of_In. by apply bool_decide_eq_true, Hd.
Qed.

(** Where a pass starts nothing, everything that can be started is. *)
Lemma stuck_is_full (l : list T) order full :
  startedIn l full -> (forall o, o ∈ l -> (forall d, d ∈ st_dependencies o -> d ∈ order) -> st_tag o ∈ order) -> full ⊆ order.
Proof using Type.
  intros Hf Hclosed. induction Hf as [|full o _ IH Ho _ Hd]; [intros x Hx; by apply elem_of_nil in Hx|].
  intros x [Hx|Hx%list_elem_of_singleton]%elem_of_app; [by apply IH|]. subst x. apply Hclosed; [done|]. intros d Hd'. by apply IH, Hd.
Qed.

Lemma startLoop_complete fuel l order byTag :
  (forall o, o ∈ l -> st_start o = None) -> orderable l -> startedIn l order -> (length l + 2 <= fuel + length order)%nat ->
  exists order', startLoop fuel l order byTag = Some (Ok order').
Proof using Type.
  intros Hst (full & Hfull & Hlen). revert order. induction fuel as [|fuel IH]; intros order Hs Hf; [apply startedIn_length in Hs; lia|].
  cbn [startLoop]. destruct (startPass_all l order Hst) as (more & E & Hm). rewrite E.
  destruct (startPass_started l l order (order ++ more)) as [Hs' Hl]; [done..|].
  destruct (Nat.eqb_spec (length (order ++ more)) (length l)) as [|Hne]; [by eexists|].
  case_bool_decide as Hp; [apply IH; [done|]; rewrite length_app in *; lia|]. exfalso.
  assert (more = []) as -> by (rewrite length_app in Hp; destruct more; [done|cbn in Hp; lia]). rewrite app_nil_r in *.
  pose proof (stuck_is_full l order full Hfull Hm) as Hsub. apply startedIn_length in Hs. apply Hne.
  assert (length full <= length order)%nat by (apply submseteq_length, NoDup_submseteq; [by eapply startedIn_NoDup|done]). lia.
Qed.

(** The loop always ends; on success every object was started once, after those it depends on; and
    where every start succeeds, it succeeds exactly on the lists that have such an order. *)
Lemma startObjects_spec (l : list T) byTag :
  exists r, startObjects l byTag = Some r /\
    (forall order, r = Ok order ->
      order ≡ₚ st_tag <$> l /\
      forall o d, o ∈ l -> d ∈ st_dependencies o -> exists pre post, order = pre ++ st_tag o :: post /\ d ∈ pre) /\
    ((forall o, o ∈ l -> st_start o = None) -> ((exists order, r = Ok order) <-> orderable l)).
Proof using Type.
  destruct (startLoop_spec (S (S (length l))) l [] byTag) as (r & Hr & Hok); [constructor | simpl; lia|].
  exists r. split; [done|]. split.
  - intros order ->. destruct (Hok order eq_refl) as [Hs Hl].
    assert (order ≡ₚ st_tag <$> l) as Hperm.
    { apply submseteq_length_Permutation; [|by rewrite length_fmap, Hl].
      apply NoDup_submseteq; [by eapply startedIn_NoDup | by apply startedIn_tags]. }
    split; [done|]. intros o d Ho Hd.
    eapply startedIn_before; [done | | done | rewrite Hperm; by apply list_elem_of_fmap_2 | done].
    rewrite <- Hperm. by eapply startedIn_NoDup.
  - intros Hst. split.
    + intros [order ->]. exists order. by apply Hok.
    + intros Ho. destruct (startLoop_complete (S (S (length l))) l [] byTag Hst Ho) as [order E]; [constructor|simpl; lia|].
      rewrite Hr in E. injection E as ->. by exists order.
Qed.
End Start.
