(* ===== verification/Outbounds.v ===== *)
(** * The outbound manager (src/fork/sing-box/adapter/outbound/manager.go)

    Outbounds are objects: the manager compares them by identity, here the number [ob_id] given
    when an object is created.  The registry that creates outbounds, their start and their close
    are [OutboundLibs]; endpoints are the parameter [Endpoints].  Logging and the start monitor
    are left out.  A panic of the source is [Err] with a message that starts with "panic". *)

From S2P Require Import Prelude GoStrings Lifecycle Dependencies.

#[local] Open Scope Z_scope.

Record Outbound := mkOutbound {
  ob_id : nat;
  ob_type : string;
  ob_tag : string;
  ob_network : list string;
  ob_dependencies : list string
}.

#[export] Instance Outbound_eq_dec : EqDecision Outbound.
Proof. solve_decision. Defined.

Record Manager := mkManager {
  defaultTag : string;
  started : bool;
  stage : StartStage;
  outbounds : list Outbound;
  outboundByTag : gmap string Outbound;
  dependByTag : gmap string (list string);
  defaultOutbound : option Outbound;
  (** The objects created so far. *)
  created : nat
}.

Definition NewManager (defaultTag : string) : Manager := mkManager defaultTag false StartStateInitialize [] ∅ ∅ None 0.

Class OutboundLibs (Opts : Type) := {
  (** [registry.CreateOutbound]: the networks and dependencies of the new object. *)
  CreateOutbound : string -> string -> Opts -> res error (list string * list string);
  (** [adapter.LegacyStart], and the start of an outbound among the others. *)
  LegacyStart : Outbound -> StartStage -> option error;
  startOutbound : Outbound -> option error;
  closeOutbound : Outbound -> option error;
  Endpoints : list Outbound
}.

Definition ErrInvalid : error := New "invalid argument".

Section Manager.
Context {Opts : Type} `{OutboundLibs Opts}.
Implicit Types (m : Manager) (o : Outbound).

Definition label o : string := "outbound/" +:+ ob_type o +:+ "[" +:+ ob_tag o +:+ "]".

Definition endpointGet (tag : string) : option Outbound :=
  List.find (fun o => bool_decide (ob_tag o = tag)) Endpoints.

(** [Outbound] and [Default]. *)
Definition Manager_Outbound (tag : string) m : option Outbound :=
  match outboundByTag m !! tag with Some o => Some o | None => endpointGet tag end.

Definition Default m : option Outbound := defaultOutbound m.

(** The slice without the first element that is the object [o]; [None] when there is none. *)
Definition removeObject o (l : list Outbound) : option (list Outbound) := removeById ob_id (ob_id o) l.

(** The object [Create] registers. *)
Definition register o m : Manager :=
  let isDefault := bool_decide (ob_tag o = defaultTag m) ||
                   bool_decide (defaultTag m = "") && bool_decide (defaultOutbound m = None) in
  mkManager (defaultTag m) (started m) (stage m) (outbounds m ++ [o]) (<[ob_tag o := o]> (outboundByTag m))
    (foldl (addDepend (ob_tag o)) (dependByTag m) (ob_dependencies o))
    (if isDefault then Some o else defaultOutbound m) (created m).

(** The object a tag had before, closed when the manager is started and taken off the list. *)
Definition dropExisting (tag : string) m : res error Manager :=
  match outboundByTag m !! tag with
  | None => Ok m
  | Some old =>
      match (if started m then closeOutbound old else None) with
      | Some e => Err (Error ("close " +:+ label old) [e])
      | None =>
          match removeObject old (outbounds m) with
          | None => Err (New "panic: invalid inbound index")
          | Some l => Ok (mkManager (defaultTag m) (started m) (stage m) l (outboundByTag m) (dependByTag m) (defaultOutbound m) (created m))
          end
      end
  end.

Definition Create (tag type : string) (options : Opts) m : option error * Manager :=
  if bool_decide (tag = "") then (Some ErrInvalid, m) else
  match CreateOutbound tag type options with
  | Err e => (Some e, m)
  | Ok (network, deps) =>
      let o := mkOutbound (created m) type tag network deps in
      let m := mkManager (defaultTag m) (started m) (stage m) (outbounds m) (outboundByTag m) (dependByTag m) (defaultOutbound m) (S (created m)) in
      match (if started m then throughStages (LegacyStart o) (label o) ListStartStages else None) with
      | Some e => (Some e, m)
      | None => match dropExisting tag m with Err e => (Some e, m) | Ok m => (None, register o m) end
      end
  end.

Definition Remove (tag : string) m : option error * Manager :=
  match outboundByTag m !! tag with
  | None => (Some ErrInvalid, m)
  | Some o =>
      let byTag := delete tag (outboundByTag m) in
      match removeObject o (outbounds m) with
      | None => (Some (New "panic: invalid inbound index"), mkManager (defaultTag m) (started m) (stage m) (outbounds m) byTag (dependByTag m) (defaultOutbound m) (created m))
      | Some l =>
          let dflt := match defaultOutbound m with
                      | Some d => if bool_decide (ob_id d = ob_id o) then head l else Some d
                      | None => None
                      end in
          let dependBy := default [] (dependByTag m !! tag) in
          if (0 <? length dependBy)%nat
          then (Some (New ("outbound[" +:+ tag +:+ "] is depended by " +:+ joinComma dependBy)),
                mkManager (defaultTag m) (started m) (stage m) l byTag (dependByTag m) dflt (created m))
          else (if started m then closeOutbound o else None,
                mkManager (defaultTag m) (started m) (stage m) l byTag (foldl (dropDepend tag) (dependByTag m) (ob_dependencies o)) dflt (created m))
      end
  end.

(** ** Start-up *)

(** Outbounds are started after those they depend on ([Dependencies]). *)
#[local] Instance startable : Startable Outbound := {|
  st_tag := ob_tag; st_type := ob_type; st_dependencies := ob_dependencies; st_start := startOutbound;
  st_prefix := "outbound/"; st_noun := "outbound"
|}.

Definition startOutbounds (l : list Outbound) m : option (res error (list string)) := startObjects l (outboundByTag m).

(** [Start]: at the start stage the default outbound is settled, then everything is started; the
    result has the tags started, in order, and [None] is out of fuel. *)
Definition settleDefault (fallback : res error (string * list string)) m : res error Manager :=
  match defaultOutbound m with
  | Some _ => Ok m
  | None =>
      if bool_decide (defaultTag m <> "") then
        match endpointGet (defaultTag m) with
        | None => Err (New ("default outbound not found: " +:+ defaultTag m))
        | Some o => Ok (mkManager (defaultTag m) (started m) (stage m) (outbounds m) (outboundByTag m) (dependByTag m) (Some o) (created m))
        end
      else
        match fallback with
        | Err e => Err (Error "create direct outbound for fallback" [e])
        | Ok (tag, network) =>
            let o := mkOutbound (created m) "direct" tag network [] in
            Ok (mkManager (defaultTag m) (started m) (stage m) (outbounds m ++ [o]) (<[tag := o]> (outboundByTag m)) (dependByTag m) (Some o) (S (created m)))
        end
  end.

Definition Start (fallback : res error (string * list string)) (s : StartStage) m : option (res error (list string)) * Manager :=
  if started m && (stageNumber s <=? stageNumber (stage m)) then (Some (Err (New "panic: already started")), m) else
  let m := mkManager (defaultTag m) true s (outbounds m) (outboundByTag m) (dependByTag m) (defaultOutbound m) (created m) in
  match s with
  | StartStateStart =>
      match settleDefault fallback m with
      | Err e => (Some (Err e), m)
      | Ok m => (startOutbounds (outbounds m ++ Endpoints) m, m)
      end
  | _ => (Some (match stageAll (fun o => LegacyStart o s) label s (outbounds m) with Some e => Err e | None => Ok [] end), m)
  end.

Definition Close m : Manager :=
  if started m then mkManager (defaultTag m) false (stage m) [] (outboundByTag m) (dependByTag m) (defaultOutbound m) (created m) else m.
End Manager.

(** ** Dependencies are started first *)

Section Starting.
Context {Opts : Type} `{OutboundLibs Opts}.

(** C33. Starting the outbounds always ends.  When it succeeds every outbound was started once, after
    all the outbounds it depends on; where no start fails, it succeeds exactly when the outbounds
    have such an order, and otherwise the error names a circle or a missing dependency. *)
Theorem start_respects_dependencies (l : list Outbound) (m : Manager) :
  exists r, startOutbounds l m = Some r /\
    (forall order, r = Ok order ->
      order ≡ₚ ob_tag <$> l /\
      forall o d, o ∈ l -> d ∈ ob_dependencies o -> exists pre post, order = pre ++ ob_tag o :: post /\ d ∈ pre) /\
    ((forall o, o ∈ l -> startOutbound o = None) -> ((exists order, r = Ok order) <-> orderable (H := startable) l)).
Proof using Type. apply (startObjects_spec (H := startable)). Qed.
End Starting.

(** ** The tables agree *)

Record manager_ok (m : Manager) : Prop := {
  ok_ids : NoDup (ob_id <$> outbounds m);
  ok_created : forall o, o ∈ outbounds m -> (ob_id o < created m)%nat;
  ok_byTag : forall tag o, outboundByTag m !! tag = Some o <-> o ∈ outbounds m /\ ob_tag o = tag
}.

Lemma NewManager_ok tag : manager_ok (NewManager tag).
Proof. split; [constructor | set_solver |]. intros t o. simpl. split; [done | set_solver]. Qed.

Section Tables.
Context {Opts : Type} `{OutboundLibs Opts}.
Implicit Types (m : Manager) (o : Outbound).

(** Taking the object of a tag off the list leaves the others in place. *)
Lemma byTag_removed m tag o l :
  manager_ok m -> outboundByTag m !! tag = Some o -> outbounds m ≡ₚ o :: l ->
  NoDup (ob_id <$> l) /\ (forall x, x ∈ l <-> x ∈ outbounds m /\ ob_tag x <> tag).
Proof using Type.
  intros Hm Ho Hp. assert (NoDup (ob_id <$> o :: l)) as Hnd by (rewrite <- Hp; apply Hm).
  cbn [fmap list_fmap] in Hnd. apply NoDup_cons in Hnd as [Hn Hnd].
  assert (ob_tag o = tag) as Ht by (by apply (ok_byTag m Hm) in Ho as [_ ?]). split; [done|].
  intros x. rewrite Hp, elem_of_cons. split.
  - intros Hx. split; [by right|]. intros E. assert (outboundByTag m !! tag = Some x) as Hx'.
    { apply (ok_byTag m Hm). split; [rewrite Hp; by right | done]. }
    simplify_eq. apply Hn. by apply list_elem_of_fmap_2.
  - intros [[->|Hx] Hne]; done.
Qed.

Lemma dropExisting_spec tag m m' : manager_ok m -> dropExisting tag m = Ok m' ->
  NoDup (ob_id <$> outbounds m') /\ (forall x, x ∈ outbounds m' <-> x ∈ outbounds m /\ ob_tag x <> tag) /\
  m' = mkManager (defaultTag m) (started m) (stage m) (outbounds m') (outboundByTag m) (dependByTag m) (defaultOutbound m) (created m).
Proof using Type.
  intros Hm. unfold dropExisting. destruct (outboundByTag m !! tag) as [old|] eqn:E.
  - destruct (if started m then _ else _); [done|]. pose proof (ok_byTag m Hm tag old) as [Ho _].
    unfold removeObject. destruct (removeById_spec ob_id old (outbounds m)) as (l & -> & Hp); [apply Hm | by apply Ho|].
    intros [= <-]. destruct (byTag_removed m tag old l Hm E Hp) as [Hnd Hin]. done.
  - intros [= <-]. split_and!; [apply Hm | | by destruct m]. intros x. split; [|by intros []].
    intros Hx. split; [done|]. intros Ht. assert (outboundByTag m !! tag = Some x) by (by apply (ok_byTag m Hm)). congruence.
Qed.

(** [Create] of an unstarted or started manager: on success the tag names the new object and
    nothing else changes. *)
Lemma Create_ok tag type options m m' : manager_ok m -> Create tag type options m = (None, m') ->
  manager_ok m' /\
  exists network deps, CreateOutbound tag type options = Ok (network, deps) /\
    let o := mkOutbound (created m) type tag network deps in
    outboundByTag m' = <[tag := o]> (outboundByTag m) /\ defaultTag m' = defaultTag m /\
    defaultOutbound m' = (if bool_decide (tag = defaultTag m) || bool_decide (defaultTag m = "") && bool_decide (defaultOutbound m = None)
                          then Some o else defaultOutbound m).
Proof using Type.
  intros Hm. unfold Create. case_bool_decide; [done|]. destruct (CreateOutbound tag type options) as [[network deps]|]; [|done].
  cbv zeta. cbn [started]. destruct (if started m then _ else _); [done|].
  match goal with |- context [dropExisting tag ?m1] => assert (manager_ok m1) as Hm1 end.
  { destruct Hm as [H1 H2 H3]. split; [done | intros o Ho; simpl; specialize (H2 o Ho); lia | done]. }
  destruct (dropExisting tag _) as [m2|] eqn:E; [|done]. intros [= <-].
  apply dropExisting_spec in E as (Hnd & Hin & ->); [|done]. cbn [outbounds] in *. split; [|by eexists _, _].
  split; cbn [register outbounds outboundByTag created ob_tag].
  - rewrite fmap_app. apply NoDup_app. split_and!; [done | | apply NoDup_singleton].
    intros i (x & -> & Hx)%list_elem_of_fmap Hi%list_elem_of_singleton. apply Hin in Hx as [Hx _].
    apply (ok_created m Hm) in Hx. simpl in Hi. lia.
  - intros x [Hx|Hx]%elem_of_app; [apply Hin in Hx as [Hx _]; apply (ok_created m Hm) in Hx; lia|].
    apply list_elem_of_singleton in Hx as ->. simpl. lia.
  - intros t x. rewrite elem_of_app, list_elem_of_singleton, Hin. destruct (decide (t = tag)) as [->|Ht].
    + rewrite lookup_insert_eq. split; [intros [= <-]; split; [by right | done] | intros [[[? ?]| ->] ?]; done].
    + rewrite lookup_insert_ne, (ok_byTag m Hm) by done. split; [intros [? <-]; split; [left; by split | done]|].
      intros [[[? ?]| ->] <-]; [by split | done].
Qed.

Lemma Remove_ok tag m : manager_ok m -> manager_ok (Remove tag m).2.
Proof using Type.
  intros Hm. unfold Remove. destruct (outboundByTag m !! tag) as [o|] eqn:E; [|done].
  pose proof (ok_byTag m Hm tag o) as [Ho _].
  unfold removeObject. destruct (removeById_spec ob_id o (outbounds m)) as (l & -> & Hp); [apply Hm | by apply Ho|].
  destruct (byTag_removed m tag o l Hm E Hp) as [Hnd Hin].
  assert (forall d b dd, manager_ok (mkManager (defaultTag m) b (stage m) l (delete tag (outboundByTag m)) dd d (created m))) as Hok.
  { intros d b dd. split; cbn [outbounds outboundByTag created]; [done | |].
    - intros x Hx. apply Hin in Hx as [Hx _]. by apply (ok_created m Hm).
    - intros t x. rewrite lookup_delete_Some, (ok_byTag m Hm), Hin. naive_solver. }
  cbv zeta. destruct (0 <? _)%nat; apply Hok.
Qed.

(** Removing an outbound others depend on reports an error, and has removed it all the same. *)
Theorem remove_depended_still_removes (tag : string) (m : Manager) (o : Outbound) (user : string) (users : list string) :
  manager_ok m -> outboundByTag m !! tag = Some o -> dependByTag m !! tag = Some (user :: users) ->
  exists e, (Remove tag m).1 = Some e /\ outboundByTag (Remove tag m).2 !! tag = None /\ o ∉ outbounds (Remove tag m).2.
Proof using Type.
  intros Hm E Hd. unfold Remove. rewrite E, Hd. pose proof (ok_byTag m Hm tag o) as [Ho _].
  unfold removeObject. destruct (removeById_spec ob_id o (outbounds m)) as (l & -> & Hp); [apply Hm | by apply Ho|].
  destruct (byTag_removed m tag o l Hm E Hp) as [_ Hin]. cbv zeta. simpl. eexists. split_and!; [done | by rewrite lookup_delete_eq |].
  rewrite Hin. intros [_ Hn]. apply Hn. by apply Ho.
Qed.
End Tables.
