(* ===== verification/Router.v ===== *)
(** * The router (src/fork/sing-box/route/route.go)

    [matchRules] goes through the rules of a connection, [routeConnection] and
    [routePacketConnection] settle where it leaves.  The rule matching is [Rules], the outbounds
    are [Outbounds].

    The process search, the fake-IP store, reverse DNS mapping, sniffing and resolving are
    [RouterLibs]; what sniffing peeked at stays part of the connection.  A connection has any type
    [C]; the trackers wrap it. *)

From S2P Require Import Prelude GoStrings Rules RuleBuild Outbounds.

#[local] Open Scope Z_scope.

(** ** The context *)

Record InboundOptions := mkInboundOptions {
  SniffEnabled : bool;
  SniffOverrideDestination : bool;
  SniffTimeout : Z;
  DomainStrategy : Z;
  in_UDPDisableDomainUnmapping : bool
}.

#[export] Instance InboundOptions_eq_dec : EqDecision InboundOptions.
Proof. solve_decision. Defined.

Definition noInboundOptions : InboundOptions := mkInboundOptions false false 0 0 false.

(** The fields the route options set. *)
Record DialOptions := mkDialOptions {
  d_RouteOriginalDestination : option Socksaddr;
  d_NetworkStrategy : option Z;
  d_NetworkType : list Z;
  d_FallbackNetworkType : list Z;
  d_FallbackDelay : Z;
  d_UDPDisableDomainUnmapping : bool;
  d_UDPConnect : bool;
  d_UDPTimeout : Z;
  d_TLSFragment : bool;
  d_TLSFragmentFallbackDelay : Z;
  d_TLSRecordFragment : bool
}.

Record Context := mkContext {
  facts : Facts;
  dial : DialOptions;
  cache : RuleCache;
  inboundOptions : InboundOptions;
  InboundDetour : string;
  LastInbound : string;
  OriginDestination : option Socksaddr;
  FakeIP : bool
}.

(** Updates of the context. *)
Definition setFacts (f : Facts) (x : Context) : Context :=
  mkContext f (dial x) (cache x) (inboundOptions x) (InboundDetour x) (LastInbound x) (OriginDestination x) (FakeIP x).
Definition setDial (d : DialOptions) (x : Context) : Context :=
  mkContext (facts x) d (cache x) (inboundOptions x) (InboundDetour x) (LastInbound x) (OriginDestination x) (FakeIP x).
Definition setCache (c : RuleCache) (x : Context) : Context :=
  mkContext (facts x) (dial x) c (inboundOptions x) (InboundDetour x) (LastInbound x) (OriginDestination x) (FakeIP x).
Definition clearInboundOptions (x : Context) : Context :=
  mkContext (facts x) (dial x) (cache x) noInboundOptions (InboundDetour x) (LastInbound x) (OriginDestination x) (FakeIP x).

Definition setDestination (d : Socksaddr) (f : Facts) : Facts :=
  mkFacts (f_Inbound f) (f_IPVersion f) (f_Network f) (f_Source f) d (f_User f) (f_Protocol f) (f_Domain f) (f_Client f)
    (f_DestinationAddresses f) (f_ProcessInfo f) (f_QueryType f) (f_Outbound f).
Definition setDestinationAddresses (l : list Addr) (f : Facts) : Facts :=
  mkFacts (f_Inbound f) (f_IPVersion f) (f_Network f) (f_Source f) (f_Destination f) (f_User f) (f_Protocol f) (f_Domain f)
    (f_Client f) l (f_ProcessInfo f) (f_QueryType f) (f_Outbound f).
Definition setDomain (d : string) (f : Facts) : Facts :=
  mkFacts (f_Inbound f) (f_IPVersion f) (f_Network f) (f_Source f) (f_Destination f) (f_User f) (f_Protocol f) d (f_Client f)
    (f_DestinationAddresses f) (f_ProcessInfo f) (f_QueryType f) (f_Outbound f).
Definition setIPVersion (v : Z) (f : Facts) : Facts :=
  mkFacts (f_Inbound f) v (f_Network f) (f_Source f) (f_Destination f) (f_User f) (f_Protocol f) (f_Domain f) (f_Client f)
    (f_DestinationAddresses f) (f_ProcessInfo f) (f_QueryType f) (f_Outbound f).
Definition setNetwork (n : string) (f : Facts) : Facts :=
  mkFacts (f_Inbound f) (f_IPVersion f) n (f_Source f) (f_Destination f) (f_User f) (f_Protocol f) (f_Domain f) (f_Client f)
    (f_DestinationAddresses f) (f_ProcessInfo f) (f_QueryType f) (f_Outbound f).
Definition setProcess (p : ProcessInfo) (f : Facts) : Facts :=
  mkFacts (f_Inbound f) (f_IPVersion f) (f_Network f) (f_Source f) (f_Destination f) (f_User f) (f_Protocol f) (f_Domain f)
    (f_Client f) (f_DestinationAddresses f) (Some p) (f_QueryType f) (f_Outbound f).

Class RouterLibs := {
  (** [None]: there is no process searcher. *)
  findProcess : option (Context -> res error ProcessInfo);
  (** [None]: there is no fake-IP transport; the store's [Contains] and [Lookup] otherwise. *)
  fakeIPStore : option ((Addr -> bool) * (Addr -> option string));
  LookupReverseMapping : option Addr -> option string;
  actionSniff : list string -> list string -> list string -> Z -> bool -> Context -> option error * Context;
  actionResolve : ResolveOptions -> Context -> option error * Context;
  (** The destinations of global multiplexing, which are refused. *)
  magicDestination : string -> option error
}.

(** Where a connection goes: into another inbound, to DNS, rejected by a rule, or out. *)
Inductive verdict (C : Type) :=
| ToInbound (tag : string) (x : Context)
| ToDNS (x : Context)
| Rejected (method : string) (noDrop : bool)
| Routed (o : Outbound) (conn : C) (x : Context).
Arguments ToInbound {C} tag x.
Arguments ToDNS {C} x.
Arguments Rejected {C} method noDrop.
Arguments Routed {C} o conn x.

Section Router.
Context `{UnicodeTables} `{MapOrder} `{RuleLibs} `{RouterLibs}.
Variable e : Surroundings.
Implicit Types (x : Context).

Definition updFacts (f : Facts -> Facts) x : Context := setFacts (f (facts x)) x.

(** The process that opened the connection; a failed search is logged only. *)
Definition searchProcess x : Context :=
  match findProcess, f_ProcessInfo (facts x) with
  | Some search, None => match search x with Ok p => updFacts (setProcess p) x | Err _ => x end
  | _, _ => x
  end.

(** The name of the destination: from the fake-IP store, or from reverse mapping. *)
Definition mapDestination x : res error Context :=
  let dst := f_Destination (facts x) in
  let reverse :=
    if bool_decide (f_Domain (facts x) = "") then
      match LookupReverseMapping (sa_addr dst) with Some d => Ok (updFacts (setDomain d) x) | None => Ok x end
    else Ok x in
  match sa_addr dst, fakeIPStore with
  | Some a, Some (contains, look) =>
      if contains a then
        match look a with
        | None => Err (New "missing fakeip record, try enable `experimental.cache_file`")
        | Some d =>
            if bool_decide (d = "") then Ok x else
            let x := updFacts (setDestination (mkSocksaddr None (sa_port dst) d)) x in
            Ok (mkContext (facts x) (dial x) (cache x) (inboundOptions x) (InboundDetour x) (LastInbound x) (Some dst) true)
        end
      else reverse
  | _, _ => reverse
  end.

Definition noteIPVersion x : Context :=
  if IsIPv4 (f_Destination (facts x)) then updFacts (setIPVersion 4) x
  else if IsIPv6 (f_Destination (facts x)) then updFacts (setIPVersion 6) x else x.

(** The deprecated options of the inbound: sniffing, resolving, unmapping. *)
Definition applyInboundOptions (preMatch : bool) x : res error Context :=
  let o := inboundOptions x in
  if bool_decide (o = noInboundOptions) then Ok x else
  let (err, x) := if negb preMatch && SniffEnabled o
                  then actionSniff [] [] [] (SniffTimeout o) (SniffOverrideDestination o) x else (None, x) in
  match err with Some er => Err er | None =>
  let (err, x) := if bool_decide (DomainStrategy o <> 0)
                  then actionResolve (mkResolveOptions "" (DomainStrategy o) false None None) x else (None, x) in
  match err with Some er => Err er | None =>
  let d := dial x in
  let x := if in_UDPDisableDomainUnmapping o
           then setDial (mkDialOptions (d_RouteOriginalDestination d) (d_NetworkStrategy d) (d_NetworkType d) (d_FallbackNetworkType d) (d_FallbackDelay d) true (d_UDPConnect d)
                  (d_UDPTimeout d) (d_TLSFragment d) (d_TLSFragmentFallbackDelay d) (d_TLSRecordFragment d)) x
           else x in
  Ok (clearInboundOptions x)
  end end.

(** The route options of a matched rule. *)
Definition applyRouteOptions (o : RouteOptions) x : Context :=
  let dst := f_Destination (facts x) in
  let d := dial x in
  let overrides := Socksaddr_IsValid (OverrideAddress o) || (0 <? OverridePort o) in
  let known := match d_RouteOriginalDestination d with Some a => Socksaddr_IsValid a | None => false end in
  let x := if Socksaddr_IsValid (OverrideAddress o)
           then updFacts (fun f => setDestinationAddresses [] (setDestination (mkSocksaddr (sa_addr (OverrideAddress o)) (sa_port dst) (sa_fqdn (OverrideAddress o))) f)) x
           else x in
  let x := if 0 <? OverridePort o
           then updFacts (fun f => setDestination (mkSocksaddr (sa_addr (f_Destination f)) (OverridePort o) (sa_fqdn (f_Destination f))) f) x
           else x in
  setDial (mkDialOptions
    (if overrides && negb known then Some dst else d_RouteOriginalDestination d)
    (match NetworkStrategy o with Some s => Some s | None => d_NetworkStrategy d end)
    (if nonempty (NetworkType o) then NetworkType o else d_NetworkType d)
    (if nonempty (FallbackNetworkType o) then FallbackNetworkType o else d_FallbackNetworkType d)
    (if FallbackDelay o =? 0 then d_FallbackDelay d else FallbackDelay o)
    (UDPDisableDomainUnmapping o || d_UDPDisableDomainUnmapping d)
    (UDPConnect o || d_UDPConnect d)
    (if 0 <? UDPTimeout o then UDPTimeout o else d_UDPTimeout d)
    (TLSFragment o || d_TLSFragment d)
    (if TLSFragment o then TLSFragmentFallbackDelay o else d_TLSFragmentFallbackDelay d)
    (TLSRecordFragment o || d_TLSRecordFragment d)) x.

(** What a matched rule does: end the matching, go on with a changed context, or fail. *)
Inductive step := Select | Continue (x : Context) | Fail (er : error).

Definition performAction (preMatch : bool) (a : ruleAction) x : step :=
  match a with
  | ActionSniff names streams packets timeout override =>
      if preMatch then (if bool_decide (f_Network (facts x) <> "icmp") then Select else Continue x)
      else match actionSniff names streams packets timeout override x with
           | (Some er, _) => Fail er
           | (None, x) => Continue x
           end
  | ActionResolve o =>
      match actionResolve o x with (Some er, _) => Fail er | (None, x) => Continue x end
  | ActionRoute _ _ | ActionReject _ _ | ActionHijackDNS => Select
  | ActionRouteOptions _ | ActionDirect | ActionNone => Continue x
  end.

Definition ruleRouteOptions (a : ruleAction) x : Context :=
  match a with ActionRoute _ o | ActionRouteOptions o => applyRouteOptions o x | _ => x end.

(** The loop over the rules: the first selected rule, and the context it is selected in. *)
Fixpoint matchLoop (preMatch : bool) (rules : list (rule * ruleAction)) x : res error (option ruleAction * Context) :=
  match rules with
  | [] => Ok (None, x)
  | (r, a) :: rules =>
      let (matched, c) := matchRule e (facts x) r (ResetRuleCache (cache x)) in
      let x := setCache c x in
      if negb matched then matchLoop preMatch rules x else
      let x := ruleRouteOptions a x in
      match performAction preMatch a x with
      | Select => Ok (Some a, x)
      | Continue x => matchLoop preMatch rules x
      | Fail er => Err er
      end
  end.

Definition matchRules (preMatch : bool) (rules : list (rule * ruleAction)) x : res error (option ruleAction * Context) :=
  let x := searchProcess x in
  x ← mapDestination x;
  x ← applyInboundOptions preMatch (noteIPVersion x);
  matchLoop preMatch rules x.

(** ** Routing *)

Section Route.
Context {Opts : Type} `{OutboundLibs Opts} {C : Type}.
Variable rules : list (rule * ruleAction).
Variable trackers : list (C -> Context -> option ruleAction -> Outbound -> C).
Variable mgr : Manager.
(** The inbounds a detour can go to: [None] when there is none, else whether it takes such connections. *)
Variable injectable : string -> option bool.

(** [bufio.NewNATPacketConn] between the original and the current destination. *)
Variable natPacketConn : C -> Context -> C.

(** The outbound of the selected rule, or the default one, checked for the network. *)
Definition selectOutbound (network : string) (a : option ruleAction) : res error Outbound :=
  match a with
  | Some (ActionRoute tag _) =>
      match Manager_Outbound tag mgr with
      | None => Err (New ("outbound not found: " +:+ tag))
      | Some o => if bool_decide (network ∈ ob_network o) then Ok o
                  else Err (New (network +:+ " is not supported by outbound: " +:+ ob_tag o))
      end
  | None =>
      match Default mgr with
      | None => Err (New "panic: nil outbound")
      | Some o => if bool_decide (network ∈ ob_network o) then Ok o
                  else Err (New (network +:+ " is not supported by default outbound: " +:+ ob_tag o))
      end
  | Some _ => Err (New "panic: nil outbound")
  end.

Definition detour x : res error (verdict C) :=
  let tag := InboundDetour x in
  if bool_decide (LastInbound x = tag) then Err (New ("routing loop on detour: " +:+ tag)) else
  match injectable tag with
  | None => Err (New ("inbound detour not found: " +:+ tag))
  | Some false => Err (New ("inbound detour is not injectable: " +:+ tag))
  | Some true =>
      let f := facts x in
      Ok (ToInbound tag (mkContext
        (mkFacts tag (f_IPVersion f) (f_Network f) (f_Source f) (f_Destination f) (f_User f) (f_Protocol f) (f_Domain f) (f_Client f)
           (f_DestinationAddresses f) (f_ProcessInfo f) (f_QueryType f) (f_Outbound f))
        (dial x) (cache x) (inboundOptions x) "" (f_Inbound f) (OriginDestination x) (FakeIP x)))
  end.

(** What follows a selection, for both networks; [finish] is what the network does to a connection
    after the trackers. *)
Definition dispatch (network : string) (finish : C -> Context -> C) (conn : C) (a : option ruleAction) x : res error (verdict C) :=
  match a with
  | Some (ActionReject method noDrop) =>
      if bool_decide (method = "reply")
      then Err (New ("reject method `reply` is not supported for " +:+ network +:+ " connections"))
      else Ok (Rejected method noDrop)
  | Some ActionHijackDNS => Ok (ToDNS x)
  | _ =>
      o ← selectOutbound network a;
      Ok (Routed o (finish (foldl (fun conn t => t conn x a o) conn trackers) x) x)
  end.

Definition routeConnection (conn : C) x : res error (verdict C) :=
  if bool_decide (InboundDetour x <> "") then detour x else
  let x := updFacts (setNetwork "tcp") x in
  match magicDestination (sa_fqdn (f_Destination (facts x))) with
  | Some er => Err er
  | None => '(a, x) ← matchRules false rules x; dispatch "tcp" (fun conn _ => conn) conn a x
  end.

Definition routePacketConnection (conn : C) x : res error (verdict C) :=
  if bool_decide (InboundDetour x <> "") then detour x else
  let x := updFacts (setNetwork "udp") x in
  '(a, x) ← matchRules false rules x; dispatch "udp" (fun conn x => if FakeIP x then natPacketConn conn x else conn) conn a x.
End Route.
End Router.

(** ** Rules on inbounds *)

(** A rule of a generated configuration: connections of some inbounds go to an outbound. *)
Definition inboundSpec (p : list string * string) : RuleSpec :=
  SpecDefault
    (mkRawDefaultRule p.1 0 [] [] [] [] [] [] [] [] [] [] [] [] false [] false [] [] [] [] [] [] [] [] [] [] "" [] false false
       [] [] ∅ ∅ [] [] [] false false false)
    (mkActionOptions "route" p.2 zeroRoute zeroRoute "" false [] 0 (mkResolveOptions "" 0 false None None)).

(** The tag of the outbound the first rule that names an inbound gives, or the final one. *)
Definition exitTag (pairs : list (list string * string)) (final inbound : string) : string :=
  match list_find (fun p : list string * string => inbound ∈ p.1) pairs with Some (_, p) => p.2 | None => final end.

Section InboundRules.
Context `{UnicodeTables} `{MapOrder} `{RuleLibs} `{ActionLibs} `{Registry} `{RouterLibs}.
Variable e : Surroundings.
Implicit Types (x : Context).

Definition inboundRule (p : list string * string) : rule * ruleAction :=
  (DefaultRule [Leaf (InboundItem p.1)] [] [] [] [] [] [Leaf (InboundItem p.1)] false, ActionRoute p.2 (routeOptions 0 zeroRoute)).

Lemma NewRule_inbound p : p.1 <> [] -> NewRule false (inboundSpec p) = Ok (inboundRule p).
Proof using Type.
  intros Hne. assert (IsValid (inboundSpec p) = true) as Hv.
  { cbn [IsValid inboundSpec]. rewrite bool_decide_eq_false_2; [done|]. intros [Ho _]. by apply (f_equal o_Inbound) in Ho. }
  destruct p as [[|t tags] out]; [done|]. unfold inboundSpec in *. rewrite NewRule_default, Hv. unfold missingOutbound.
  rewrite andb_false_r. vm_compute. reflexivity.
Qed.

Lemma InitializeRules_inbound i pairs :
  Forall (fun p : list string * string => p.1 <> []) pairs -> InitializeRules i (inboundSpec <$> pairs) = Ok (inboundRule <$> pairs).
Proof using Type.
  intros Hp. revert i. induction Hp as [|p pairs Hp _ IH]; intros i; [done|]. cbn [fmap list_fmap InitializeRules].
  rewrite NewRule_inbound by done. cbn [Cause mbind res_bind]. by rewrite IH.
Qed.

Lemma matchRule_inbound m p c : (matchRule e m (inboundRule p).1 (ResetRuleCache c)).1 = bool_decide (f_Inbound m ∈ p.1).
Proof using Type.
  rewrite plain_matches_reference by done. cbn [inboundRule fst denote nonempty orb forallb andb holds leafMatch xorb]. unfold InboundItem_Match.
  destruct (IgnoreDestinationIPCIDRMatch c); by destruct (bool_decide _).
Qed.

(** The loop over such rules selects the first that names the inbound. *)
Lemma matchLoop_inbound pre pairs x :
  exists x', matchLoop e pre (inboundRule <$> pairs) x =
    Ok ((fun q : nat * (list string * string) => (inboundRule q.2).2) <$> list_find (fun p : list string * string => f_Inbound (facts x) ∈ p.1) pairs, x').
Proof using Type.
  revert x. induction pairs as [|p pairs IH]; intros x; [by exists x|]. cbn [fmap list_fmap matchLoop list_find].
  change (inboundRule p) with ((inboundRule p).1, (inboundRule p).2) at 1. cbv iota.
  pose proof (matchRule_inbound (facts x) p (cache x)) as Hm.
  destruct (matchRule e (facts x) (inboundRule p).1 (ResetRuleCache (cache x))) as [b c]. simpl in Hm. subst b.
  destruct (decide (f_Inbound (facts x) ∈ p.1)) as [Hin|Hin].
  - rewrite bool_decide_eq_true_2 by done. cbn [negb inboundRule snd performAction]. by eexists.
  - rewrite bool_decide_eq_false_2 by done. cbn [negb]. destruct (IH (setCache c x)) as [x' Hx']. exists x'. rewrite Hx'.
    cbn [facts setCache]. by destruct (list_find _ pairs) as [[k q]|].
Qed.

(** What holds of the agent's boxes: no fake-IP transport is registered. *)
Lemma matchRules_inbound pre pairs x :
  fakeIPStore = None -> inboundOptions x = noInboundOptions ->
  exists x', matchRules e pre (inboundRule <$> pairs) x =
    Ok ((fun q : nat * (list string * string) => (inboundRule q.2).2) <$> list_find (fun p : list string * string => f_Inbound (facts x) ∈ p.1) pairs, x').
Proof using Type.
  intros Hf Ho. unfold matchRules.
  assert (exists x1, mapDestination (searchProcess x) = Ok x1 /\ f_Inbound (facts x1) = f_Inbound (facts x) /\ inboundOptions x1 = noInboundOptions) as (x1 & -> & Hi & Ho1).
  { unfold mapDestination, searchProcess. rewrite Hf.
    destruct findProcess as [search|], (f_ProcessInfo (facts x)); try destruct (search x); simpl;
      destruct (sa_addr _); case_bool_decide; try destruct (LookupReverseMapping _); by eexists. }
  cbn [mbind res_bind].
  assert (applyInboundOptions pre (noteIPVersion x1) = Ok (noteIPVersion x1)) as ->.
  { unfold applyInboundOptions. rewrite bool_decide_eq_true_2; [done|]. unfold noteIPVersion. by repeat case_match. }
  cbn [mbind res_bind]. destruct (matchLoop_inbound pre pairs (noteIPVersion x1)) as [x' Hx']. exists x'. rewrite Hx'.
  replace (f_Inbound (facts (noteIPVersion x1))) with (f_Inbound (facts x)); [done|].
  rewrite <- Hi. unfold noteIPVersion. by repeat case_match.
Qed.

(** The outbounds the rules and the default name exist and carry a network. *)
Definition exitsReady {Opts} `{OutboundLibs Opts} (network : string) (pairs : list (list string * string)) (final : string) (mgr : Manager) : Prop :=
  (forall p, p ∈ pairs -> exists o, Manager_Outbound p.2 mgr = Some o /\ ob_tag o = p.2 /\ network ∈ ob_network o) /\
  (exists o, Default mgr = Some o /\ ob_tag o = final /\ network ∈ ob_network o).

Section Exits.
Context {Opts : Type} `{OutboundLibs Opts} {C : Type}.
Variable trackers : list (C -> Context -> option ruleAction -> Outbound -> C).
Variable mgr : Manager.
Variable injectable : string -> option bool.
Variable natPacketConn : C -> Context -> C.

Lemma dispatch_exit network finish conn pairs final x (inbound : string) :
  exitsReady network pairs final mgr ->
  exists o conn', dispatch trackers mgr network finish conn
      ((fun q : nat * (list string * string) => (inboundRule q.2).2) <$> list_find (fun p : list string * string => inbound ∈ p.1) pairs) x =
    Ok (Routed o conn' x) /\ ob_tag o = exitTag pairs final inbound /\
    (Manager_Outbound (exitTag pairs final inbound) mgr = Some o \/ Default mgr = Some o).
Proof using Type.
  intros [Hp (od & Hd & Hdt & Hdn)]. unfold exitTag. destruct (list_find _ pairs) as [[k p]|] eqn:E.
  - apply list_find_Some in E as (Hk & _ & _). apply list_elem_of_lookup_2 in Hk. destruct (Hp p Hk) as (o & Ho & Ht & Hn).
    cbn [fmap option_fmap option_map inboundRule snd dispatch selectOutbound]. rewrite Ho, bool_decide_eq_true_2 by done.
    cbn [mbind res_bind]. eexists _, _. split; [done|]. split; [done | by left].
  - cbn [fmap option_fmap option_map dispatch selectOutbound]. rewrite Hd, bool_decide_eq_true_2 by done.
    cbn [mbind res_bind]. eexists _, _. split; [done|]. split; [done | by right].
Qed.

Lemma routed_by_inbound pairs final conn x :
  fakeIPStore = None -> inboundOptions x = noInboundOptions -> InboundDetour x = "" ->
  magicDestination (sa_fqdn (f_Destination (facts x))) = None ->
  exitsReady "tcp" pairs final mgr -> exitsReady "udp" pairs final mgr ->
  (exists o conn' x', routeConnection e (inboundRule <$> pairs) trackers mgr injectable conn x = Ok (Routed o conn' x') /\
     ob_tag o = exitTag pairs final (f_Inbound (facts x)) /\ (Manager_Outbound (ob_tag o) mgr = Some o \/ Default mgr = Some o)) /\
  (exists o conn' x', routePacketConnection e (inboundRule <$> pairs) trackers mgr injectable natPacketConn conn x = Ok (Routed o conn' x') /\
     ob_tag o = exitTag pairs final (f_Inbound (facts x)) /\ (Manager_Outbound (ob_tag o) mgr = Some o \/ Default mgr = Some o)).
Proof using Type.
  intros Hf Ho Hd Hmagic Ht Hu. unfold routeConnection, routePacketConnection. rewrite Hd. rewrite bool_decide_eq_false_2 by naive_solver. split.
  - cbv zeta. change (f_Destination (facts (updFacts (setNetwork "tcp") x))) with (f_Destination (facts x)). rewrite Hmagic.
    destruct (matchRules_inbound false pairs (updFacts (setNetwork "tcp") x) Hf Ho) as [x' ->]. cbn [mbind res_bind].
    destruct (dispatch_exit "tcp" (fun conn _ => conn) conn pairs final x' (f_Inbound (facts x)) Ht) as (o & conn' & Hdisp & Hto & Hm).
    exists o, conn', x'. split; [exact Hdisp|]. split; [done|]. by rewrite Hto.
  - destruct (matchRules_inbound false pairs (updFacts (setNetwork "udp") x) Hf Ho) as [x' ->]. cbn [mbind res_bind].
    destruct (dispatch_exit "udp" (fun conn x => if FakeIP x then natPacketConn conn x else conn) conn pairs final x' (f_Inbound (facts x)) Hu) as (o & conn' & Hdisp & Hto & Hm).
    exists o, conn', x'. split; [exact Hdisp|]. split; [done|]. by rewrite Hto.
Qed.
End Exits.
End InboundRules.
