(* ===== verification/PreMatch.v ===== *)
(** * Rejecting, and matching before there is a connection
      (RuleActionReject in src/fork/sing-box/route/rule/rule_action.go, PreMatch in route/route.go)

    A reject action counts the rejections of the last thirty seconds and drops what it would have
    answered when there are too many.  [PreMatch] matches the rules for TUN before a connection is
    accepted.  The direct route an outbound makes is outside: a selected outbound is the result. *)

From S2P Require Import Prelude GoStrings Rules RuleBuild Outbounds Router.
From stdpp Require Import sorting.

#[local] Open Scope Z_scope.

(** ** Flooding *)

(** What a rejection is: a reset, a drop, or nothing. *)
Inductive rejection := Reset | Drop | NoRejection.

#[export] Instance rejection_eq_dec : EqDecision rejection.
Proof. solve_decision. Defined.

(** 30 * time.Second. *)
Definition floodWindow : Z := 30 * 1000000000.
Definition floodLimit : nat := 50.

(** [RuleActionReject.Error] at [timeNow]; [None] is the panic on an unknown method.  The state is
    [dropCounter]. *)
Definition RejectError (method : string) (noDrop : bool) (timeNow : Z) (dropCounter : list Z) : option (rejection * list Z) :=
  if bool_decide (method = "drop") then Some (Drop, dropCounter)
  else if bool_decide (method = "reply") then Some (NoRejection, dropCounter)
  else if bool_decide (method = "default") then
    if noDrop then Some (Reset, dropCounter) else
    let dropCounter := List.filter (fun t => timeNow - t <=? floodWindow) dropCounter ++ [timeNow] in
    Some (if (floodLimit <? length dropCounter)%nat then Drop else Reset, dropCounter)
  else None.

(** The answers to rejections at the times [ts]. *)
Fixpoint rejectAll (noDrop : bool) (ts : list Z) (dropCounter : list Z) : list rejection :=
  match ts with
  | [] => []
  | t :: ts =>
      match RejectError "default" noDrop t dropCounter with
      | Some (r, dropCounter) => r :: rejectAll noDrop ts dropCounter
      | None => []
      end
  end.

(** Rejections at or before [t], in the window that ends there. *)
Definition recent (t : Z) (ts : list Z) : list Z := List.filter (fun t' => t - t' <=? floodWindow) ts.

Lemma recent_recent t t' ts : t <= t' -> recent t' (recent t ts) = recent t' ts.
Proof.
  intros Ht. unfold recent. induction ts as [|x ts IH]; [done|]. cbn. destruct (Z.leb_spec (t - x) floodWindow); cbn; [by rewrite IH|].
  rewrite (proj2 (Z.leb_gt (t' - x) _)) by lia. exact IH.
Qed.

Fixpoint answers (before ts : list Z) : list rejection :=
  match ts with
  | [] => []
  | t :: ts => (if (floodLimit <? length (recent t (before ++ [t])))%nat then Drop else Reset) :: answers (before ++ [t]) ts
  end.

Lemma rejectAll_from before ts now : Sorted Z.le (now :: ts) -> rejectAll false ts (recent now before) = answers before ts.
Proof.
  revert before now. induction ts as [|t ts IH]; intros before now Hs; [done|]. apply Sorted_inv in Hs as [Hs Hh]. apply HdRel_inv in Hh.
  cbn [rejectAll answers]. unfold RejectError. cbn [bool_decide]. change (bool_decide ("default" = "drop")) with false.
  change (bool_decide ("default" = "reply")) with false. change (bool_decide ("default" = "default")) with true. cbv iota zeta.
  fold (recent t (recent now before)). rewrite recent_recent by done.
  assert (recent t before ++ [t] = recent t (before ++ [t])) as E.
  { unfold recent. rewrite List.filter_app. cbn. rewrite Z.sub_diag. by rewrite (proj2 (Z.leb_le 0 _)) by done. }
  rewrite E. f_equal. by apply IH.
Qed.

(** A default reject action answers with a reset until more than fifty connections, the present one
    included, were rejected in the last thirty seconds, and drops exactly then; one that is told
    not to drop always resets. *)
Theorem flooding_is_dropped ts : Sorted Z.le ts ->
  (forall before t after, ts = before ++ t :: after ->
     rejectAll false ts [] !! length before = Some (if (floodLimit <? length (recent t (before ++ [t])))%nat then Drop else Reset)) /\
  rejectAll true ts [] = replicate (length ts) Reset.
Proof.
  intros Hs. split.
  - intros before t after Hts. assert (rejectAll false ts [] = answers [] ts) as ->.
    { destruct ts as [|x ts]; [done|]. apply (rejectAll_from [] (x :: ts) x). constructor; [done|]. by constructor. }
    assert (forall done before t after, answers done (before ++ t :: after) !! length before =
      Some (if (floodLimit <? length (recent t ((done ++ before) ++ [t])))%nat then Drop else Reset)) as Ha.
    { clear. intros done before. revert done. induction before as [|x before IH]; intros done t after; cbn [app length answers].
      - by rewrite app_nil_r.
      - cbn [lookup list_lookup]. rewrite IH. by rewrite <-(assoc_L (++) done [x] before). }
    rewrite Hts. apply (Ha []).
  - generalize (@nil Z). clear Hs. induction ts as [|t ts IH]; intros l; [done|]. cbn. f_equal. apply IH.
Qed.

(** ** Matching early *)

Inductive preVerdict :=
| NoRoute
| PreRejected (method : string) (noDrop : bool)
(** [NewDirectRouteConnection] of the outbound; a resolved name is mapped back for the caller. *)
| Direct (o : Outbound) (x : Context) (mapped : option Addr).

Section PreMatch.
Context `{UnicodeTables} `{MapOrder} `{RuleLibs} `{RouterLibs} {Opts : Type} `{OutboundLibs Opts}.
Variable e : Surroundings.
Variable rules : list (rule * ruleAction).
Variable mgr : Manager.
(** Whether an outbound is an [adapter.DirectRouteOutbound]. *)
Variable isDirect : Outbound -> bool.

Definition asDirect (o : Outbound) : res error Outbound := if isDirect o then Ok o else Err (New "panic: interface conversion").

Definition firstOf (is4 : bool) (l : list Addr) : option Addr := List.find (fun a => if is4 then addr_width a =? 32 else addr_width a =? 128) l.

(** The direct route through an outbound, its destination resolved in the source's family. *)
Definition directRoute (o : Outbound) (x : Context) : res error preVerdict :=
  let dst := f_Destination (facts x) in
  if bool_decide (sa_fqdn dst = "") then Ok (Direct o x None) else
  let is4 := IsIPv4 (f_Source (facts x)) in
  let resolved :=
    if bool_decide (f_DestinationAddresses (facts x) = [])
    then actionResolve (mkResolveOptions "" (if is4 then 3 else 4) false None None) x
    else (None, x) in
  match resolved with
  | (Some er, _) => Err er
  | (None, x) =>
      match firstOf is4 (f_DestinationAddresses (facts x)) with
      | None => Err (New ((if is4 then "no IPv4 address found for domain: " else "no IPv6 address found for domain: ") +:+ sa_fqdn dst))
      | Some a => Ok (Direct o (updFacts (setDestination (mkSocksaddr (Some a) 0 "")) x) (Some a))
      end
  end.

(** [PreMatch]; [hasContext] is that a route context is given. *)
Definition PreMatch (hasContext : bool) (x : Context) : res error preVerdict :=
  '(a, x) ← matchRules e true rules x;
  let network := f_Network (facts x) in
  match a with
  | Some (ActionReject method noDrop) =>
      if bool_decide (method = "reply") && bool_decide (network ∈ ["tcp"; "udp"])
      then Err (New ("reject method `reply` is not supported for " +:+ (if bool_decide (network = "tcp") then "TCP" else "UDP") +:+ " connections"))
      else Ok (PreRejected method noDrop)
  | Some (ActionRoute tag _) =>
      if negb hasContext then Ok NoRoute else
      match Manager_Outbound tag mgr with
      | None => Err (New ("outbound not found: " +:+ tag))
      | Some o => if bool_decide (network ∈ ob_network o) then o ← asDirect o; directRoute o x
                  else Err (New (network +:+ " is not supported by outbound: " +:+ tag))
      end
  | Some _ => Ok NoRoute
  | None =>
      if bool_decide (network <> "icmp") then Ok NoRoute else
      match Default mgr with
      | None => Err (New "panic: nil outbound")
      | Some o => if bool_decide (network ∈ ob_network o) then o ← asDirect o; directRoute o x
                  else Err (New (network +:+ " is not supported by default outbound: " +:+ ob_tag o))
      end
  end.

(** Only ICMP is ever routed without a route context, and a direct route goes to an address. *)
Lemma direct_routes_go_to_addresses hasContext x o x' mapped : PreMatch hasContext x = Ok (Direct o x' mapped) ->
  isDirect o = true /\ sa_fqdn (f_Destination (facts x')) = "" /\ (forall a, mapped = Some a -> sa_addr (f_Destination (facts x')) = Some a).
Proof using Type.
  assert (forall o1 x1 o x' mapped, (o2 ← asDirect o1; directRoute o2 x1) = Ok (Direct o x' mapped) ->
    isDirect o = true /\ sa_fqdn (f_Destination (facts x')) = "" /\ (forall a, mapped = Some a -> sa_addr (f_Destination (facts x')) = Some a)) as Hd.
  { clear o x x' mapped. intros o1 x1 o x' mapped. unfold asDirect. destruct (isDirect o1) eqn:Ei; [|done]. cbn [mbind]. unfold directRoute.
    change (Ok o1 ≫= ?f) with (f o1). cbv beta zeta. case_bool_decide as Ef; [intros [= <- <- <-]; by split_and!|].
    match goal with |- context [match ?r with _ => _ end] => destruct r as [[er|] x2]; [done|] end.
    destruct (firstOf _ _) as [a|]; [|done]. intros [= <- <- <-]. split; [done|]. split; [done|]. by intros ? [= <-]. }
  unfold PreMatch. destruct (matchRules e true rules x) as [[a x1]|er]; [|done]. change (Ok (a, x1) ≫= ?f) with (f (a, x1)). cbv beta iota zeta.
  destruct a as [a|]; [destruct a; try done|].
  - destruct (negb hasContext); [done|]. destruct (Manager_Outbound _ _) as [o1|]; [|done]. case_bool_decide; [apply Hd|done].
  - by destruct (_ && _).
  - case_bool_decide; [done|]. destruct (Default mgr) as [o1|]; [|done]. case_bool_decide; [apply Hd|done].
Qed.
End PreMatch.

Module FloodSample.
(** Fifty-one rejections at once, and one after the window. *)
Definition times : list Z := replicate 51 0 ++ [floodWindow + 1].

Lemma flooding_is_dropped_witness : rejectAll false times [] !! 50%nat = Some Drop /\ rejectAll false times [] !! 51%nat = Some Reset.
Proof.
  assert (Sorted Z.le times) as Hs by (unfold times; cbn; repeat (constructor; [|try constructor; done]); constructor).
  pose proof (proj1 (flooding_is_dropped times Hs)) as Hf. split.
  - exact (Hf (replicate 50 0) 0 [floodWindow + 1] eq_refl).
  - exact (Hf (replicate 51 0) (floodWindow + 1) [] eq_refl).
Defined.
End FloodSample.
