(* ===== verification/V2RayStats.v ===== *)
(** * Traffic statistics of the V2Ray API (src/fork/sing-box/experimental/v2rayapi/stats.go)

    The service is a tracker of routed connections: it counts the bytes of the inbounds, outbounds
    and users it was told to watch, in counters of 64 bits that are created once and never go, so
    that a counter is named here where the source has a pointer.  Connections report the bytes they
    read and write to the counters they were given.  Regular expressions are a parameter. *)

From S2P Require Import Prelude GoStrings.

#[local] Open Scope Z_scope.

Record StatsService := mkStatsService {
  watchedInbounds : gset string;
  watchedOutbounds : gset string;
  watchedUsers : gset string;
  counters : gmap string Z
}.
Implicit Types (s : StatsService).

Record Options := mkOptions { Enabled : bool; Inbounds : list string; Outbounds : list string; Users : list string }.

Definition NewStatsService (o : Options) : option StatsService :=
  if Enabled o then Some (mkStatsService (list_to_set (Inbounds o)) (list_to_set (Outbounds o)) (list_to_set (Users o)) ∅) else None.

Definition setCounters (c : gmap string Z) s : StatsService := mkStatsService (watchedInbounds s) (watchedOutbounds s) (watchedUsers s) c.

Definition loadOrCreateCounter (name : string) s : StatsService :=
  match counters s !! name with Some _ => s | None => setCounters (<[name := 0]> (counters s)) s end.

(** A tracked connection: the counters of what is read from it and written to it. *)
Record Tracked := mkTracked { readCounter : list string; writeCounter : list string }.

Definition countersOf (kind name : string) (t : Tracked) : Tracked :=
  mkTracked (readCounter t ++ [kind +:+ ">>>" +:+ name +:+ ">>>traffic>>>uplink"]) (writeCounter t ++ [kind +:+ ">>>" +:+ name +:+ ">>>traffic>>>downlink"]).

Definition watch (counted : bool) (kind name : string) (t : Tracked) : Tracked := if counted then countersOf kind name t else t.

(** [RoutedConnection] and [RoutedPacketConnection]; [None]: the connection is left as it is. *)
Definition RoutedConnection (inbound user outbound : string) s : option Tracked * StatsService :=
  let countInbound := bool_decide (inbound <> "" /\ inbound ∈ watchedInbounds s) in
  let countOutbound := bool_decide (outbound <> "" /\ outbound ∈ watchedOutbounds s) in
  let countUser := bool_decide (user <> "" /\ user ∈ watchedUsers s) in
  if negb countInbound && negb countOutbound && negb countUser then (None, s) else
  let t := watch countUser "user" user (watch countOutbound "outbound" outbound (watch countInbound "inbound" inbound (mkTracked [] []))) in
  (Some t, foldl (fun s name => loadOrCreateCounter name s) s (readCounter t ++ writeCounter t)).

(** [atomic.Int64.Add], and the counters of a connection after [n] bytes. *)
Definition addTo (n : Z) s (name : string) : StatsService :=
  setCounters (alter (fun v => wrap64 (v + n)) name (counters s)) s.
Definition connRead (n : Z) (t : Tracked) s : StatsService := foldl (addTo n) s (readCounter t).
Definition connWritten (n : Z) (t : Tracked) s : StatsService := foldl (addTo n) s (writeCounter t).

(** [Swap] or [Load] of a counter. *)
Definition takeCounter (reset : bool) (name : string) s : Z * StatsService :=
  let value := default 0 (counters s !! name) in
  (value, if reset then setCounters (<[name := 0]> (counters s)) s else s).

Definition GetStats (name : string) (reset : bool) s : res error (string * Z) * StatsService :=
  match counters s !! name with
  | None => (Err (New (name +:+ " not found.")), s)
  | Some _ => let (value, s) := takeCounter reset name s in (Ok (name, value), s)
  end.

(** The counters the patterns match, one entry per match. *)
Definition matchedBy (matchers : list (string -> bool)) (names : list string) : list string :=
  concat ((fun name => omap (fun m : string -> bool => if m name then Some name else None) matchers) <$> names).

Fixpoint takeAll (reset : bool) (names : list string) s : list (string * Z) * StatsService :=
  match names with
  | [] => ([], s)
  | name :: names =>
      let (value, s) := takeCounter reset name s in
      let (stats, s) := takeAll reset names s in
      ((name, value) :: stats, s)
  end.

Fixpoint compileAll (compile : string -> res error (string -> bool)) (patterns : list string) : res error (list (string -> bool)) :=
  match patterns with
  | [] => Ok []
  | p :: patterns => match compile p with Err e => Err e | Ok m => match compileAll compile patterns with Err e => Err e | Ok l => Ok (m :: l) end end
  end.

Section Query.
Context `{MapOrder} (compile : string -> res error (string -> bool)).

Definition QueryStats (patterns : list string) (isRegexp reset : bool) s : res error (list (string * Z)) * StatsService :=
  let names := (go_range 0 (counters s)).*1 in
  match patterns with
  | [] => let (stats, s) := takeAll reset names s in (Ok stats, s)
  | _ =>
      if isRegexp then
        match compileAll compile patterns with
        | Err e => (Err e, s)
        | Ok matchers => let (stats, s) := takeAll reset (matchedBy matchers names) s in (Ok stats, s)
        end
      else let (stats, s) := takeAll reset (matchedBy ((fun p name => Contains name p) <$> patterns) names) s in (Ok stats, s)
  end.

(** ** Runs *)

Inductive step :=
| Route (inbound user outbound : string)
| Read (conn : nat) (n : Z)
| Written (conn : nat) (n : Z)
| Get (name : string) (reset : bool)
| Query (patterns : list string) (isRegexp reset : bool).

(** A routed connection: from where to where and whose it is, and how the service tracks it. *)
Record Conn := mkConn { c_inbound : string; c_user : string; c_outbound : string; tracked : option Tracked }.

(** What a client has been given with a reset, by counter; the connections routed so far. *)
Record World := mkWorld { service : StatsService; conns : list Conn; collected : gmap string Z }.

Definition credit (stats : list (string * Z)) (m : gmap string Z) : gmap string Z :=
  foldl (fun m st => <[st.1 := default 0 (m !! st.1) + st.2]> m) m stats.

Definition perform (e : step) (w : World) : World :=
  match e with
  | Route inbound user outbound =>
      let (t, s) := RoutedConnection inbound user outbound (service w) in
      mkWorld s (conns w ++ [mkConn inbound user outbound t]) (collected w)
  | Read c n => match conns w !! c ≫= tracked with Some t => mkWorld (connRead n t (service w)) (conns w) (collected w) | None => w end
  | Written c n => match conns w !! c ≫= tracked with Some t => mkWorld (connWritten n t (service w)) (conns w) (collected w) | None => w end
  | Get name reset =>
      let (r, s) := GetStats name reset (service w) in
      mkWorld s (conns w) (match r with Ok st => if reset then credit [st] (collected w) else collected w | Err _ => collected w end)
  | Query patterns isRegexp reset =>
      let (r, s) := QueryStats patterns isRegexp reset (service w) in
      mkWorld s (conns w) (match r with Ok stats => if reset then credit stats (collected w) else collected w | Err _ => collected w end)
  end.

(** Whose bytes a counter is for, told from its name and the options only. *)
Inductive subject := AnInbound | AnOutbound | AUser.
Definition subjectText (k : subject) : string := match k with AnInbound => "inbound" | AnOutbound => "outbound" | AUser => "user" end.
Definition watchList (o : Options) (k : subject) : list string := match k with AnInbound => Inbounds o | AnOutbound => Outbounds o | AUser => Users o end.
Definition statName (k : subject) (tag : string) (uplink : bool) : string :=
  subjectText k +:+ ">>>" +:+ tag +:+ ">>>traffic>>>" +:+ (if uplink then "uplink" else "downlink").

Definition dueTo (o : Options) (name : string) (uplink : bool) (k : subject) (tag : string) : Z :=
  if bool_decide ((tag <> "" /\ tag ∈ watchList o k) /\ statName k tag uplink = name) then 1 else 0.
Definition due (o : Options) (name : string) (uplink : bool) (c : Conn) : Z :=
  dueTo o name uplink AnInbound (c_inbound c) + dueTo o name uplink AnOutbound (c_outbound c) + dueTo o name uplink AUser (c_user c).

(** The bytes of a step for a counter: read, for the uplink, or written, for the downlink, on a
    connection of the inbound, outbound or user the counter is named for. *)
Definition movedBy (o : Options) (w : World) (name : string) (e : step) : Z :=
  match e with
  | Read c n => match conns w !! c with Some c => n * due o name true c | None => 0 end
  | Written c n => match conns w !! c with Some c => n * due o name false c | None => 0 end
  | _ => 0
  end.
Fixpoint run (es : list step) (w : World) : World := match es with [] => w | e :: es => run es (perform e w) end.
Fixpoint moved (o : Options) (name : string) (es : list step) (w : World) : Z :=
  match es with [] => 0 | e :: es => movedBy o w name e + moved o name es (perform e w) end.
End Query.

(** ** Every byte is counted once *)

Definition valueOf (m : gmap string Z) (name : string) : Z := default 0 (m !! name).
(** What the counter holds and what was collected from it. *)
Definition account (w : World) (name : string) : Z := valueOf (counters (service w)) name + valueOf (collected w) name.
Definition sumFor (name : string) (stats : list (string * Z)) : Z := foldr (fun st acc => (if bool_decide (st.1 = name) then st.2 else 0) + acc) 0 stats.

Definition occurrences (name : string) (l : list string) : Z := Z.of_nat (length (List.filter (fun x => bool_decide (x = name)) l)).

(** Connections count to counters that exist, and to those their bytes are due to. *)
Definition known_conn (o : Options) s (c : Conn) : Prop :=
  match tracked c with
  | Some t => Forall (fun name => is_Some (counters s !! name)) (readCounter t ++ writeCounter t) /\
      forall name, occurrences name (readCounter t) = due o name true c /\ occurrences name (writeCounter t) = due o name false c
  | None => forall name uplink, due o name uplink c = 0
  end.
Definition watches (o : Options) s : Prop :=
  watchedInbounds s = list_to_set (Inbounds o) /\ watchedOutbounds s = list_to_set (Outbounds o) /\ watchedUsers s = list_to_set (Users o).
Definition known (o : Options) (w : World) : Prop := watches o (service w) /\ Forall (known_conn o (service w)) (conns w).

Lemma credit_sum stats m name : valueOf (credit stats m) name = valueOf m name + sumFor name stats.
Proof.
  unfold credit. revert m. induction stats as [|[x v] stats IH]; intros m; cbn [foldl sumFor foldr fst snd]; [lia|]. rewrite IH. unfold valueOf, sumFor.
  case_bool_decide as E; [subst; rewrite lookup_insert_eq; cbn; lia|rewrite lookup_insert_ne by done; lia].
Qed.

Lemma takeCounter_value name' name s : valueOf (counters (takeCounter true name s).2) name' = (if bool_decide (name = name') then 0 else valueOf (counters s) name').
Proof. unfold takeCounter, valueOf. cbn. case_bool_decide as E; [subst; by rewrite lookup_insert_eq|by rewrite lookup_insert_ne]. Qed.

(** A collection with reset moves what the counters hold to the client. *)
Lemma takeAll_sum names s name : let r := takeAll true names s in valueOf (counters r.2) name + sumFor name r.1 = valueOf (counters s) name.
Proof.
  revert s. induction names as [|x names IH]; intros s; cbn [takeAll]; [cbn; lia|].
  pose proof (takeCounter_value name x s) as Ht. assert ((takeCounter true x s).1 = valueOf (counters s) x) as Hv by done.
  destruct (takeCounter true x s) as [v s1]. cbn [fst snd] in *. specialize (IH s1). cbv zeta in IH. destruct (takeAll true names s1) as [stats s2]. cbn [fst snd] in *.
  cbn [sumFor foldr fst snd]. fold (sumFor name stats). destruct (decide (x = name)) as [->|Hne]; [rewrite !bool_decide_eq_true_2 in * by done|rewrite !bool_decide_eq_false_2 in * by done]; lia.
Qed.
Lemma takeAll_loads names s : (takeAll false names s).2 = s.
Proof. revert s. induction names as [|x names IH]; intros s; [done|]. cbn. specialize (IH s). destruct (takeAll false names s) as [stats s2]. exact IH. Qed.

Lemma takeAll_known reset names s name : is_Some (counters s !! name) -> is_Some (counters (takeAll reset names s).2 !! name).
Proof.
  revert s. induction names as [|x names IH]; intros s Hs; [done|]. cbn [takeAll]. unfold takeCounter.
  set (s1 := if reset then _ else s). assert (is_Some (counters s1 !! name)) as H1.
  { unfold s1. destruct reset; [|done]. cbn. destruct (decide (x = name)) as [->|Hne]; [rewrite lookup_insert_eq; by eexists|by rewrite lookup_insert_ne]. }
  specialize (IH s1 H1). by destruct (takeAll reset names s1).
Qed.

Lemma addTo_all n l s name : Forall (fun x => is_Some (counters s !! x)) l ->
  let s' := foldl (addTo n) s l in
  wrap64 (valueOf (counters s') name) = wrap64 (valueOf (counters s) name + n * occurrences name l) /\ forall x, is_Some (counters s !! x) -> is_Some (counters s' !! x).
Proof.
  revert s. induction l as [|x l IH]; intros s Hl; cbn [foldl]; [cbn; split; [f_equal; unfold occurrences; cbn; lia|done]|].
  apply Forall_cons in Hl as [Hx Hl].
  assert (forall y, is_Some (counters s !! y) -> is_Some (counters (addTo n s x) !! y)) as Hk by (intros y Hy; cbn; by apply lookup_alter_is_Some).
  destruct (IH (addTo n s x)) as [IH1 IH2]; [eapply Forall_impl; [exact Hl|]; apply Hk|]. split; [|intros y Hy; by apply IH2, Hk]. rewrite IH1.
  unfold valueOf, addTo, occurrences. cbn [counters setCounters List.filter]. destruct (decide (x = name)) as [->|Hne].
  - rewrite lookup_alter_eq, bool_decide_eq_true_2 by done. destruct Hx as [v ->]. cbn [fmap option_fmap option_map default from_option id length].
    rewrite wrap64_add_l. f_equal. lia.
  - by rewrite lookup_alter_ne, bool_decide_eq_false_2 by done.
Qed.

(** New counters start at 0, and stay if they exist. *)
Lemma loadOrCreate_all l s : let s' := foldl (fun s name => loadOrCreateCounter name s) s l in
  (forall name, valueOf (counters s') name = valueOf (counters s) name) /\ (forall name, is_Some (counters s !! name) \/ name ∈ l -> is_Some (counters s' !! name)).
Proof.
  revert s. induction l as [|x l IH]; intros s; cbn [foldl]; [split; [done|]; intros name [?|?%elem_of_nil]; done|].
  assert (forall name, valueOf (counters (loadOrCreateCounter x s)) name = valueOf (counters s) name) as Hv.
  { intros name. unfold loadOrCreateCounter. destruct (counters s !! x) eqn:E; [done|]. unfold valueOf. cbn. destruct (decide (x = name)) as [->|Hne]; [by rewrite lookup_insert_eq, E|by rewrite lookup_insert_ne]. }
  assert (forall name, is_Some (counters s !! name) \/ name = x -> is_Some (counters (loadOrCreateCounter x s) !! name)) as Hk.
  { intros name Hn. unfold loadOrCreateCounter. destruct (counters s !! x) eqn:E; [destruct Hn as [?| ->]; [done|by eexists]|]. cbn.
    destruct (decide (x = name)) as [->|Hne]; [rewrite lookup_insert_eq; by eexists|]. rewrite lookup_insert_ne by done. destruct Hn as [?| ->]; done. }
  destruct (IH (loadOrCreateCounter x s)) as [IH1 IH2]. split; [intros name; by rewrite IH1|].
  intros name Hn. apply IH2. destruct Hn as [Hn|[->|Hn]%elem_of_cons]; [left; apply Hk; by left|left; apply Hk; by right|by right].
Qed.

(** Only the counters change. *)
Definition recounted s s' : Prop := exists c, s' = setCounters c s.
Lemma recounted_refl s : recounted s s.
Proof. exists (counters s). by destruct s. Qed.
Lemma recounted_trans s s' s'' : recounted s s' -> recounted s' s'' -> recounted s s''.
Proof. intros [c ->] [c' ->]. by exists c'. Qed.
Lemma recounted_foldl {A} (f : StatsService -> A -> StatsService) l s : (forall s x, recounted s (f s x)) -> recounted s (foldl f s l).
Proof.
  intros Hf. revert s. induction l as [|x l IH]; intros s; [apply recounted_refl|]. cbn. eapply recounted_trans; [apply Hf|apply IH].
Qed.
Lemma takeAll_recounted reset names s : recounted s (takeAll reset names s).2.
Proof.
  revert s. induction names as [|x names IH]; intros s; [apply recounted_refl|]. cbn [takeAll]. unfold takeCounter.
  set (s1 := if reset then _ else s). specialize (IH s1). destruct (takeAll reset names s1) as [stats s2]. eapply recounted_trans; [|exact IH].
  subst s1. destruct reset; [by eexists|apply recounted_refl].
Qed.

(** With every counter still there, connections stay known. *)
Lemma known_recounted o w s m :
  known o w -> recounted (service w) s -> (forall name, is_Some (counters (service w) !! name) -> is_Some (counters s !! name)) ->
  known o (mkWorld s (conns w) m).
Proof.
  intros [Hw Hc] [c ->] Hk. split; [exact Hw|]. eapply Forall_impl; [exact Hc|]. intros x. unfold known_conn. destruct (tracked x) as [t|]; [|done].
  intros [Ht Hd]. split; [|done]. eapply Forall_impl; [exact Ht|]. apply Hk.
Qed.

(** The counters a connection is given are those its bytes are due to. *)
Lemma occurrences_snoc name l x : occurrences name (l ++ [x]) = occurrences name l + (if bool_decide (x = name) then 1 else 0).
Proof. unfold occurrences. rewrite List.filter_app, length_app. cbn. case_bool_decide; cbn; lia. Qed.

Lemma watch_due o k tag (watched : gset string) name t :
  watched = list_to_set (watchList o k) ->
  let counted := bool_decide (tag <> "" /\ tag ∈ watched) in
  occurrences name (readCounter (watch counted (subjectText k) tag t)) = occurrences name (readCounter t) + dueTo o name true k tag /\
  occurrences name (writeCounter (watch counted (subjectText k) tag t)) = occurrences name (writeCounter t) + dueTo o name false k tag.
Proof.
  intros Hw. cbv zeta. unfold dueTo, watch.
  rewrite (bool_decide_ext (tag <> "" /\ tag ∈ watched) (tag <> "" /\ tag ∈ watchList o k)) by (by rewrite Hw, elem_of_list_to_set).
  destruct (decide (tag <> "" /\ tag ∈ watchList o k)) as [Hc|Hc].
  - rewrite bool_decide_eq_true_2 by done. cbn. rewrite !occurrences_snoc. fold (statName k tag true) (statName k tag false).
    split; f_equal; symmetry; match goal with |- (if bool_decide (_ /\ ?P) then _ else _) = _ => rewrite (bool_decide_ext (_ /\ P) P) by tauto end; done.
  - rewrite !bool_decide_eq_false_2 by tauto. lia.
Qed.

Section Accounts.
Context `{MapOrder} (compile : string -> res error (string -> bool)) (o : Options).

Lemma RoutedConnection_counts inbound user outbound s : watches o s ->
  let r := RoutedConnection inbound user outbound s in
  recounted s r.2 /\ (forall name, valueOf (counters r.2) name = valueOf (counters s) name) /\
  (forall name, is_Some (counters s !! name) -> is_Some (counters r.2 !! name)) /\ known_conn o r.2 (mkConn inbound user outbound r.1).
Proof using Type.
  intros (Hi & Ho & Hu). cbv zeta.
  set (counted := fun (tag : string) (l : gset string) => bool_decide (tag <> "" /\ tag ∈ l)).
  set (t := watch (counted user (watchedUsers s)) "user" user (watch (counted outbound (watchedOutbounds s)) "outbound" outbound
    (watch (counted inbound (watchedInbounds s)) "inbound" inbound (mkTracked [] [])))).
  assert (forall name, occurrences name (readCounter t) = due o name true (mkConn inbound user outbound None) /\
    occurrences name (writeCounter t) = due o name false (mkConn inbound user outbound None)) as Hd.
  { intros name. unfold due. cbn [c_inbound c_user c_outbound].
    destruct (watch_due o AnInbound inbound _ name (mkTracked [] []) Hi) as [R1 W1].
    destruct (watch_due o AnOutbound outbound _ name (watch (counted inbound (watchedInbounds s)) "inbound" inbound (mkTracked [] [])) Ho) as [R2 W2].
    destruct (watch_due o AUser user _ name (watch (counted outbound (watchedOutbounds s)) "outbound" outbound
      (watch (counted inbound (watchedInbounds s)) "inbound" inbound (mkTracked [] []))) Hu) as [R3 W3].
    cbn [subjectText] in *. unfold t, counted in *. rewrite R3, W3, R2, W2, R1, W1. by cbn. }
  unfold RoutedConnection. fold (counted inbound (watchedInbounds s)) (counted outbound (watchedOutbounds s)) (counted user (watchedUsers s)). fold t.
  destruct (negb (counted inbound _) && _ && _) eqn:E; cbn [fst snd].
  - split; [apply recounted_refl|]. split; [done|]. split; [done|]. cbn. intros name uplink. destruct (Hd name) as [Hr Hw].
    rewrite !andb_true_iff, !negb_true_iff in E. destruct E as [[E1 E2] E3]. unfold t in Hr, Hw. rewrite E1, E2, E3 in Hr, Hw. by destruct uplink.
  - destruct (loadOrCreate_all (readCounter t ++ writeCounter t) s) as [Hv Hk].
    split; [apply recounted_foldl; intros s' x; unfold loadOrCreateCounter; destruct (counters s' !! x); [apply recounted_refl|by eexists]|].
    split; [done|]. split; [intros name Hn; apply Hk; by left|]. split; [|exact Hd]. apply Forall_forall. intros name Hn. apply Hk. by right.
Qed.

(** Statistics that were collected with a reset are credited. *)
Lemma collect_account reset names w name (stats : list (string * Z)) s : takeAll reset names (service w) = (stats, s) ->
  account (mkWorld s (conns w) (if reset then credit stats (collected w) else collected w)) name = account w name.
Proof using Type.
  intros E. unfold account. cbn [service collected]. destruct reset.
  - pose proof (takeAll_sum names (service w) name) as Hs. rewrite E in Hs. cbn [fst snd] in Hs. rewrite credit_sum. lia.
  - pose proof (takeAll_loads names (service w)) as Hl. rewrite E in Hl. cbn in Hl. by subst.
Qed.
Lemma collect_known reset names w (stats : list (string * Z)) s c : takeAll reset names (service w) = (stats, s) -> known o w -> known o (mkWorld s (conns w) c).
Proof using Type.
  intros E Hw. pose proof (takeAll_recounted reset names (service w)) as Hr. rewrite E in Hr. apply known_recounted; [done..|].
  intros name Hn. pose proof (takeAll_known reset names (service w) name Hn) as Hk. by rewrite E in Hk.
Qed.

(** A query is one collection, or refused. *)
Lemma QueryStats_collects patterns isRegexp reset s :
  (exists names stats s', takeAll reset names s = (stats, s') /\ QueryStats compile patterns isRegexp reset s = (Ok stats, s')) \/
  (exists e, QueryStats compile patterns isRegexp reset s = (Err e, s)).
Proof using Type.
  assert (forall names, exists names0 stats s', takeAll reset names0 s = (stats, s') /\ (let (stats, s) := takeAll reset names s in (Ok (E := error) stats, s)) = (Ok stats, s')) as Ht.
  { intros names. exists names. destruct (takeAll reset names s) as [stats s']. by eexists _, _. }
  unfold QueryStats. destruct patterns as [|p ps]; [left; apply Ht|]. destruct isRegexp; [|left; apply Ht].
  destruct (compileAll compile (p :: ps)); [left; apply Ht|right; by eexists].
Qed.
Lemma GetStats_collects name reset s :
  (exists v s', takeAll reset [name] s = ([(name, v)], s') /\ GetStats name reset s = (Ok (name, v), s')) \/ (exists e, GetStats name reset s = (Err e, s)).
Proof using Type. unfold GetStats. destruct (counters s !! name); [|right; by eexists]. left. by eexists _, _. Qed.

(** Bytes counted to counters that exist. *)
Lemma counted_accounts n l w name : known o w -> Forall (fun x => is_Some (counters (service w) !! x)) l ->
  let w' := mkWorld (foldl (addTo n) (service w) l) (conns w) (collected w) in known o w' /\ wrap64 (account w' name) = wrap64 (account w name + n * occurrences name l).
Proof using Type.
  intros Hw Hl. destruct (addTo_all n l (service w) name Hl) as [Ha Hk]. split.
  - apply known_recounted; [done| |done]. apply recounted_foldl. by eexists.
  - unfold account. cbn [service collected]. rewrite <-wrap64_add_l, Ha, wrap64_add_l. f_equal. lia.
Qed.

Lemma perform_accounts e w name : known o w ->
  known o (perform compile e w) /\ wrap64 (account (perform compile e w) name) = wrap64 (account w name + movedBy o w name e).
Proof using Type.
  intros Hw. pose proof Hw as [Hset Hconns].
  assert (forall c (uplink : bool) n, conns w !! c = Some n -> tracked n = None -> due o name uplink n = 0) as Huntracked.
  { intros c uplink n Hc Hn. apply (Forall_lookup_1 _ _ _ _ Hconns) in Hc. unfold known_conn in Hc. rewrite Hn in Hc. apply Hc. }
  assert (forall c n t, conns w !! c = Some n -> tracked n = Some t -> Forall (fun x => is_Some (counters (service w) !! x)) (readCounter t ++ writeCounter t) /\
    occurrences name (readCounter t) = due o name true n /\ occurrences name (writeCounter t) = due o name false n) as Htracked.
  { intros c n t Hc Hn. apply (Forall_lookup_1 _ _ _ _ Hconns) in Hc. unfold known_conn in Hc. rewrite Hn in Hc. destruct Hc as [Hf Hd]. split; [done|apply Hd]. }
  destruct e as [inbound user outbound|c n|c n|x reset|patterns isRegexp reset]; cbn [perform movedBy].
  - destruct (RoutedConnection_counts inbound user outbound (service w) Hset) as (Hr & Hv & Hk & Ht). destruct (RoutedConnection _ _ _ _) as [t s]. cbn [fst snd] in *. split.
    + destruct (known_recounted o w s (collected w) Hw Hr Hk) as [Hs' Hc']. split; [done|]. apply Forall_app_2; [done|]. by apply Forall_singleton.
    + unfold account. cbn [service collected]. rewrite Hv. f_equal. lia.
  - destruct (conns w !! c) as [k|] eqn:E; cbn; [|split; [done|f_equal; lia]]. destruct (tracked k) as [t|] eqn:Et.
    + destruct (Htracked _ _ _ E Et) as ([Hf _]%Forall_app & <- & _). by apply counted_accounts.
    + rewrite (Huntracked c true k E Et). split; [done|f_equal; lia].
  - destruct (conns w !! c) as [k|] eqn:E; cbn; [|split; [done|f_equal; lia]]. destruct (tracked k) as [t|] eqn:Et.
    + destruct (Htracked _ _ _ E Et) as ([_ Hf]%Forall_app & _ & <-). by apply counted_accounts.
    + rewrite (Huntracked c false k E Et). split; [done|f_equal; lia].
  - destruct (GetStats_collects x reset (service w)) as [(v & s' & Et & ->)|[e ->]]; [|destruct w; split; [done|f_equal; unfold account; cbn; lia]].
    split; [by eapply collect_known|]. rewrite (collect_account _ _ w name _ _ Et). f_equal. lia.
  - destruct (QueryStats_collects patterns isRegexp reset (service w)) as [(names & stats & s' & Et & ->)|[e ->]]; [|destruct w; split; [done|f_equal; unfold account; cbn; lia]].
    split; [by eapply collect_known|]. rewrite (collect_account _ _ w name _ _ Et). f_equal. lia.
Qed.

(** C31. However connections are routed, move bytes and statistics are collected: for every counter,
    what it holds and what was collected from it with a reset is what has been read, for an uplink
    counter, or written, for a downlink one, on the connections of the watched inbound, outbound or
    user it is named for, in 64-bit arithmetic; nothing is lost to a reset or collected twice, and no
    counter counts anything else. *)
Theorem stats_account_for_traffic s es name : NewStatsService o = Some s ->
  let w := mkWorld s [] ∅ in wrap64 (account (run compile es w) name) = wrap64 (moved compile o name es w).
Proof using Type.
  intros Hs w. assert (account w name = 0 /\ watches o s) as [H0 Hset].
  { unfold NewStatsService in Hs. destruct (Enabled o); [injection Hs as <-; split; [done|by split]|done]. }
  assert (known o w) as Hw by (split; [done|constructor]). rewrite <-(Z.add_0_l (moved _ _ _ _ _)), <-H0. clearbody w. clear Hs H0 Hset.
  revert w Hw. induction es as [|e es IH]; intros w Hw; cbn [run moved]; [f_equal; lia|].
  destruct (perform_accounts e w name Hw) as [Hw' Ha]. rewrite IH by done. rewrite <-wrap64_add_l, Ha, wrap64_add_l. f_equal. lia.
Qed.
End Accounts.

Module StatsSample.
#[local] Instance order : MapOrder := canonical_order.
Definition noRegexp (p : string) : res error (string -> bool) := Err (New ("bad pattern " +:+ p)).
Definition watching : StatsService := mkStatsService {["in"]} ∅ {["alice"]} ∅.
Definition events : list step := [Route "in" "alice" "out"; Read 0 100; Get "user>>>alice>>>traffic>>>uplink" true; Read 0 20; Written 0 7; Query ["user"] false true; Read 0 3].

Lemma stats_account_for_traffic_witness :
  NewStatsService (mkOptions true ["in"] [] ["alice"]) = Some watching /\
  valueOf (counters (service (run noRegexp events (mkWorld watching [] ∅)))) "user>>>alice>>>traffic>>>uplink" = 3 /\
  wrap64 (account (run noRegexp events (mkWorld watching [] ∅)) "user>>>alice>>>traffic>>>uplink") = 123.
Proof.
  assert (NewStatsService (mkOptions true ["in"] [] ["alice"]) = Some watching) as E by reflexivity. split; [exact E|]. split; [reflexivity|].
  etrans; [exact (stats_account_for_traffic noRegexp (mkOptions true ["in"] [] ["alice"]) _ events "user>>>alice>>>traffic>>>uplink" E)|]. reflexivity.
Defined.

(** A counter two patterns match is reported twice. *)
Example matched_twice : (QueryStats noRegexp ["alice"; "uplink"] false false (service (run noRegexp [Route "" "alice" "out"; Read 0 5] (mkWorld watching [] ∅)))).1 =
  Ok [("user>>>alice>>>traffic>>>uplink", 5); ("user>>>alice>>>traffic>>>uplink", 5); ("user>>>alice>>>traffic>>>downlink", 0)].
Proof. by vm_compute. Qed.
End StatsSample.
