(* ===== verification/SSM.v ===== *)
(** * Managed Shadowsocks users (src/fork/sing-box/service/ssmapi/user.go, traffic.go, api.go)

    The management API of a Shadowsocks server: users that are added, changed and removed, and the
    traffic of each.  Counters are cells of 64 bits in a heap, since a connection keeps the
    counters it was given when the manager drops them.  The server that takes the users is outside:
    whether it accepts them is a parameter of every change.  Requests come with the user of their
    path and with their body decoded. *)

From S2P Require Import Prelude GoStrings.

#[local] Open Scope Z_scope.

(** ** Counters *)

Inductive kind := Uplink | Downlink | UplinkPackets | DownlinkPackets | TCPSessions | UDPSessions.

#[export] Instance kind_eq_dec : EqDecision kind.
Proof. solve_decision. Defined.
#[export] Instance kind_countable : Countable kind.
Proof.
  refine (inj_countable' (fun k => match k with Uplink => 0 | Downlink => 1 | UplinkPackets => 2 | DownlinkPackets => 3 | TCPSessions => 4 | UDPSessions => 5 end%nat)
    (fun n => match n with 0 => Uplink | 1 => Downlink | 2 => UplinkPackets | 3 => DownlinkPackets | 4 => TCPSessions | _ => UDPSessions end%nat) _). by intros [].
Defined.

Definition allKinds : list kind := [Uplink; Downlink; UplinkPackets; DownlinkPackets; TCPSessions; UDPSessions].

Lemma kind_listed (k : kind) : k ∈ allKinds.
Proof. apply list_elem_of_In. destruct k; cbn; tauto. Qed.

(** The cell of a global counter. *)
Definition global (k : kind) : nat :=
  match k with Uplink => 0 | Downlink => 1 | UplinkPackets => 2 | DownlinkPackets => 3 | TCPSessions => 4 | UDPSessions => 5 end.

(** The counters of users by kind: the maps [userUplink], [userDownlink] and so on. *)
Record TrafficManager := mkTrafficManager { cells : list Z; userCounters : kind -> gmap string nat }.
Implicit Types (s : TrafficManager).

Definition NewTrafficManager : TrafficManager := mkTrafficManager (replicate 6 0) (fun _ => ∅).

Definition setCells (l : list Z) s : TrafficManager := mkTrafficManager l (userCounters s).

(** The entries of a map for the users that remain. *)
Definition keptFor (users : list string) (m : gmap string nat) : gmap string nat :=
  foldl (fun kept user => match m !! user with Some counter => <[user := counter]> kept | None => kept end) ∅ users.

Definition Traffic_UpdateUsers (users : list string) s : TrafficManager :=
  mkTrafficManager (cells s) (fun k => keptFor users (userCounters s k)).

(** The counter of a user, made if there is none. *)
Definition ensureCounter (user : string) s (k : kind) : TrafficManager :=
  match userCounters s k !! user with
  | Some _ => s
  | None => mkTrafficManager (cells s ++ [0]) (fun k' => if decide (k' = k) then <[user := length (cells s)]> (userCounters s k) else userCounters s k')
  end.
Definition userCounter (user : string) s : TrafficManager := foldl (ensureCounter user) s allKinds.
Definition counterOf (user : string) s (k : kind) : nat := default 0%nat (userCounters s k !! user).

(** [atomic.Int64.Add]. *)
Definition addCell (n : Z) s (c : nat) : TrafficManager := setCells (alter (fun v => wrap64 (v + n)) c (cells s)) s.

(** A counting connection: what its reads and writes, and the packets of both, are added to. *)
Record Tracked := mkTracked { t_user : string; readCounter : list nat; writeCounter : list nat; readPackets : list nat; writePackets : list nat }.

Definition TrackConnection (user : string) s : Tracked * TrafficManager :=
  let s := userCounter user (addCell 1 s (global TCPSessions)) in
  (mkTracked user [global Uplink; counterOf user s Uplink] [global Downlink; counterOf user s Downlink] [] [], addCell 1 s (counterOf user s TCPSessions)).

Definition TrackPacketConnection (user : string) s : Tracked * TrafficManager :=
  let s := userCounter user (addCell 1 s (global UDPSessions)) in
  (mkTracked user [global Uplink; counterOf user s Uplink] [global Downlink; counterOf user s Downlink]
     [global UplinkPackets; counterOf user s UplinkPackets] [global DownlinkPackets; counterOf user s DownlinkPackets],
   addCell 1 s (counterOf user s UDPSessions)).

(** [n] bytes through a counting connection, for packets one packet. *)
Definition connRead (n : Z) (t : Tracked) s : TrafficManager := foldl (addCell 1) (foldl (addCell n) s (readCounter t)) (readPackets t).
Definition connWritten (n : Z) (t : Tracked) s : TrafficManager := foldl (addCell 1) (foldl (addCell n) s (writeCounter t)) (writePackets t).

Record UserObject := mkUserObject {
  UserName : string; Password : string;
  DownlinkBytes : Z; UplinkBytes : Z; DownlinkPacketCount : Z; UplinkPacketCount : Z; TCPSessionCount : Z; UDPSessionCount : Z
}.

Definition newUser (name password : string) : UserObject := mkUserObject name password 0 0 0 0 0 0.
Definition setField (k : kind) (v : Z) (u : UserObject) : UserObject :=
  let '(mkUserObject n p db ub dp up t d) := u in
  match k with
  | Uplink => mkUserObject n p db v dp up t d
  | Downlink => mkUserObject n p v ub dp up t d
  | UplinkPackets => mkUserObject n p db ub dp v t d
  | DownlinkPackets => mkUserObject n p db ub v up t d
  | TCPSessions => mkUserObject n p db ub dp up v d
  | UDPSessions => mkUserObject n p db ub dp up t v
  end.
Definition field (u : UserObject) (k : kind) : Z :=
  match k with
  | Uplink => UplinkBytes u | Downlink => DownlinkBytes u | UplinkPackets => UplinkPacketCount u
  | DownlinkPackets => DownlinkPacketCount u | TCPSessions => TCPSessionCount u | UDPSessions => UDPSessionCount u
  end.

(** [Swap] or [Load]. *)
Definition takeCell (swap : bool) (c : nat) s : Z * TrafficManager :=
  (default 0 (cells s !! c), if swap then setCells (<[c := 0]> (cells s)) s else s).

Definition readField (swap : bool) (p : UserObject * TrafficManager) (k : kind) : UserObject * TrafficManager :=
  let (u, s) := p in
  match userCounters s k !! UserName u with
  | Some c => let (v, s) := takeCell swap c s in (setField k v u, s)
  | None => (u, s)
  end.
Definition readUser (swap : bool) (u : UserObject) s : UserObject * TrafficManager := foldl (readField swap) (u, s) allKinds.
Definition ReadUser (u : UserObject) s : UserObject := (readUser false u s).1.

Fixpoint ReadUsers (users : list UserObject) (swap : bool) s : list UserObject * TrafficManager :=
  match users with
  | [] => ([], s)
  | u :: users => let (u, s) := readUser swap u s in let (users, s) := ReadUsers users swap s in (u :: users, s)
  end.

(** The global counters in the order of [allKinds]. *)
Definition ReadGlobal (swap : bool) s : list Z * TrafficManager :=
  foldl (fun '(l, s) k => let (v, s) := takeCell swap (global k) s in (l ++ [v], s)) ([], s) allKinds.

(** ** Users *)

(** [server]: the users and keys the server was last given and took. *)
Record UserManager := mkUserManager { usersMap : gmap string string; server : list (string * string); trafficManager : TrafficManager }.
Implicit Types (m : UserManager).

Definition NewUserManager : UserManager := mkUserManager ∅ [] NewTrafficManager.

Definition setUsers (u : gmap string string) m : UserManager := mkUserManager u (server m) (trafficManager m).
Definition setTraffic s m : UserManager := mkUserManager (usersMap m) (server m) s.

Section Users.
Context `{MapOrder}.

(** [refused] is the answer of the server. *)
Definition postUpdate (refused : option error) (updated : bool) m : option error * UserManager :=
  let users := go_range 0 (usersMap m) in
  match refused with
  | Some e => (Some e, m)
  | None => (None, mkUserManager (usersMap m) users (if updated then Traffic_UpdateUsers users.*1 (trafficManager m) else trafficManager m))
  end.

Definition List_ m : list UserObject := (fun u => newUser u.1 u.2) <$> go_range 0 (usersMap m).

Definition Add (refused : option error) (username password : string) m : option error * UserManager :=
  match usersMap m !! username with
  | Some _ => (Some (New ("user " +:+ username +:+ " already exists")), m)
  | None => postUpdate refused true (setUsers (<[username := password]> (usersMap m)) m)
  end.
Definition Get (username : string) m : option string := usersMap m !! username.
Definition Update (refused : option error) (username password : string) m : option error * UserManager :=
  postUpdate refused true (setUsers (<[username := password]> (usersMap m)) m).
Definition Delete (refused : option error) (username : string) m : option error * UserManager :=
  postUpdate refused true (setUsers (delete username (usersMap m)) m).

(** ** Requests *)

Inductive responseBody :=
| Empty
| PlainText (text : string)
| OneUser (user : UserObject)
| UserList (users : list UserObject)
| Stats (totals : list Z) (users : list UserObject).
Record Response := mkResponse { status : Z; body : responseBody }.

Definition badRequest (e : error) : Response := mkResponse 400 (PlainText (errorText e)).

Definition listUser m : Response := mkResponse 200 (UserList (List_ m)).

(** Requests with a body have it decoded, the name and key of a user, or not. *)
Definition addUser (refused : option error) (decoded : res error (string * string)) m : Response * UserManager :=
  match decoded with
  | Err e => (badRequest e, m)
  | Ok (name, password) =>
      match Add refused name password m with
      | (Some e, m) => (badRequest e, m)
      | (None, m) => (mkResponse 201 Empty, m)
      end
  end.

Definition getUser (userName : string) m : Response :=
  if bool_decide (userName = "") then mkResponse 400 Empty else
  match Get userName m with
  | None => mkResponse 404 Empty
  | Some uPSK => mkResponse 200 (OneUser (ReadUser (newUser userName uPSK) (trafficManager m)))
  end.

Definition updateUser (refused : option error) (userName : string) (decoded : res error string) m : Response * UserManager :=
  if bool_decide (userName = "") then (mkResponse 400 Empty, m) else
  match decoded with
  | Err e => (badRequest e, m)
  | Ok password =>
      match Get userName m with
      | None => (mkResponse 404 Empty, m)
      | Some _ =>
          match Update refused userName password m with
          | (Some e, m) => (badRequest e, m)
          | (None, m) => (mkResponse 204 Empty, m)
          end
      end
  end.

Definition deleteUser (refused : option error) (userName : string) m : Response * UserManager :=
  if bool_decide (userName = "") then (mkResponse 400 Empty, m) else
  match Get userName m with
  | None => (mkResponse 404 Empty, m)
  | Some _ =>
      match Delete refused userName m with
      | (Some e, m) => (badRequest e, m)
      | (None, m) => (mkResponse 204 Empty, m)
      end
  end.

Definition hidePassword (u : UserObject) : UserObject :=
  let '(mkUserObject n _ db ub dp up t d) := u in mkUserObject n "" db ub dp up t d.

Definition getStats (requireClear : bool) m : Response * UserManager :=
  let (users, s) := ReadUsers (List_ m) requireClear (trafficManager m) in
  let (totals, s) := ReadGlobal requireClear s in
  (mkResponse 200 (Stats totals (hidePassword <$> users)), setTraffic s m).

(** ** Runs *)

Inductive request :=
| AddUser (refused : option error) (decoded : res error (string * string))
| UpdateUser (refused : option error) (userName : string) (decoded : res error string)
| DeleteUser (refused : option error) (userName : string)
| GetStats (requireClear : bool).

Inductive event :=
| Request (r : request)
| Connect (packets : bool) (user : string)
| Read (conn : nat) (n : Z)
| Written (conn : nat) (n : Z)
| Disconnect (conn : nat).

Definition serve (r : request) m : Response * UserManager :=
  match r with
  | AddUser refused decoded => addUser refused decoded m
  | UpdateUser refused userName decoded => updateUser refused userName decoded m
  | DeleteUser refused userName => deleteUser refused userName m
  | GetStats requireClear => getStats requireClear m
  end.

(** The open connections, and what was reported of every user's counters when they were cleared. *)
Record World := mkWorld { manager : UserManager; conns : list Tracked; cleared : gmap (kind * string) Z }.

Definition credit (u : UserObject) (r : gmap (kind * string) Z) : gmap (kind * string) Z :=
  foldl (fun r k => <[(k, UserName u) := default 0 (r !! (k, UserName u)) + field u k]> r) r allKinds.

(** What a response reports as cleared. *)
Definition reported (r : request) (resp : Response) : list UserObject :=
  match r, body resp with GetStats true, Stats _ users => users | _, _ => [] end.

Definition perform (e : event) (w : World) : World :=
  let m := manager w in
  match e with
  | Request r => let (resp, m) := serve r m in mkWorld m (conns w) (foldl (fun c u => credit u c) (cleared w) (reported r resp))
  | Connect packets user =>
      let (t, s) := (if packets then TrackPacketConnection else TrackConnection) user (trafficManager m) in
      mkWorld (setTraffic s m) (conns w ++ [t]) (cleared w)
  | Read c n => match conns w !! c with Some t => mkWorld (setTraffic (connRead n t (trafficManager m)) m) (conns w) (cleared w) | None => w end
  | Written c n => match conns w !! c with Some t => mkWorld (setTraffic (connWritten n t (trafficManager m)) m) (conns w) (cleared w) | None => w end
  | Disconnect c => mkWorld m (delete c (conns w)) (cleared w)
  end.
Fixpoint run (es : list event) (w : World) : World := match es with [] => w | e :: es => run es (perform e w) end.
End Users.

(** ** The users the server has *)

Section Served.
Context `{MapOrder}.

(** What a request did to the users: nothing, with the server as before, or a change that was asked
    for, which the server took or not. *)
Lemma serve_users r m resp m' : serve r m = (resp, m') ->
  (usersMap m' = usersMap m /\ server m' = server m) \/ (status resp = 400 /\ server m' = server m) \/ list_to_map (server m') = usersMap m'.
Proof using Type.
  assert (forall refused updated m e m', postUpdate refused updated m = (e, m') ->
    (e <> None /\ m' = m) \/ (e = None /\ list_to_map (server m') = usersMap m' /\ usersMap m' = usersMap m)) as Hpost.
  { intros refused updated m0 e m1. unfold postUpdate. destruct refused; intros [= <- <-]; [by left|right]. cbn. split; [done|]. split; [|done]. apply list_to_map_go_range. }
  destruct r as [refused decoded|refused name decoded|refused name|clear]; cbn [serve].
  - unfold addUser. destruct decoded as [[name password]|e]; [|intros [= <- <-]; by left]. unfold Add. destruct (usersMap m !! name); [intros [= <- <-]; by left|].
    destruct (postUpdate _ _ _) as [[e|] m1] eqn:E; intros [= <- <-]; destruct (Hpost _ _ _ _ _ E) as [[? ->]|[? [? ?]]]; try done; [by right; left|by right; right].
  - unfold updateUser. case_bool_decide; [intros [= <- <-]; by left|]. destruct decoded as [password|e]; [|intros [= <- <-]; by left].
    destruct (Get name m); [|intros [= <- <-]; by left]. unfold Update.
    destruct (postUpdate _ _ _) as [[e|] m1] eqn:E; intros [= <- <-]; destruct (Hpost _ _ _ _ _ E) as [[? ->]|[? [? ?]]]; try done; [by right; left|by right; right].
  - unfold deleteUser. case_bool_decide; [intros [= <- <-]; by left|]. destruct (Get name m); [|intros [= <- <-]; by left]. unfold Delete.
    destruct (postUpdate _ _ _) as [[e|] m1] eqn:E; intros [= <- <-]; destruct (Hpost _ _ _ _ _ E) as [[? ->]|[? [? ?]]]; try done; [by right; left|by right; right].
  - unfold getStats. destruct (ReadUsers _ _ _) as [users s]. destruct (ReadGlobal _ _) as [totals s']. intros [= <- <-]. by left.
Qed.

(** The responses of a run, and the managers after them. *)
Fixpoint serveAll (rs : list request) m : list Response * UserManager :=
  match rs with [] => ([], m) | r :: rs => let (resp, m) := serve r m in let (l, m) := serveAll rs m in (resp :: l, m) end.

(** As long as no request fails with 400, the server has exactly the users of the manager, with
    their keys. *)
Theorem server_has_the_users rs resps m : serveAll rs NewUserManager = (resps, m) -> Forall (fun resp => status resp <> 400) resps ->
  list_to_map (server m) = usersMap m.
Proof using Type.
  assert (forall m0, list_to_map (server m0) = usersMap m0 -> serveAll rs m0 = (resps, m) -> Forall (fun resp => status resp <> 400) resps ->
    list_to_map (server m) = usersMap m) as Hall; [|by apply Hall].
  revert resps. induction rs as [|r rs IH]; intros resps m0 H0; cbn [serveAll]; [by intros [= <- <-]|].
  destruct (serve r m0) as [resp m1] eqn:E. destruct (serveAll rs m1) as [l m2] eqn:E2. intros [= <- <-] [Hs Hl]%Forall_cons.
  refine (IH l m1 _ E2 Hl). destruct (serve_users _ _ _ _ E) as [[-> ->]|[[? _]|?]]; done.
Qed.

(** A user the server refused is kept: the same request again fails because the user exists. *)
Lemma refused_user_is_kept e name password m : usersMap m !! name = None ->
  let (r1, m1) := addUser (Some e) (Ok (name, password)) m in
  status r1 = 400 /\ server m1 = server m /\ Get name m1 = Some password /\
  addUser None (Ok (name, password)) m1 = (mkResponse 400 (PlainText ("user " +:+ name +:+ " already exists")), m1).
Proof using Type.
  intros Hn. unfold addUser, Add. rewrite Hn. cbn. unfold Get. cbn. rewrite lookup_insert_eq. done.
Qed.
End Served.

(** ** Every byte of a user is counted once *)

(** The value of a user's counter; what was cleared of it and is there now. *)
Definition val (k : kind) (u : string) s : Z := match userCounters s k !! u with Some c => default 0 (cells s !! c) | None => 0 end.
Definition account (k : kind) (u : string) (w : World) : Z := val k u (trafficManager (manager w)) + default 0 (cleared w !! (k, u)).

(** What an event moves for a user, by the connections of that user. *)
Definition movedBy (k : kind) (u : string) (w : World) (e : event) : Z :=
  match e with
  | Connect packets user => if decide (user = u /\ k = if packets then UDPSessions else TCPSessions) then 1 else 0
  | Read c n =>
      match conns w !! c with
      | Some t => if decide (t_user t = u) then match k with Uplink => n | UplinkPackets => if nonempty (readPackets t) then 1 else 0 | _ => 0 end else 0
      | None => 0
      end
  | Written c n =>
      match conns w !! c with
      | Some t => if decide (t_user t = u) then match k with Downlink => n | DownlinkPackets => if nonempty (writePackets t) then 1 else 0 | _ => 0 end else 0
      | None => 0
      end
  | Request _ | Disconnect _ => 0
  end.

Definition locs (t : Tracked) : list nat := readCounter t ++ writeCounter t ++ readPackets t ++ writePackets t.

(** Counters of users are cells of their own; a connection counts to cells of its user only. *)
Record sound s (ts : list Tracked) : Prop := {
  s_len : (6 <= length (cells s))%nat;
  s_range : forall k u c, userCounters s k !! u = Some c -> (6 <= c < length (cells s))%nat;
  s_inj : forall k u k' u' c, userCounters s k !! u = Some c -> userCounters s k' !! u' = Some c -> k = k' /\ u = u';
  s_conns : Forall (fun t => Forall (fun c => (c < length (cells s))%nat /\ forall k u, userCounters s k !! u = Some c -> u = t_user t) (locs t)) ts
}.

(** The connections of [u] count to the counters [u] has now. *)
Definition attachedTo (u : string) s (t : Tracked) : Prop :=
  (forall k, is_Some (userCounters s k !! u)) /\
  readCounter t = [global Uplink; counterOf u s Uplink] /\ writeCounter t = [global Downlink; counterOf u s Downlink] /\
  ((readPackets t = [] /\ writePackets t = []) \/
   (readPackets t = [global UplinkPackets; counterOf u s UplinkPackets] /\ writePackets t = [global DownlinkPackets; counterOf u s DownlinkPackets])).
Definition attached (u : string) s (ts : list Tracked) : Prop := Forall (fun t => t_user t = u -> attachedTo u s t) ts.

(** Only values change. *)
Definition sameMaps s s' : Prop := (forall k, userCounters s' k = userCounters s k) /\ length (cells s') = length (cells s).

#[export] Instance sameMaps_refl : Reflexive sameMaps.
Proof. done. Qed.
#[export] Instance sameMaps_trans : Transitive sameMaps.
Proof. intros s1 s2 s3 [H1 H2] [H3 H4]. split; [intros k; by rewrite H3|by rewrite H4]. Qed.

Lemma sameMaps_foldl {A} (f : TrafficManager -> A -> TrafficManager) l s : (forall s x, sameMaps s (f s x)) -> sameMaps s (foldl f s l).
Proof. intros Hf. revert s. induction l as [|x l IH]; intros s; cbn; [done|]. etrans; [apply Hf|apply IH]. Qed.
Lemma addCell_maps n s c : sameMaps s (addCell n s c).
Proof. split; [done|]. cbn. by rewrite length_alter. Qed.
Lemma takeCell_maps swap c s : sameMaps s (takeCell swap c s).2.
Proof. destruct swap; [|done]. split; [done|]. cbn. by rewrite length_insert. Qed.
Lemma connRead_maps n t s : sameMaps s (connRead n t s).
Proof. transitivity (foldl (addCell n) s (readCounter t)); apply sameMaps_foldl; intros; apply addCell_maps. Qed.
Lemma connWritten_maps n t s : sameMaps s (connWritten n t s).
Proof. transitivity (foldl (addCell n) s (writeCounter t)); apply sameMaps_foldl; intros; apply addCell_maps. Qed.

Lemma sound_maps s s' ts : sameMaps s s' -> sound s ts -> sound s' ts.
Proof.
  intros [Hm Hl] [H1 H2 H3 H4]. constructor; rewrite ?Hl; [done|..].
  - intros k u c. rewrite Hm. apply H2.
  - intros k u k' u' c. rewrite !Hm. apply H3.
  - eapply Forall_impl; [exact H4|]. intros t Ht. eapply Forall_impl; [exact Ht|]. intros c [Hc Hu]. split; [done|]. intros k u. rewrite Hm. apply Hu.
Qed.
Lemma attached_kept u s s' ts : (forall k c, userCounters s k !! u = Some c -> userCounters s' k !! u = Some c) -> attached u s ts -> attached u s' ts.
Proof.
  intros Hm Ha. eapply Forall_impl; [exact Ha|]. intros t Ht Hu. destruct (Ht Hu) as (H1 & H2).
  assert (forall k, userCounters s' k !! u = userCounters s k !! u) as E by (intros k; destruct (H1 k) as [c Hc]; rewrite Hc; by apply Hm).
  split; [intros k; by rewrite E|]. unfold counterOf in *. by rewrite !E.
Qed.

Lemma val_addCell k u n c s ts : sound s ts ->
  val k u (addCell n s c) = if decide (userCounters s k !! u = Some c) then wrap64 (val k u s + n) else val k u s.
Proof.
  intros Hs. unfold val. cbn. destruct (userCounters s k !! u) as [c'|] eqn:E; [|by rewrite decide_False]. destruct (decide (Some c' = Some c)) as [[= ->]|Hne].
  - destruct (lookup_lt_is_Some_2 (cells s) c) as [v Hv]; [apply (s_range _ _ Hs _ _ _ E)|]. by rewrite list_lookup_alter_eq, Hv.
  - rewrite list_lookup_alter_ne by congruence. done.
Qed.

Lemma wrap64_idem z : wrap64 (wrap64 z) = wrap64 z.
Proof. apply wrap64_id, wrap64_range. Qed.

(** Adding to the cells of another user, or to a global one, and to one of the user's own. *)
Lemma val_others k u n l s ts : sound s ts -> Forall (fun c => userCounters s k !! u <> Some c) l -> val k u (foldl (addCell n) s l) = val k u s.
Proof.
  revert s. induction l as [|c l IH]; intros s Hs Hl; cbn; [done|]. apply Forall_cons in Hl as [Hc Hl].
  rewrite IH; [|by eapply sound_maps; [apply addCell_maps|]|done]. rewrite (val_addCell _ _ _ _ _ _ Hs). by rewrite decide_False.
Qed.

Lemma global_free k u k' s ts : sound s ts -> userCounters s k !! u <> Some (global k').
Proof. intros Hs E. pose proof (s_range _ _ Hs _ _ _ E). destruct k'; cbn in *; lia. Qed.

Lemma counterOf_iff k k' u s ts : sound s ts -> is_Some (userCounters s k' !! u) -> userCounters s k !! u = Some (counterOf u s k') <-> k = k'.
Proof.
  intros Hs [c Hc]. unfold counterOf. rewrite Hc. cbn. split; [|by intros ->]. intros E. by destruct (s_inj _ _ Hs _ _ _ _ _ E Hc).
Qed.

Lemma val_own k k' u n s ts : sound s ts -> is_Some (userCounters s k' !! u) ->
  val k u (foldl (addCell n) s [global k'; counterOf u s k']) = if decide (k = k') then wrap64 (val k u s + n) else val k u s.
Proof.
  intros Hs Hk. cbn [foldl]. assert (sound (addCell n s (global k')) ts) as Hs' by (eapply sound_maps; [apply addCell_maps|done]).
  rewrite (val_addCell _ _ _ _ _ _ Hs'), (val_addCell _ _ _ _ _ _ Hs). rewrite (decide_False (P := userCounters s k !! u = Some (global k'))) by by eapply global_free.
  change (userCounters (addCell n s (global k')) k) with (userCounters s k). destruct (decide (k = k')) as [->|Hne].
  - rewrite decide_True; [done|]. by apply (counterOf_iff _ _ _ _ ts).
  - rewrite decide_False; [done|]. by rewrite (counterOf_iff _ _ _ _ ts).
Qed.

(** Bytes, and the packet that carries them, through a connection of the user. *)
Lemma val_moved k u n kb kp bytes packets s ts : sound s ts -> (forall k, is_Some (userCounters s k !! u)) -> kb <> kp ->
  bytes = [global kb; counterOf u s kb] -> packets = [] \/ packets = [global kp; counterOf u s kp] ->
  wrap64 (val k u (foldl (addCell 1) (foldl (addCell n) s bytes) packets)) =
  wrap64 (val k u s + (if decide (k = kb) then n else if decide (k = kp) then (if nonempty packets then 1 else 0) else 0)).
Proof.
  intros Hs Hk Hne -> Hp. pose proof (val_own k kb u n s ts Hs (Hk kb)) as Hv. set (s1 := foldl (addCell n) s _) in *.
  assert (sameMaps s s1) as Hm by (apply sameMaps_foldl; intros; apply addCell_maps).
  assert (counterOf u s kp = counterOf u s1 kp) as Ec by (unfold counterOf; by rewrite (proj1 Hm)).
  assert (sound s1 ts) as Hs1 by (by eapply sound_maps). destruct Hp as [->| ->].
  - cbn [foldl nonempty]. rewrite Hv. repeat destruct (decide _); rewrite ?wrap64_idem; f_equal; lia.
  - cbn [nonempty]. rewrite Ec, (val_own k kp u 1 s1 ts Hs1) by (rewrite (proj1 Hm); apply Hk). rewrite Hv. repeat destruct (decide _); simplify_eq; rewrite ?wrap64_idem; f_equal; lia.
Qed.

(** Bytes through any connection. *)
Lemma val_through k u n kb kp bytes packets s ts t : sound s ts -> attached u s ts -> t ∈ ts -> kb <> kp -> (forall c, c ∈ bytes ++ packets -> c ∈ locs t) ->
  (attachedTo u s t -> bytes = [global kb; counterOf u s kb] /\ (packets = [] \/ packets = [global kp; counterOf u s kp])) ->
  wrap64 (val k u (foldl (addCell 1) (foldl (addCell n) s bytes) packets)) =
  wrap64 (val k u s + (if decide (t_user t = u) then if decide (k = kb) then n else if decide (k = kp) then (if nonempty packets then 1 else 0) else 0 else 0)).
Proof.
  intros Hs Ha Ht Hne Hl Hshape. destruct (decide (t_user t = u)) as [Hu|Hu].
  - pose proof (proj1 (Forall_forall _ _) Ha t Ht Hu) as Hat. destruct (Hshape Hat) as [Hb Hp]. apply (val_moved k u n kb kp _ _ s ts); try done. apply Hat.
  - assert (Forall (fun c => userCounters s k !! u <> Some c) (bytes ++ packets)) as [Hb Hp]%Forall_app.
    { apply Forall_forall. intros c Hc E. pose proof (proj1 (Forall_forall _ _) (s_conns _ _ Hs) t Ht) as Hlocs.
      destruct (proj1 (Forall_forall _ _) Hlocs c (Hl c Hc)) as [_ Hown]. apply Hu. by rewrite (Hown k u E). }
    assert (sameMaps s (foldl (addCell n) s bytes)) as Hm by (apply sameMaps_foldl; intros; apply addCell_maps).
    rewrite (val_others _ _ _ _ _ ts); [|by eapply sound_maps|by rewrite (proj1 Hm)]. rewrite (val_others _ _ _ _ _ ts) by done. f_equal. lia.
Qed.

(** *** Counters that are made *)

Lemma ensureCounter_spec user k s ts : sound s ts -> let s' := ensureCounter user s k in
  sound s' ts /\ is_Some (userCounters s' k !! user) /\ (forall k u c, userCounters s k !! u = Some c -> userCounters s' k !! u = Some c) /\
  (forall k u, val k u s' = val k u s).
Proof.
  intros Hs s'. unfold s', ensureCounter. destruct (userCounters s k !! user) as [c|] eqn:E; [by rewrite E|].
  set (f := fun k' => if decide (k' = k) then _ else _).
  assert (forall k' u c, f k' !! u = Some c -> (k' = k /\ u = user /\ c = length (cells s)) \/ userCounters s k' !! u = Some c) as Hf.
  { intros k' u c. unfold f. case_decide as Ek; [subst|by right]. rewrite lookup_insert_Some. intros [[<- <-]|[_ ?]]; [by left|by right]. }
  assert (forall k u c, userCounters s k !! u = Some c -> f k !! u = Some c) as Hkept.
  { intros k' u c Hc. unfold f. case_decide as Ek; [subst|done]. rewrite lookup_insert_ne; [done|]. intros <-. congruence. }
  destruct Hs as [H1 H2 H3 H4]. split_and!.
  - constructor; cbn [cells userCounters]; rewrite ?length_app; cbn [length]; [lia|..].
    + intros k' u c [(_ & _ & ->)|Hc]%Hf; [lia|]. apply H2 in Hc. lia.
    + intros k1 u1 k2 u2 c [(-> & -> & ->)|Hc1]%Hf [(-> & -> & Ec)|Hc2]%Hf; [done| | |by eapply H3]; [apply H2 in Hc2; lia|apply H2 in Hc1; lia].
    + eapply Forall_impl; [exact H4|]. intros t Ht. eapply Forall_impl; [exact Ht|]. intros c [Hc Hu]. split; [lia|].
      intros k' u [(_ & _ & ->)|Hc']%Hf; [lia|by eapply Hu].
  - cbn [userCounters]. unfold f. rewrite decide_True by done. by rewrite lookup_insert_eq.
  - exact Hkept.
  - intros k' u. unfold val. cbn [userCounters cells]. destruct (userCounters s k' !! u) as [c|] eqn:Ec.
    + rewrite (Hkept _ _ _ Ec). rewrite lookup_app_l; [done|]. apply H2 in Ec. lia.
    + destruct (f k' !! u) as [c|] eqn:Ec'; [|done]. destruct (Hf _ _ _ Ec') as [(_ & _ & ->)|?]; [|congruence]. by rewrite lookup_app_r, Nat.sub_diag by done.
Qed.

Lemma userCounter_spec user s ts : sound s ts -> let s' := userCounter user s in
  sound s' ts /\ (forall k, is_Some (userCounters s' k !! user)) /\ (forall k u c, userCounters s k !! u = Some c -> userCounters s' k !! u = Some c) /\
  (forall k u, val k u s' = val k u s).
Proof.
  intros Hs. cbv zeta. unfold userCounter. assert (forall ks s, sound s ts -> let s' := foldl (ensureCounter user) s ks in
    sound s' ts /\ (forall k, k ∈ ks -> is_Some (userCounters s' k !! user)) /\ (forall k u c, userCounters s k !! u = Some c -> userCounters s' k !! u = Some c) /\
    (forall k u, val k u s' = val k u s)) as Hall.
  { clear. induction ks as [|k ks IH]; intros s Hs; cbn [foldl]; [split_and!; [done| |done..]; intros k Hk; by apply elem_of_nil in Hk|].
    destruct (ensureCounter_spec user k s ts Hs) as (H1 & [c H2] & H3 & H4). destruct (IH _ H1) as (G1 & G2 & G3 & G4).
    split_and!; [done| |by eauto|by intros; rewrite G4]. intros k' [->|Hk']%elem_of_cons; [exists c; by apply G3|by apply G2]. }
  destruct (Hall allKinds s Hs) as (H1 & H2 & H3 & H4). split_and!; [done| |done..]. intros k. apply H2. apply kind_listed.
Qed.

(** A new connection, of one kind of session. *)
Lemma connect_spec user session s ts t : sound s ts -> let s1 := userCounter user (addCell 1 s (global session)) in
  t_user t = user -> attachedTo user s1 t ->
  let s' := addCell 1 s1 (counterOf user s1 session) in
  sound s' (ts ++ [t]) /\ (forall k u c, userCounters s k !! u = Some c -> userCounters s' k !! u = Some c) /\
  (forall k u, wrap64 (val k u s') = wrap64 (val k u s + if decide (user = u /\ k = session) then 1 else 0)).
Proof.
  intros Hs s1 Ht Ha s'. assert (sound (addCell 1 s (global session)) ts) as Hs0 by (eapply sound_maps; [apply addCell_maps|done]).
  destruct (userCounter_spec user _ _ Hs0) as (H1 & H2 & H3 & H4). fold s1 in H1, H2, H3, H4. destruct Ha as (_ & Hr & Hw & Hp).
  assert (forall k, (counterOf user s1 k < length (cells s1))%nat /\ forall k' u, userCounters s1 k' !! u = Some (counterOf user s1 k) -> u = user) as Hown.
  { intros k. destruct (H2 k) as [c Hc]. assert (counterOf user s1 k = c) as -> by (unfold counterOf; by rewrite Hc). split; [apply (s_range _ _ H1) in Hc; lia|]. intros k' u Hu. by destruct (s_inj _ _ H1 _ _ _ _ _ Hu Hc). }
  assert (forall k, (global k < length (cells s1))%nat /\ forall k' u, userCounters s1 k' !! u = Some (global k) -> u = user) as Hglob.
  { intros k. split; [pose proof (s_len _ _ H1); destruct k; unfold global; lia|]. intros k' u Hu. by destruct (global_free _ _ _ _ _ H1 Hu). }
  split_and!.
  - eapply sound_maps; [apply addCell_maps|]. destruct H1 as [G1 G2 G3 G4]. constructor; [done..|]. apply Forall_app. split; [done|]. apply Forall_singleton.
    rewrite Ht. unfold locs. rewrite Hr, Hw. destruct Hp as [[-> ->]|[-> ->]]; cbn [app]; repeat (apply Forall_cons; split); auto using Forall_nil.
  - intros k u c Hc. apply H3. exact Hc.
  - intros k u. unfold s'. rewrite (val_addCell _ _ _ _ _ _ H1). destruct (decide (user = u /\ k = session)) as [[<- ->]|Hne].
    + rewrite decide_True by (apply (counterOf_iff _ _ _ _ ts); [done|apply H2|done]). rewrite H4, (val_addCell _ _ _ _ _ _ Hs).
      rewrite decide_False by (by eapply global_free). apply wrap64_idem.
    + rewrite decide_False. { rewrite H4, (val_addCell _ _ _ _ _ _ Hs), decide_False by (by eapply global_free). f_equal. lia. }
      intros E. destruct (proj2 (Hown session) _ _ E). apply Hne. split; [done|]. by apply (counterOf_iff _ _ _ _ ts H1 (H2 session)).
Qed.

(** *** Users that remain *)

Lemma keptFor_lookup users mp x : keptFor users mp !! x = if decide (x ∈ users) then mp !! x else None.
Proof.
  unfold keptFor. assert (forall acc : gmap string nat, foldl (fun kept user => match mp !! user with Some counter => <[user := counter]> kept | None => kept end) acc users !! x =
    if decide (x ∈ users) then (match mp !! x with Some c => Some c | None => acc !! x end) else acc !! x) as Hall.
  { induction users as [|y users IH]; intros acc; cbn [foldl]; [by rewrite decide_False by apply not_elem_of_nil|]. rewrite IH.
    destruct (decide (x = y)) as [->|Hne].
    - rewrite (decide_True (P := y ∈ y :: users)) by set_solver. case_decide; destruct (mp !! y) eqn:E; try done. by rewrite lookup_insert_eq.
    - assert (x ∈ y :: users <-> x ∈ users) as Hiff by set_solver. rewrite (decide_ext _ _ _ _ Hiff).
      destruct (mp !! y); [|done]. by rewrite lookup_insert_ne by done. }
  rewrite Hall, lookup_empty. case_decide; [|done]. by destruct (mp !! x).
Qed.

Lemma UpdateUsers_spec users s ts : sound s ts -> let s' := Traffic_UpdateUsers users s in
  sound s' ts /\ forall u, u ∈ users -> (forall k c, userCounters s k !! u = Some c -> userCounters s' k !! u = Some c) /\ forall k, val k u s' = val k u s.
Proof.
  intros [H1 H2 H3 H4] s'. assert (forall k u c, userCounters s' k !! u = Some c -> userCounters s k !! u = Some c) as Hsub.
  { intros k u c. cbn. rewrite keptFor_lookup. by case_decide. }
  split.
  - constructor; [done|by eauto..|]. eapply Forall_impl; [exact H4|]. intros t Ht. eapply Forall_impl; [exact Ht|]. intros c [Hc Hu]. split; [done|]. by eauto.
  - intros u Hu. assert (forall k, userCounters s' k !! u = userCounters s k !! u) as E by (intros k; cbn; by rewrite keptFor_lookup, decide_True).
    split; [intros k c; by rewrite E|]. intros k. unfold val. by rewrite E.
Qed.

(** *** Reports *)

Lemma field_set k v u k' : field (setField k v u) k' = if decide (k' = k) then v else field u k'.
Proof. by destruct u, k, k'. Qed.
Lemma name_set k v u : UserName (setField k v u) = UserName u.
Proof. by destruct u, k. Qed.

Lemma val_takeCell k u c s ts : sound s ts -> val k u (takeCell true c s).2 = if decide (userCounters s k !! u = Some c) then 0 else val k u s.
Proof.
  intros Hs. unfold val. cbn. destruct (userCounters s k !! u) as [c'|] eqn:E; [|by rewrite decide_False]. destruct (decide (Some c' = Some c)) as [[= ->]|Hne].
  - rewrite list_lookup_insert_eq; [done|]. apply (s_range _ _ Hs _ _ _ E).
  - by rewrite list_lookup_insert_ne by congruence.
Qed.

(** The fields of the kinds [ks] are read. *)
Lemma readFields_spec swap ks u s ts : sound s ts -> NoDup ks -> let p := foldl (readField swap) (u, s) ks in
  UserName p.1 = UserName u /\ sameMaps s p.2 /\
  (forall k, k ∈ ks -> is_Some (userCounters s k !! UserName u) -> field p.1 k = val k (UserName u) s) /\
  (forall k, k ∉ ks \/ userCounters s k !! UserName u = None -> field p.1 k = field u k) /\
  (forall k x, val k x p.2 = if decide (swap = true /\ x = UserName u /\ k ∈ ks) then 0 else val k x s).
Proof.
  revert u s. induction ks as [|k0 ks IH]; intros u s Hs Hnd; cbn [foldl].
  { split_and!; [done..| | |]; [intros k Hk; by apply elem_of_nil in Hk|done|]. intros k x. rewrite decide_False; [done|]. intros (_ & _ & ?%elem_of_nil). done. }
  apply NoDup_cons in Hnd as [Hk0 Hnd]. cbn [readField]. destruct (userCounters s k0 !! UserName u) as [c|] eqn:Ec.
  - pose proof (takeCell_maps swap c s) as Hm. destruct (takeCell swap c s) as [v s1] eqn:Et. cbn [snd] in Hm.
    assert (sound s1 ts) as Hs1 by (by eapply sound_maps). specialize (IH (setField k0 v u) s1 Hs1 Hnd). rewrite name_set in IH. destruct IH as (I1 & I2 & I3 & I4 & I5).
    assert (v = val k0 (UserName u) s) as Hv by (unfold val; rewrite Ec; unfold takeCell in Et; by simplify_eq).
    assert (forall k x, val k x s1 = if decide (swap = true /\ x = UserName u /\ k = k0) then 0 else val k x s) as Hval.
    { intros k x. destruct swap; [|unfold takeCell in Et; simplify_eq; rewrite decide_False; [done|naive_solver]]. change s1 with (v, s1).2. rewrite <-Et, (val_takeCell _ _ _ _ _ Hs).
      apply decide_ext. split; [|by intros (_ & -> & ->)]. intros E. destruct (s_inj _ _ Hs _ _ _ _ _ E Ec). done. }
    split_and!; [done|by etrans|..].
    + intros k [->|Hk]%elem_of_cons Hi; [rewrite I4 by (by left); by rewrite field_set, decide_True|]. rewrite I3; [|done|by rewrite (proj1 Hm)].
      rewrite Hval, decide_False; [done|]. intros (_ & _ & ->). done.
    + intros k Hk. assert (k <> k0) as Hne by (intros ->; destruct Hk as [Hk|Hk]; [set_solver|congruence]).
      rewrite I4, field_set, decide_False by (rewrite ?(proj1 Hm); set_solver). done.
    + intros k x. rewrite I5, Hval. repeat case_decide; set_solver.
  - specialize (IH u s Hs Hnd). destruct IH as (I1 & I2 & I3 & I4 & I5). split_and!; [done..| | |].
    + intros k [->|Hk]%elem_of_cons Hi; [rewrite Ec in Hi; by destruct Hi|by apply I3].
    + intros k Hk. apply I4. set_solver.
    + intros k x. rewrite I5. destruct (decide (x = UserName u /\ k = k0)) as [[-> ->]|Hne]; [|repeat case_decide; set_solver].
      unfold val. rewrite Ec. by repeat case_decide.
Qed.

Lemma allKinds_NoDup : NoDup allKinds.
Proof. apply (bool_decide_unpack _). done. Qed.

Lemma readUser_spec swap u s ts : sound s ts -> (forall k, field u k = 0) -> let p := readUser swap u s in
  UserName p.1 = UserName u /\ sameMaps s p.2 /\ (forall k, field p.1 k = val k (UserName u) s) /\
  (forall k x, val k x p.2 = if decide (swap = true /\ x = UserName u) then 0 else val k x s).
Proof.
  intros Hs Hz. destruct (readFields_spec swap allKinds u s ts Hs allKinds_NoDup) as (H1 & H2 & H3 & H4 & H5). split_and!; [done..| |].
  - intros k. destruct (userCounters s k !! UserName u) as [c|] eqn:E; [apply H3; [apply kind_listed|by rewrite E]|].
    rewrite H4 by (by right). rewrite Hz. unfold val. by rewrite E.
  - intros k x. cbv zeta. unfold readUser. rewrite H5. apply decide_ext. pose proof (kind_listed k). tauto.
Qed.

(** What reports say of a user's counter. *)
Definition sumOf (k : kind) (x : string) (l : list UserObject) : Z := foldr (fun u acc => (if decide (UserName u = x) then field u k else 0) + acc) 0 l.

Lemma ReadUsers_spec l s ts : sound s ts -> Forall (fun u => forall k, field u k = 0) l -> let p := ReadUsers l true s in
  sameMaps s p.2 /\ forall k x, val k x p.2 + sumOf k x p.1 = val k x s.
Proof.
  revert s. induction l as [|u l IH]; intros s Hs Hz; cbn [ReadUsers]; [split; [done|]; intros; cbn; lia|]. apply Forall_cons in Hz as [Hu Hz].
  destruct (readUser_spec true u s ts Hs Hu) as (H1 & H2 & H3 & H4). destruct (readUser true u s) as [u' s1]. cbn [fst snd] in *.
  destruct (IH s1) as [I1 I2]; [by eapply sound_maps|done|]. destruct (ReadUsers l true s1) as [l' s2]. cbn [fst snd] in *. split; [by etrans|].
  intros k x. cbn [sumOf foldr]. fold (sumOf k x l'). pose proof (I2 k x) as E. rewrite H4 in E. rewrite H1. destruct (decide (UserName u = x)) as [<-|Hne].
  - rewrite decide_True in E by done. rewrite H3. lia.
  - rewrite decide_False in E by naive_solver. lia.
Qed.

Lemma ReadUsers_loads l s ts : sound s ts -> (ReadUsers l false s).2 = s.
Proof.
  intros Hs. assert (forall u, (readUser false u s).2 = s) as Hr.
  { intros u. unfold readUser. generalize allKinds. intros ks. revert u. induction ks as [|k ks IH]; intros u; cbn; [done|]. by destruct (userCounters s k !! UserName u); apply IH. }
  induction l as [|u l IH]; cbn [ReadUsers]; [done|]. pose proof (Hr u) as E. destruct (readUser false u s) as [u' s']. cbn in E. subst s'. revert IH. by destruct (ReadUsers l false s).
Qed.

Lemma ReadGlobal_spec swap s ts : sound s ts -> let s' := (ReadGlobal swap s).2 in sameMaps s s' /\ forall k u, val k u s' = val k u s.
Proof.
  intros Hs. cbv zeta. unfold ReadGlobal. set (f := fun '(l, s) k => _). assert (forall ks l s, sound s ts ->
    sameMaps s (foldl f (l, s) ks).2 /\ forall k u, val k u (foldl f (l, s) ks).2 = val k u s) as Hall; [|by apply Hall].
  clear s Hs. induction ks as [|k0 ks IH]; intros l s Hs; cbn [foldl]; [done|]. cbn [f].
  pose proof (takeCell_maps swap (global k0) s) as Hm. destruct (takeCell swap (global k0) s) as [v s1] eqn:E. cbn [snd] in Hm.
  destruct (IH (l ++ [v]) s1 (sound_maps _ _ _ Hm Hs)) as [I1 I2]. split; [exact (transitivity Hm I1)|]. intros k u. rewrite I2.
  destruct swap; [|unfold takeCell in E; by simplify_eq]. change s1 with (v, s1).2. rewrite <-E, (val_takeCell _ _ _ _ _ Hs), decide_False; [done|]. by eapply global_free.
Qed.

Lemma report_sum l r k x : default 0 (foldl (fun c u => credit u c) r l !! (k, x)) = default 0 (r !! (k, x)) + sumOf k x l.
Proof.
  assert (forall u r, default 0 (credit u r !! (k, x)) = default 0 (r !! (k, x)) + (if decide (UserName u = x) then field u k else 0)) as Hone.
  { clear r. intros u r. unfold credit. assert (forall ks (r : gmap (kind * string) Z), NoDup ks -> default 0 (foldl (fun r k => <[(k, UserName u) := default 0 (r !! (k, UserName u)) + field u k]> r) r ks !! (k, x)) =
      default 0 (r !! (k, x)) + (if decide (UserName u = x /\ k ∈ ks) then field u k else 0)) as Hks.
    { clear r. induction ks as [|k0 ks IH]; intros r Hnd; cbn [foldl]; [rewrite decide_False; [lia|]; intros [_ ?%elem_of_nil]; done|].
      apply NoDup_cons in Hnd as [Hk0 Hnd]. rewrite IH by done. destruct (decide ((k0, UserName u) = (k, x))) as [[= -> <-]|Hne].
      - rewrite lookup_insert_eq. cbn. rewrite decide_False by naive_solver. rewrite decide_True by set_solver. lia.
      - rewrite lookup_insert_ne by done. f_equal. apply decide_ext. split; [set_solver|]. intros [<- [->|?]%elem_of_cons]; [congruence|done]. }
    rewrite (Hks _ _ allKinds_NoDup). f_equal. apply decide_ext. pose proof (kind_listed k). tauto. }
  revert r. induction l as [|u l IH]; intros r; cbn [foldl sumOf foldr]; [lia|]. rewrite IH, Hone. fold (sumOf k x l). lia.
Qed.

Lemma sumOf_hidden k x l : sumOf k x (hidePassword <$> l) = sumOf k x l.
Proof. unfold sumOf. induction l as [|u l IH]; cbn; [done|]. rewrite IH. by destruct u, k. Qed.

Section Accounts.
Context `{MapOrder}.

(** The total an event moves for a user over a run. *)
Fixpoint moved (k : kind) (u : string) (es : list event) (w : World) : Z :=
  match es with [] => 0 | e :: es => movedBy k u w e + moved k u es (perform e w) end.

Definition deletes (u : string) (e : event) : bool := match e with Request (DeleteUser _ name) => bool_decide (name = u) | _ => false end.
Definition soundW (w : World) : Prop := sound (trafficManager (manager w)) (conns w).
Definition attachedW (u : string) (w : World) : Prop := attached u (trafficManager (manager w)) (conns w).

(** A change of the users, taken by the server or not. *)
Lemma postUpdate_traffic refused m e m' : postUpdate refused true m = (e, m') ->
  usersMap m' = usersMap m /\ (trafficManager m' = trafficManager m \/ trafficManager m' = Traffic_UpdateUsers (go_range 0 (usersMap m')).*1 (trafficManager m)).
Proof using Type. unfold postUpdate. destruct refused; intros [= <- <-]; split; auto. Qed.

Lemma serve_traffic r m resp m' : serve r m = (resp, m') ->
  (trafficManager m' = trafficManager m \/ trafficManager m' = Traffic_UpdateUsers (go_range 0 (usersMap m')).*1 (trafficManager m) \/
   exists clear, r = GetStats clear) /\
  forall u, (forall refused, r <> DeleteUser refused u) -> is_Some (usersMap m !! u) -> is_Some (usersMap m' !! u).
Proof using Type.
  destruct r as [refused decoded|refused name decoded|refused name|clear]; cbn [serve].
  - unfold addUser. destruct decoded as [[name password]|e]; [|intros [= <- <-]; by auto]. unfold Add. destruct (usersMap m !! name); [intros [= <- <-]; by auto|].
    destruct (postUpdate _ _ _) as [[e|] m1] eqn:E; intros [= <- <-]; destruct (postUpdate_traffic _ _ _ _ E) as [Hu Ht]; (split; [cbn in Ht; tauto|]); rewrite Hu; cbn;
    intros u _ Hi; rewrite lookup_insert_is_Some'; by right.
  - unfold updateUser. case_bool_decide; [intros [= <- <-]; by auto|]. destruct decoded as [password|e]; [|intros [= <- <-]; by auto].
    destruct (Get name m); [|intros [= <- <-]; by auto]. unfold Update.
    destruct (postUpdate _ _ _) as [[e|] m1] eqn:E; intros [= <- <-]; destruct (postUpdate_traffic _ _ _ _ E) as [Hu Ht]; (split; [cbn in Ht; tauto|]); rewrite Hu; cbn;
    intros u _ Hi; rewrite lookup_insert_is_Some'; by right.
  - unfold deleteUser. case_bool_decide; [intros [= <- <-]; by auto|]. destruct (Get name m); [|intros [= <- <-]; by auto]. unfold Delete.
    destruct (postUpdate _ _ _) as [[e|] m1] eqn:E; intros [= <- <-]; destruct (postUpdate_traffic _ _ _ _ E) as [Hu Ht]; (split; [cbn in Ht; tauto|]); rewrite Hu; cbn;
    intros u Hne Hi; (rewrite lookup_delete_ne; [done|]); intros <-; by destruct (Hne refused).
  - unfold getStats. destruct (ReadUsers _ _ _) as [users s]. destruct (ReadGlobal _ _) as [totals s']. intros [= <- <-]. split; [right; right; by exists clear|done].
Qed.

(** Statistics move what they clear from the counters to the report. *)
Lemma getStats_accounts clear m resp m' ts : getStats clear m = (resp, m') -> sound (trafficManager m) ts ->
  sameMaps (trafficManager m) (trafficManager m') /\
  forall k u, val k u (trafficManager m') + sumOf k u (reported (GetStats clear) resp) = val k u (trafficManager m).
Proof using Type.
  unfold getStats. destruct (ReadUsers (List_ m) clear (trafficManager m)) as [users s] eqn:E1. destruct (ReadGlobal clear s) as [totals s'] eqn:E2. intros [= <- <-] Hs.
  assert (sameMaps (trafficManager m) s /\ forall k u, val k u s + sumOf k u (if clear then users else []) = val k u (trafficManager m)) as [Hm Hv].
  { destruct clear.
    - assert (Forall (fun u => forall k, field u k = 0) (List_ m)) as Hz by (apply Forall_fmap, Forall_true; intros [] []; done).
      pose proof (ReadUsers_spec (List_ m) _ _ Hs Hz) as Hr. rewrite E1 in Hr. exact Hr.
    - pose proof (ReadUsers_loads (List_ m) _ _ Hs) as Hr. rewrite E1 in Hr. cbn in Hr. subst. split; [done|]. intros. cbn. lia. }
  destruct (ReadGlobal_spec clear s ts (sound_maps _ _ _ Hm Hs)) as [Hm2 Hv2]. rewrite E2 in Hm2, Hv2. split; [exact (transitivity Hm Hm2)|].
  intros k u. cbn [setTraffic trafficManager]. rewrite Hv2, <-(Hv k u). destruct clear; cbn [reported body]; [by rewrite sumOf_hidden|done].
Qed.

(** What an event does to a user's account, while the user is one. *)
Lemma event_accounts u e w : soundW w -> soundW (perform e w) /\
  (attachedW u w -> deletes u e = false -> is_Some (usersMap (manager w) !! u) ->
   is_Some (usersMap (manager (perform e w)) !! u) /\ attachedW u (perform e w) /\
   forall k, wrap64 (account k u (perform e w)) = wrap64 (account k u w + movedBy k u w e)).
Proof using Type.
  unfold soundW, attachedW, account. intros Hs. destruct e as [r|packets user|c n|c n|c]; cbn [perform movedBy deletes].
  - destruct (serve r (manager w)) as [resp m'] eqn:E. cbn [manager conns cleared]. destruct (serve_traffic _ _ _ _ E) as [Ht Hu].
    assert (sound (trafficManager m') (conns w)) as Hs'.
    { destruct Ht as [->|[->|[clear ->]]]; [done|by apply UpdateUsers_spec|]. destruct (getStats_accounts _ _ _ _ _ E Hs) as [Hm _]. by eapply sound_maps. }
    split; [done|]. intros Ha Hd Hi. assert (is_Some (usersMap m' !! u)) as Hi'.
    { apply Hu; [|done]. intros refused ->. by rewrite bool_decide_true in Hd. }
    split; [done|].
    assert (reported r resp = [] \/ exists clear, r = GetStats clear) as [Hrep|[clear ->]] by (destruct r; cbn; eauto).
    + rewrite Hrep. destruct Ht as [Ht|[Ht|[clear ->]]].
      * rewrite Ht. split; [done|]. intros k. cbn [foldl]. f_equal. lia.
      * destruct (UpdateUsers_spec (go_range 0 (usersMap m')).*1 _ _ Hs) as [_ Hkeep]. rewrite <-Ht in Hkeep. destruct (Hkeep u) as [Hk Hv].
        { destruct Hi' as [p Hp]. apply list_elem_of_fmap. exists (u, p). split; [done|]. by apply elem_of_go_range. }
        split; [by eapply attached_kept|]. intros k. cbn [foldl]. rewrite Hv. f_equal. lia.
      * destruct (getStats_accounts _ _ _ _ _ E Hs) as [Hm Hv]. rewrite Hrep in Hv. split; [eapply attached_kept; [|done]; intros k c; by rewrite (proj1 Hm)|].
        intros k. cbn [foldl]. rewrite <-(Hv k u). cbn [sumOf foldr]. f_equal. lia.
    + destruct (getStats_accounts _ _ _ _ _ E Hs) as [Hm Hv]. split; [eapply attached_kept; [|done]; intros k c; by rewrite (proj1 Hm)|].
      intros k. rewrite report_sum, <-(Hv k u). f_equal. lia.
  - set (session := if packets then UDPSessions else TCPSessions). set (s := trafficManager (manager w)) in *. set (s1 := userCounter user (addCell 1 s (global session))).
    assert (forall k, is_Some (userCounters s1 k !! user)) as Hsome by (apply (userCounter_spec user _ (conns w)); eapply sound_maps; [apply addCell_maps|done]).
    assert (exists t, (if packets then TrackPacketConnection else TrackConnection) user s = (t, addCell 1 s1 (counterOf user s1 session)) /\ t_user t = user /\ attachedTo user s1 t)
      as (t & -> & Ht & Hat) by
      (destruct packets; (eexists; split; [reflexivity|]; split; [reflexivity|]; split; [exact Hsome|]; split; [reflexivity|]; split; [reflexivity|]); [right|left]; split; reflexivity).
    destruct (connect_spec user session s (conns w) t Hs Ht Hat) as (H1 & H2 & H3). cbn [manager conns cleared setTraffic trafficManager usersMap].
    split; [done|]. intros Ha _ Hi. split; [done|]. split.
    + apply Forall_app. split; [by eapply attached_kept; [intros k c; apply H2|]|]. apply Forall_singleton. intros Hu. rewrite Ht in Hu. by subst u.
    + intros k. fold s1 in H3. rewrite <-wrap64_add_l, H3, wrap64_add_l. fold session. f_equal. lia.
  - destruct (conns w !! c) as [t|] eqn:Hc; [|split; [done|]; intros; split_and!; [done..|]; intros; f_equal; lia]. cbn [manager conns cleared setTraffic trafficManager usersMap].
    pose proof (connRead_maps n t (trafficManager (manager w))) as Hm. split; [by eapply sound_maps|]. intros Ha _ Hi. split; [done|].
    split; [eapply attached_kept; [|done]; intros k c'; by rewrite (proj1 Hm)|]. intros k. unfold connRead. apply list_elem_of_lookup_2 in Hc.
    rewrite <-wrap64_add_l, (val_through k u n Uplink UplinkPackets _ _ _ _ t Hs Ha Hc), wrap64_add_l; [|done|unfold locs; set_solver|intros (_ & ? & _ & ?); tauto].
    f_equal. destruct (decide (t_user t = u)); [|lia]. destruct k; repeat case_decide; simplify_eq; lia.
  - destruct (conns w !! c) as [t|] eqn:Hc; [|split; [done|]; intros; split_and!; [done..|]; intros; f_equal; lia]. cbn [manager conns cleared setTraffic trafficManager usersMap].
    pose proof (connWritten_maps n t (trafficManager (manager w))) as Hm. split; [by eapply sound_maps|]. intros Ha _ Hi. split; [done|].
    split; [eapply attached_kept; [|done]; intros k c'; by rewrite (proj1 Hm)|]. intros k. unfold connWritten. apply list_elem_of_lookup_2 in Hc.
    rewrite <-wrap64_add_l, (val_through k u n Downlink DownlinkPackets _ _ _ _ t Hs Ha Hc), wrap64_add_l; [|done|unfold locs; set_solver|intros (_ & _ & ? & ?); tauto].
    f_equal. destruct (decide (t_user t = u)); [|lia]. destruct k; repeat case_decide; simplify_eq; lia.
  - cbn [manager conns cleared]. split; [destruct Hs; constructor; try done; by apply Forall_delete|]. intros Ha _ Hi. split; [done|].
    split; [by apply Forall_delete|]. intros k. f_equal. lia.
Qed.

Definition start : World := mkWorld NewUserManager [] ∅.

Lemma run_sound es w : soundW w -> soundW (run es w).
Proof using Type. revert w. induction es as [|e es IH]; intros w Hw; cbn; [done|]. apply IH. by apply (event_accounts ""). Qed.

Lemma start_sound : soundW start.
Proof using Type. constructor; [done|..]; try done; intros k u c; cbn; by rewrite lookup_empty. Qed.

(** C32. However users are managed, traffic flows and statistics are cleared: from the moment a user is
    one and has no connection left, and until the user is deleted, every byte, packet and session
    of the user's connections is counted once.  What the user's counter holds and what reports
    have cleared from it grow by exactly what these connections moved, in 64-bit arithmetic. *)
Theorem users_are_accounted es0 es u k : let w := run es0 start in
  is_Some (usersMap (manager w) !! u) -> Forall (fun t => t_user t <> u) (conns w) -> Forall (fun e => deletes u e = false) es ->
  wrap64 (account k u (run es w)) = wrap64 (account k u w + moved k u es w).
Proof using Type.
  intros w Hu Hc Hes. assert (soundW w) as Hw by (apply run_sound, start_sound).
  assert (attachedW u w) as Ha by (eapply Forall_impl; [exact Hc|]; by intros t ? ?). clearbody w. clear Hc.
  revert w Hu Hw Ha. induction Hes as [|e es He _ IH]; intros w Hu Hw Ha; cbn [run moved]; [f_equal; lia|].
  destruct (event_accounts u e w Hw) as [Hw' Hstep]. destruct (Hstep Ha He Hu) as (Hu' & Ha' & Hk).
  rewrite IH by done. rewrite <-wrap64_add_l, Hk, wrap64_add_l. f_equal. lia.
Qed.
End Accounts.

(** ** Examples *)

Module SSMSample.
#[local] Instance order : MapOrder := canonical_order.
Definition add : event := Request (AddUser None (Ok ("alice", "key"))).
Definition traffic : list event := [Connect false "alice"; Read 0 100; Request (GetStats true); Read 0 20; Written 0 7; Connect true "alice"; Read 1 5].
(** A first connection of the user, which is over when the account is opened. *)
Definition before : list event := [add; Connect false "alice"; Read 0 9; Disconnect 0].

Lemma users_are_accounted_witness :
  wrap64 (account Uplink "alice" (run traffic (run before start))) = 134 /\
  wrap64 (account Uplink "alice" (run before start) + moved Uplink "alice" traffic (run before start)) = 134.
Proof.
  assert (wrap64 (account Uplink "alice" (run traffic (run before start))) = 134) as E by (vm_compute; reflexivity). split; [exact E|].
  rewrite <-E. symmetry. apply (users_are_accounted before traffic "alice" Uplink); [vm_compute; by eexists|vm_compute; constructor|repeat constructor].
Defined.

Lemma server_has_the_users_witness :
  let p := serveAll [AddUser None (Ok ("alice", "key")); UpdateUser None "alice" (Ok "new")] NewUserManager in
  Forall (fun resp => status resp <> 400) p.1 /\ list_to_map (server p.2) = usersMap p.2.
Proof.
  intros p. assert (Forall (fun resp => status resp <> 400) p.1) as Hp by (vm_compute; repeat constructor; discriminate).
  split; [exact Hp|]. apply (server_has_the_users [AddUser None (Ok ("alice", "key")); UpdateUser None "alice" (Ok "new")] p.1 p.2); [by destruct p eqn:E; rewrite <-E|exact Hp].
Defined.

(** A connection that outlives its user's removal counts to counters nobody reads: after the user
    is back, its traffic is in no report. *)
Example traffic_of_returned_user_is_lost :
  let w := run [add; Connect false "alice"; Request (DeleteUser None "alice"); add; Read 0 100] start in
  is_Some (usersMap (manager w) !! "alice") /\ account Uplink "alice" w = 0 /\ cells (trafficManager (manager w)) !! 0%nat = Some 100.
Proof. vm_compute. by eauto. Qed.

(** The list of users shows no traffic, though its objects have fields for it. *)
Example list_shows_no_traffic :
  let w := run [add; Connect false "alice"; Read 0 100] start in
  UplinkBytes <$> List_ (manager w) = [0] /\ UplinkBytes (ReadUser (newUser "alice" "key") (trafficManager (manager w))) = 100.
Proof. by vm_compute. Qed.
End SSMSample.
