(* ===== verification/Relay.v ===== *)
(** * The connection manager (src/fork/sing-box/route/conn.go, common/dialer/default_parallel_network.go)

    [NewConnection] opens the remote connection, copies what an early handshake needs, and starts a
    goroutine per direction; [NewPacketConnection] does so for packets.  The goroutines share the
    flag [done], the two connections and the list of the manager.

    A relay is a machine: the function that sets it up, and then the two goroutines, each at a
    program point.  One step is one call of the source that other goroutines or the network can see,
    and what the network answers is an argument of the step, so that the theorems quantify over all
    interleavings and all answers.  The counters of wrapped readers, which no connection of the
    agent has, and the log, but for failed handshakes, are left out; of error texts the prefix is
    kept. *)

From S2P Require Import Prelude GoStrings Rules RuleBuild Outbounds Router.

#[local] Open Scope Z_scope.

#[export] Instance Socksaddr_eq_dec : EqDecision Socksaddr.
Proof. solve_decision. Defined.

Inductive side := Local | Remote.

(** A direction is the flag of the source: false for the upload. *)
Definition source (direction : bool) : side := if direction then Remote else Local.
Definition destination (direction : bool) : side := if direction then Local else Remote.

Inductive failure :=
| ErrInvalid
| DeadlineExceeded
| EOF
| Timeout
| Other (text : string)
| Caused (message : string) (f : failure)
| Errors (l : list failure).

(** [E.IsTimeout], [errors.Is] for the end of the file and [E.IsMulti] for the errors an early
    handshake takes for none; they see through causes. *)
Fixpoint isTimeout (f : failure) : bool :=
  match f with DeadlineExceeded | Timeout => true | Caused _ f => isTimeout f | _ => false end.
Fixpoint isEOF (f : failure) : bool := match f with EOF => true | Caused _ f => isEOF f | _ => false end.
Fixpoint benign (f : failure) : bool :=
  match f with
  | ErrInvalid | DeadlineExceeded | EOF => true
  | Caused _ f => benign f
  | Timeout | Other _ | Errors _ => false
  end.

(** ** Shared state *)

(** How packets are translated between the addresses of the two sides. *)
Inductive NAT :=
| NoNAT
| UpdateDestination (a : Addr)
| UnidirectionalNAT (to origin : Socksaddr)
| BidirectionalNAT (to origin : Socksaddr)
| DestinationNAT (to origin : Socksaddr).

(** [connections] are the elements of the manager's list, [notified] the calls of the caller's close
    handler; [got] and [put] what was read from the source and written to the destination of each
    direction; [handshakeErrors] the errors logged for early handshakes; [opened] that there is a
    remote connection.  [cut] is a ghost: bytes of a direction were read and will never be written,
    since a call failed during its early handshake ([true]) or in its goroutine ([false]). *)
Record St := mkSt {
  connections : list nat;
  done : bool;
  notified : list (option failure);
  closed : side -> bool;
  writeClosed : side -> bool;
  got : bool -> list Z;
  put : bool -> list Z;
  handshakeErrors : list (bool * failure);
  fragmenting : bool;
  packetSetup : option (NAT * Z);
  opened : bool;
  cut : bool -> option bool
}.

Definition setConnections (l : list nat) s : St :=
  mkSt l (done s) (notified s) (closed s) (writeClosed s) (got s) (put s) (handshakeErrors s) (fragmenting s) (packetSetup s) (opened s) (cut s).
Definition swapDone s : St :=
  mkSt (connections s) true (notified s) (closed s) (writeClosed s) (got s) (put s) (handshakeErrors s) (fragmenting s) (packetSetup s) (opened s) (cut s).
Definition notify (e : option failure) s : St :=
  mkSt (connections s) (done s) (notified s ++ [e]) (closed s) (writeClosed s) (got s) (put s) (handshakeErrors s) (fragmenting s) (packetSetup s) (opened s) (cut s).
Definition closeSide (x : side) s : St :=
  mkSt (connections s) (done s) (notified s) (fun y => match x, y with Local, Local | Remote, Remote => true | _, _ => closed s y end)
    (writeClosed s) (got s) (put s) (handshakeErrors s) (fragmenting s) (packetSetup s) (opened s) (cut s).
Definition closeBoth s : St := closeSide Local (closeSide Remote s).
Definition closeWrite (x : side) s : St :=
  mkSt (connections s) (done s) (notified s) (closed s) (fun y => match x, y with Local, Local | Remote, Remote => true | _, _ => writeClosed s y end)
    (got s) (put s) (handshakeErrors s) (fragmenting s) (packetSetup s) (opened s) (cut s).
Definition read (d : bool) (b : list Z) s : St :=
  mkSt (connections s) (done s) (notified s) (closed s) (writeClosed s)
    (fun d' => if Bool.eqb d d' then got s d' ++ b else got s d') (put s) (handshakeErrors s) (fragmenting s) (packetSetup s) (opened s) (cut s).
Definition wrote (d : bool) (b : list Z) s : St :=
  mkSt (connections s) (done s) (notified s) (closed s) (writeClosed s)
    (got s) (fun d' => if Bool.eqb d d' then put s d' ++ b else put s d') (handshakeErrors s) (fragmenting s) (packetSetup s) (opened s) (cut s).
Definition logHandshake (d : bool) (f : failure) s : St :=
  mkSt (connections s) (done s) (notified s) (closed s) (writeClosed s) (got s) (put s) (handshakeErrors s ++ [(d, f)]) (fragmenting s) (packetSetup s) (opened s) (cut s).
Definition fragment (b : bool) s : St :=
  mkSt (connections s) (done s) (notified s) (closed s) (writeClosed s) (got s) (put s) (handshakeErrors s) b (packetSetup s) (opened s) (cut s).
Definition setPacket (p : NAT * Z) s : St :=
  mkSt (connections s) (done s) (notified s) (closed s) (writeClosed s) (got s) (put s) (handshakeErrors s) (fragmenting s) (Some p) (opened s) (cut s).

Definition openRemote s : St :=
  mkSt (connections s) (done s) (notified s) (closed s) (writeClosed s) (got s) (put s) (handshakeErrors s) (fragmenting s) (packetSetup s) true (cut s).

(** The bytes [lost] of a direction are given up. *)
Definition cutShort (early d : bool) (lost : list Z) s : St :=
  mkSt (connections s) (done s) (notified s) (closed s) (writeClosed s) (got s) (put s) (handshakeErrors s) (fragmenting s) (packetSetup s) (opened s)
    (fun d' => if Bool.eqb d d' && nonempty lost
               then match cut s d' with Some true => Some true | _ => Some early end else cut s d').

Definition newState (connections : list nat) : St :=
  mkSt connections false [] (fun _ => false) (fun _ => false) (fun _ => []) (fun _ => []) [] false None false (fun _ => None).

(** [Close] of the manager: it closes what is tracked and forgets it. *)
Definition Manager_Close (connections : list nat) : list nat * list nat := (connections, []).

(** Of the sing library: what refusing a connection does to it. *)
Class RelayLibs := { CloseOnHandshakeFailure : failure -> St -> St }.

(** It closes the connection and calls the handler with an error. *)
Class RelayLaws `{RelayLibs} := {
  failure_notifies f s : exists f', notified (CloseOnHandshakeFailure f s) = notified s ++ [Some f'];
  failure_closes f s x : closed (CloseOnHandshakeFailure f s) x = match x with Local => true | Remote => closed s Remote end;
  failure_connections f s : connections (CloseOnHandshakeFailure f s) = connections s;
  failure_handshakes f s : handshakeErrors (CloseOnHandshakeFailure f s) = handshakeErrors s;
  failure_packetSetup f s : packetSetup (CloseOnHandshakeFailure f s) = packetSetup s;
  failure_opened f s : opened (CloseOnHandshakeFailure f s) = opened s;
  failure_data f s : got (CloseOnHandshakeFailure f s) = got s /\ put (CloseOnHandshakeFailure f s) = put s /\
    cut (CloseOnHandshakeFailure f s) = cut s
}.

(** What a step is told: the error of a call, whether handshakes are needed, what a read or a cached
    buffer holds, how much of a write was accepted, where a dial arrived; and what the copy of the
    library does: it reads bytes from the source, writes bytes to the destination, and returns. *)
Inductive answer :=
| AErr (e : option failure)
| ANeeds (read write : bool)
| ARead (b : list Z) (e : option failure)
| AWrite (n : nat) (e : option failure)
| ACached (b : option (option (list Z)))
| ACopyRead (b : list Z)
| ACopyWrote (b : list Z)
| ACopyEnd (e : option failure)
| ADialed (r : res failure (option Addr)).

(** ** Dialing *)

(** What the dialer of a relay can do. *)
Record DialerKind := mkDialerKind { parallelNetwork : bool; parallelInterface : bool }.

(** One call of the dialer: for the destination itself, or for a list of addresses. *)
Definition attempt : Type := option (list Addr).

(** [DialSerialNetwork] and [ListenSerialNetworkPacket]: one call with all addresses for a dialer
    that races them, else one call per address in order; [None] is their panic. *)
Definition serialAttempts (parallelNetwork : bool) (dst : Socksaddr) (addresses : list Addr) : option (list attempt) :=
  addresses ← match addresses, sa_addr dst with
              | [], None => None
              | [], Some a => Some [a]
              | _, _ => Some addresses
              end;
  Some (if parallelNetwork then [Some addresses] else map (fun a => Some [a]) addresses).

Section Attempts.
Context `{RuleLibs}.

Definition streamAttempts (parallelNetwork : bool) (m : Facts) : option (list attempt) :=
  if nonempty (f_DestinationAddresses m) || IsIP (f_Destination m)
  then serialAttempts parallelNetwork (f_Destination m) (f_DestinationAddresses m) else Some [None].

Definition packetAttempts (k : DialerKind) (udpConnect : bool) (m : Facts) : option (list attempt) :=
  let dst := f_Destination m in
  let addresses := f_DestinationAddresses m in
  if udpConnect then
    if nonempty addresses then
      if parallelInterface k then serialAttempts (parallelNetwork k) dst addresses else Some (map (fun a => Some [a]) addresses)
    else if IsIP dst then
      if parallelInterface k then serialAttempts (parallelNetwork k) dst addresses else Some [None]
    else Some [None]
  else if nonempty addresses then serialAttempts (parallelNetwork k) dst addresses else Some [None].

End Attempts.

(** The error of a failed dial: that of the only call, or all of them. *)
Definition dialError (tried : attempt) (errors : list failure) : failure :=
  match tried, errors with None, [f] => f | _, _ => Errors errors end.

(** ** Packets: translation and timeout *)

Definition SocksaddrFrom (a : Addr) (port : Z) : Socksaddr := mkSocksaddr (Some a) port "".

(** The address packets go to where it is not the destination's: of the dialed connection, or the
    one listened for. *)
Definition packetAddress (k : DialerKind) (udpConnect : bool) (dst : Socksaddr) (tried : attempt) (a : option Addr) : option Addr :=
  if udpConnect then (if bool_decide (a = sa_addr dst) then None else a)
  else match tried with
       | None => None
       | Some [a0] => if parallelNetwork k then a else Some a0
       | Some _ => a
       end.

Definition portProtocol (port : Z) : string :=
  if port =? 53 then "dns" else if port =? 123 then "ntp" else if port =? 3478 then "stun" else if port =? 443 then "quic" else "".
(** In seconds. *)
Definition protocolTimeout (protocol : string) : Z :=
  if bool_decide (protocol ∈ ["dns"; "ntp"; "stun"]) then 10 else if bool_decide (protocol ∈ ["quic"; "dtls"]) then 30 else 0.

(** The idle timeout of a packet connection, in nanoseconds; 0 is none. *)
Definition udpTimeout (x : Context) : Z :=
  if 0 <? d_UDPTimeout (dial x) then d_UDPTimeout (dial x) else
  let protocol := f_Protocol (facts x) in
  let protocol := if bool_decide (protocol = "") then portProtocol (sa_port (f_Destination (facts x))) else protocol in
  if bool_decide (protocol = "") then 0 else protocolTimeout protocol * 1000000000.

Section Translation.
Context `{RuleLibs}.

(** [isNAT]: the connection translates addresses itself. *)
Definition translation (isNAT : bool) (x : Context) (a : option Addr) : NAT :=
  let dst := f_Destination (facts x) in
  let original := match d_RouteOriginalDestination (dial x) with Some o => if Socksaddr_IsValid o then Some o else None | None => None end in
  match a with
  | Some a =>
      let origin := default dst original in
      if isNAT then UpdateDestination a
      else if bool_decide (dst = SocksaddrFrom a (sa_port dst)) then NoNAT
      else if d_UDPDisableDomainUnmapping (dial x) then UnidirectionalNAT (SocksaddrFrom a (sa_port dst)) origin
      else BidirectionalNAT (SocksaddrFrom a (sa_port dst)) origin
  | None =>
      match original with
      | Some o => if bool_decide (o = dst) then NoNAT else DestinationNAT dst o
      | None => NoNAT
      end
  end.
End Translation.

(** ** Streams *)

(** Inside [connectionCopyEarlyWrite]: before each of its calls, and returning. *)
Inductive earlyPc :=
| Deadline
| WriteNil
| Reading
| Writing (payload : list Z) (outcome : option failure)
| Result (e : option failure).

Inductive setupPc :=
| Dialing (tried : attempt) (todo : list attempt) (errors : list failure)
| Reporting
| Tracking
| PreStart (d : bool)
| PreEarly (d readHandshake writeHandshake : bool) (e : earlyPc)
| PreSwap (d : bool) (f : failure)
| PreNotify (d : bool) (f : failure)
| PreClose (d : bool) (f : failure).

(** Inside [connectionCopy]; the copy of the library has [h] read and not written. *)
Inductive copyPc :=
| CCached
| CWriteCached (b : list Z)
| CSwapFailed (f : failure)
| CNotifyFailed (f : failure)
| CCloseFailed
| CCopy (h : list Z)
| CCloseError (f : failure)
| CHalf
| CSwap (e : option failure)
| CNotify (e : option failure)
| CCloseEnd.

Inductive next := Goto (p : setupPc) | Spawn | Return.

Definition stepEarly (d writeHandshake : bool) (p : earlyPc) (a : answer) s : option (earlyPc * St) :=
  match p, a with
  | Deadline, AErr None => Some (Reading, s)
  | Deadline, AErr (Some ErrInvalid) => Some (if writeHandshake then WriteNil else Result (Some ErrInvalid), s)
  | Deadline, AErr (Some f) => Some (Result (Some f), s)
  | WriteNil, AWrite _ e => Some (Result e, s)
  | Reading, ARead b e =>
      let s := read d b s in
      Some (match e with
            | None => (Writing b None, s)
            | Some f => if isTimeout f then (Writing b (Some DeadlineExceeded), s)
                        else if isEOF f then (Writing b (Some EOF), s)
                        else (Result (Some (Caused "read payload" f)), cutShort true d b s)
            end)
  | Writing b outcome, AWrite n e =>
      if nonempty b || writeHandshake then
        match e with
        | None => Some (Result outcome, wrote d b s)
        | Some f => Some (Result (Some (Caused "write payload" f)), cutShort true d (drop n b) (wrote d (take n b) s))
        end
      else Some (Result outcome, s)
  | _, _ => None
  end.

Section Relay.
Context `{RuleLibs} `{RelayLibs}.
Variable id : nat.
Variable x : Context.
(** Which connections can be closed for writing alone. *)
Variable duplex : side -> bool.

(** The close handler once the connection is tracked. *)
Definition onClose (e : option failure) s : St := setConnections (List.filter (fun i => negb (i =? id)%nat) (connections s)) (notify e s).

(** After the early handshake of a direction comes that of the other, and then the goroutines. *)
Definition afterHandshake (d : bool) : next := if d then Spawn else Goto (PreStart true).

(** [preConnectionCopy]. *)
Definition stepPre (p : setupPc) (a : answer) s : option (next * St) :=
  match p with
  | PreStart d =>
      match a with
      | ANeeds rh wh => Some (if rh || wh then Goto (PreEarly d rh wh Deadline) else afterHandshake d, s)
      | _ => None
      end
  | PreEarly d rh wh (Result None) =>
      match a with
      | ANeeds again _ => Some (if again then Goto (PreEarly d rh wh Deadline) else afterHandshake d, s)
      | _ => None
      end
  | PreEarly d rh wh (Result (Some f)) => Some (if benign f then afterHandshake d else Goto (PreSwap d f), s)
  | PreEarly d rh wh e => '(e, s) ← stepEarly d wh e a s; Some (Goto (PreEarly d rh wh e), s)
  | PreSwap d f => Some (Goto (if done s then PreNotify d f else PreClose d f), swapDone s)
  | PreNotify d f => Some (Goto (PreClose d f), onClose (Some f) s)
  | PreClose d f => Some (afterHandshake d, logHandshake d f (closeBoth s))
  | _ => None
  end.

(** [NewConnection] up to the goroutines. *)
Definition stepSetup (p : setupPc) (a : answer) s : option (next * St) :=
  match p, a with
  | Dialing tried todo errors, ADialed (Ok _) => Some (Goto Reporting, openRemote s)
  | Dialing tried (t :: todo) errors, ADialed (Err f) => Some (Goto (Dialing t todo (errors ++ [f])), s)
  | Dialing tried [] errors, ADialed (Err f) =>
      Some (Return, CloseOnHandshakeFailure (Caused "open connection" (dialError tried (errors ++ [f]))) s)
  | Reporting, AErr None => Some (Goto Tracking, s)
  | Reporting, AErr (Some f) => Some (Return, CloseOnHandshakeFailure (Caused "report handshake success" f) (closeSide Remote s))
  | Tracking, _ =>
      Some (Goto (PreStart false),
            setConnections (connections s ++ [id]) (fragment (d_TLSFragment (dial x) || d_TLSRecordFragment (dial x)) s))
  | Dialing _ _ _, _ | Reporting, _ => None
  | p, a => stepPre p a s
  end.

(** [connectionCopy], from one call that others see to the next. *)
Definition stepCopy (d : bool) (p : copyPc) (a : answer) s : option (option copyPc * St) :=
  match p, a with
  | CCached, ACached None => Some (Some (CCopy []), s)
  | CCached, ACached (Some None) => Some (Some CCached, s)
  | CCached, ACached (Some (Some b)) => Some (Some (CWriteCached b), read d b s)
  | CWriteCached b, AWrite n None => Some (Some CCached, wrote d b s)
  | CWriteCached b, AWrite n (Some f) => Some (Some (CSwapFailed f), cutShort false d (drop n b) (wrote d (take n b) s))
  | CSwapFailed f, _ => Some (Some (if done s then CNotifyFailed f else CCloseFailed), swapDone s)
  | CNotifyFailed f, _ => Some (Some CCloseFailed, onClose (Some f) s)
  | CCloseFailed, _ => Some (None, closeBoth s)
  | CCopy h, ACopyRead b => Some (Some (CCopy (h ++ b)), read d b s)
  | CCopy h, ACopyWrote b => Some (Some (CCopy (drop (length b) h)), wrote d b s)
  | CCopy h, ACopyEnd e => Some (Some (match e with Some f => CCloseError f | None => CHalf end), cutShort false d h s)
  | CCloseError f, _ => Some (Some (CSwap (Some f)), closeBoth s)
  | CHalf, AErr e =>
      if duplex (destination d) then
        match e with
        | None => Some (Some (CSwap None), closeWrite (destination d) s)
        | Some f => Some (Some (CCloseError f), s)
        end
      else Some (Some (CSwap None), closeSide (destination d) s)
  | CSwap e, _ => Some (if done s then Some (CNotify e) else None, swapDone s)
  | CNotify e, _ => Some (Some CCloseEnd, onClose e s)
  | CCloseEnd, _ => Some (None, closeBoth s)
  | _, _ => None
  end.

(** A relay being set up, or its two goroutines: [None] has returned. *)
Inductive config :=
| Setup (p : setupPc)
| Running (up down : option copyPc).

Definition stepRelay (who : bool) (a : answer) (c : config) s : option (config * St) :=
  match c with
  | Setup p =>
      '(n, s) ← stepSetup p a s;
      Some (match n with Goto p => Setup p | Spawn => Running (Some CCached) (Some CCached) | Return => Running None None end, s)
  | Running up down =>
      p ← (if who then down else up);
      '(p, s) ← stepCopy who p a s;
      Some (if who then Running up p else Running p down, s)
  end.

(** The contract of [bufio.CopyWithCounters], as of [io.Copy]: it writes what it has read, in order,
    and all of it when it returns no error. *)
Definition honest (who : bool) (c : config) (a : answer) : Prop :=
  match c with
  | Running up down =>
      match (if who then down else up), a with
      | Some (CCopy h), ACopyWrote b => b `prefix_of` h
      | Some (CCopy h), ACopyEnd None => h = []
      | _, _ => True
      end
  | Setup _ => True
  end.

(** The configurations a relay of a dial by [attempts] comes to. *)
Inductive reachable (s0 : St) (c0 : config) : config -> St -> Prop :=
| reach_start : reachable s0 c0 c0 s0
| reach_step c s who a c' s' :
    reachable s0 c0 c s -> honest who c a -> stepRelay who a c s = Some (c', s') -> reachable s0 c0 c' s'.

(** ** Packets *)

Inductive packetPc :=
| PDialing (tried : attempt) (todo : list attempt) (errors : list failure)
| PReporting (a : option Addr)
| PTracking (a : option Addr).

(** Inside [packetConnectionCopy]. *)
Inductive packetCopyPc :=
| PCopy
| PSwap (e : option failure)
| PNotify (e : option failure)
| PClose.

Inductive packetConfig :=
| PacketSetup (p : packetPc)
| PacketRunning (up down : option packetCopyPc).

(** [NewPacketConnection] up to the goroutines. *)
Definition stepPacketSetup (kind : DialerKind) (isNAT : bool) (p : packetPc) (a : answer) s : option (packetConfig * St) :=
  let m := facts x in
  let udpConnect := d_UDPConnect (dial x) in
  match p, a with
  | PDialing tried todo errors, ADialed (Ok a) =>
      Some (PacketSetup (PReporting (packetAddress kind udpConnect (f_Destination m) tried a)), openRemote s)
  | PDialing tried (t :: todo) errors, ADialed (Err f) => Some (PacketSetup (PDialing t todo (errors ++ [f])), s)
  | PDialing tried [] errors, ADialed (Err f) =>
      let message := if udpConnect then "open packet connection" else "listen packet connection" in
      Some (PacketRunning None None, CloseOnHandshakeFailure (Caused message (dialError tried (errors ++ [f]))) s)
  | PReporting a, AErr None => Some (PacketSetup (PTracking a), s)
  | PReporting a, AErr (Some _) => Some (PacketRunning None None, closeBoth s)
  | PTracking a, _ =>
      Some (PacketRunning (Some PCopy) (Some PCopy),
            setConnections (connections s ++ [id]) (setPacket (translation isNAT x a, udpTimeout x) s))
  | _, _ => None
  end.

Definition stepPacketCopy (p : packetCopyPc) (a : answer) s : option (option packetCopyPc * St) :=
  match p, a with
  | PCopy, AErr e => Some (Some (PSwap e), s)
  | PSwap e, _ => Some (Some (if done s then PClose else PNotify e), swapDone s)
  | PNotify e, _ => Some (Some PClose, onClose e s)
  | PClose, _ => Some (None, closeBoth s)
  | _, _ => None
  end.

Definition stepPackets (kind : DialerKind) (isNAT : bool) (who : bool) (a : answer) (c : packetConfig) s : option (packetConfig * St) :=
  match c with
  | PacketSetup p => stepPacketSetup kind isNAT p a s
  | PacketRunning up down =>
      p ← (if who then down else up);
      '(p, s) ← stepPacketCopy p a s;
      Some (if who then PacketRunning up p else PacketRunning p down, s)
  end.

Inductive packetReachable (kind : DialerKind) (isNAT : bool) (s0 : St) (c0 : packetConfig) : packetConfig -> St -> Prop :=
| packet_start : packetReachable kind isNAT s0 c0 c0 s0
| packet_step c s who a c' s' :
    packetReachable kind isNAT s0 c0 c s -> stepPackets kind isNAT who a c s = Some (c', s') ->
    packetReachable kind isNAT s0 c0 c' s'.

Definition NewPacketConnection (kind : DialerKind) : option packetConfig :=
  match packetAttempts kind (d_UDPConnect (dial x)) (facts x) with
  | Some (t :: todo) => Some (PacketSetup (PDialing t todo []))
  | _ => None
  end.

Definition NewConnection (kind : DialerKind) : option config :=
  match streamAttempts (parallelNetwork kind) (facts x) with
  | Some (t :: todo) => Some (Setup (Dialing t todo []))
  | _ => None
  end.
End Relay.

(** ** How often the handler is called *)

(** Whether a goroutine has swapped [done], and whether it is about to call the handler. *)
Definition swapped (o : option copyPc) : nat :=
  match o with
  | Some (CCached | CWriteCached _ | CSwapFailed _ | CCopy _ | CCloseError _ | CHalf | CSwap _) => 0
  | _ => 1
  end.
Definition owed (o : option copyPc) : nat := match o with Some (CNotifyFailed _ | CNotify _) => 1 | _ => 0 end.
Definition closing (o : option copyPc) : bool :=
  match o with Some (CNotifyFailed _ | CCloseFailed | CNotify _ | CCloseEnd) => true | _ => false end.

Definition swaps (c : config) : nat :=
  match c with
  | Setup (PreNotify _ _ | PreClose _ _) => 1
  | Setup _ => 0
  | Running up down => swapped up + swapped down
  end.
Definition owing (c : config) : nat :=
  match c with
  | Setup (PreNotify _ _) => 1
  | Setup _ => 0
  | Running up down => owed up + owed down
  end.
(** Before the connection is in the manager's list. *)
Definition untracked (c : config) : bool :=
  match c with Setup (Dialing _ _ _ | Reporting | Tracking) => true | _ => false end.

Definition dialing (c : config) : bool := match c with Setup (Dialing _ _ _) => true | _ => false end.

(** What the goroutines have in hand: read and not yet written. *)
Definition heldBy (o : option copyPc) : list Z := match o with Some (CWriteCached b | CCopy b) => b | _ => [] end.
Definition held (d : bool) (c : config) : list Z :=
  match c with
  | Setup (PreEarly d' _ _ (Writing b _)) => if Bool.eqb d d' then b else []
  | Setup _ => []
  | Running up down => heldBy (if d then down else up)
  end.

Section Handler.
Context `{RuleLibs} `{RelayLaws}.
Variable id : nat.
Variable x : Context.
Variable duplex : side -> bool.
Variable others : list nat.
Hypothesis Hid : id ∉ others.

(** A relay that was refused before anything moved. *)
Definition refused (s : St) : Prop :=
  length (notified s) = 1%nat /\ handshakeErrors s = [] /\ closed s Local = true /\ closed s Remote = opened s /\
  connections s = others.

Record relayInv (c : config) (s : St) : Prop := {
  inv_done : if done s then (0 < length (handshakeErrors s) + swaps c)%nat else (length (handshakeErrors s) + swaps c = 0)%nat;
  inv_count : (length (notified s) + owing c = length (handshakeErrors s) + swaps c - 1)%nat;
  inv_untracked : untracked c = true -> connections s = others /\ notified s = [] /\ handshakeErrors s = [];
  inv_tracked : untracked c = false -> connections s = others \/ connections s = others ++ [id] /\ notified s = [];
  inv_opened : opened s = negb (dialing c);
  inv_open : untracked c = true -> closed s Remote = false;
  inv_closed up down : c = Running up down -> swapped up = 1%nat -> swapped down = 1%nat ->
    closing up = false -> closing down = false -> closed s Local = true /\ closed s Remote = true
}.

Lemma filter_others : List.filter (fun i => negb (i =? id)%nat) others = others.
Proof using Hid.
  induction others as [|i l IH]; [done|]. apply not_elem_of_cons in Hid as [Hi Hl]. cbn [List.filter].
  rewrite (proj2 (Nat.eqb_neq i id)) by congruence. cbn [negb]. by rewrite IH.
Qed.

Lemma filter_tracked : List.filter (fun i => negb (i =? id)%nat) (others ++ [id]) = others.
Proof using Hid. rewrite List.filter_app, filter_others. cbn [List.filter]. rewrite Nat.eqb_refl. apply app_nil_r. Qed.

Lemma onClose_connections e s :
  connections s = others \/ connections s = others ++ [id] -> connections (onClose id e s) = others.
Proof using Hid. intros [Hc|Hc]; cbn [onClose setConnections notify connections]; rewrite Hc; [apply filter_others|apply filter_tracked]. Qed.

(** A change the count does not depend on. *)
Lemma relayInv_same c c' s s' :
  relayInv c s -> swaps c' = swaps c -> owing c' = owing c -> untracked c = false -> untracked c' = false -> opened s' = opened s ->
  (forall up down, c' = Running up down -> swapped up + swapped down < 2)%nat ->
  connections s' = connections s -> done s' = done s -> notified s' = notified s -> handshakeErrors s' = handshakeErrors s ->
  relayInv c' s'.
Proof using Type.
  intros [Hd Hn Hu Ht Hop Hrm Hc] Hs Ho Hf Hf' Hos Hz Hcs Hds Hns Hhs.
  constructor; rewrite ?Hcs, ?Hds, ?Hns, ?Hhs, ?Hs, ?Ho; [done|done|congruence|auto| |congruence|].
  { rewrite Hos, Hop. f_equal. by destruct c as [[]|], c' as [[]|]. }
  intros up down E. specialize (Hz up down E). lia.
Qed.

Ltac relay_same Hi := apply (relayInv_same _ _ _ _ Hi); try done; intros ? ? [= <- <-]; cbn; lia.

Lemma stepEarly_keeps d wh p a s p' s' : stepEarly d wh p a s = Some (p', s') ->
  connections s' = connections s /\ done s' = done s /\ notified s' = notified s /\ handshakeErrors s' = handshakeErrors s /\ opened s' = opened s.
Proof using Type. intros Hs. unfold stepEarly in Hs. repeat (case_match; simplify_eq/=; try done). Qed.

(** A step of the early handshakes keeps the count. *)
Lemma pre_counts p a s n s' :
  relayInv (Setup p) s -> stepPre id p a s = Some (n, s') ->
  match n with
  | Goto p' => relayInv (Setup p') s'
  | Spawn => relayInv (Running (Some CCached) (Some CCached)) s'
  | Return => False
  end.
Proof using Hid.
  intros Hi Hs. pose proof Hi as [Hd Hn Hu Ht Hop Hrm Hc].
  destruct p as [| | |d|d rh wh e|d f|d f|d f]; try done; cbn [stepPre] in Hs.
  - destruct a; try done. injection Hs as <- <-. destruct (_ || _), d; relay_same Hi.
  - assert (match e with Result None => True | Result (Some f) => True | _ => exists e', n = Goto (PreEarly d rh wh e') /\ stepEarly d wh e a s = Some (e', s') end) as He.
    { destruct e as [| | | |[f|]]; try done; by destruct (stepEarly _ _ _ _ _) as [[e' s1]|]; [injection Hs as <- <-; eauto|]. }
    destruct e as [| | | |[f|]]; try (destruct He as (e' & -> & He); apply stepEarly_keeps in He as (? & ? & ? & ? & ?); relay_same Hi).
    + injection Hs as <- <-. destruct (benign f), d; relay_same Hi.
    + destruct a; try done. injection Hs as <- <-. destruct read0, d; relay_same Hi.
  - injection Hs as <- <-. cbn in *. destruct (done s) eqn:E; constructor; cbn; try done; try lia.
      - injection Hs as <- <-. constructor; cbn in *; rewrite ?length_app; cbn; try done; try lia.
    intros _. left. destruct (Ht eq_refl) as [-> |[-> _]]; [apply filter_others|apply filter_tracked].
  - injection Hs as <- <-. destruct d; constructor; cbn in *; rewrite ?length_app; cbn; try done; try lia.
    all: destruct (done s); lia.
Qed.

(** A step of the setup keeps the count, or refuses the relay. *)
Lemma setup_counts p a s n s' :
  relayInv (Setup p) s -> stepSetup id x p a s = Some (n, s') ->
  match n with
  | Goto p' => relayInv (Setup p') s'
  | Spawn => relayInv (Running (Some CCached) (Some CCached)) s'
  | Return => refused s'
  end.
Proof.
  intros Hi Hs. pose proof Hi as [Hd Hn Hu Ht Hop Hrm Hc].
  assert (untracked (Setup p) = false \/ untracked (Setup p) = true) as [Hp|Hp] by (destruct (untracked (Setup p)); auto).
  { assert (stepPre id p a s = Some (n, s')) as Hs' by (by destruct p). pose proof (pre_counts _ _ _ _ _ Hi Hs'). by destruct n. }
  destruct (Hu Hp) as (Hcs & Hns & Hhs).
  destruct p as [tried todo errors| | | | | | |]; try done; cbn in Hs.
  - destruct todo, a; try done; (destruct r as [b|f]; injection Hs as <- <-; [by constructor|]); [|by constructor].
    destruct (failure_notifies (Caused "open connection" (dialError tried (errors ++ [f]))) s) as (f' & Hf).
    unfold refused. rewrite Hf, Hns, failure_handshakes, !failure_closes, failure_connections, failure_opened. by rewrite (Hrm Hp), Hop.
  - destruct a; try done. destruct e as [f|]; injection Hs as <- <-; [|by constructor].
    destruct (failure_notifies (Caused "report handshake success" f) (closeSide Remote s)) as (f' & Hf).
    unfold refused. rewrite Hf, failure_handshakes, !failure_closes, failure_connections, failure_opened. cbn. by rewrite Hns.
  - injection Hs as <- <-. constructor; cbn in *; rewrite ?Hhs, ?Hns, ?Hcs in *; try done. auto.
Qed.

Lemma swapped_le o : (swapped o <= 1)%nat.
Proof using Type. destruct o as [[]|]; cbn; lia. Qed.

(** A step of a goroutine keeps the count. *)
Lemma copy_counts (who : bool) up down p a s p' s' :
  relayInv (Running up down) s -> (if who then down else up) = Some p -> stepCopy id duplex who p a s = Some (p', s') ->
  relayInv (if who then Running up p' else Running p' down) s'.
Proof using Hid.
  intros Hi Hp Hs. pose proof Hi as [Hd Hn Hu Ht Hop Hrm Hc]. specialize (Hc up down eq_refl). specialize (Ht eq_refl).
  pose proof (swapped_le up) as Hup. pose proof (swapped_le down) as Hdown.
  assert (closing up = false -> swapped up = 1%nat -> up = None) as Hnone_up by (by destruct up as [[]|]).
  assert (closing down = false -> swapped down = 1%nat -> down = None) as Hnone_down by (by destruct down as [[]|]).
  assert (forall o, connections (onClose id o s) = others) as Hcl by (intros o; apply onClose_connections; destruct Ht as [?|[? _]]; auto).
  destruct who; subst.
  all: destruct p; cbn in Hs; repeat (case_match; simplify_eq/=); simplify_eq/=; try done.
  all: try by (apply (relayInv_same _ _ _ _ Hi); try (intros ? ? [= <- <-]); cbn in *; try lia).
  all: try match goal with E : done _ = _ |- _ => rewrite E in Hd end.
  all: constructor; try done; try (intros ? ? [= <- <-]); cbn in *; rewrite ?length_app; cbn; try lia; auto.
  all: try (match goal with |- context [done ?s0] => destruct (done s0) end; lia).
  all: intros _; left; apply (Hcl (Some f)).
Qed.

Lemma relay_counts c0 c s :
  relayInv c0 (newState others) -> reachable id x duplex (newState others) c0 c s -> relayInv c s \/ c = Running None None /\ refused s.
Proof.
  intros Hi Hr. induction Hr as [|c s who a c' s' Hr IH _ Hs]; [by left|].
  destruct IH as [IH|[-> _]]; [|by destruct who].
  destruct c as [p|up down]; cbn in Hs.
  - destruct (stepSetup id x p a s) as [[n s1]|] eqn:E; [|done]. injection Hs as <- <-.
    pose proof (setup_counts _ _ _ _ _ IH E). destruct n; auto.
  - destruct (if who then down else up) as [p|] eqn:Hp; [|done]. cbn in Hs.
    destruct (stepCopy id duplex who p a s) as [[p' s1]|] eqn:E; [|done]. injection Hs as <- <-.
    left. by eapply (copy_counts who up down).
Qed.

(** C7. However the network answers and the goroutines interleave, when a relay has ended the
    connection is closed, and the remote one if it was opened, and the manager has forgotten it;
    the handler was called once, and once more for every early handshake that failed: the
    goroutines are started after a failed handshake too, and find [done] set. *)
Theorem relay_ends_and_reports kind c0 s :
  NewConnection x kind = Some c0 -> reachable id x duplex (newState others) c0 (Running None None) s ->
  length (notified s) = S (length (handshakeErrors s)) /\ connections s = others /\ closed s Local = true /\ closed s Remote = opened s.
Proof.
  intros Hc Hr. assert (relayInv c0 (newState others)) as Hi.
  { unfold NewConnection in Hc. repeat case_match; simplify_eq. by constructor. }
  destruct (relay_counts _ _ _ Hi Hr) as [Hinv|(_ & Hn & Hh & Hl & Hrm & Hcs)]; [|by rewrite Hn, Hh].
  pose proof (inv_count _ _ Hinv) as Hn. destruct (inv_closed _ _ Hinv None None) as [Hl Hrm]; [done..|]. pose proof (inv_opened _ _ Hinv) as Hop. rewrite Hop.
  cbn in Hn. split; [lia|]. split; [|auto]. destruct (inv_tracked _ _ Hinv eq_refl) as [|[_ Hnil]]; [done|]. rewrite Hnil in Hn. cbn in Hn. lia.
Qed.
End Handler.

(** ** What is relayed *)

Section Data.
Context `{RuleLibs} `{RelayLaws}.
Variable id : nat.
Variable x : Context.
Variable duplex : side -> bool.

(** What was written and what is in hand is what was read: exactly, while nothing was lost; up to
    the end, when a goroutine gave up; in order, when an early handshake did. *)
Definition carried (c : config) (s : St) (d : bool) : Prop :=
  match cut s d with
  | None => got s d = put s d ++ held d c
  | Some false => (put s d ++ held d c) `prefix_of` got s d
  | Some true => (put s d ++ held d c) `sublist_of` got s d
  end.

(** The goroutine of a direction writes nothing any more. *)
Definition stopped (d : bool) (c : config) : Prop :=
  match c with
  | Running up down => match (if d then down else up) with Some (CCached | CWriteCached _ | CCopy _) => False | _ => True end
  | Setup _ => False
  end.

Definition inOrder (c : config) (s : St) : Prop := forall d, carried c s d /\ (cut s d = Some false -> stopped d c).

(** One direction's reads and writes, seen from that direction and from the other. *)
Lemma read_here d b s : got (read d b s) d = got s d ++ b.
Proof using Type. cbn. by rewrite eqb_reflx. Qed.
Lemma wrote_here d b s : put (wrote d b s) d = put s d ++ b.
Proof using Type. cbn. by rewrite eqb_reflx. Qed.

(** The direction [d] a step is about: it reads [b], writes [w], keeps [h] of the [k] in hand and
    gives up [r]. *)
Definition cutTo (early : bool) (r : list Z) (o : option bool) : option bool :=
  if nonempty r then match o with Some true => Some true | _ => Some early end else o.

Lemma nonempty_nil (r : list Z) : nonempty r = false -> r = [].
Proof using Type. by destruct r. Qed.

Lemma order_step d early (c c' : config) s s' b w h k r :
  inOrder c s -> ~ stopped d c -> held d c = k -> held d c' = h -> held (negb d) c' = held (negb d) c ->
  (stopped (negb d) c -> stopped (negb d) c') -> (r <> [] -> early = false -> stopped d c') ->
  got s' d = got s d ++ b -> put s' d = put s d ++ w -> cut s' d = cutTo early r (cut s d) ->
  got s' (negb d) = got s (negb d) -> put s' (negb d) = put s (negb d) -> cut s' (negb d) = cut s (negb d) ->
  k ++ b = w ++ h ++ r -> inOrder c' s'.
Proof using Type.
  intros Hi Hns Hk Hh Hn Hst Hst' Hg Hp Hc Hg' Hp' Hc' Hs d'. destruct (Bool.bool_dec d d') as [<-|Hd].
  - destruct (Hi d) as [Hca Hcu]. unfold carried in *. rewrite Hc, Hg, Hp, Hh.
    assert (cut s d <> Some false) as Hnc by (intros E; by apply Hns, Hcu). rewrite Hk in Hca.
    assert ((w ++ h) `sublist_of` (k ++ b)) as Hsub by (rewrite Hs, (assoc_L (++)); by apply sublist_inserts_r).
    assert (forall g, (put s d ++ k) `sublist_of` g -> ((put s d ++ w) ++ h) `sublist_of` (g ++ b)) as Hsl.
    { intros g Hx. rewrite <- (assoc_L (++)). etrans; [apply sublist_app; [reflexivity|exact Hsub]|].
      rewrite (assoc_L (++)). by apply sublist_app. }
    unfold cutTo. destruct (nonempty r) eqn:Er.
    + split; [|intros E; apply Hst'; [by destruct r | destruct (cut s d) as [[]|]; congruence]].
      destruct (cut s d) as [[]|]; [by apply Hsl | done|]. rewrite Hca.
      destruct early; [by apply Hsl|]. exists r. rewrite <- !(assoc_L (++)). by rewrite Hs.
    + apply nonempty_nil in Er as ->. rewrite app_nil_r in Hs. split; [|intros E; done].
      destruct (cut s d) as [[]|]; [by apply Hsl | done|]. rewrite Hca, <- !(assoc_L (++)). by rewrite Hs.
  - assert (d' = negb d) as -> by (by destruct d, d'). destruct (Hi (negb d)) as [Hca Hcu].
    unfold carried in *. rewrite Hn, Hg', Hp', Hc'. auto.
Qed.

(** A step that moves nothing. *)
Lemma order_same c c' s s' :
  inOrder c s -> got s' = got s -> put s' = put s -> cut s' = cut s ->
  (forall d, held d c' = held d c) -> (forall d, stopped d c -> stopped d c') -> inOrder c' s'.
Proof using Type.
  intros Hi Hg Hp Hc Hh Hs d. destruct (Hi d) as [Hca Hcu]. unfold carried in *. rewrite Hg, Hp, Hc, Hh. auto.
Qed.

Lemma early_order d rh wh p a s p' s' :
  inOrder (Setup (PreEarly d rh wh p)) s -> stepEarly d wh p a s = Some (p', s') -> inOrder (Setup (PreEarly d rh wh p')) s'.
Proof using Type.
  intros Hi Hs.
  assert (forall b w h k r, held d (Setup (PreEarly d rh wh p)) = k -> held d (Setup (PreEarly d rh wh p')) = h ->
    got s' d = got s d ++ b -> put s' d = put s d ++ w -> cut s' d = cutTo true r (cut s d) ->
    got s' (negb d) = got s (negb d) -> put s' (negb d) = put s (negb d) -> cut s' (negb d) = cut s (negb d) ->
    k ++ b = w ++ h ++ r -> inOrder (Setup (PreEarly d rh wh p')) s') as Hstep.
  { intros b w h k r Hk Hh Hg Hp Hc Hg' Hp' Hc' E. eapply (order_step d true _ _ _ _ b w h k r Hi); try done; [by intros []|].
    destruct p, p'; cbn; try done; by rewrite ?eqb_negb1, ?eqb_negb2; destruct d. }
  destruct p as [| | |b out|e]; destruct a; try done; cbn in Hs.
  - apply (order_same _ _ _ _ Hi); destruct e as [[]|]; simplify_eq; try done; by destruct wh.
  - injection Hs as <- <-. by apply (order_same _ _ _ _ Hi).
  - destruct e as [f|]; [destruct (isTimeout f); [|destruct (isEOF f)]|]; injection Hs as <- <-.
    1,2,4: apply (Hstep b [] b [] []); cbn; rewrite ?eqb_reflx, ?app_nil_r; try done; by destruct d.
    apply (Hstep b [] [] [] b); cbn; rewrite ?eqb_reflx, ?app_nil_r; try done; by destruct d.
  - destruct (nonempty b || wh) eqn:Enw.
    + destruct e as [f|]; injection Hs as <- <-.
      * apply (Hstep [] (take n b) [] b (drop n b)); cbn; rewrite ?eqb_reflx, ?app_nil_r, ?take_drop; try done; by destruct d.
      * apply (Hstep [] b [] b []); cbn; rewrite ?eqb_reflx, ?app_nil_r; try done; by destruct d.
    + injection Hs as <- <-. apply orb_false_iff in Enw as [Eb%nonempty_nil _]. subst b.
      apply (Hstep [] [] [] [] []); cbn; rewrite ?eqb_reflx, ?app_nil_r; done.
Qed.

Ltac nothing Hnil :=
  apply Hnil;
    [first [done | exact (proj1 (failure_data _ _))]|first [done | exact (proj1 (proj2 (failure_data _ _)))]
    |first [done | exact (proj2 (proj2 (failure_data _ _)))]|by intros []|by intros []].

Definition afterSetup (n : next) : config :=
  match n with Goto p => Setup p | Spawn => Running (Some CCached) (Some CCached) | Return => Running None None end.

Lemma setup_order p a s n s' :
  inOrder (Setup p) s -> stepSetup id x p a s = Some (n, s') -> inOrder (afterSetup n) s'.
Proof.
  intros Hi Hs.
  assert (got s' = got s -> put s' = put s -> cut s' = cut s -> (forall d, held d (Setup p) = []) ->
    (forall d, held d (afterSetup n) = []) -> inOrder (afterSetup n) s') as Hnil.
  { intros Hg Hp Hc Hh Hh'. apply (order_same _ _ _ _ Hi Hg Hp Hc); [|by intros d []]. intros d. by rewrite Hh, Hh'. }
  destruct p as [tried todo errors| | |d|d rh wh e|d f|d f|d f]; cbn in Hs.
  - destruct todo, a; try done; destruct r; injection Hs as <- <-; nothing Hnil.
  - destruct a; try done. destruct e; injection Hs as <- <-; nothing Hnil.
  - injection Hs as <- <-. nothing Hnil.
  - destruct a; try done. injection Hs as <- <-. destruct (_ || _), d; nothing Hnil.
  - destruct e as [| | | |[f|]].
    1-4: destruct (stepEarly d wh _ a s) as [[e' s1]|] eqn:E; [|done]; injection Hs as <- <-; by eapply early_order.
    + injection Hs as <- <-. destruct (benign f), d; nothing Hnil.
    + destruct a; try done. injection Hs as <- <-. destruct read0, d; nothing Hnil.
  - injection Hs as <- <-. destruct (done s); nothing Hnil.
  - injection Hs as <- <-. nothing Hnil.
  - injection Hs as <- <-. destruct d; nothing Hnil.
Qed.

Lemma copy_order (who : bool) up down p a s p' s' :
  inOrder (Running up down) s -> (if who then down else up) = Some p -> honest who (Running up down) a ->
  stepCopy id duplex who p a s = Some (p', s') -> inOrder (if who then Running up p' else Running p' down) s'.
Proof using Type.
  intros Hi Hp Hh Hs. cbn [honest] in Hh. rewrite Hp in Hh.
  assert (held who (Running up down) = heldBy (Some p)) as Hk by (cbn; by rewrite Hp).
  assert (held who (if who then Running up p' else Running p' down) = heldBy p') as Hk' by (by destruct who).
  assert (held (negb who) (if who then Running up p' else Running p' down) = held (negb who) (Running up down)) as Hko by (by destruct who).
  assert (forall b w r, (match p with CCached | CWriteCached _ | CCopy _ => True | _ => False end) ->
    (r <> [] -> stopped who (if who then Running up p' else Running p' down)) ->
    got s' who = got s who ++ b -> put s' who = put s who ++ w -> cut s' who = cutTo false r (cut s who) ->
    got s' (negb who) = got s (negb who) -> put s' (negb who) = put s (negb who) -> cut s' (negb who) = cut s (negb who) ->
    heldBy (Some p) ++ b = w ++ heldBy p' ++ r ->
    inOrder (if who then Running up p' else Running p' down) s') as Hstep.
  { intros b w r Hpc Hr Hg Hw Hc Hg' Hw' Hc' E.
    eapply (order_step who false _ _ _ _ b w (heldBy p') (heldBy (Some p)) r Hi); try done.
    - unfold stopped. rewrite Hp. intros Hx. by destruct p.
    - by destruct who.
    - intros Hr' _. by apply Hr. }
  assert (got s' = got s -> put s' = put s -> cut s' = cut s -> heldBy p' = heldBy (Some p) ->
    (stopped who (Running up down) -> stopped who (if who then Running up p' else Running p' down)) ->
    inOrder (if who then Running up p' else Running p' down) s') as Hsame.
  { intros Hg Hw Hc He Hst'. apply (order_same _ _ _ _ Hi Hg Hw Hc).
    - intros d. destruct (Bool.bool_dec d who) as [->|Hd]; [by rewrite Hk, Hk', He|].
      by destruct d, who.
    - intros d. destruct (Bool.bool_dec d who) as [->|Hd]; [done|]. by destruct d, who. }
  destruct p; cbn [stepCopy] in Hs.
  - destruct a; try done. destruct b as [[b|]|]; injection Hs as <- <-.
    + apply (Hstep b [] []); rewrite ?app_nil_r; try done; [apply read_here|by destruct who..].
    + apply Hsame; try done. cbn. by rewrite Hp.
    + apply Hsame; try done. cbn. by rewrite Hp.
  - destruct a; try done. destruct e; injection Hs as <- <-.
    + apply (Hstep [] (take n b) (drop n b)); cbn; rewrite ?eqb_reflx, ?app_nil_r, ?take_drop; try done; by destruct who.
    + apply (Hstep [] b []); cbn; rewrite ?eqb_reflx, ?app_nil_r; try done; by destruct who.
  - injection Hs as <- <-. apply Hsame; try done; destruct (done s); try done; by destruct who.
  - injection Hs as <- <-. apply Hsame; try done; by destruct who.
  - injection Hs as <- <-. apply Hsame; try done; by destruct who.
  - destruct a; try done; injection Hs as <- <-.
    + apply (Hstep b [] []); cbn; rewrite ?eqb_reflx, ?app_nil_r; try done; by destruct who.
    + destruct Hh as [h' ->]. apply (Hstep [] b []); cbn; rewrite ?eqb_reflx, ?app_nil_r, ?drop_app_length; try done; by destruct who.
    + apply (Hstep [] [] h); cbn; rewrite ?eqb_reflx, ?app_nil_r; try done; [by destruct who, e | by destruct who | by destruct e].
  - injection Hs as <- <-. apply Hsame; try done; by destruct who.
  - destruct a; try done. destruct (duplex _), e; injection Hs as <- <-; apply Hsame; try done; by destruct who.
  - injection Hs as <- <-. apply Hsame; try done; destruct (done s); try done; by destruct who.
  - injection Hs as <- <-. apply Hsame; try done; by destruct who.
  - injection Hs as <- <-. apply Hsame; try done; by destruct who.
Qed.

(** C8. In every state of a relay, whatever the network answers, and for each direction, what was
    written to the destination followed by what a goroutine holds is exactly what was read from the
    source, cached and early payloads included, until a call of the direction fails that leaves
    bytes unwritten; when that call is one of the goroutine's, what was written stays a prefix of
    what was read, and when it is one of the early handshake, after which the goroutines run all
    the same, it stays in order with nothing added or repeated.  The copy of the library is taken
    to write what it has read, in order, and all of it when it reports no error. *)
Theorem relayed_in_order kind others c0 c s d :
  NewConnection x kind = Some c0 -> reachable id x duplex (newState others) c0 c s ->
  match cut s d with
  | None => got s d = put s d ++ held d c
  | Some false => (put s d ++ held d c) `prefix_of` got s d
  | Some true => (put s d ++ held d c) `sublist_of` got s d
  end.
Proof.
  intros Hc Hr. enough (inOrder c s) as Hi by apply (Hi d).
  induction Hr as [|c s who a c' s' Hr IH Hh Hs].
  { unfold NewConnection in Hc. repeat case_match; simplify_eq. done. }
  destruct c as [p|up down]; cbn in Hs.
  - destruct (stepSetup id x p a s) as [[n s1]|] eqn:E; [|done]. injection Hs as <- <-. by eapply setup_order.
  - destruct (if who then down else up) as [p|] eqn:Hp; [|done]. cbn in Hs.
    destruct (stepCopy id duplex who p a s) as [[p' s1]|] eqn:E; [|done]. injection Hs as <- <-. by eapply copy_order.
Qed.
End Data.

(** ** Packet connections report once *)

Section Packets.
Context `{RuleLibs} `{RelayLaws}.
Variable id : nat.
Variable x : Context.
Variable kind : DialerKind.
Variable isNAT : bool.
Variable others : list nat.
Hypothesis Hid : id ∉ others.

Definition packetSwapped (o : option packetCopyPc) : bool := match o with Some (PCopy | PSwap _) => false | _ => true end.
Definition packetOwed (o : option packetCopyPc) : nat := match o with Some (PNotify _) => 1 | _ => 0 end.

Record packetRunning (up down : option packetCopyPc) (s : St) : Prop := {
  pr_done : done s = packetSwapped up || packetSwapped down;
  pr_count : (length (notified s) + packetOwed up + packetOwed down = if done s then 1 else 0)%nat;
  pr_tracked : connections s = others \/ connections s = others ++ [id] /\ notified s = [];
  pr_setup : is_Some (packetSetup s) /\ opened s = true;
  pr_closed : up = None \/ down = None -> closed s Local = true /\ closed s Remote = true
}.

(** What is known when a packet relay has ended. *)
Definition packetEnded (s : St) : Prop :=
  length (notified s) = match packetSetup s, opened s with None, true => 0%nat | _, _ => 1%nat end /\
  connections s = others /\ closed s Local = true /\ closed s Remote = opened s.

Definition packetInv (c : packetConfig) (s : St) : Prop :=
  match c with
  | PacketSetup p =>
      notified s = [] /\ connections s = others /\ done s = false /\ packetSetup s = None /\ closed s Remote = false /\
      opened s = match p with PDialing _ _ _ => false | _ => true end
  | PacketRunning up down => packetRunning up down s \/ up = None /\ down = None /\ packetEnded s
  end.

Lemma packet_setup_inv p a s c s' : packetInv (PacketSetup p) s -> stepPacketSetup id x kind isNAT p a s = Some (c, s') -> packetInv c s'.
Proof.
  intros (Hn & Hc & Hd & Hp & Hr & Ho) Hs. destruct p as [tried todo errors|b|b].
  - destruct todo, a; try done; destruct r as [b|f]; injection Hs as <- <-; try (by repeat split).
    right. split; [done|]. split; [done|]. unfold packetEnded. set (g := Caused _ _). destruct (failure_notifies g s) as (f' & ->).
    rewrite failure_packetSetup, failure_opened, failure_connections, !failure_closes, Hn, Hp, Ho, Hr. done.
  - destruct a; try done. destruct e; injection Hs as <- <-; [|by repeat split].
    right. split; [done|]. split; [done|]. unfold packetEnded. cbn. rewrite Hn, Hp, Ho. done.
  - injection Hs as <- <-. left. constructor; cbn; rewrite ?Hn, ?Hc, ?Hd; try done; auto. by intros [|].
Qed.

Lemma packetRunning_sym up down s : packetRunning up down s -> packetRunning down up s.
Proof using Type. intros [Hd Hn Ht Hs Hc]. constructor; [by rewrite orb_comm|lia|done|done|tauto]. Qed.

(** A step of one goroutine, the other being [o]. *)
Lemma packet_copy_inv o p a s p' s' :
  packetRunning (Some p) o s -> stepPacketCopy id p a s = Some (p', s') -> packetRunning p' o s'.
Proof using Hid.
  intros [Hd Hn Ht Hs Hc] Hstep.
  assert (forall e, connections (onClose id e s) = others) as Hcl by (intros e; apply (onClose_connections id others Hid); destruct Ht as [?|[? _]]; auto).
  destruct p; cbn [stepPacketCopy] in Hstep; cbn [packetSwapped orb] in Hd.
  - destruct a; try done. injection Hstep as <- <-. constructor; try done. intros [|]; [done|auto].
  - injection Hstep as <- <-. rewrite Hd in *. destruct (packetSwapped o) eqn:E; constructor; cbn in *; try done; try lia; auto.
    all: intros [|]; [done|auto].
  - injection Hstep as <- <-. rewrite Hd in *. constructor; cbn in *; rewrite ?Hd, ?length_app; cbn; try done; try lia.
    + left. apply (Hcl e).
    + intros [|]; [done|auto].
  - injection Hstep as <- <-. rewrite Hd in *. constructor; cbn in *; rewrite ?Hd; try done; lia.
Qed.

Lemma packets_inv c0 c s : packetInv c0 (newState others) -> packetReachable id x kind isNAT (newState others) c0 c s -> packetInv c s.
Proof.
  intros Hi Hr. induction Hr as [|c s who a c' s' Hr IH Hs]; [done|]. destruct c as [p|up down]; cbn in Hs; [by eapply packet_setup_inv|].
  destruct IH as [IH|(-> & -> & _)]; [|by destruct who].
  destruct who; cbn in Hs.
  - destruct down as [p|]; [|done]. cbn in Hs. destruct (stepPacketCopy id p a s) as [[p' s1]|] eqn:E; [|done]. injection Hs as <- <-.
    left. apply packetRunning_sym. by eapply packet_copy_inv; [apply packetRunning_sym|].
  - destruct up as [p|]; [|done]. cbn in Hs. destruct (stepPacketCopy id p a s) as [[p' s1]|] eqn:E; [|done]. injection Hs as <- <-.
    left. by eapply packet_copy_inv.
Qed.

(** C39. However the goroutines of a packet relay interleave, when it has ended both connections are
    closed, the manager has forgotten it, and the handler was called exactly once; but never when
    reporting the opened connection failed: that return calls no handler. *)
Theorem packets_end_and_report c0 s :
  NewPacketConnection x kind = Some c0 -> packetReachable id x kind isNAT (newState others) c0 (PacketRunning None None) s ->
  length (notified s) = match packetSetup s, opened s with None, true => 0%nat | _, _ => 1%nat end /\
  connections s = others /\ closed s Local = true /\ closed s Remote = opened s.
Proof.
  intros Hc Hr. assert (packetInv c0 (newState others)) as Hi by (unfold NewPacketConnection in Hc; repeat case_match; simplify_eq; done).
  destruct (packets_inv _ _ _ Hi Hr) as [[Hd Hn Ht [[? ->] ->] Hcl]|(_ & _ & He)]; [|done]. rewrite Hd in Hn. cbn in Hn.
  destruct Hcl as [-> ->]; [by left|]. split; [lia|]. split; [|done]. destruct Ht as [|[_ Hnil]]; [done|]. by rewrite Hnil in Hn.
Qed.
End Packets.

(** ** A relay can always end *)

Section Ends.
Context `{RuleLibs} `{RelayLibs}.
Variable id : nat.
Variable x : Context.
Variable duplex : side -> bool.

(** How far a relay is from its end when the network ends it. *)
Definition copyRank (o : option copyPc) : nat :=
  match o with
  | None => 0
  | Some (CWriteCached _) => 10
  | Some CCached => 9
  | Some (CCopy _) => 8
  | Some CHalf => 7
  | Some (CCloseError _) => 6
  | Some (CSwap _ | CSwapFailed _) => 5
  | Some (CNotify _ | CNotifyFailed _) => 4
  | Some (CCloseEnd | CCloseFailed) => 3
  end.
Definition setupRank (p : setupPc) : nat :=
  let base (d : bool) := if d then 20%nat else 40%nat in
  (match p with
  | Dialing _ _ _ => 62
  | Reporting => 61
  | Tracking => 60
  | PreStart d => base d + 8
  | PreEarly d _ _ e => base d + match e with Deadline => 7 | Reading => 6 | Writing _ _ | WriteNil => 5 | Result _ => 4 end
  | PreSwap d _ => base d + 3
  | PreNotify d _ => base d + 2
  | PreClose d _ => base d + 1
  end)%nat.
Definition rank (c : config) : nat :=
  match c with Setup p => setupRank p | Running up down => copyRank up + copyRank down end.

(** What the network answers to end a call. *)
Definition endSetup (p : setupPc) : answer :=
  match p with
  | Dialing _ _ _ => ADialed (Ok None)
  | PreStart _ | PreEarly _ _ _ (Result _) => ANeeds false false
  | PreEarly _ _ _ Reading => ARead [] None
  | PreEarly _ _ _ (Writing _ _ | WriteNil) => AWrite 0 None
  | _ => AErr None
  end.
Definition endCopy (p : copyPc) : answer :=
  match p with
  | CCached => ACached None
  | CWriteCached _ => AWrite 0 None
  | CCopy _ => ACopyEnd (Some (Other "closed"))
  | _ => AErr None
  end.

Lemma setup_nearer p s : exists n s', stepSetup id x p (endSetup p) s = Some (n, s') /\
  (rank (match n with Goto p => Setup p | Spawn => Running (Some CCached) (Some CCached) | Return => Running None None end) < setupRank p)%nat.
Proof using Type.
  destruct p as [? [] ?| | |[]|[] ? ? [| | | |[f|]]|[]|[]|[]]; cbn; try (destruct (_ || _)); try destruct (benign f); try destruct (done s);
    eexists _, _; (split; [reflexivity|cbn; lia]).
Qed.

Lemma copy_nearer d p s : exists o s', stepCopy id duplex d p (endCopy p) s = Some (o, s') /\ (copyRank o < copyRank (Some p))%nat.
Proof using Type.
  destruct p; cbn; try destruct (duplex _); try destruct (done s); eexists _, _; (split; [reflexivity|cbn; lia]).
Qed.

Lemma reachable_trans s0 c0 s1 c1 c s :
  reachable id x duplex s0 c0 c1 s1 -> reachable id x duplex s1 c1 c s -> reachable id x duplex s0 c0 c s.
Proof using Type. intros H01 H1. induction H1; [done|by eapply reach_step]. Qed.

(** Whatever state a relay is in, no goroutine waits for another: there are answers of the network
    with which it ends. *)
Theorem relay_can_end c s : exists s', reachable id x duplex s c (Running None None) s'.
Proof using Type.
  remember (rank c) as n eqn:Hn. revert c s Hn. induction (lt_wf n) as [n _ IH]. intros c s ->.
  assert (c = Running None None \/ exists who a c' s', honest who c a /\ stepRelay id x duplex who a c s = Some (c', s') /\ (rank c' < rank c)%nat)
    as [->|(who & a & c' & s' & Ha & Hs & Hlt)].
  { destruct c as [p|[p|] down].
    - right. destruct (setup_nearer p s) as (n & s' & Hs & Hlt). eexists false, (endSetup p), _, s'. cbn [stepRelay]. rewrite Hs.
      split; [by destruct p as [| | | |? ? ? []| | |]|]. by split.
    - right. destruct (copy_nearer false p s) as (o & s' & Hs & Hlt). exists false, (endCopy p), (Running o down), s'. cbn [stepRelay].
      split; [by destruct p|]. split; [cbn; by rewrite Hs|cbn in *; lia].
    - destruct down as [p|]; [right|by left]. destruct (copy_nearer true p s) as (o & s' & Hs & Hlt). exists true, (endCopy p), (Running None o), s'.
      split; [by destruct p|]. split; [cbn; by rewrite Hs|cbn in *; lia]. }
  - eexists. constructor.
  - destruct (IH _ Hlt c' s' eq_refl) as (s2 & Hr). exists s2. eapply reachable_trans; [|exact Hr]. by eapply reach_step; [constructor|..].
Qed.
End Ends.

(** ** Relays step by step *)

(** The steps of a script: which goroutine goes on and what it is told. *)
Fixpoint runRelay `{RuleLibs} `{RelayLibs} (id : nat) (x : Context) (duplex : side -> bool) (script : list (bool * answer)) (c : config) s :
    option (config * St) :=
  match script with
  | [] => Some (c, s)
  | (who, a) :: script => '(c, s) ← stepRelay id x duplex who a c s; runRelay id x duplex script c s
  end.

(** The copies of a script keep their contract. *)
Fixpoint honestScript `{RuleLibs} `{RelayLibs} (id : nat) (x : Context) (duplex : side -> bool) (script : list (bool * answer)) (c : config) s : Prop :=
  match script with
  | [] => True
  | (who, a) :: script =>
      honest who c a /\
      match stepRelay id x duplex who a c s with Some (c, s) => honestScript id x duplex script c s | None => True end
  end.

Lemma runRelay_reachable `{RuleLibs} `{RelayLibs} id x duplex script s0 c0 c s c' s' :
  reachable id x duplex s0 c0 c s -> honestScript id x duplex script c s -> runRelay id x duplex script c s = Some (c', s') ->
  reachable id x duplex s0 c0 c' s'.
Proof.
  revert c s. induction script as [|[who a] script IH]; intros c s Hr Hh; [by intros [= <- <-]|].
  destruct Hh as [Ha Hh]. cbn. destruct (stepRelay id x duplex who a c s) as [[c1 s1]|] eqn:E; [|done].
  apply IH; [|done]. by eapply reach_step.
Qed.

Module RelaySample.
Import RuleSample.

#[export] Instance closing : RelayLibs := {| CloseOnHandshakeFailure f s := notify (Some f) (closeSide Local s) |}.
#[export] Instance closingLaws : RelayLaws.
Proof. constructor; try done; [by eexists|by intros f s []]. Defined.

Definition context : Context :=
  mkContext (connection "in" "example.com" 1000 443) (mkDialOptions None None [] [] 0 false false 0 false 0 false) (fresh false)
    noInboundOptions "" "" None false.
Definition kind : DialerKind := mkDialerKind false false.
Definition both (_ : side) : bool := true.
Definition start : config := Setup (Dialing None [] []).

Lemma starts : NewConnection context kind = Some start.
Proof. reflexivity. Defined.

Definition connected : list (bool * answer) := [(false, ADialed (Ok None)); (false, AErr None); (false, AErr None)].
Definition noHandshake : list (bool * answer) := [(false, ANeeds false false); (false, ANeeds false false)].
(** A sniffed buffer is sent on, the upload ends, and then the download. *)
Definition relayed : list (bool * answer) :=
  connected ++ noHandshake ++
  [(false, ACached (Some (Some [1; 2]))); (true, ACached None); (false, AWrite 2 None); (false, ACached None);
   (false, ACopyRead [3; 4]); (false, ACopyWrote [3]); (true, ACopyRead [9]); (false, ACopyWrote [4]);
   (false, ACopyEnd None); (false, AErr None); (false, AErr None);
   (true, ACopyWrote [9]); (true, ACopyEnd None); (true, AErr None); (true, AErr None); (true, AErr None); (true, AErr None)].
(** The write of the early handshake fails; both goroutines run all the same. *)
Definition failedHandshake : list (bool * answer) :=
  connected ++
  [(false, ANeeds false true); (false, AErr None); (false, ARead [5] None); (false, AWrite 0 (Some (Other "reset")));
   (false, AErr None); (false, AErr None); (false, AErr None); (false, ANeeds false false);
   (false, ACached None); (false, ACopyEnd (Some (Other "closed"))); (false, AErr None); (false, AErr None); (false, AErr None); (false, AErr None);
   (true, ACached None); (true, ACopyEnd (Some (Other "closed"))); (true, AErr None); (true, AErr None); (true, AErr None); (true, AErr None)].

Definition endOf (script : list (bool * answer)) : config * St :=
  default (start, newState [7%nat]) (runRelay 8 context both script start (newState [7%nat])).

Lemma endOf_reachable script : honestScript 8 context both script start (newState [7%nat]) -> is_Some (runRelay 8 context both script start (newState [7%nat])) ->
  reachable 8 context both (newState [7%nat]) start (endOf script).1 (endOf script).2.
Proof.
  intros Hh [[c s] E]. eapply runRelay_reachable; [constructor|exact Hh|]. unfold endOf. by rewrite E.
Qed.

Lemma relayed_honest : honestScript 8 context both relayed start (newState [7%nat]).
Proof. vm_compute. repeat split; by eexists. Qed.

Lemma relay_ends_and_reports_witness :
  (endOf relayed).1 = Running None None /\ (endOf relayed).2.(put) false = [1; 2; 3; 4] /\
  length (notified (endOf relayed).2) = 1%nat /\ closed (endOf relayed).2 Remote = true.
Proof.
  split; [reflexivity|]. split; [reflexivity|].
  assert (reachable 8 context both (newState [7%nat]) start (Running None None) (endOf relayed).2) as Hr
    by (change (Running None None) with (endOf relayed).1; apply endOf_reachable; [exact relayed_honest|by eexists]).
  destruct (relay_ends_and_reports 8 context both [7%nat] ltac:(by apply not_elem_of_cons; split; [|apply not_elem_of_nil]) kind start (endOf relayed).2 starts Hr)
    as (Hn & _ & _ & Hc). split; [exact Hn|exact Hc].
Defined.

(** The handler is called twice. *)
Example handler_called_twice : (endOf failedHandshake).1 = Running None None /\ length (notified (endOf failedHandshake).2) = 2%nat.
Proof. split; reflexivity. Qed.

(** In the middle of the upload, byte 4 is in hand. *)
Definition midway : list (bool * answer) := take 11 relayed.

Lemma relayed_in_order_witness :
  held false (endOf midway).1 = [4] /\ got (endOf midway).2 false = put (endOf midway).2 false ++ [4].
Proof.
  split; [vm_compute; reflexivity|].
  refine (relayed_in_order 8 context both kind [7%nat] start (endOf midway).1 (endOf midway).2 false starts _).
  apply endOf_reachable; [vm_compute; repeat split; by eexists|by eexists].
Defined.

(** The upload breaks off: a prefix was written. *)
Example broken_upload :
  let e := endOf (take 11 relayed ++ [(false, ACopyEnd (Some (Other "reset")))]) in
  cut e.2 false = Some false /\ got e.2 false = [1; 2; 3; 4] /\ put e.2 false = [1; 2; 3].
Proof. vm_compute. done. Qed.

(** Reporting fails: the connections are closed and the handler never hears of it. *)
Definition packetsRefused : option (packetConfig * St) :=
  '(c, s) ← stepPackets 8 context kind false false (ADialed (Ok None)) (PacketSetup (PDialing None [] [])) (newState [7%nat]);
  stepPackets 8 context kind false false (AErr (Some (Other "closed"))) c s.

Lemma packets_end_and_report_witness :
  exists s, packetsRefused = Some (PacketRunning None None, s) /\ notified s = [] /\ length (notified s) = 0%nat /\ connections s = [7%nat].
Proof.
  eexists. split; [reflexivity|]. split; [reflexivity|].
  edestruct (packets_end_and_report 8 context kind false [7%nat] ltac:(by apply not_elem_of_cons; split; [|apply not_elem_of_nil])
    (PacketSetup (PDialing None [] []))) as (Hn & Hc & _); [reflexivity| |split; [exact Hn|exact Hc]].
  eapply (packet_step _ _ _ _ _ _ (PacketSetup (PReporting None)) (openRemote (newState [7%nat])) false (AErr (Some (Other "closed")))); [|reflexivity].
  eapply (packet_step _ _ _ _ _ _ (PacketSetup (PDialing None [] [])) (newState [7%nat]) false (ADialed (Ok None))); [constructor|reflexivity].
Defined.
End RelaySample.
