(* ===== verification/Trojan.v ===== *)
(** * The Trojan protocol (src/fork/sing-box/transport/trojan/protocol.go, service.go, mux.go)

    The client writes a header before its first bytes and a short one before every packet; the
    service authenticates the header by the hash of a password and hands the connection on.  The
    reader side works on [Wire]'s sources.  Addresses and their serializer, the hash, skipping and
    reading into a buffer are [TrojanLibs]; laws are assumed where theorems need them.  Writing
    into a full buffer, which panics or fails in the source, is an error here. *)

From S2P Require Import Prelude GoStrings Wire.

#[local] Open Scope Z_scope.

Definition KeyLength : Z := 56.
Definition CommandTCP : Z := 1.
Definition CommandUDP : Z := 3.
Definition CommandMux : Z := 127.
Definition CRLF : list Z := [13; 10].

Class TrojanLibs (Addr : Type) := {
  AddrPortLen : Addr -> Z;
  WriteAddrPort : Addr -> res error (list Z);
  ReadAddrPort : Parser Addr;
  (** An address in the form [ReadAddrPort] gives it, which need not be the one that was written: an
      IPv4 address mapped into IPv6, or one given as a name. *)
  asRead : Addr -> Addr;
  SkipN : nat -> Parser unit;
  (** [buffer.ReadFullFrom] with the given room left. *)
  ReadFullFrom : Z -> nat -> Parser (list Z);
  sum224 : list Z -> list Z;
  (** What a buffer holds before it is written to. *)
  stale : Z -> list Z
}.

(** What the protocol relies on. *)
Class TrojanLaws (Addr : Type) `{TrojanLibs Addr} : Prop := {
  written_length a l : WriteAddrPort a = Ok l -> len l = AddrPortLen a;
  written_read a l : WriteAddrPort a = Ok l -> reads ReadAddrPort l (asRead a);
  skipped l : reads (SkipN (length l)) l ();
  digest_length l : length (sum224 l) = 28%nat;
  stale_length n : 0 <= n -> len (stale n) = n;
  read_into_room room n : Z.of_nat n <= room -> ReadFullFrom room n = readFull n
}.

(** ** Buffers and connections *)

(** [headroom] is the room before the content, in which headers are written. *)
Record Buffer := mkBuffer { headroom : Z; content : list Z }.

(** The answers a connection gives to writes: an error comes with the bytes written before it. *)
Record Conn := mkConn { sent : list Z; answers : list (option (error * nat)) }.

Definition connWrite (p : list Z) (c : Conn) : option error * Conn :=
  match answers c with
  | Some (e, n) :: l => (Some e, mkConn (sent c ++ take n p) l)
  | None :: l => (None, mkConn (sent c ++ p) l)
  | [] => (None, mkConn (sent c ++ p) [])
  end.

(** Writes into a buffer of [room] bytes. *)
Fixpoint fill (room : Z) (acc : list Z) (pieces : list (res error (list Z))) : res error (list Z) :=
  match pieces with
  | [] => Ok acc
  | Err e :: _ => Err e
  | Ok p :: pieces => if room <? len (acc ++ p) then Err (New "buffer overflow") else fill room (acc ++ p) pieces
  end.

Section Protocol.
Context {Addr : Type} `{TrojanLibs Addr}.

(** [payload.ExtendHeader n], filled by the writes that follow. *)
Definition extendHeader (n : Z) (pieces : list (res error (list Z))) (b : Buffer) : res error Buffer :=
  if headroom b <? n then Err (New "panic: buffer overflow") else
  match fill n [] pieces with
  | Err e => Err e
  | Ok h => Ok (mkBuffer (headroom b - n) (h ++ stale (n - len h) ++ content b))
  end.

Definition hexDigit (n : Z) : Z := if n <? 10 then 48 + n else 87 + n.
Definition hexEncode (l : list Z) : list Z := concat (map (fun b => [hexDigit (b / 16); hexDigit (b mod 16)]) l).
Definition Key (password : string) : list Z := take 56 (hexEncode (sum224 ((fun c => Z.of_N (code c)) <$> bytes password))).

(** ** The client *)

Definition labelled (label : string) (r : option error * Conn) : option error * Conn :=
  match r with (Some e, c) => (Some (Error label [e]), c) | r => r end.

Definition rawWrites (key : list Z) (command : Z) (a : list Z) (payload : list Z) : list (list Z) :=
  [key; CRLF; [command]; a; CRLF] ++ (if (0 <? length payload)%nat then [payload] else []).
Fixpoint writeAll (l : list (list Z)) (c : Conn) : option error * Conn :=
  match l with
  | [] => (None, c)
  | p :: l => match connWrite p c with (Some e, c) => (Some e, c) | (None, c) => writeAll l c end
  end.
(** The address is written to the connection after the first three writes. *)
Definition ClientHandshakeRaw (key : list Z) (command : Z) (destination : Addr) (payload : list Z) (c : Conn) : option error * Conn :=
  match WriteAddrPort destination with
  | Ok a => writeAll (rawWrites key command a payload) c
  | Err e => match writeAll [key; CRLF; [command]] c with (Some e, c) => (Some e, c) | (None, c) => (Some e, c) end
  end.

Definition ClientHandshake (key : list Z) (destination : Addr) (payload : list Z) (c : Conn) : option error * Conn :=
  let headerLen := KeyLength + AddrPortLen destination + 5 in
  match fill (headerLen + len payload) [] [Ok key; Ok CRLF; Ok [CommandTCP]; WriteAddrPort destination; Ok CRLF; Ok payload] with
  | Err e => (Some e, c)
  | Ok header => labelled "write request" (connWrite header c)
  end.

Definition ClientHandshakeBuffer (key : list Z) (destination : Addr) (payload : Buffer) (c : Conn) : option error * Conn :=
  match extendHeader (KeyLength + AddrPortLen destination + 5) [Ok key; Ok CRLF; Ok [CommandTCP]; WriteAddrPort destination; Ok CRLF] payload with
  | Err e => (Some e, c)
  | Ok b => labelled "write request" (connWrite (content b) c)
  end.

(** The header of the first packet; its length is cut to 16 bits. *)
Definition packetHeader (key : list Z) (destination : Addr) (payloadLen : Z) : list (res error (list Z)) :=
  [Ok key; Ok CRLF; Ok [CommandUDP]; WriteAddrPort destination; Ok CRLF; WriteAddrPort destination; Ok (bePut 2 (payloadLen mod 2 ^ 16)); Ok CRLF].

Definition ClientHandshakePacket (key : list Z) (destination : Addr) (payload : Buffer) (c : Conn) : option error * Conn :=
  let headerLen := KeyLength + 2 * AddrPortLen destination + 9 in
  let pieces := packetHeader key destination (len (content payload)) in
  if headerLen <=? headroom payload then
    match extendHeader headerLen pieces payload with
    | Err e => (Some e, c)
    | Ok b => labelled "write payload" (connWrite (content b) c)
    end
  else
    match fill headerLen [] pieces with
    | Err e => (Some e, c)
    | Ok header =>
        match labelled "write request" (connWrite header c) with
        | (Some e, c) => (Some e, c)
        | (None, c) => labelled "write payload" (connWrite (content payload) c)
        end
    end.

Definition WritePacket (buffer : Buffer) (destination : Addr) (c : Conn) : option error * Conn :=
  match extendHeader (AddrPortLen destination + 4) [WriteAddrPort destination; Ok (bePut 2 (len (content buffer) mod 2 ^ 16)); Ok CRLF] buffer with
  | Err e => (Some e, c)
  | Ok b => labelled "write packet" (connWrite (content b) c)
  end.

Record ClientConn := mkClientConn { cc_conn : Conn; cc_key : list Z; cc_destination : Addr; cc_headerWritten : bool }.

Definition NewClientConn (c : Conn) (key : list Z) (destination : Addr) : ClientConn := mkClientConn c key destination false.

(** [Write] and [WriteBuffer] of the stream. *)
Definition ClientConn_Write (p : list Z) (cc : ClientConn) : res error Z * ClientConn :=
  let (e, c) := if cc_headerWritten cc then connWrite p (cc_conn cc) else ClientHandshake (cc_key cc) (cc_destination cc) p (cc_conn cc) in
  match e with
  | Some e => (Err e, mkClientConn c (cc_key cc) (cc_destination cc) (cc_headerWritten cc))
  | None => (Ok (len p), mkClientConn c (cc_key cc) (cc_destination cc) true)
  end.
Definition ClientConn_WriteBuffer (b : Buffer) (cc : ClientConn) : option error * ClientConn :=
  let (e, c) := if cc_headerWritten cc then connWrite (content b) (cc_conn cc)
                else ClientHandshakeBuffer (cc_key cc) (cc_destination cc) b (cc_conn cc) in
  match e with
  | Some e => (Some e, mkClientConn c (cc_key cc) (cc_destination cc) (cc_headerWritten cc))
  | None => (None, mkClientConn c (cc_key cc) (cc_destination cc) true)
  end.

Definition ClientConn_FrontHeadroom (MaxSocksaddrLength : Z) (cc : ClientConn) : Z :=
  if cc_headerWritten cc then 0 else KeyLength + 5 + MaxSocksaddrLength.

Record ClientPacketConn := mkClientPacketConn { pc_conn : Conn; pc_key : list Z; pc_headerWritten : bool }.
Definition NewClientPacketConn (c : Conn) (key : list Z) : ClientPacketConn := mkClientPacketConn c key false.

(** [WritePacket]: the header counts as written whatever became of it. *)
Definition ClientPacketConn_WritePacket (buffer : Buffer) (destination : Addr) (pc : ClientPacketConn) : option error * ClientPacketConn :=
  let (e, c) := if pc_headerWritten pc then WritePacket buffer destination (pc_conn pc)
                else ClientHandshakePacket (pc_key pc) destination buffer (pc_conn pc) in
  (e, mkClientPacketConn c (pc_key pc) true).

Definition ClientPacketConn_FrontHeadroom (MaxSocksaddrLength : Z) (pc : ClientPacketConn) : Z :=
  if pc_headerWritten pc then MaxSocksaddrLength + 4 else KeyLength + 2 * MaxSocksaddrLength + 9.

(** [ReadPacket], into a buffer with [room] bytes. *)
Definition ReadPacket (room : Z) : Parser (Addr * list Z) :=
  destination ← cause "read destination" ReadAddrPort;
  length ← cause "read chunk length" (readUint 2);
  _ ← cause "skip crlf" (SkipN 2);
  data ← ReadFullFrom room (Z.to_nat length);
  mret (destination, data).

(** ** The service *)

Record Service := mkService { users : gmap string (list Z); keys : gmap (list Z) string; hasFallback : bool }.
Definition NewService (fallback : bool) : Service := mkService ∅ ∅ fallback.

(** [UpdateUsers]: users and passwords pairwise; the tables change only when all are accepted. *)
Fixpoint collectUsers (l : list (string * string)) (us : gmap string (list Z)) (ks : gmap (list Z) string) :
    res error (gmap string (list Z) * gmap (list Z) string) :=
  match l with
  | [] => Ok (us, ks)
  | (user, password) :: l =>
      match us !! user with
      | Some _ => Err (New "user already exists")
      | None =>
          let key := Key password in
          match ks !! key with
          | Some oldUser => Err (Error "user already exists" [New ("password used by " +:+ oldUser)])
          | None => collectUsers l (<[user := key]> us) (<[key := user]> ks)
          end
      end
  end.
Definition UpdateUsers (l : list (string * string)) (s : Service) : option error * Service :=
  match collectUsers l ∅ ∅ with
  | Err e => (Some e, s)
  | Ok (us, ks) => (None, mkService us ks (hasFallback s))
  end.

(** A connection as it arrives: what each read would return, and how it ends. *)
Record Stream := mkStream { chunks : list (list Z); streamEnd : option error }.

(** One [conn.Read] into [n] bytes, and what is left. *)
Definition readOnce (n : nat) (s : Stream) : res error (list Z * Source) :=
  match chunks s with
  | [] => Err (default EOF (streamEnd s))
  | c :: l => Ok (take n c, mkSource (drop n c ++ concat l) (streamEnd s))
  end.

Inductive Outcome :=
| Failed (e : error)
| Fallback (header : list Z) (remaining : Source)
| NewStream (user : string) (destination : Addr) (remaining : Source)
| NewPackets (user : string) (destination : Addr) (remaining : Source)
| NewMux (user : string) (remaining : Source).

Definition fallback (s : Service) (header : list Z) (e : error) (remaining : Source) : Outcome :=
  if hasFallback s then Fallback header remaining else Failed (Error "fallback disabled" [e]).

(** The request after the key. *)
Definition readRequest : Parser (Z * Addr) :=
  _ ← cause "skip crlf" (SkipN 2);
  command ← cause "read command" (readUint 1);
  if bool_decide (command ∈ [CommandTCP; CommandUDP; CommandMux]) then
    destination ← cause "read destination" ReadAddrPort;
    _ ← cause "skip crlf" (SkipN 2);
    mret (command, destination)
  else fail (New ("unknown command " +:+ Itoa command)).

Definition NewConnection (s : Service) (st : Stream) : Outcome :=
  match readOnce 56 st with
  | Err e => Failed e
  | Ok (key, remaining) =>
      if negb (length key =? 56)%nat then fallback s key (New "bad request size") remaining else
      match keys s !! key with
      | None => fallback s key (New "bad request") remaining
      | Some user =>
          match readRequest remaining with
          | Some (Ok ((command, destination), remaining)) =>
              if command =? CommandTCP then NewStream user destination remaining
              else if command =? CommandUDP then NewPackets user destination remaining
              else NewMux user remaining
          | Some (Err e) => Failed e
          | None => Failed (New "out of fuel")
          end
      end
  end.

(** ** Multiplexed streams *)

(** A buffered reader over the reads [fills]: after [k] bytes were taken, what is buffered is the
    rest of the read the last of them came with, and [unread] are the reads not made. *)
Fixpoint afterTaking (k : nat) (fills : list (list Z)) : list Z * list (list Z) :=
  match fills with
  | [] => ([], [])
  | c :: l => if (k <=? length c)%nat then (drop k c, l) else afterTaking (k - length c) l
  end.

(** [newMuxConnection0].  [buffer.Len()] of the new buffer is 0, the bytes to read are its
    [FreeLen()]: what the handler gets starts with the bytes read into the buffer. *)
Definition newMuxConnection0 (st : Stream) : Outcome :=
  let all := mkSource (concat (chunks st)) (streamEnd st) in
  match (command ← cause "read command" readByte; destination ← cause "read destination" ReadAddrPort; mret (command, destination)) all with
  | Some (Ok ((command, destination), remaining)) =>
      let (buffered, unread) := afterTaking (length (rest all) - length (rest remaining)) (chunks st) in
      let cached := if (0 <? length buffered)%nat
                    then ReadFullFrom (len buffered) 0 (mkSource buffered None)
                    else Some (Ok ([], mkSource [] None)) in
      match cached with
      | Some (Ok (b, _)) =>
          let conn := mkSource (b ++ concat unread) (streamEnd st) in
          if command =? CommandTCP then NewStream "" destination conn
          else if command =? CommandUDP then NewPackets "" destination conn
          else Failed (New ("unknown command " +:+ Itoa command))
      | Some (Err e) => Failed e
      | None => Failed (New "out of fuel")
      end
  | Some (Err e) => Failed e
  | None => Failed (New "out of fuel")
  end.
End Protocol.

(** ** What the client sends *)

Lemma labelled_None label r c : labelled label r = (None, c) -> r = (None, c).
Proof. destruct r as [[e|] c']; done. Qed.
Lemma connWrite_None p c c' : connWrite p c = (None, c') -> sent c' = sent c ++ p.
Proof. unfold connWrite. destruct (answers c) as [|[[e n]|] l]; [by intros [= <-]|done|by intros [= <-]]. Qed.

Section Sending.
Context {Addr : Type} `{TrojanLaws Addr}.

(** Writes that fit. *)
Lemma fill_fits room acc pieces : len acc + len (concat pieces) <= room -> fill room acc (Ok <$> pieces) = Ok (acc ++ concat pieces).
Proof using Type.
  revert acc. induction pieces as [|p pieces IH]; intros acc Hr; cbn; [by rewrite app_nil_r|]. cbn in Hr. rewrite len_app in Hr.
  pose proof (len_nonneg (concat pieces)). rewrite (proj2 (Z.ltb_ge _ _)) by (rewrite len_app; lia).
  rewrite (IH (acc ++ p)) by (rewrite len_app; lia). by rewrite (assoc_L (++)).
Qed.

Definition streamHeader (key a : list Z) : list Z := key ++ CRLF ++ [CommandTCP] ++ a ++ CRLF.
Definition firstHeader (key a : list Z) (n : Z) : list Z := key ++ CRLF ++ [CommandUDP] ++ a ++ CRLF ++ a ++ bePut 2 n ++ CRLF.
Definition laterHeader (a : list Z) (n : Z) : list Z := a ++ bePut 2 n ++ CRLF.

(** The room that is reserved for a header is the room it takes. *)
Lemma stream_header_fills key a d :
  length key = 56%nat -> WriteAddrPort d = Ok a -> len (streamHeader key a) = KeyLength + AddrPortLen d + 5.
Proof using H0. intros Hk Ha. rewrite <-(written_length _ _ Ha). unfold streamHeader, KeyLength. rewrite !len_app. unfold len. rewrite Hk. cbn. lia. Qed.
Lemma first_header_fills key a d n :
  length key = 56%nat -> WriteAddrPort d = Ok a -> len (firstHeader key a n) = KeyLength + 2 * AddrPortLen d + 9.
Proof using H0. intros Hk Ha. rewrite <-(written_length _ _ Ha). unfold firstHeader, KeyLength. rewrite !len_app. unfold len. rewrite Hk, bePut_length. cbn. lia. Qed.
Lemma later_header_fills a d n : WriteAddrPort d = Ok a -> len (laterHeader a n) = AddrPortLen d + 4.
Proof using H0. intros Ha. rewrite <-(written_length _ _ Ha). unfold laterHeader. rewrite !len_app. unfold len. rewrite bePut_length. cbn. lia. Qed.

(** A header that fills its room is followed by the content. *)
Lemma extendHeader_fits n pieces b : n <= headroom b -> len (concat pieces) = n ->
  extendHeader n (Ok <$> pieces) b = Ok (mkBuffer (headroom b - n) (concat pieces ++ content b)).
Proof using H0.
  intros Hr Hn. pose proof (stale_length 0 ltac:(lia)) as Hst. unfold extendHeader. rewrite (proj2 (Z.ltb_ge _ _)) by lia. rewrite (fill_fits n []) by (change (len (@nil Z)) with 0; lia). cbn [app].
  rewrite Hn, Z.sub_diag. destruct (stale 0) as [|z l]; [done|]. unfold len in Hst. cbn in Hst. lia.
Qed.

Lemma Key_length password : length (Key password) = 56%nat.
Proof using H0.
  unfold Key. rewrite length_take. assert (forall l, length (hexEncode l) = (2 * length l)%nat) as ->; [|by rewrite digest_length].
  intros l. unfold hexEncode. induction l as [|b l IH]; [done|]. cbn [map concat app length]. unfold hexEncode in IH. rewrite IH. lia.
Qed.

Lemma ClientHandshake_sends key d a payload c : length key = 56%nat -> WriteAddrPort d = Ok a ->
  ClientHandshake key d payload c = labelled "write request" (connWrite (streamHeader key a ++ payload) c).
Proof using H0.
  intros Hk Ha. unfold ClientHandshake. rewrite Ha. pose proof (stream_header_fills key a d Hk Ha) as Hl.
  change [Ok key; Ok CRLF; Ok [CommandTCP]; Ok a; Ok CRLF; Ok payload] with (Ok (E := error) <$> [key; CRLF; [CommandTCP]; a; CRLF; payload]).
  assert (concat [key; CRLF; [CommandTCP]; a; CRLF; payload] = streamHeader key a ++ payload) as E.
  { unfold streamHeader. cbn [concat]. by rewrite <-!(assoc_L (++)), app_nil_r. }
  rewrite fill_fits; rewrite E; [done|]. rewrite len_app, Hl. change (len (@nil Z)) with 0. lia.
Qed.

Lemma ClientHandshakeBuffer_sends key d a b c : length key = 56%nat -> WriteAddrPort d = Ok a -> KeyLength + AddrPortLen d + 5 <= headroom b ->
  ClientHandshakeBuffer key d b c = labelled "write request" (connWrite (streamHeader key a ++ content b) c).
Proof using H0.
  intros Hk Ha Hr. unfold ClientHandshakeBuffer. rewrite Ha. pose proof (stream_header_fills key a d Hk Ha) as Hl.
  change [Ok key; Ok CRLF; Ok [CommandTCP]; Ok a; Ok CRLF] with (Ok (E := error) <$> [key; CRLF; [CommandTCP]; a; CRLF]).
  assert (concat [key; CRLF; [CommandTCP]; a; CRLF] = streamHeader key a) as E by (unfold streamHeader; cbn [concat]; by rewrite app_nil_r).
  rewrite extendHeader_fits; rewrite ?E; done.
Qed.

(** A packet goes out behind its header, in one write or two. *)
Lemma ClientHandshakePacket_sends key d b c c' : length key = 56%nat -> ClientHandshakePacket key d b c = (None, c') ->
  exists a, WriteAddrPort d = Ok a /\ sent c' = sent c ++ firstHeader key a (len (content b) mod 2 ^ 16) ++ content b.
Proof using H0.
  intros Hk. unfold ClientHandshakePacket, packetHeader. set (n := len (content b) mod 2 ^ 16). destruct (WriteAddrPort d) as [a|e] eqn:Ha.
  2: { unfold extendHeader. destruct (_ <=? _); [destruct (_ <? _); [done|]|]; unfold fill; repeat (destruct (_ <? _); [done|]); done. }
  pose proof (first_header_fills key a d n Hk Ha) as Hl.
  change [Ok key; Ok CRLF; Ok [CommandUDP]; Ok a; Ok CRLF; Ok a; Ok (bePut 2 n); Ok CRLF]
    with (Ok (E := error) <$> [key; CRLF; [CommandUDP]; a; CRLF; a; bePut 2 n; CRLF]).
  assert (concat [key; CRLF; [CommandUDP]; a; CRLF; a; bePut 2 n; CRLF] = firstHeader key a n) as E by (unfold firstHeader; cbn [concat]; by rewrite app_nil_r).
  destruct (Z.leb_spec (KeyLength + 2 * AddrPortLen d + 9) (headroom b)) as [Hr|Hr].
  - rewrite extendHeader_fits; rewrite ?E; [|done..]. cbn [content]. intros Hw%labelled_None%connWrite_None. exists a. by rewrite Hw.
  - rewrite fill_fits; rewrite ?E; [|change (len (@nil Z)) with 0; lia]. cbn [app].
    destruct (labelled "write request" _) as [[e|] c1] eqn:E1; [done|]. apply labelled_None, connWrite_None in E1.
    intros Hw%labelled_None%connWrite_None. exists a. by rewrite Hw, E1, (assoc_L (++)).
Qed.

Lemma WritePacket_sends d b c c' : WritePacket b d c = (None, c') ->
  exists a, WriteAddrPort d = Ok a /\ sent c' = sent c ++ laterHeader a (len (content b) mod 2 ^ 16) ++ content b.
Proof using H0.
  unfold WritePacket. set (n := len (content b) mod 2 ^ 16). destruct (WriteAddrPort d) as [a|e] eqn:Ha.
  2: { unfold extendHeader. destruct (_ <? _); done. }
  pose proof (later_header_fills a d n Ha) as Hl. change [Ok a; Ok (bePut 2 n); Ok CRLF] with (Ok (E := error) <$> [a; bePut 2 n; CRLF]).
  assert (concat [a; bePut 2 n; CRLF] = laterHeader a n) as E by (unfold laterHeader; cbn [concat]; by rewrite app_nil_r).
  destruct (decide (AddrPortLen d + 4 <= headroom b)) as [Hr|Hr].
  - rewrite extendHeader_fits; rewrite ?E; [|done..]. intros Hw%labelled_None%connWrite_None. exists a. by rewrite Hw.
  - unfold extendHeader. by rewrite (proj2 (Z.ltb_lt _ _)) by lia.
Qed.
End Sending.

(** ** Who is let in *)

Section Users.
Context {Addr : Type} `{TrojanLibs Addr}.

(** The tables hold the users accepted so far, each with a key of its own. *)
Definition tables_of (l : list (string * string)) (us : gmap string (list Z)) (ks : gmap (list Z) string) : Prop :=
  (forall user key, us !! user = Some key <-> exists password, (user, password) ∈ l /\ key = Key password) /\
  (forall user key, ks !! key = Some user <-> us !! user = Some key).

Lemma collectUsers_tables l done us ks us' ks' :
  tables_of done us ks -> collectUsers l us ks = Ok (us', ks') -> tables_of (done ++ l) us' ks'.
Proof using Type.
  revert done us ks. induction l as [|[user password] l IH]; intros done us ks Ht; cbn [collectUsers]; [intros [= <- <-]; by rewrite app_nil_r|].
  destruct (us !! user) as [k|] eqn:Eu; [done|]. destruct (ks !! Key password) as [u|] eqn:Ek; [done|]. intros Hc.
  rewrite cons_middle, (assoc_L (++)). eapply IH; [|exact Hc]. destruct Ht as [Hu Hk]. split.
  - intros u k. destruct (decide (user = u)) as [<-|Hne].
    + rewrite lookup_insert_eq. split; [intros [= <-]; exists password; split; [apply elem_of_app; right; by left|done]|].
      intros (p & [Hp|Hp]%elem_of_app & ->); [|apply list_elem_of_singleton in Hp; by injection Hp as ->].
      assert (us !! user = Some (Key p)) by (apply Hu; by exists p). congruence.
    + rewrite lookup_insert_ne, Hu by done. split; intros (p & Hp & ->); exists p; (split; [|done]); [apply elem_of_app; by left|].
      apply elem_of_app in Hp as [|Hp%list_elem_of_singleton]; [done|]. by injection Hp as -> ->.
  - intros u k. destruct (decide (Key password = k)) as [<-|Hne].
    + rewrite lookup_insert_eq. destruct (decide (user = u)) as [<-|Hne]; [by rewrite lookup_insert_eq|]. rewrite lookup_insert_ne by done.
      split; [by intros [= ->]|]. intros Hx. apply Hk in Hx. congruence.
    + rewrite lookup_insert_ne, Hk by done. destruct (decide (user = u)) as [<-|Hnu]; [|by rewrite lookup_insert_ne].
      rewrite lookup_insert_eq, Eu. split; [done|]. intros E. by injection E as E.
Qed.

Lemma UpdateUsers_tables l s s' : UpdateUsers l s = (None, s') -> tables_of l (users s') (keys s') /\ hasFallback s' = hasFallback s.
Proof using Type.
  unfold UpdateUsers. destruct (collectUsers l ∅ ∅) as [[us ks]|e] eqn:E; [|done]. intros [= <-]. split; [|done]. cbn [users keys].
  apply (collectUsers_tables l [] ∅ ∅); [|done]. split; [intros u k|intros u k]; (split; [done|]); [|done]. intros (p & Hp & _). by apply elem_of_nil in Hp.
Qed.

(** A list that is refused changes nothing. *)
Lemma UpdateUsers_refused l s e s' : UpdateUsers l s = (Some e, s') -> s' = s.
Proof using Type. unfold UpdateUsers. by destruct (collectUsers l ∅ ∅) as [[us ks]|]; intros [= _ <-]. Qed.

Definition userOf (o : Outcome (Addr := Addr)) : option string :=
  match o with NewStream u _ _ => Some u | NewPackets u _ _ => Some u | NewMux u _ => Some u | _ => None end.

(** A connection is taken for a user only if it begins with the key of that user's password. *)
Lemma handled_is_authenticated l s s' st user : UpdateUsers l s = (None, s') -> userOf (NewConnection s' st) = Some user ->
  exists password, (user, password) ∈ l /\ Key password `prefix_of` concat (chunks st).
Proof using Type.
  intros Hu. destruct (UpdateUsers_tables _ _ _ Hu) as [[Hus Hks] _]. unfold NewConnection, readOnce. destruct (chunks st) as [|c cs]; [done|].
  unfold fallback. destruct (negb _); [by destruct (hasFallback s')|].
  destruct (keys s' !! take 56 c) as [u|] eqn:Ek; [|by destruct (hasFallback s')].
  intros Ho. assert (u = user) as ->.
  { destruct (readRequest _) as [[[[command d] left']|e]|]; [|done..]. destruct (command =? CommandTCP); [by injection Ho|]. destruct (command =? CommandUDP); by injection Ho. }
  apply Hks, Hus in Ek as (p & Hp & Hk). exists p. split; [done|]. rewrite <-Hk. cbn. apply prefix_app_r. exists (drop 56 c). by rewrite take_drop.
Qed.
End Users.

(** ** What arrives *)

Section Receiving.
Context {Addr : Type} `{TrojanLaws Addr}.

Lemma reads_request command d a : command ∈ [CommandTCP; CommandUDP; CommandMux] -> WriteAddrPort d = Ok a ->
  reads readRequest (CRLF ++ [command] ++ a ++ CRLF) (command, asRead d).
Proof using H0.
  intros Hc Ha. unfold readRequest. eapply reads_bind; [apply reads_cause, (skipped CRLF)|].
  eapply reads_bind; [apply reads_cause|].
  { assert (0 <= command < 256) by (repeat (apply elem_of_cons in Hc as [->|Hc]; [done|]); by apply elem_of_nil in Hc).
    replace [command] with (bePut 1 command) by (cbn; by rewrite Z.mod_small by lia). by apply reads_readUint. }
  rewrite bool_decide_eq_true_2 by done. eapply reads_bind; [by apply reads_cause, written_read|]. rewrite <-(app_nil_r CRLF).
  eapply reads_bind; [apply reads_cause, (skipped CRLF)|]. apply reads_ret.
Qed.

(** The service behind a whole header, which came with the key in one read. *)
Lemma NewConnection_request s user key command d a data c cs en :
  keys s !! key = Some user -> length key = 56%nat -> command ∈ [CommandTCP; CommandUDP; CommandMux] -> WriteAddrPort d = Ok a ->
  concat (c :: cs) = key ++ CRLF ++ [command] ++ a ++ CRLF ++ data -> (56 <= length c)%nat ->
  NewConnection s (mkStream (c :: cs) en) =
    (if command =? CommandTCP then NewStream user (asRead d) (mkSource data en)
     else if command =? CommandUDP then NewPackets user (asRead d) (mkSource data en) else NewMux user (mkSource data en)).
Proof using H0.
  intros Hs Hk Hc Ha Hall Hlen. cbn in Hall. unfold NewConnection, readOnce. cbn [chunks streamEnd].
  assert (take 56 c = key /\ drop 56 c ++ concat cs = CRLF ++ [command] ++ a ++ CRLF ++ data) as [-> ->].
  { rewrite <-(take_drop 56 c), <-(assoc_L (++)) in Hall. apply app_inj_1 in Hall; [done|]. rewrite length_take. lia. }
  rewrite Hk. cbn [Nat.eqb negb]. rewrite Hs.
  replace (CRLF ++ [command] ++ a ++ CRLF ++ data) with ((CRLF ++ [command] ++ a ++ CRLF) ++ data) by (by rewrite <-!(assoc_L (++))).
  by rewrite (reads_request command d a Hc Ha data en).
Qed.

(** The writes of a client, all of which succeed. *)
Fixpoint sendAll (ws : list (list Z)) (cc : ClientConn (Addr := Addr)) : option ClientConn :=
  match ws with
  | [] => Some cc
  | w :: ws => match ClientConn_Write w cc with (Ok _, cc) => sendAll ws cc | (Err _, _) => None end
  end.

Lemma ClientConn_Write_sends w cc n cc' : length (cc_key cc) = 56%nat -> ClientConn_Write w cc = (Ok n, cc') ->
  cc_headerWritten cc' = true /\ cc_key cc' = cc_key cc /\ cc_destination cc' = cc_destination cc /\
  (cc_headerWritten cc = true -> sent (cc_conn cc') = sent (cc_conn cc) ++ w) /\
  (cc_headerWritten cc = false -> exists a, WriteAddrPort (cc_destination cc) = Ok a /\
     sent (cc_conn cc') = sent (cc_conn cc) ++ streamHeader (cc_key cc) a ++ w).
Proof using H0.
  intros Hk. unfold ClientConn_Write. destruct (cc_headerWritten cc).
  - destruct (connWrite w (cc_conn cc)) as [[e|] c] eqn:E; [done|]. intros [= <- <-]. apply connWrite_None in E. split_and!; done.
  - destruct (WriteAddrPort (cc_destination cc)) as [a|e] eqn:Ha.
    + rewrite (ClientHandshake_sends _ _ a) by done. destruct (labelled _ _) as [[e|] c] eqn:E; [done|]. apply labelled_None, connWrite_None in E.
      intros [= <- <-]. split_and!; [done..|]. intros _. by exists a.
    + unfold ClientHandshake. rewrite Ha. unfold fill. repeat (destruct (_ <? _); [done|]). done.
Qed.

Lemma sendAll_written ws cc cc' : length (cc_key cc) = 56%nat -> cc_headerWritten cc = true -> sendAll ws cc = Some cc' ->
  sent (cc_conn cc') = sent (cc_conn cc) ++ concat ws.
Proof using H0.
  revert cc. induction ws as [|w ws IH]; intros cc Hk Hh; cbn [sendAll]; [intros [= <-]; by rewrite app_nil_r|].
  destruct (ClientConn_Write w cc) as [[n|e] cc1] eqn:E; [|done]. destruct (ClientConn_Write_sends _ _ _ _ Hk E) as (Hh1 & Hk1 & _ & Hs & _).
  intros Hr. rewrite (IH cc1) by (by rewrite ?Hk1). rewrite (Hs Hh). cbn. by rewrite (assoc_L (++)).
Qed.

(** What a user of the service writes to a stream is what the handler reads from it, under the
    user's name and for the destination the client asked for, as it is read, however the connection cuts it up
    after a first read that has the key; and no one is taken for a user without the key of the
    user's password. *)
Theorem trojan_stream_roundtrip registered s s' user password d ans ws cc more st c cs :
  UpdateUsers registered s = (None, s') -> (user, password) ∈ registered ->
  ws <> [] -> sendAll ws (NewClientConn (mkConn [] ans) (Key password) d) = Some cc ->
  chunks st = c :: cs -> (56 <= length c)%nat -> concat (c :: cs) = sent (cc_conn cc) ++ more ->
  NewConnection s' st = NewStream user (asRead d) (mkSource (concat ws ++ more) (streamEnd st)) /\
  (forall st' u, userOf (NewConnection s' st') = Some u -> exists p, (u, p) ∈ registered /\ Key p `prefix_of` concat (chunks st')).
Proof using H0.
  intros Hu Hin Hne Hsend Hst Hlen Hall. split; [|intros st' u; by apply (handled_is_authenticated registered s)].
  destruct (UpdateUsers_tables _ _ _ Hu) as [[Hus Hks] _]. destruct ws as [|w ws]; [done|]. cbn [sendAll] in Hsend.
  destruct (ClientConn_Write w _) as [[n|e] cc1] eqn:E; [|done].
  destruct (ClientConn_Write_sends _ _ _ _ (Key_length password : length (cc_key (NewClientConn (mkConn [] ans) (Key password) d)) = _) E) as (Hh & Hk & Hd & _ & Hs).
  destruct (Hs eq_refl) as (a & Ha & Hsent). cbn [NewClientConn cc_key cc_destination cc_conn sent] in Hk, Ha, Hsent.
  rewrite app_nil_l in Hsent. assert (length (cc_key cc1) = 56%nat) as Hk1 by (rewrite Hk; apply Key_length).
  rewrite (sendAll_written ws cc1 cc Hk1 Hh Hsend), Hsent in Hall. destruct st as [chs en]. cbn in Hst. subst chs.
  rewrite (NewConnection_request s' user (Key password) CommandTCP d a (concat (w :: ws) ++ more) c cs en); [done|apply Hks, Hus; by exists password|apply Key_length|by left|done| |done].
  rewrite Hall. unfold streamHeader. cbn [concat]. by rewrite <-!(assoc_L (++)).
Qed.

(** Packets a client sends, all of which succeed, and the packets read from the other end. *)
Fixpoint sendPackets (l : list (Buffer * Addr)) (pc : ClientPacketConn) : option ClientPacketConn :=
  match l with
  | [] => Some pc
  | (b, d) :: l => match ClientPacketConn_WritePacket b d pc with (None, pc) => sendPackets l pc | (Some _, _) => None end
  end.
Fixpoint readPackets (room : Z) (n : nat) : Parser (list (Addr * list Z)) :=
  match n with
  | O => mret []
  | S n => p ← ReadPacket room; l ← readPackets room n; mret (p :: l)
  end.

Lemma reads_packet room d a b : WriteAddrPort d = Ok a -> len (content b) < 2 ^ 16 -> 2 ^ 16 - 1 <= room ->
  reads (ReadPacket room) (laterHeader a (len (content b) mod 2 ^ 16) ++ content b) (asRead d, content b).
Proof using H0.
  intros Ha Hl Hr. pose proof (len_nonneg (content b)). unfold laterHeader. rewrite <-!(assoc_L (++)), Z.mod_small by lia. unfold ReadPacket.
  eapply reads_bind; [by apply reads_cause, written_read|]. eapply reads_bind; [apply reads_cause, reads_readUint; lia|].
  eapply reads_bind; [apply reads_cause, (skipped CRLF)|]. rewrite <-(app_nil_r (content b)) at 2.
  eapply reads_bind; [|apply reads_ret]. unfold len in *. rewrite Nat2Z.id, read_into_room by lia. apply reads_readFull.
Qed.

(** The packets after the header of the connection. *)
Lemma sendPackets_written room l pc pc' : pc_headerWritten pc = true -> sendPackets l pc = Some pc' -> 2 ^ 16 - 1 <= room ->
  Forall (fun bd => len (content bd.1) < 2 ^ 16) l ->
  exists bs, sent (pc_conn pc') = sent (pc_conn pc) ++ bs /\ reads (readPackets room (length l)) bs ((fun bd => (asRead bd.2, content bd.1)) <$> l).
Proof using H0.
  intros Hh Hs Hr Hl. revert pc Hh Hs. induction Hl as [|[b d] l Hb _ IH]; intros pc Hh Hs; cbn [sendPackets] in Hs.
  { injection Hs as <-. exists []. split; [by rewrite app_nil_r|apply reads_ret]. }
  unfold ClientPacketConn_WritePacket in Hs. rewrite Hh in Hs. destruct (WritePacket b d (pc_conn pc)) as [[e|] c] eqn:E; [done|].
  destruct (WritePacket_sends _ _ _ _ E) as (a & Ha & Hsent). destruct (IH (mkClientPacketConn c (pc_key pc) true) eq_refl Hs) as (bs & Hbs & Hread).
  exists ((laterHeader a (len (content b) mod 2 ^ 16) ++ content b) ++ bs). split; [rewrite Hbs; cbn [pc_conn]; by rewrite Hsent, !(assoc_L (++))|].
  cbn [readPackets length]. eapply reads_bind; [by apply reads_packet|]. rewrite <-(app_nil_r bs). eapply reads_bind; [exact Hread|]. apply reads_ret.
Qed.

(** C29. The packets a user of the service sends, of less than 65536 bytes each, are the packets read
    from the connection the handler is given, in order and with their destinations in the form
    addresses are read in, where the first read of the connection has the whole key of 56 bytes and
    the packets are read with room for 65535 bytes; what follows them is left to read.  The connection
    itself is for the destination of the first packet. *)
Theorem trojan_packets_roundtrip registered s s' user password b d l ans pc more st c cs :
  UpdateUsers registered s = (None, s') -> (user, password) ∈ registered ->
  Forall (fun bd => len (content bd.1) < 2 ^ 16) ((b, d) :: l) ->
  sendPackets ((b, d) :: l) (NewClientPacketConn (mkConn [] ans) (Key password)) = Some pc ->
  chunks st = c :: cs -> (56 <= length c)%nat -> concat (c :: cs) = sent (pc_conn pc) ++ more ->
  exists conn, NewConnection s' st = NewPackets user (asRead d) conn /\
    forall room, 2 ^ 16 - 1 <= room ->
      readPackets room (S (length l)) conn = Some (Ok ((asRead d, content b) :: ((fun bd => (asRead bd.2, content bd.1)) <$> l), mkSource more (streamEnd st))).
Proof using H0.
  intros Hu Hin [Hb Hl]%Forall_cons Hsend Hst Hlen Hall. destruct (UpdateUsers_tables _ _ _ Hu) as [[Hus Hks] _]. cbn [sendPackets] in Hsend.
  unfold ClientPacketConn_WritePacket in Hsend. cbn [NewClientPacketConn pc_headerWritten pc_key pc_conn] in Hsend.
  destruct (ClientHandshakePacket _ _ _ _) as [[e|] c1] eqn:E; [done|].
  destruct (ClientHandshakePacket_sends _ _ _ _ _ (Key_length password) E) as (a & Ha & Hsent). cbn [sent] in Hsent. rewrite app_nil_l in Hsent.
  assert (exists bs, sent (pc_conn pc) = sent c1 ++ bs /\
    forall room, 2 ^ 16 - 1 <= room -> reads (readPackets room (length l)) bs ((fun bd => (asRead bd.2, content bd.1)) <$> l)) as (bs & Hbs & Hread).
  { destruct (sendPackets_written (2 ^ 16 - 1) l (mkClientPacketConn c1 (Key password) true) pc eq_refl Hsend ltac:(lia) Hl) as (bs & Hbs & _). exists bs. split; [exact Hbs|]. intros room Hr.
    destruct (sendPackets_written room l (mkClientPacketConn c1 (Key password) true) pc eq_refl Hsend Hr Hl) as (bs' & Hbs' & Hread). rewrite Hbs in Hbs'. apply app_inv_head in Hbs'. by subst. }
  destruct st as [chs en]. cbn in Hst. subst chs. exists (mkSource ((laterHeader a (len (content b) mod 2 ^ 16) ++ content b) ++ bs ++ more) en). split.
  - erewrite (NewConnection_request s' user (Key password) CommandUDP d a _ c cs en); [done|apply Hks, Hus; by exists password|apply Key_length|right; by left|done| |done].
    rewrite Hall, Hbs, Hsent. unfold firstHeader, laterHeader. by rewrite <-!(assoc_L (++)).
  - intros room Hr. rewrite (assoc_L (++)). cbn [readPackets streamEnd].
    assert (reads (readPackets room (S (length l))) ((laterHeader a (len (content b) mod 2 ^ 16) ++ content b) ++ bs)
              ((asRead d, content b) :: ((fun bd => (asRead bd.2, content bd.1)) <$> l))) as Hall'; [|apply Hall'].
    cbn [readPackets]. eapply reads_bind; [by apply reads_packet|]. rewrite <-(app_nil_r bs). eapply reads_bind; [by apply Hread|]. apply reads_ret.
Qed.

(** A multiplexed stream whose header and first bytes arrive in one read loses those bytes: the
    buffer they should be kept in is filled with as many bytes as it already has, which is none. *)
Lemma mux_first_bytes_lost d a payload later en : WriteAddrPort d = Ok a ->
  newMuxConnection0 (mkStream (([CommandTCP] ++ a ++ payload) :: later) en) = NewStream "" (asRead d) (mkSource (concat later) en).
Proof using H0.
  intros Ha. unfold newMuxConnection0. cbn [chunks streamEnd concat].
  assert (reads (command ← cause "read command" readByte; destination ← cause "read destination" ReadAddrPort; mret (command, destination))
    ([CommandTCP] ++ a) (CommandTCP, asRead d)) as Hr.
  { eapply reads_bind; [apply reads_cause, reads_readByte|]. rewrite <-(app_nil_r a). eapply reads_bind; [by apply reads_cause, written_read|]. apply reads_ret. }
  replace (([CommandTCP] ++ a ++ payload) ++ concat later) with (([CommandTCP] ++ a) ++ payload ++ concat later) by (by rewrite <-!(assoc_L (++))).
  rewrite Hr. cbn [rest]. rewrite (length_app ([CommandTCP] ++ a)). replace (_ + _ - _)%nat with (length ([CommandTCP] ++ a)) by lia.
  cbn [afterTaking]. rewrite (assoc_L (++) [CommandTCP] a payload), (length_app ([CommandTCP] ++ a) payload), (proj2 (Nat.leb_le _ _)) by lia. rewrite drop_app_length.
  destruct (0 <? length payload)%nat; [|done]. rewrite read_into_room by apply len_nonneg. done.
Qed.
End Receiving.

(** ** A service with two users; an address is a number sent as a byte *)

Module TrojanSample.
#[local] Instance libs : TrojanLibs Z := {|
  AddrPortLen := fun _ => 1;
  WriteAddrPort := fun a => if (0 <=? a) && (a <? 512) then Ok [a mod 256] else Err (New "bad address");
  ReadAddrPort := readByte;
  asRead := fun a => a mod 256;
  SkipN := fun n => _ ← readFull n; mret ();
  ReadFullFrom := fun room n => if Z.of_nat n <=? room then readFull n else fail (New "short buffer");
  sum224 := fun l => take 28 (l ++ replicate 28 0);
  stale := fun n => replicate (Z.to_nat n) 0
|}.
#[local] Instance laws : TrojanLaws Z.
Proof.
  constructor.
  - intros a l. cbn. destruct (_ && _); [|done]. by intros [= <-].
  - intros a l. cbn. destruct (_ && _); [|done]. intros [= <-]. apply reads_readByte.
  - intros l. cbn. rewrite <-(app_nil_r l) at 2. eapply reads_bind; [apply reads_readFull|apply reads_ret].
  - intros l. cbn [sum224 libs]. rewrite length_take, length_app, length_replicate. lia.
  - intros n Hn. unfold len. cbn. rewrite length_replicate. lia.
  - intros room n Hn. cbn. by rewrite (proj2 (Z.leb_le _ _)).
Qed.

Definition service : Service := (UpdateUsers [("alice", "a"); ("bob", "b")] (NewService true)).2.
Definition bobStream : ClientConn := default (NewClientConn (mkConn [] []) [] 0) (sendAll [[1; 2]; [3]] (NewClientConn (mkConn [] []) (Key "b") 7)).
Definition bobPackets : ClientPacketConn :=
  default (NewClientPacketConn (mkConn [] []) [])
    (sendPackets [(mkBuffer 0 [1; 2], 7); (mkBuffer 100 [], 264); (mkBuffer 5 [3], 7)] (NewClientPacketConn (mkConn [] []) (Key "b"))).

Lemma trojan_stream_roundtrip_witness :
  NewConnection service (mkStream [sent (cc_conn bobStream); [4]] None) = NewStream "bob" 7 (mkSource [1; 2; 3; 4] None).
Proof.
  refine (proj1 (trojan_stream_roundtrip [("alice", "a"); ("bob", "b")] (NewService true) service "bob" "b" 7 [] [[1; 2]; [3]] bobStream [4]
    (mkStream [sent (cc_conn bobStream); [4]] None) (sent (cc_conn bobStream)) [[4]] _ _ _ _ _ _ _)); try reflexivity; [compute_done|done|].
  vm_compute. lia.
Defined.

Lemma trojan_packets_roundtrip_witness :
  exists conn, NewConnection service (mkStream [sent (pc_conn bobPackets); [4]] None) = NewPackets "bob" 7 conn /\
    readPackets 65535 3 conn = Some (Ok ([(7, [1; 2]); (8, []); (7, [3])], mkSource [4] None)).
Proof.
  destruct (trojan_packets_roundtrip [("alice", "a"); ("bob", "b")] (NewService true) service "bob" "b" (mkBuffer 0 [1; 2]) 7
    [(mkBuffer 100 [], 264); (mkBuffer 5 [3], 7)] [] bobPackets [4] (mkStream [sent (pc_conn bobPackets); [4]] None) (sent (pc_conn bobPackets)) [[4]])
    as (conn & Hc & Hr); try reflexivity; [compute_done|repeat constructor|vm_compute; lia|].
  exists conn. split; [exact Hc|]. apply (Hr 65535). lia.
Defined.

(** A key that arrives in two reads is no key. *)
Example split_key_falls_back :
  NewConnection service (mkStream [take 30 (sent (cc_conn bobStream)); drop 30 (sent (cc_conn bobStream))] None) =
  Fallback (take 30 (sent (cc_conn bobStream))) (mkSource (drop 30 (sent (cc_conn bobStream))) None).
Proof. by vm_compute. Qed.

(** After a first packet that failed the header is never sent. *)
Example header_is_not_repeated :
  let pc := (ClientPacketConn_WritePacket (mkBuffer 0 [1]) 7 (NewClientPacketConn (mkConn [] [Some (New "reset", 0%nat)]) (Key "b"))).2 in
  sent (pc_conn (ClientPacketConn_WritePacket (mkBuffer 100 [1]) 7 pc).2) = [7; 0; 1; 13; 10; 1].
Proof. by vm_compute. Qed.
End TrojanSample.
