(* ===== verification/Obfs.v ===== *)
(** * Traffic dressed up as TLS or HTTP (src/fork/sing-box/transport/simple-obfs/tls.go, http.go)

    The client end of simple-obfs.  A connection is what it still delivers ([Wire]'s source), how
    its reads are cut ([cuts]), what was written and how writes end.  Random bytes and the time
    are parameters, as are the buffer size and the base64 encoding of other packages. *)

From S2P Require Import Prelude GoStrings Wire TLSFragment.

#[local] Open Scope Z_scope.

(** ** Connections *)

Record Conn := mkConn { incoming : Source; cuts : list nat; written : list Z; answers : list (option error) }.

Definition setIncoming (l : list Z) (ks : list nat) (c : Conn) : Conn := mkConn (mkSource l (ending (incoming c))) ks (written c) (answers c).

(** [io.ReadFull]: the bytes read, and the error when they are too few. *)
Definition connReadFull (n : nat) (c : Conn) : (list Z * option error) * Conn :=
  let l := rest (incoming c) in
  if (n <=? length l)%nat then ((take n l, None), setIncoming (drop n l) (cuts c) c)
  else ((l, Some (match ending (incoming c) with
                  | Some e => e
                  | None => if bool_decide (l = []) then EOF else ErrUnexpectedEOF
                  end)), setIncoming [] (cuts c) c).

(** One read into [k] bytes. *)
Definition connRead (k : nat) (c : Conn) : (list Z * option error) * Conn :=
  let l := rest (incoming c) in
  match l with
  | [] => (([], Some (default EOF (ending (incoming c)))), c)
  | _ => let n := Nat.min k (Nat.max 1 (default (length l) (head (cuts c)))) in
         ((take n l, None), setIncoming (drop n l) (tail (cuts c)) c)
  end.

Definition connWrite (p : list Z) (c : Conn) : option error * Conn :=
  (default None (head (answers c)), mkConn (incoming c) (cuts c) (written c ++ p) (tail (answers c))).

(** ** TLS *)

Definition chunkSize : nat := Z.to_nat (2 ^ 14).

Record TLSObfs := mkTLSObfs { to_conn : Conn; to_server : list Z; to_remain : Z; to_firstRequest : bool; to_firstResponse : bool }.

Definition NewTLSObfs (c : Conn) (server : list Z) : TLSObfs := mkTLSObfs c server 0 true true.

Definition setConn (c : Conn) (remain : Z) (to : TLSObfs) : TLSObfs :=
  mkTLSObfs c (to_server to) remain (to_firstRequest to) (to_firstResponse to).
Definition gotResponse (to : TLSObfs) : TLSObfs :=
  mkTLSObfs (to_conn to) (to_server to) (to_remain to) (to_firstRequest to) false.

(** [read] into [k] bytes; an error while the size is read is dropped. *)
Definition TLSObfs_read (k discardN : nat) (to : TLSObfs) : (list Z * option error) * TLSObfs :=
  match connReadFull discardN (to_conn to) with
  | ((_, Some e), c) => (([], Some e), setConn c (to_remain to) to)
  | ((_, None), c) =>
      match connReadFull 2 c with
      | ((_, Some _), c) => (([], None), setConn c (to_remain to) to)
      | ((sizeBuf, None), c) =>
          let length := be sizeBuf in
          if Z.of_nat k <? length then
            match connRead k c with
            | ((b, Some e), c) => ((b, Some e), setConn c (to_remain to) to)
            | ((b, None), c) => ((b, None), setConn c (length - len b) to)
            end
          else let (r, c) := connReadFull (Z.to_nat length) c in (r, setConn c (to_remain to) to)
      end
  end.

Definition TLSObfs_Read (k : nat) (to : TLSObfs) : (list Z * option error) * TLSObfs :=
  if 0 <? to_remain to then
    let length := Z.min (to_remain to) (Z.of_nat k) in
    let '((b, e), c) := connReadFull (Z.to_nat length) (to_conn to) in
    ((b, e), setConn c (to_remain to - len b) to)
  else if to_firstResponse to then TLSObfs_read k 105 (gotResponse to)
  else TLSObfs_read k 3 to.

(** The random bytes of the hello and the time in seconds. *)
Record HelloRandom := mkHelloRandom { hr_time : Z; hr_random : list Z; hr_sessionID : list Z }.

Definition cipherSuites : list Z :=
  [192; 44; 192; 48; 0; 159; 204; 169; 204; 168; 204; 170; 192; 43; 192; 47;
   0; 158; 192; 36; 192; 40; 0; 107; 192; 35; 192; 39; 0; 103; 192; 10;
   192; 20; 0; 57; 192; 9; 192; 19; 0; 51; 0; 157; 0; 156; 0; 61;
   0; 60; 0; 53; 0; 47; 0; 255].
Definition ecPoint : list Z := [0; 11; 0; 4; 3; 1; 0; 2].
Definition groups : list Z := [0; 10; 0; 10; 0; 8; 0; 29; 0; 23; 0; 25; 0; 24].
Definition signature : list Z :=
  [0; 13; 0; 32; 0; 30; 6; 1; 6; 2; 6; 3; 5;
   1; 5; 2; 5; 3; 4; 1; 4; 2; 4; 3; 3; 1;
   3; 2; 3; 3; 2; 1; 2; 2; 2; 3].

(** [uint16] in big-endian order. *)
Definition put16 (n : Z) : list Z := bePut 2 (n mod 2 ^ 16).

Definition makeClientHelloMsg (r : HelloRandom) (data server : list Z) : list Z :=
  let length := (212 + len data + len server) mod 2 ^ 16 in
  (* handshake, TLS 1.0 version, length *)
  [22; 3; 1; Z.shiftr length 8; Z.land length 255] ++
  (* clientHello, length, TLS 1.2 version *)
  [1; 0] ++ put16 (208 + len data + len server) ++ [3; 3] ++
  (* random with timestamp, sid len, sid *)
  bePut 4 (hr_time r mod 2 ^ 32) ++ hr_random r ++ [32] ++ hr_sessionID r ++
  [0; 56] ++ cipherSuites ++
  (* compression *)
  [1; 0] ++
  put16 (79 + len data + len server) ++
  (* session ticket *)
  [0; 35] ++ put16 (len data) ++ data ++
  (* server name *)
  [0; 0] ++ put16 (len server + 5) ++ put16 (len server + 3) ++ [0] ++ put16 (len server) ++ server ++
  ecPoint ++ groups ++ signature ++
  (* encrypt then mac, extended master secret *)
  [0; 22; 0; 0] ++ [0; 23; 0; 0].

(** [write] of one chunk: the first goes into the hello. *)
Definition TLSObfs_write (r : HelloRandom) (b : list Z) (to : TLSObfs) : (Z * option error) * TLSObfs :=
  if to_firstRequest to then
    let (e, c) := connWrite (makeClientHelloMsg r b (to_server to)) (to_conn to) in
    ((len b, e), mkTLSObfs c (to_server to) (to_remain to) false (to_firstResponse to))
  else
    let (e, c) := connWrite ([23; 3; 3] ++ put16 (len b) ++ b) (to_conn to) in
    ((len b, e), setConn c (to_remain to) to).

(** [Write], chunk by chunk; the length of [b] is enough fuel. *)
Fixpoint writeChunks (fuel : nat) (r : HelloRandom) (b : list Z) (total : Z) (to : TLSObfs) : (Z * option error) * TLSObfs :=
  match fuel, b with
  | S fuel, _ :: _ =>
      match TLSObfs_write r (take chunkSize b) to with
      | ((n, Some e), to) => ((n, Some e), to)
      | ((_, None), to) => writeChunks fuel r (drop chunkSize b) total to
      end
  | _, _ => ((total, None), to)
  end.
Definition TLSObfs_Write (r : HelloRandom) (b : list Z) (to : TLSObfs) : (Z * option error) * TLSObfs :=
  writeChunks (length b) r b (len b) to.

(** ** HTTP *)

Record HTTPObfs := mkHTTPObfs {
  ho_conn : Conn; ho_host : string; ho_port : string;
  (** What [buf] holds from [offset] on; [None] is the nil buffer. *)
  ho_buf : option (list Z);
  ho_firstRequest : bool; ho_firstResponse : bool
}.
Definition NewHTTPObfs (c : Conn) (host port : string) : HTTPObfs := mkHTTPObfs c host port None true true.

Definition setHTTP (c : Conn) (buf : option (list Z)) (firstResponse : bool) (ho : HTTPObfs) : HTTPObfs :=
  mkHTTPObfs c (ho_host ho) (ho_port ho) buf (ho_firstRequest ho) firstResponse.

(** What follows the first blank line. *)
Fixpoint afterBlankLine (l : list Z) : option (list Z) :=
  match l with
  | [] => None
  | _ :: t => if bool_decide (take 4 l = [13; 10; 13; 10]) then Some (drop 4 l) else afterBlankLine t
  end.

Definition HTTPObfs_Read (BufferSize k : nat) (ho : HTTPObfs) : (list Z * option error) * HTTPObfs :=
  match ho_buf ho with
  | Some l => ((take k l, None), setHTTP (ho_conn ho) (if (length l <=? k)%nat then None else Some (drop k l)) (ho_firstResponse ho) ho)
  | None =>
      if ho_firstResponse ho then
        match connRead BufferSize (ho_conn ho) with
        | ((_, Some e), c) => (([], Some e), setHTTP c None true ho)
        | ((b, None), c) =>
            match afterBlankLine b with
            | None => (([], Some EOF), setHTTP c None true ho)
            | Some l => ((take k l, None), setHTTP c (if (length l <=? k)%nat then None else Some (drop k l)) false ho)
            end
        end
      else let (r, c) := connRead k (ho_conn ho) in (r, setHTTP c None false ho)
  end.

Definition CRLFs : string := String (ascii_of_N 13) (String (ascii_of_N 10) EmptyString).
Definition zs (s : string) : list Z := (fun c => Z.of_N (code c)) <$> bytes s.

(** The request; [agent] are the two numbers of the user agent and [key] the encoded random bytes. *)
Definition httpRequest (agent : Z * Z) (key host port : string) (b : list Z) : list Z :=
  let host := if bool_decide (port = "80") then host else host +:+ ":" +:+ port in
  zs ("GET / HTTP/1.1" +:+ CRLFs +:+
      "Host: " +:+ host +:+ CRLFs +:+
      "User-Agent: curl/7." +:+ Itoa (agent.1 mod 54) +:+ "." +:+ Itoa (agent.2 mod 2) +:+ CRLFs +:+
      "Content-Length: " +:+ Itoa (len b) +:+ CRLFs +:+
      "Connection: Upgrade" +:+ CRLFs +:+
      "Sec-Websocket-Key: " +:+ key +:+ CRLFs +:+
      "Upgrade: websocket" +:+ CRLFs +:+ CRLFs) ++ b.

Definition HTTPObfs_Write (agent : Z * Z) (key : string) (b : list Z) (ho : HTTPObfs) : (Z * option error) * HTTPObfs :=
  if ho_firstRequest ho then
    let (e, c) := connWrite (httpRequest agent key (ho_host ho) (ho_port ho) b) (ho_conn ho) in
    ((len b, e), mkHTTPObfs c (ho_host ho) (ho_port ho) (ho_buf ho) false (ho_firstResponse ho))
  else let (e, c) := connWrite b (ho_conn ho) in ((len b, e), setHTTP c (ho_buf ho) (ho_firstResponse ho) ho).

(** ** The hello is a TLS client hello *)

Lemma lookup_at {A} (pre post : list A) x i : length pre = i -> (pre ++ x :: post) !! i = Some x.
Proof. intros <-. by rewrite lookup_app_r, Nat.sub_diag by lia. Qed.
Lemma u16At_at pre a b post i : length pre = i -> u16At (pre ++ a :: b :: post) i = Some (a * 256 + b).
Proof.
  intros Hi. unfold u16At. rewrite (lookup_at pre _ a i Hi). cbn. change (pre ++ a :: b :: post) with (pre ++ [a] ++ b :: post).
  rewrite (assoc_L (++)), (lookup_at (pre ++ [a]) post b) by (rewrite length_app; cbn; lia). done.
Qed.
Lemma sliceFrom_at pre post i : len pre = i -> sliceFrom (pre ++ post) i = Some post.
Proof.
  intros <-. rewrite sliceFrom_in by (unfold len; rewrite length_app; lia). unfold len. by rewrite Nat2Z.id, drop_app_length.
Qed.
Lemma slice_at pre mid post i j : len pre = i -> len mid = j - i -> slice (pre ++ mid ++ post) i j = Some mid.
Proof.
  intros <- Hj. rewrite slice_in by (unfold len in *; rewrite !length_app; lia). rewrite <-Hj. unfold len. by rewrite !Nat2Z.id, drop_app_length, take_app_length.
Qed.
Lemma put16_two n : 0 <= n < 2 ^ 16 -> exists a b, put16 n = [a; b] /\ a * 256 + b = n.
Proof.
  intros Hn. unfold put16. rewrite Z.mod_small by lia. exists (n / 256 mod 256), (n mod 256). split; [done|].
  rewrite (Z.mod_small (n / 256)); [pose proof (Z.div_mod n 256); lia|]. split; [apply Z.div_pos; lia|apply Z.div_lt_upper_bound; lia].
Qed.
Lemma put16_len n : len (put16 n) = 2.
Proof. unfold len, put16. by rewrite bePut_length. Qed.

Lemma big_endian_bytes n : 0 <= n < 2 ^ 16 -> Z.shiftr n 8 * 256 + Z.land n 255 = n.
Proof. intros Hn. change 255 with (Z.ones 8). rewrite Z.shiftr_div_pow2, Z.land_ones by lia. change (2 ^ 8) with 256. pose proof (Z.div_mod n 256). lia. Qed.

(** The layers of the message, from the outside. *)
Lemma index_record a b h : a * 256 + b = len h ->
  IndexTLSServerName ([22; 3; 1; a; b] ++ h) = (r ← indexTLSServerNameFromHandshake h; Some (shiftIndex 5 r)).
Proof.
  intros Hl. unfold IndexTLSServerName. rewrite len_app. change (len [22; 3; 1; a; b]) with 5. pose proof (len_nonneg h).
  rewrite (proj2 (Z.ltb_ge _ _)) by lia. cbn [app lookup list_lookup mbind option_bind negb Z.eqb Pos.eqb].
  change (u16At (22 :: 3 :: 1 :: a :: b :: h) 3) with (Some (a * 256 + b)). cbn [mbind option_bind]. rewrite Hl, (proj2 (Z.ltb_ge _ _)) by lia.
  change (22 :: 3 :: 1 :: a :: b :: h) with ([22; 3; 1; a; b] ++ h). by rewrite (sliceFrom_at [22; 3; 1; a; b] h).
Qed.

Lemma index_handshake x y stamp rnd sid cs exs :
  length stamp = 4%nat -> length rnd = 28%nat -> length sid = 32%nat -> length cs = 56%nat -> x * 256 + y = 127 + len exs ->
  indexTLSServerNameFromHandshake ([1; 0; x; y] ++ [3; 3] ++ stamp ++ rnd ++ [32] ++ sid ++ [0; 56] ++ cs ++ [1; 0] ++ exs) =
  (r ← indexTLSServerNameFromExtensions exs; Some (shiftIndex 131 r)).
Proof.
  intros Ht Hr Hs Hc Hl. unfold indexTLSServerNameFromHandshake. set (h := [1; 0; x; y] ++ _). pose proof (len_nonneg exs).
  assert (len h = 131 + len exs) as Hlen by (unfold h; rewrite !len_app; unfold len; rewrite Ht, Hr, Hs, Hc; cbn; lia).
  rewrite (proj2 (Z.ltb_ge (len h) _)) by lia. change (h !! 0%nat) with (Some 1). change (h !! 1%nat) with (Some 0).
  change (h !! 2%nat) with (Some x). change (h !! 3%nat) with (Some y). cbn [mbind option_bind negb Z.eqb Pos.eqb].
  assert (sliceFrom h 4 = Some ([3; 3] ++ stamp ++ rnd ++ [32] ++ sid ++ [0; 56] ++ cs ++ [1; 0] ++ exs)) as -> by (by apply (sliceFrom_at [1; 0; x; y])).
  cbn [mbind option_bind].
  assert (len ([3; 3] ++ stamp ++ rnd ++ [32] ++ sid ++ [0; 56] ++ cs ++ [1; 0] ++ exs) = 127 + len exs) as -> by
    (rewrite !len_app; unfold len; rewrite Ht, Hr, Hs, Hc; cbn; lia).
  replace (0 * 65536 + x * 256 + y) with (127 + len exs) by lia. rewrite Z.eqb_refl. cbn [negb].
  change (u16At h 4) with (Some (3 * 256 + 3)). cbn [mbind option_bind]. change (Z.land (3 * 256 + 3) 65532 =? 768) with true. cbn [negb andb].
  assert (h !! 38%nat = Some 32) as -> by (unfold h; rewrite !(assoc_L (++) _ _ ([32] ++ _)); apply lookup_at; rewrite !length_app, Ht, Hr; done).
  cbn [mbind option_bind]. change (6 + 32 + 1 + 32) with 71. rewrite (proj2 (Z.ltb_ge (len h) 71)) by lia.
  assert (sliceFrom h 71 = Some ([0; 56] ++ cs ++ [1; 0] ++ exs)) as ->.
  { unfold h. rewrite !(assoc_L (++) _ _ ([0; 56] ++ _)). apply sliceFrom_at. rewrite !len_app. unfold len. rewrite Ht, Hr, Hs. done. }
  cbn [mbind option_bind]. assert (len ([0; 56] ++ cs ++ [1; 0] ++ exs) = 60 + len exs) as -> by (rewrite !len_app; unfold len; rewrite Hc; cbn; lia).
  rewrite (proj2 (Z.ltb_ge (60 + len exs) 2)) by lia. change (u16At ([0; 56] ++ cs ++ [1; 0] ++ exs) 0) with (Some (0 * 256 + 56)). cbn [mbind option_bind].
  change (0 * 256 + 56) with 56. rewrite (proj2 (Z.ltb_ge (60 + len exs) (2 + 56 + 1))) by lia. change (Z.to_nat (2 + 56)) with 58%nat.
  rewrite (assoc_L (++) [0; 56] cs), (lookup_at ([0; 56] ++ cs) (0 :: exs) 1) by (rewrite length_app, Hc; done). cbn [mbind option_bind].
  change (71 + (2 + 56 + 1 + 1)) with 131.
  rewrite (proj2 (Z.ltb_ge (len h) 131)) by lia.
  assert (sliceFrom h 131 = Some exs) as ->; [|done].
  unfold h. rewrite !(assoc_L (++) _ _ exs). apply sliceFrom_at. rewrite !len_app. unfold len. rewrite Ht, Hr, Hs, Hc. done.
Qed.

Lemma index_extensions exs : 0 < len exs < 2 ^ 16 ->
  indexTLSServerNameFromExtensions (put16 (len exs) ++ exs) = extensionLoop (length exs) exs 2.
Proof.
  intros Hl. unfold indexTLSServerNameFromExtensions. rewrite len_app, put16_len. rewrite (proj2 (Z.eqb_neq _ _)), (proj2 (Z.ltb_ge _ _)) by lia.
  destruct (put16_two (len exs)) as (a & b & -> & E); [lia|]. change (u16At ([a; b] ++ exs) 0) with (Some (a * 256 + b)).
  rewrite (sliceFrom_at [a; b]) by done. cbn [mbind option_bind]. by rewrite (proj2 (Z.ltb_ge _ _)) by lia.
Qed.

Lemma extension_skipped fuel ty data exs ci : 0 < ty < 256 -> len data + 4 < 2 ^ 16 ->
  extensionLoop (S fuel) ([0; ty] ++ put16 (len data) ++ data ++ exs) ci = extensionLoop fuel exs (ci + 4 + len data).
Proof.
  intros Hty Hl. pose proof (len_nonneg data). pose proof (len_nonneg exs). cbn [extensionLoop]. set (l := [0; ty] ++ _).
  assert (len l = 4 + len data + len exs) as Hlen by (unfold l; rewrite !len_app, put16_len; change (len [0; ty]) with 2; lia).
  rewrite (proj2 (Z.eqb_neq _ _)), (proj2 (Z.ltb_ge _ 4)) by lia. change (u16At l 0) with (Some (0 * 256 + ty)). cbn [mbind option_bind].
  destruct (put16_two (len data)) as (a & b & E & Hab); [lia|]. subst l. rewrite E in *. change (u16At _ 2) with (Some (a * 256 + b)). cbn [mbind option_bind].
  rewrite Hab, (proj2 (Z.ltb_ge _ (4 + len data))) by lia. change ([0; ty] ++ [a; b] ++ data ++ exs) with ([0; ty; a; b] ++ data ++ exs).
  rewrite (slice_at [0; ty; a; b] data exs) by (first [done|lia]). cbn [mbind option_bind]. rewrite (proj2 (Z.eqb_neq _ _)) by lia.
  rewrite Z.mod_small by lia. by rewrite (assoc_L (++) [0; ty; a; b]), (sliceFrom_at ([0; ty; a; b] ++ data) exs) by (rewrite len_app; change (len [0; ty; a; b]) with 4; lia).
Qed.

Lemma extension_server_name fuel server exs ci : len server + 5 < 2 ^ 16 ->
  extensionLoop (S fuel) ([0; 0] ++ put16 (len server + 5) ++ put16 (len server + 3) ++ [0] ++ put16 (len server) ++ server ++ exs) ci =
  Some (Some (mkServerName (ci + 9) (len server) server)).
Proof.
  intros Hl. pose proof (len_nonneg server). pose proof (len_nonneg exs). cbn [extensionLoop].
  set (name := put16 (len server + 3) ++ [0] ++ put16 (len server) ++ server).
  assert (len name = len server + 5) as Hname by (unfold name; rewrite !len_app, !put16_len; change (len [0]) with 1; lia).
  replace (put16 (len server + 3) ++ [0] ++ put16 (len server) ++ server ++ exs) with (name ++ exs) by (unfold name; by rewrite <-!(assoc_L (++))).
  destruct (put16_two (len server + 5)) as (a & b & -> & Hab); [lia|]. set (l := [0; 0] ++ _).
  assert (len l = 4 + len name + len exs) as Hlen by (unfold l; rewrite !len_app; change (len [0; 0]) with 2; change (len [a; b]) with 2; lia).
  rewrite (proj2 (Z.eqb_neq _ _)), (proj2 (Z.ltb_ge _ 4)) by lia. change (u16At l 0) with (Some (0 * 256 + 0)). change (u16At l 2) with (Some (a * 256 + b)).
  cbn [mbind option_bind]. rewrite Hab, (proj2 (Z.ltb_ge _ (4 + (len server + 5)))) by lia.
  assert (slice l 4 (4 + (len server + 5)) = Some name) as -> by (apply (slice_at [0; 0; a; b] name exs); [done|lia]).
  cbn [mbind option_bind]. change (0 * 256 + 0 =? 0) with true. rewrite (proj2 (Z.ltb_ge (len name) 5)) by lia. unfold name.
  destruct (put16_two (len server + 3)) as (c & d & -> & _); [lia|]. destruct (put16_two (len server)) as (e & f & -> & Hef); [lia|].
  cbn [app lookup list_lookup mbind option_bind Z.eqb negb]. change (u16At (c :: d :: 0 :: e :: f :: server) 3) with (Some (e * 256 + f)).
  cbn [mbind option_bind]. rewrite Hef. change (c :: d :: 0 :: e :: f :: server) with ([c; d; 0; e; f] ++ server). rewrite (sliceFrom_at [c; d; 0; e; f] server) by done.
  cbn [mbind option_bind]. do 2 f_equal. f_equal. lia.
Qed.

(** The hello that carries the first bytes is a TLS record of the length it says, in which the
    search for a server name finds the name of the obfuscation host, and the bytes are inside. *)
Theorem hello_is_tls r data server :
  length (hr_random r) = 28%nat -> length (hr_sessionID r) = 32%nat -> 212 + len data + len server < 2 ^ 16 ->
  let msg := makeClientHelloMsg r data server in
  u16At msg 3 = Some (len msg - 5) /\
  IndexTLSServerName msg = Some (Some (mkServerName (151 + len data) (len server) server)) /\
  exists pre post, msg = pre ++ data ++ post /\ len pre = 142.
Proof.
  intros Hr Hs Hl msg. pose proof (len_nonneg data). pose proof (len_nonneg server).
  set (exs := [0; 35] ++ put16 (len data) ++ data ++ [0; 0] ++ put16 (len server + 5) ++ put16 (len server + 3) ++ [0] ++ put16 (len server) ++ server ++
    ecPoint ++ groups ++ signature ++ [0; 22; 0; 0] ++ [0; 23; 0; 0]).
  assert (len exs = 79 + len data + len server) as Hexs by (unfold exs; rewrite !len_app, !put16_len; change (len (ecPoint)) with 8; change (len groups) with 14;
    change (len signature) with 36; change (len [0; 35]) with 2; change (len [0; 0]) with 2; change (len [0]) with 1;
    change (len [0; 22; 0; 0]) with 4; change (len [0; 23; 0; 0]) with 4; lia).
  destruct (put16_two (208 + len data + len server)) as (x & y & Exy & Hxy); [lia|].
  set (n := (212 + len data + len server) mod 2 ^ 16). assert (n = 212 + len data + len server) as Hn by (unfold n; rewrite Z.mod_small; lia).
  set (h := [1; 0; x; y] ++ [3; 3] ++ bePut 4 (hr_time r mod 2 ^ 32) ++ hr_random r ++ [32] ++ hr_sessionID r ++ [0; 56] ++ cipherSuites ++ [1; 0] ++ put16 (len exs) ++ exs).
  assert (msg = [22; 3; 1; Z.shiftr n 8; Z.land n 255] ++ h) as Emsg.
  { unfold msg, makeClientHelloMsg. fold n. rewrite Exy. unfold h. rewrite Hexs. unfold exs. reflexivity. }
  assert (len h = 212 + len data + len server) as Hh.
  { unfold h. rewrite !len_app, put16_len, Hexs. assert (len (bePut 4 (hr_time r mod 2 ^ 32)) = 4) as -> by (unfold len; by rewrite bePut_length).
    assert (len (hr_random r) = 28) as -> by (unfold len; lia). assert (len (hr_sessionID r) = 32) as -> by (unfold len; lia).
    change (len [1; 0; x; y]) with 4. change (len [3; 3]) with 2. change (len [32]) with 1. change (len [0; 56]) with 2. change (len [1; 0]) with 2.
    change (len cipherSuites) with 56. lia. }
  pose proof (big_endian_bytes n ltac:(lia)) as Hbe. split_and!.
  - rewrite Emsg, len_app, Hh. change (u16At _ 3) with (Some (Z.shiftr n 8 * 256 + Z.land n 255)). rewrite Hbe. f_equal. change (len [22; 3; 1; Z.shiftr n 8; Z.land n 255]) with 5. rewrite Hn. lia.
  - rewrite Emsg, index_record by (rewrite Hbe; lia). unfold h.
    rewrite index_handshake; [|by rewrite ?bePut_length..|rewrite len_app, put16_len; lia]. rewrite index_extensions by lia.
    assert (exists f, length exs = S (S f)) as [f ->] by (exists (length exs - 2)%nat; unfold len in Hexs; lia). unfold exs.
    rewrite extension_skipped, extension_server_name by lia. cbn [mbind option_bind shiftIndex fmap option_fmap option_map sn_Index sn_Length sn_ServerName].
    do 2 f_equal. f_equal. lia.
  - exists ([22; 3; 1; Z.shiftr n 8; Z.land n 255] ++ [1; 0; x; y] ++ [3; 3] ++ bePut 4 (hr_time r mod 2 ^ 32) ++ hr_random r ++ [32] ++ hr_sessionID r ++
      [0; 56] ++ cipherSuites ++ [1; 0] ++ put16 (len exs) ++ [0; 35] ++ put16 (len data)). eexists. split.
    + rewrite Emsg. unfold h. unfold exs at 2. rewrite <-!(assoc_L (++)). reflexivity.
    + rewrite !len_app, !put16_len. unfold len. rewrite bePut_length, Hr, Hs. done.
Qed.

(** ** What is read is what the other end sent *)

Definition frame (h p : list Z) : list Z := h ++ put16 (len p) ++ p.

(** The other end's messages [ps] behind headers, the first of which is longer, and before them
    what is left of the message being read. *)
Record represents (to : TLSObfs) (cur : list Z) (ps : list (list Z)) : Prop := {
  rp_rest : exists hs, rest (incoming (to_conn to)) = cur ++ concat (zip_with frame hs ps) /\ length hs = length ps /\
              match hs with [] => True | h :: hs => length h = (if to_firstResponse to then 105%nat else 3%nat) /\ Forall (fun h => length h = 3%nat) hs end;
  rp_sizes : Forall (fun p => len p < 2 ^ 16) ps;
  rp_remain : to_remain to = len cur;
  rp_first : to_firstResponse to = true -> cur = []
}.

Lemma connReadFull_enough (l k : list Z) c : rest (incoming c) = l ++ k -> connReadFull (length l) c = ((l, None), setIncoming k (cuts c) c).
Proof. intros E. unfold connReadFull. rewrite E, length_app, (proj2 (Nat.leb_le _ _)) by lia. by rewrite take_app_length, drop_app_length. Qed.

Lemma put16_be n : 0 <= n < 2 ^ 16 -> be (put16 n) = n.
Proof. intros Hn. unfold put16. rewrite Z.mod_small by lia. apply be_bePut. lia. Qed.

(** One message is opened: its header and size are read, then all of it or a beginning. *)
Lemma read_opens k discard to h p ps hs :
  (0 < k)%nat -> rest (incoming (to_conn to)) = frame h p ++ concat (zip_with frame hs ps) -> length h = discard -> length hs = length ps ->
  Forall (fun h => length h = 3%nat) hs -> Forall (fun p => len p < 2 ^ 16) (p :: ps) -> to_remain to = 0 -> to_firstResponse to = false ->
  exists b cur to', TLSObfs_read k discard to = ((b, None), to') /\ represents to' cur ps /\ p = b ++ cur /\ (p <> [] -> b <> []) /\ (length b <= k)%nat.
Proof.
  intros Hk Hrest Hh Hlen Hhs [Hp Hps]%Forall_cons Hrem Hfirst. pose proof (len_nonneg p). unfold TLSObfs_read.
  unfold frame in Hrest. rewrite <-!(assoc_L (++)) in Hrest. subst discard. rewrite (connReadFull_enough h _ _ Hrest). cbv beta iota.
  set (c1 := setIncoming _ _ _). assert (length (put16 (len p)) = 2%nat) as H2 by apply bePut_length.
  pose proof (connReadFull_enough (put16 (len p)) (p ++ concat (zip_with frame hs ps)) c1 eq_refl) as E2. rewrite H2 in E2. rewrite E2. cbv beta iota.
  set (c2 := setIncoming _ _ c1). cbv zeta. rewrite put16_be by lia. destruct (Z.ltb_spec (Z.of_nat k) (len p)) as [Hlt|Hge].
  - unfold connRead. change (rest (incoming c2)) with (p ++ concat (zip_with frame hs ps)). destruct p as [|x p]; [unfold len in Hlt; cbn in Hlt; lia|].
    cbn [app]. set (n := Nat.min k _). assert (0 < n <= k)%nat as Hn by (unfold n; lia). assert (n < length (x :: p))%nat as Hnp by (unfold len in Hlt; lia).
    change (x :: p ++ concat (zip_with frame hs ps)) with ((x :: p) ++ concat (zip_with frame hs ps)).
    rewrite take_app_le, drop_app_le by lia. eexists (take n (x :: p)), (drop n (x :: p)), _. split; [done|]. split_and!.
    + constructor; cbn [to_conn setConn incoming setIncoming rest to_remain to_firstResponse]; [|done| |by rewrite Hfirst].
      * exists hs. split; [done|]. split; [done|]. rewrite Hfirst. destruct Hhs; [done|by split].
      * unfold len. rewrite length_take, length_drop. lia.
    + by rewrite take_drop.
    + intros _ E. apply (f_equal length) in E. rewrite length_take in E. cbn in E, Hnp. lia.
    + rewrite length_take. lia.
  - unfold len at 1. rewrite Nat2Z.id. rewrite (connReadFull_enough p (concat (zip_with frame hs ps)) c2) by done.
    eexists p, [], _. split; [done|]. split_and!; [|by rewrite app_nil_r|done|unfold len in Hge; lia].
    constructor; cbn [to_conn setConn incoming setIncoming rest to_remain to_firstResponse]; [|done|done|done].
    exists hs. split; [done|]. split; [done|]. rewrite Hfirst. destruct Hhs; [done|by split].
Qed.

(** A read returns the next bytes: some of the message being read, or of the next one. *)
Lemma Read_next k to cur ps : (0 < k)%nat -> represents to cur ps -> cur <> [] \/ ps <> [] ->
  exists b cur' ps' to', TLSObfs_Read k to = ((b, None), to') /\ represents to' cur' ps' /\ cur ++ concat ps = b ++ cur' ++ concat ps' /\
    (length (cur' ++ concat ps') + length ps' < length (cur ++ concat ps) + length ps)%nat /\ (length b <= k)%nat.
Proof.
  intros Hk [(hs & Hrest & Hlen & Hhs) Hsz Hrem Hfirst] Hne. unfold TLSObfs_Read. rewrite Hrem. destruct (Z.ltb_spec 0 (len cur)) as [Hpos|Hz].
  - set (n := Z.to_nat (Z.min (len cur) (Z.of_nat k))). assert (0 < n <= length cur)%nat as Hn by (unfold n, len in *; lia).
    rewrite <-(take_drop n cur), <-(assoc_L (++)) in Hrest. assert (length (take n cur) = n) as Ht by (rewrite length_take; lia).
    pose proof (connReadFull_enough _ _ _ Hrest) as Hr. rewrite Ht in Hr. cbv zeta. fold n. rewrite Hr.
    eexists (take n cur), (drop n cur), ps, _. split; [done|]. split_and!.
    + constructor; cbn [to_conn setConn incoming setIncoming rest to_remain to_firstResponse]; [by exists hs|done| |].
      * unfold len. rewrite length_drop, length_take. lia.
      * intros E. specialize (Hfirst E). subst cur. cbn in Hn. lia.
    + by rewrite (assoc_L (++)), take_drop.
    + rewrite !length_app, length_drop. lia.
    + rewrite Ht. unfold n. lia.
  - assert (cur = []) as -> by (destruct cur; [done|unfold len in Hz; cbn in Hz; lia]). destruct ps as [|p ps]; [by destruct Hne|].
    destruct hs as [|h hs]; [done|]. destruct Hhs as [Hh Hhs]. cbn [zip_with concat app] in Hrest.
    assert (exists b cur to', (if to_firstResponse to then TLSObfs_read k 105 (gotResponse to) else TLSObfs_read k 3 to) = ((b, None), to') /\
      represents to' cur ps /\ p = b ++ cur /\ (p <> [] -> b <> []) /\ (length b <= k)%nat) as (b & cur & to' & -> & Hrp & -> & Hb & Hbk).
    { destruct (to_firstResponse to) eqn:Ef; [apply (read_opens k 105 (gotResponse to) h p ps hs); [done..|by injection Hlen|done|done|exact Hrem|done]|].
      apply (read_opens k 3 to h p ps hs); [done..|by injection Hlen|done|done|done|done]. }
    eexists b, cur, ps, to'. split; [done|]. split_and!; [done|cbn; by rewrite (assoc_L (++))| |done].
    cbn [concat app length]. rewrite !length_app. lia.
Qed.

(** Reads into buffers of sizes [ks], up to the first error. *)
Fixpoint readAll (ks : list nat) (to : TLSObfs) : list Z * option error :=
  match ks with
  | [] => ([], None)
  | k :: ks =>
      match TLSObfs_Read k to with
      | ((b, Some e), _) => (b, Some e)
      | ((b, None), to) => let (bs, e) := readAll ks to in (b ++ bs, e)
      end
  end.

Lemma readAll_in_order ks to cur ps : Forall (fun k => (0 < k)%nat) ks -> represents to cur ps ->
  (readAll ks to).1 `prefix_of` cur ++ concat ps /\
  ((length (cur ++ concat ps) + length ps <= length ks)%nat -> (readAll ks to).1 = cur ++ concat ps).
Proof.
  intros Hks. revert to cur ps. induction Hks as [|k ks Hk _ IH]; intros to cur ps Hrp.
  { cbn. split; [apply prefix_nil|]. intros Hl. destruct (cur ++ concat ps); [done|cbn in Hl; lia]. }
  destruct (decide (cur = [] /\ ps = [])) as [[-> ->]|Hne].
  - destruct Hrp as [(hs & Hrest & Hlen & _) _ Hrem _]. destruct hs; [|done]. cbn in Hrest.
    assert (exists e c, TLSObfs_Read k to = (([], Some e), c)) as (e & c & E).
    { unfold TLSObfs_Read. rewrite Hrem. change (0 <? len []) with false. unfold TLSObfs_read, connReadFull.
      destruct (to_firstResponse to); cbn [gotResponse to_conn]; rewrite Hrest; by eexists _, _. }
    cbn [readAll]. rewrite E. done.
  - destruct (Read_next k to cur ps Hk Hrp) as (b & cur' & ps' & to' & E & Hrp' & Hd & Hm & _).
    { destruct cur as [|z cur]; [|by left]. destruct ps as [|p ps]; [|by right]. by destruct Hne. }
    cbn [readAll]. rewrite E. specialize (IH to' cur' ps' Hrp'). destruct (readAll ks to') as [bs e]. cbn [fst] in *. rewrite Hd. destruct IH as [IH1 IH2]. split.
    + destruct IH1 as [t ->]. exists t. by rewrite (assoc_L (++)).
    + intros Hl. rewrite IH2; [done|]. rewrite Hd in Hm. cbn in Hl. rewrite !length_app in *. lia.
Qed.

(** The chunks a write is cut into. *)
Fixpoint chunksOf (fuel : nat) (b : list Z) : list (list Z) :=
  match fuel, b with
  | S fuel, _ :: _ => take chunkSize b :: chunksOf fuel (drop chunkSize b)
  | _, _ => []
  end.

Lemma hidden_chunks_concat fuel b : (length b <= fuel)%nat -> concat (chunksOf fuel b) = b.
Proof.
  revert b. induction fuel as [|fuel IH]; intros b Hl; [by destruct b; [|cbn in Hl; lia]|]. destruct b as [|x b]; [done|].
  cbn [chunksOf concat]. rewrite IH; [apply take_drop|]. rewrite length_drop. unfold chunkSize. cbn in *. lia.
Qed.
Lemma chunksOf_sizes fuel b : Forall (fun p => p <> [] /\ len p <= 16384) (chunksOf fuel b).
Proof.
  revert b. induction fuel as [|fuel IH]; intros [|x b]; cbn [chunksOf]; try constructor; [|apply IH]. unfold len. rewrite length_take. unfold chunkSize. split; [|lia].
  intros E. apply (f_equal length) in E. rewrite length_take in E. cbn [length] in E. unfold chunkSize in E. lia.
Qed.

(** A connection all of whose writes succeed. *)
Definition writable (c : Conn) : Prop := answers c = [].

Lemma writeChunks_frames fuel r b total to : to_firstRequest to = false -> writable (to_conn to) -> (length b <= fuel)%nat ->
  let to' := (writeChunks fuel r b total to).2 in
  (writeChunks fuel r b total to).1 = (total, None) /\ to_firstRequest to' = false /\ writable (to_conn to') /\
  written (to_conn to') = written (to_conn to) ++ concat (frame [23; 3; 3] <$> chunksOf fuel b).
Proof.
  revert b to. induction fuel as [|fuel IH]; intros b to Hf Hw Hl; cbn [writeChunks chunksOf]; [by rewrite app_nil_r|].
  destruct b as [|x b]; [by rewrite app_nil_r|]. unfold TLSObfs_write. rewrite Hf. unfold connWrite. rewrite Hw. cbn [head default tail].
  set (to1 := setConn _ _ _). destruct (IH (drop chunkSize (x :: b)) to1) as (H1 & H2 & H3 & H4); [done|done|rewrite length_drop; unfold chunkSize; cbn in *; lia|].
  cbv zeta. split; [done|]. split; [done|]. split; [done|]. rewrite H4. unfold to1. cbn [to_conn setConn written fmap list_fmap concat]. rewrite <-(assoc_L (++)). reflexivity.
Qed.

(** The writes of a client after its hello. *)
Definition writeLater (r : HelloRandom) (ws : list (list Z)) (to : TLSObfs) : TLSObfs := fold_left (fun to w => (TLSObfs_Write r w to).2) ws to.

Lemma writeLater_frames r ws to : to_firstRequest to = false -> writable (to_conn to) ->
  exists ps, written (to_conn (writeLater r ws to)) = written (to_conn to) ++ concat (frame [23; 3; 3] <$> ps) /\ concat ps = concat ws /\
    Forall (fun p => p <> [] /\ len p <= 16384) ps.
Proof.
  revert to. induction ws as [|w ws IH]; intros to Hf Hw; [exists []; by rewrite app_nil_r|].
  destruct (writeChunks_frames (length w) r w (len w) to Hf Hw ltac:(lia)) as (_ & Hf' & Hw' & Hs). destruct (IH _ Hf' Hw') as (ps & Hps & Hc & Hsz).
  exists (chunksOf (length w) w ++ ps). cbn [writeLater fold_left]. split_and!.
  - etrans; [exact Hps|]. rewrite Hs, fmap_app, concat_app, (assoc_L (++)). done.
  - rewrite concat_app, hidden_chunks_concat by lia. cbn. by rewrite Hc.
  - apply Forall_app_2; [apply chunksOf_sizes|done].
Qed.

(** The first write, if it has anything: a hello with its first chunk, then frames. *)
Lemma first_write_hello r w c server : w <> [] -> writable c ->
  let to := (TLSObfs_Write r w (NewTLSObfs c server)).2 in
  to_firstRequest to = false /\ writable (to_conn to) /\
  exists ps, written (to_conn to) = written c ++ makeClientHelloMsg r (take chunkSize w) server ++ concat (frame [23; 3; 3] <$> ps) /\
    concat ps = drop chunkSize w /\ Forall (fun p => p <> [] /\ len p <= 16384) ps.
Proof.
  intros Hne Hw. unfold TLSObfs_Write. destruct w as [|x w]; [done|]. cbn [length writeChunks]. unfold TLSObfs_write. cbn [NewTLSObfs to_firstRequest to_conn to_server].
  unfold connWrite. rewrite Hw. cbn [head default tail]. set (to1 := mkTLSObfs _ _ _ _ _).
  destruct (writeChunks_frames (length w) r (drop chunkSize (x :: w)) (len (x :: w)) to1) as (_ & H2 & H3 & H4); [done|done|rewrite length_drop; unfold chunkSize; cbn; lia|].
  cbv zeta. split; [done|]. split; [done|]. exists (chunksOf (length w) (drop chunkSize (x :: w))). split_and!.
  - etrans; [exact H4|]. unfold to1. cbn [to_conn written]. by rewrite <-(assoc_L (++)).
  - apply hidden_chunks_concat. rewrite length_drop. unfold chunkSize. cbn. lia.
  - apply chunksOf_sizes.
Qed.

Lemma frames_represented ps to : Forall (fun p => p <> [] /\ len p <= 16384) ps -> rest (incoming (to_conn to)) = concat (frame [23; 3; 3] <$> ps) ->
  to_remain to = 0 -> to_firstResponse to = false -> represents to [] ps.
Proof.
  intros Hps Hrest Hrem Hf. constructor; [|eapply Forall_impl; [exact Hps|]; cbn; intros p [_ ?]; lia|done|done].
  exists (replicate (length ps) [23; 3; 3]). rewrite length_replicate. split_and!; [|done|].
  - rewrite Hrest. cbn [app]. f_equal. clear. induction ps as [|p ps IH]; [done|]. cbn. by rewrite IH.
  - rewrite Hf. destruct ps as [|p ps]; [done|]. cbn. split; [done|]. apply Forall_replicate. done.
Qed.

(** C30. All that is written to an obfuscated connection arrives: the first chunk inside the hello, and
    the rest in records from which reads into buffers of any sizes return it in order and whole. *)
Theorem obfs_carries_the_stream r c server w ws to ks :
  w <> [] -> writable c -> Forall (fun k => (0 < k)%nat) ks ->
  let sentBytes := written (to_conn (writeLater r ws (TLSObfs_Write r w (NewTLSObfs c server)).2)) in
  exists records, sentBytes = written c ++ makeClientHelloMsg r (take chunkSize w) server ++ records /\
    (rest (incoming (to_conn to)) = records -> to_remain to = 0 -> to_firstResponse to = false ->
     let later := drop chunkSize w ++ concat ws in
     (readAll ks to).1 `prefix_of` later /\ ((2 * length later <= length ks)%nat -> (readAll ks to).1 = later)).
Proof.
  intros Hne Hw Hks sentBytes. destruct (first_write_hello r w c server Hne Hw) as (Hf & Hw' & ps & Hs & Hc & Hsz).
  destruct (writeLater_frames r ws _ Hf Hw') as (ps' & Hs' & Hc' & Hsz'). exists (concat (frame [23; 3; 3] <$> ps ++ ps')). split.
  - unfold sentBytes. rewrite Hs', Hs, fmap_app, concat_app. by rewrite <-!(assoc_L (++)).
  - intros Hrest Hrem Hfr later. assert (Forall (fun p => p <> [] /\ len p <= 16384) (ps ++ ps')) as Hall by (by apply Forall_app_2).
    pose proof (frames_represented _ _ Hall Hrest Hrem Hfr) as Hrp. destruct (readAll_in_order ks to [] (ps ++ ps') Hks Hrp) as [H1 H2].
    cbn [app] in H1, H2. rewrite concat_app, Hc, Hc' in H1, H2. split; [done|]. intros Hl. apply H2. fold later.
    assert (length (ps ++ ps') <= length (concat (ps ++ ps')))%nat as Hle.
    { clear -Hall. induction Hall as [|p l [Hp _] _ IH]; [done|]. cbn. rewrite length_app. destruct p; [done|cbn; lia]. }
    rewrite concat_app, Hc, Hc' in Hle. fold later in Hle. lia.
Qed.

(** ** HTTP: after the header, the stream *)

Definition http_pending (ho : HTTPObfs) : list Z := default [] (ho_buf ho) ++ rest (incoming (ho_conn ho)).

Lemma connRead_next k c : (0 < k)%nat -> rest (incoming c) <> [] ->
  exists b c', connRead k c = ((b, None), c') /\ rest (incoming c) = b ++ rest (incoming c') /\ b <> [] /\ (length b <= k)%nat.
Proof.
  intros Hk Hne. unfold connRead. destruct (rest (incoming c)) as [|x l]; [done|]. set (n := Nat.min k _). assert (0 < n <= k)%nat by (unfold n; lia).
  eexists _, _. split; [done|]. cbn [setIncoming incoming rest]. rewrite take_drop. split; [done|]. split; [|rewrite length_take; lia].
  destruct n; [lia|done].
Qed.

(** After the response header every read returns the next bytes. *)
Lemma http_read_next size k ho : (0 < k)%nat -> ho_firstResponse ho = false -> http_pending ho <> [] -> ho_buf ho <> Some [] ->
  exists b ho', HTTPObfs_Read size k ho = ((b, None), ho') /\ http_pending ho = b ++ http_pending ho' /\ b <> [] /\ (length b <= k)%nat /\
    ho_firstResponse ho' = false /\ ho_buf ho' <> Some [].
Proof.
  intros Hk Hf Hne Hb. unfold HTTPObfs_Read, http_pending in *. destruct (ho_buf ho) as [l|].
  - eexists _, _. split; [done|]. cbn [setHTTP ho_buf ho_conn ho_firstResponse default from_option id]. rewrite Hf. split_and!; [|destruct l, k; (done || lia)|rewrite length_take; lia|done|].
    + destruct (Nat.leb_spec (length l) k); cbn; [by rewrite take_ge by lia|]. by rewrite (assoc_L (++)), take_drop.
    + destruct (Nat.leb_spec (length l) k); [done|]. intros [= E]. apply (f_equal length) in E. rewrite length_drop in E. cbn in E. lia.
  - rewrite Hf. destruct (connRead_next k (ho_conn ho) Hk Hne) as (b & c & -> & Hr & Hbne & Hbk). eexists b, _. split; [done|]. by split_and!.
Qed.

(** The first response, whose header and perhaps more came in one read. *)
Lemma http_first_read size k ho b c l : ho_buf ho = None -> ho_firstResponse ho = true -> connRead size (ho_conn ho) = ((b, None), c) -> afterBlankLine b = Some l ->
  exists ho', HTTPObfs_Read size k ho = ((take k l, None), ho') /\ l ++ rest (incoming c) = take k l ++ http_pending ho' /\ ho_firstResponse ho' = false.
Proof.
  intros Hb Hf Hr Hl. unfold HTTPObfs_Read. rewrite Hb, Hf, Hr, Hl. eexists. split; [done|]. unfold http_pending. cbn [setHTTP ho_buf ho_conn ho_firstResponse]. split; [|done].
  destruct (Nat.leb_spec (length l) k); cbn; [by rewrite take_ge by lia|]. by rewrite (assoc_L (++)), take_drop.
Qed.

(** ** A short session *)

Module ObfsSample.
Definition someRandom : HelloRandom := mkHelloRandom 1700000000 (replicate 28 7) (replicate 32 9).
Definition cloud : list Z := zs "cloudflare.com".
Definition fresh : Conn := mkConn (mkSource [] None) [] [] [].

Lemma hello_is_tls_witness :
  IndexTLSServerName (makeClientHelloMsg someRandom [1; 2; 3] cloud) = Some (Some (mkServerName 154 14 cloud)).
Proof. refine (proj1 (proj2 (hello_is_tls someRandom [1; 2; 3] cloud _ _ _))); done. Defined.

(** What the second and third write sent, read three bytes at a time, cut by the network. *)
Definition session : TLSObfs := writeLater someRandom [[4; 5; 6; 7]; [8]] (TLSObfs_Write someRandom [1; 2; 3] (NewTLSObfs fresh cloud)).2.
Definition records : list Z := drop (length (makeClientHelloMsg someRandom [1; 2; 3] cloud)) (written (to_conn session)).
Definition peer : TLSObfs := mkTLSObfs (mkConn (mkSource records None) [2; 1]%nat [] []) [] 0 false false.

Lemma obfs_carries_the_stream_witness : records = [23; 3; 3; 0; 4; 4; 5; 6; 7; 23; 3; 3; 0; 1; 8] /\ (readAll (replicate 10 3%nat) peer).1 = [4; 5; 6; 7; 8].
Proof.
  split; [by vm_compute|]. destruct (obfs_carries_the_stream someRandom fresh cloud [1; 2; 3] [[4; 5; 6; 7]; [8]] peer (replicate 10 3%nat)) as (l & Hs & Hr).
  - done.
  - done.
  - repeat constructor.
  - assert (l = records) as ->.
    { assert (written (to_conn session) = makeClientHelloMsg someRandom [1; 2; 3] cloud ++ l) as E by exact Hs. unfold records. by rewrite E, drop_app_length. }
    refine (proj2 (Hr eq_refl eq_refl eq_refl) _). apply Nat.leb_le. by vm_compute.
Defined.

(** A connection that breaks inside a size is reported as a read of no bytes without error. *)
Example broken_size_is_no_error : TLSObfs_Read 10 (mkTLSObfs (mkConn (mkSource [23; 3; 3; 0] (Some (New "reset"))) [] [] []) [] 0 false false) =
  (([], None), mkTLSObfs (mkConn (mkSource [] (Some (New "reset"))) [] [] []) [] 0 false false).
Proof. by vm_compute. Qed.

(** A response header that takes two reads ends the stream. *)
Example split_response_is_eof :
  (HTTPObfs_Read 32768 10 (mkHTTPObfs (mkConn (mkSource (zs ("HTTP/1.1 101" +:+ CRLFs +:+ CRLFs)) None) [5%nat] [] []) "h" "80" None false true)).1 = ([], Some EOF).
Proof. by vm_compute. Qed.
End ObfsSample.
