(* ===== verification/Plugin.v ===== *)
(** * Shadowsocks plugins (src/fork/sing-box/transport/sip003/args.go, plugin.go, obfs.go, v2ray.go)

    The options of a plugin, [key=value] pairs with backslash escapes, and the plugins made from
    them.  The dialer, TLS clients and V2Ray transports are parameters. *)

From S2P Require Import Prelude GoStrings Wire Obfs.

#[local] Open Scope Z_scope.

(** ** Options *)

Definition Args := gmap string (list string).
Implicit Types (args : Args).

Definition Args_Get args (key : string) : option string :=
  match args !! key with
  | Some (value :: _) => Some value
  | _ => None
  end.
Definition Args_Add (key value : string) args : Args := <[key := default [] (args !! key) ++ [value]]> args.

Definition backslash : ascii := "\"%char.
Definition oneOf (set : list ascii) (b : ascii) : bool := existsb (Ascii.eqb b) set.

(** The index of the next unescaped byte of [term], or the length, and the unescaped bytes before it;
    [whole] is for the error. *)
Fixpoint indexUnescaped (whole : string) (term : list ascii) (s : list ascii) : res error (nat * list ascii) :=
  match s with
  | [] => Ok (0%nat, [])
  | b :: s' =>
      if oneOf term b then Ok (0%nat, [])
      else if Ascii.eqb b backslash then
        match s' with
        | [] => Err (New ("nothing following final escape in " +:+ whole))
        | c :: s'' => match indexUnescaped whole term s'' with Err e => Err e | Ok (i, u) => Ok (S (S i), c :: u) end
        end
      else match indexUnescaped whole term s' with Err e => Err e | Ok (i, u) => Ok (S i, b :: u) end
  end.

(** The loop of [ParsePluginOptions] over [s[i:]]; [None] is out of fuel.  The text of an empty key
    is [s[begin:i]], where the two are the same. *)
Fixpoint parseLoop (fuel : nat) (s : list ascii) (opts : Args) : option (res error Args) :=
  match fuel with
  | O => None
  | S fuel =>
      match s with
      | [] => Some (Ok opts)
      | _ =>
          match indexUnescaped (ofBytes s) ["="; ";"]%char s with
          | Err e => Some (Err e)
          | Ok (_, []) => Some (Err (New "empty key in "))
          | Ok (offset, key) =>
              match drop offset s with
              | "="%char :: s =>
                  match indexUnescaped (ofBytes s) [";"]%char s with
                  | Err e => Some (Err e)
                  | Ok (offset, value) => parseLoop fuel (drop (S offset) s) (Args_Add (ofBytes key) (ofBytes value) opts)
                  end
              | s => parseLoop fuel (drop 1 s) (Args_Add (ofBytes key) "1" opts)
              end
          end
      end
  end.

Definition ParsePluginOptions (s : string) : option (res error Args) := parseLoop (S (String.length s)) (bytes s) ∅.

Definition backslashEscape (set : list ascii) (s : list ascii) : list ascii :=
  concat ((fun b => if Ascii.eqb b backslash || oneOf set b then [backslash; b] else [b]) <$> s).

(** ** Plugins *)

Record ObfsLocal := mkObfsLocal { ol_tls : bool; ol_host : string; ol_port : string }.

Definition newObfsLocal (opts : Args) (serverPort : Z) : res error ObfsLocal :=
  let mode := default "http" (Args_Get opts "obfs") in
  let host := default "" (Args_Get opts "obfs-host") in
  if bool_decide (mode = "http") then Ok (mkObfsLocal false host (Itoa serverPort))
  else if bool_decide (mode = "tls") then Ok (mkObfsLocal true host (Itoa serverPort))
  else Err (New ("unknown obfs mode " +:+ mode)).

Definition ObfsLocal_DialContext (dialled : res error Conn) (o : ObfsLocal) : res error (HTTPObfs + TLSObfs) :=
  match dialled with
  | Err e => Err e
  | Ok c => Ok (if ol_tls o then inr (NewTLSObfs c ((fun a => Z.of_N (code a)) <$> bytes (ol_host o))) else inl (NewHTTPObfs c (ol_host o) (ol_port o)))
  end.

Record TLSOptions := mkTLSOptions { CertificatePath : string; Certificate : list string; ServerName : string }.

Inductive V2RayTransportOptions :=
| WebsocketOptions (hostHeader path : string)
| QUICOptions.

Record V2RayPlugin (Transport : Type) := mkV2RayPlugin { vp_transport : Transport; vp_mux : bool }.
Arguments mkV2RayPlugin {_}.
Arguments vp_transport {_}.
Arguments vp_mux {_}.

Inductive Plugin (Transport : Type) := ObfsPlugin (o : ObfsLocal) | V2Ray (p : V2RayPlugin Transport).
Arguments ObfsPlugin {_}.
Arguments V2Ray {_}.

Section Plugins.
Context {TLSClient Transport : Type} (NewClient : TLSOptions -> res error TLSClient)
  (NewClientTransport : V2RayTransportOptions -> option TLSClient -> res error Transport).

(** The options of TLS, which is on where [tls] is given. *)
Definition pluginTLS (opts : Args) : TLSOptions :=
  mkTLSOptions (default "" (Args_Get opts "cert"))
    (match Args_Get opts "certRaw" with
     | Some raw => ["-----BEGIN CERTIFICATE-----" +:+ String (ascii_of_nat 10) raw +:+ String (ascii_of_nat 10) "-----END CERTIFICATE-----"]
     | None => []
     end) (default "" (Args_Get opts "host")).

(** The transport and the number of multiplexed streams. *)
Definition pluginTransport (opts : Args) : res error (V2RayTransportOptions * Z) :=
  let mode := default "websocket" (Args_Get opts "mode") in
  if bool_decide (mode = "websocket") then
    let options := WebsocketOptions (default "cloudfront.com" (Args_Get opts "host")) (default "/" (Args_Get opts "path")) in
    match Args_Get opts "mux" with
    | None => Ok (options, 1)
    | Some mux => match Atoi mux with Some n => Ok (options, n) | None => Err (Error "parse mux value" [New ("strconv.Atoi: parsing " +:+ mux)]) end
    end
  else if bool_decide (mode = "quic") then Ok (QUICOptions, 0)
  else Err (New ("v2ray-plugin: unknown mode: " +:+ mode)).

Definition newV2RayPlugin (opts : Args) : res error (V2RayPlugin Transport) :=
  match (match Args_Get opts "tls" with Some _ => match NewClient (pluginTLS opts) with Ok c => Ok (Some c) | Err e => Err e end | None => Ok None end) with
  | Err e => Err e
  | Ok tlsClient =>
      match pluginTransport opts with
      | Err e => Err e
      | Ok (options, mux) => match NewClientTransport options tlsClient with Err e => Err e | Ok t => Ok (mkV2RayPlugin t (0 <? mux)) end
      end
  end.

(** With the plugins the package registers. *)
Definition CreatePlugin (name pluginArgs : string) (serverPort : Z) : option (res error (Plugin Transport)) :=
  match ParsePluginOptions pluginArgs with
  | None => None
  | Some (Err e) => Some (Err (Error "parse plugin_opts" [e]))
  | Some (Ok opts) =>
      Some (if bool_decide (name = "obfs-local") then match newObfsLocal opts serverPort with Ok o => Ok (ObfsPlugin o) | Err e => Err e end
            else if bool_decide (name = "v2ray-plugin") then match newV2RayPlugin opts with Ok p => Ok (V2Ray p) | Err e => Err e end
            else Err (New ("plugin not found: " +:+ name)))
  end.
End Plugins.

(** ** Parsing *)

Lemma indexUnescaped_bound whole term s i u : indexUnescaped whole term s = Ok (i, u) -> (i <= length s)%nat /\ (length u <= i)%nat.
Proof.
  revert i u. remember (length s) as n eqn:Hn. assert (length s <= n)%nat as Hl by lia. clear Hn.
  enough (forall i u, indexUnescaped whole term s = Ok (i, u) -> (i <= length s)%nat /\ (length u <= i)%nat) by (intros i u E; specialize (H i u E); lia).
  revert s Hl. induction n as [|n IH]; intros [|b s] Hl i u; cbn in *; try lia; [by intros [= <- <-]..|].
  destruct (oneOf term b); [intros [= <- <-]; cbn; lia|]. destruct (Ascii.eqb b backslash).
  - destruct s as [|c s]; [done|]. destruct (indexUnescaped whole term s) as [[i' u']|] eqn:E; [|done]. intros [= <- <-]. cbn in *. apply IH in E; lia.
  - destruct (indexUnescaped whole term s) as [[i' u']|] eqn:E; [|done]. intros [= <- <-]. apply IH in E; [cbn; lia|lia].
Qed.

(** The loop ends: every round takes a byte. *)
Lemma parseLoop_ends fuel s opts : (length s < fuel)%nat -> is_Some (parseLoop fuel s opts).
Proof.
  revert s opts. induction fuel as [|fuel IH]; intros s opts Hl; [lia|]. cbn [parseLoop]. destruct s as [|b s]; [by eexists|].
  destruct (indexUnescaped _ _ _) as [[offset key]|e] eqn:E; [|by eexists]. destruct key as [|c key]; [by eexists|].
  apply indexUnescaped_bound in E as [_ Ho]. cbn [length] in Ho.
  assert (length (drop offset (b :: s)) <= length s)%nat as Hd by (rewrite length_drop; cbn [length]; lia).
  assert (forall l, (length l <= length s)%nat -> is_Some (parseLoop fuel (drop 1 l) (Args_Add (ofBytes (c :: key)) "1" opts))) as Hnext
    by (intros l Hl'; apply IH; rewrite length_drop; cbn [length] in Hl; lia).
  destruct (drop offset (b :: s)) as [|[[] [] [] [] [] [] [] []] l] eqn:Ed; try (by apply (Hnext []); cbn; lia); try by apply (Hnext (_ :: l)).
  destruct (indexUnescaped _ _ l) as [[o v]|e]; [|by eexists]. apply IH. rewrite length_drop. cbn [length] in *. lia.
Qed.

(** Unescaping undoes the escaping of all terminators. *)
Lemma indexUnescaped_escape whole term set s rest : (forall b, oneOf term b = true -> oneOf set b = true) -> oneOf term backslash = false ->
  (forall b l, rest = b :: l -> oneOf term b = true) ->
  indexUnescaped whole term (backslashEscape set s ++ rest) = Ok (length (backslashEscape set s), s).
Proof.
  intros Hsub Hb Hrest. unfold backslashEscape. induction s as [|b s IH]; cbn [fmap list_fmap concat app].
  - destruct rest as [|b l]; [done|]. cbn. by rewrite (Hrest b l).
  - destruct (Ascii.eqb b backslash || oneOf set b) eqn:E; cbn [app indexUnescaped length].
    + rewrite Hb. change (Ascii.eqb backslash backslash) with true. cbn. by rewrite IH.
    + apply orb_false_iff in E as [E1 E2]. rewrite E1. destruct (oneOf term b) eqn:Et; [by rewrite (Hsub b Et) in E2|]. by rewrite IH.
Qed.

(** Options as they are to be written. *)
Definition special : list ascii := ["="; ";"]%char.
Definition writeOption (kv : string * string) : list ascii := backslashEscape special (bytes kv.1) ++ ["="%char] ++ backslashEscape special (bytes kv.2).
Fixpoint writeOptions (l : list (string * string)) : list ascii :=
  match l with [] => [] | [kv] => writeOption kv | kv :: l => writeOption kv ++ [";"%char] ++ writeOptions l end.
Definition addAll (l : list (string * string)) args : Args := foldl (fun a kv => Args_Add kv.1 kv.2 a) args l.

Lemma parse_option fuel kv rest opts : kv.1 <> "" -> (forall b l, rest = b :: l -> b = ";"%char) ->
  parseLoop (S fuel) (writeOption kv ++ rest) opts = parseLoop fuel (drop 1 rest) (Args_Add kv.1 kv.2 opts).
Proof.
  destruct kv as [key value]. cbn [fst snd]. intros Hk Hrest. unfold writeOption. cbn [fst snd]. set (k := backslashEscape special (bytes key)). set (v := backslashEscape special (bytes value)).
  rewrite <-!(assoc_L (++)). assert (exists b l, k ++ ["="%char] ++ v ++ rest = b :: l) as (b & l & E) by (destruct k; cbn; eauto). cbn [parseLoop]. rewrite E. rewrite <-E. clear b l E.
  rewrite (indexUnescaped_escape _ _ special (bytes key)); [|done|done|by intros b l [= <- _]]. destruct (bytes key) as [|c key'] eqn:Ekey.
  { destruct Hk. by rewrite <-(ofBytes_bytes key), Ekey. }
  rewrite drop_app_length. cbn [app]. rewrite (indexUnescaped_escape _ _ special (bytes value)); [|intros b; cbn; by destruct (Ascii.eqb b ";"); rewrite ?orb_true_r|done|intros b l ->; by rewrite (Hrest b l)].
  rewrite <-Ekey, !ofBytes_bytes. f_equal. fold v. rewrite <-Nat.add_1_r, <-drop_drop, drop_app_length. done.
Qed.

Lemma writeOption_length kv : (1 <= length (writeOption kv))%nat.
Proof. unfold writeOption. rewrite !length_app. cbn. lia. Qed.

(** Options written with their keys and values escaped are parsed as they were given: every key has
    its values, in order; and parsing ends on every input. *)
Theorem plugin_options_roundtrip l : Forall (fun kv => kv.1 <> "") l ->
  ParsePluginOptions (ofBytes (writeOptions l)) = Some (Ok (addAll l ∅)) /\ forall s, is_Some (ParsePluginOptions s).
Proof.
  intros Hl. split.
  - unfold ParsePluginOptions. rewrite bytes_ofBytes.
    assert (forall fuel args, (length (writeOptions l) < fuel)%nat -> parseLoop fuel (writeOptions l) args = Some (Ok (addAll l args))) as Hall.
    { induction Hl as [|kv l Hk Hl IH]; intros fuel args Hf; (destruct fuel as [|fuel]; [lia|]); [done|]. destruct l as [|kv' l].
      - cbn [writeOptions]. rewrite <-(app_nil_r (writeOption kv)), parse_option by done. cbn [writeOptions] in Hf. pose proof (writeOption_length kv).
        destruct fuel as [|fuel]; [lia|]. done.
      - cbn [writeOptions] in Hf |- *. rewrite parse_option; [|done|by intros b l' [= <- _]]. cbn [app drop]. rewrite drop_0. apply IH.
        rewrite !length_app in Hf. cbn [length] in Hf. cbn [writeOptions]. lia. }
    apply Hall. rewrite <-(bytes_ofBytes (writeOptions l)) at 1. generalize (ofBytes (writeOptions l)). clear. induction s as [|c s IH]; cbn; lia.
  - intros s. apply parseLoop_ends. induction s as [|c s IH]; cbn; lia.
Qed.

(** ** Examples *)

Module PluginSample.
Definition options : list (string * string) := [("obfs", "tls"); ("obfs-host", "a;b=c"); ("obfs", "http")].

Lemma plugin_options_roundtrip_witness :
  Forall (fun kv : string * string => kv.1 <> "") options /\ ParsePluginOptions (ofBytes (writeOptions options)) = Some (Ok (addAll options ∅)).
Proof.
  assert (Forall (fun kv : string * string => kv.1 <> "") options) as Ho by (repeat constructor; discriminate). split; [exact Ho|].
  apply (plugin_options_roundtrip options Ho).
Defined.

(** The first value counts; a key without a value has the value 1. *)
Example first_value_counts :
  (match ParsePluginOptions "obfs=tls;obfs=http;tls;obfs-host=a\;b" with
   | Some (Ok opts) => (newObfsLocal opts 443, Args_Get opts "tls")
   | _ => (Err (New ""), None)
   end) = (Ok (mkObfsLocal true "a;b" "443"), Some "1").
Proof. vm_compute. reflexivity. Qed.

(** An empty key is refused with an error that shows nothing of it. *)
Example empty_key : ParsePluginOptions "tls;;mux=1" = Some (Err (New "empty key in ")).
Proof. reflexivity. Qed.
End PluginSample.
