(* ===== verification/GunLite.v ===== *)
(** * Streams inside gRPC messages (src/fork/sing-box/transport/v2raygrpclite/conn.go)

    Every write is one message: a gRPC header of five bytes, the tag of a field, its length as a
    varint, and the bytes.  Connections are those of [Obfs]; a connection of a client has no reader
    until the response has come.  The conversion of HTTP/2 errors is a parameter, and a read into
    an empty buffer leaves the connection as it is. *)

From S2P Require Import Prelude GoStrings Wire Obfs.

#[local] Open Scope Z_scope.

(** [g_reader]: the reader is set; [g_create]: the error given to [setup], once it was called. *)
Record GunConn := mkGunConn { g_conn : Conn; g_reader : bool; g_create : option (option error); g_flusher : bool; readRemaining : Z; flushed : nat }.
Implicit Types (g : GunConn).

Definition newGunConn (flusher : bool) (c : Conn) : GunConn := mkGunConn c true None flusher 0 0.
Definition newLateGunConn (c : Conn) : GunConn := mkGunConn c false None false 0 0.

(** [setup]; [None]: the channel is closed a second time, a panic. *)
Definition setup (reader : bool) (e : option error) g : option GunConn :=
  match g_create g with
  | Some _ => None
  | None => Some (mkGunConn (g_conn g) (g_reader g || reader) (Some e) (g_flusher g) (readRemaining g) (flushed g))
  end.

Inductive readResult := Blocks | Panics | Returns (b : list Z) (e : option error).

Definition setRemaining (c : Conn) (n : Z) g : GunConn := mkGunConn c (g_reader g) (g_create g) (g_flusher g) n (flushed g).

(** [bufio.Reader.Read] into [n] bytes, counted off from [remaining]. *)
Definition readInto (n : nat) (remaining : Z) g : readResult * GunConn :=
  match n with
  | O => (Returns [] None, setRemaining (g_conn g) remaining g)
  | _ => let '((b, e), c) := connRead n (g_conn g) in (Returns b e, setRemaining c (remaining - len b) g)
  end.

(** [bufio.Reader.Discard]. *)
Definition discard (n : nat) (c : Conn) : option error * Conn :=
  let l := rest (incoming c) in
  if (n <=? length l)%nat then (None, setIncoming (drop n l) (cuts c) c)
  else (Some (default EOF (ending (incoming c))), setIncoming [] (cuts c) c).

(** The length of a message as an [int]. *)
Definition toInt (n : Z) : Z := if n <? 2 ^ 63 then n else n - 2 ^ 64.

Definition readMessage (k : nat) g : readResult * GunConn :=
  match discard 6 (g_conn g) with
  | (Some e, c) => (Returns [] (Some e), setRemaining c (readRemaining g) g)
  | (None, c) =>
      match ReadUvarint (incoming c) with
      | Some (Ok (dataLen, s)) =>
          let readLen := toInt dataLen in
          let g := setRemaining (setIncoming (rest s) (cuts c) c) readLen g in
          if readLen <? Z.of_nat k then (if readLen <? 0 then (Panics, g) else readInto (Z.to_nat readLen) readLen g) else readInto k readLen g
      | Some (Err e) => (Returns [] (Some e), setRemaining (setIncoming (drop 10 (rest (incoming c))) (cuts c) c) (readRemaining g) g)
      | None => (Blocks, g)
      end
  end.

Definition read (k : nat) g : readResult * GunConn :=
  if negb (g_reader g) then
    match g_create g with
    | None => (Blocks, g)
    | Some (Some e) => (Returns [] (Some e), g)
    | Some None => (Panics, g)
    end
  else if 0 <? readRemaining g then readInto (Z.to_nat (Z.min (Z.of_nat k) (readRemaining g))) (readRemaining g) g
  else readMessage k g.

Section Wrap.
Context (WrapH2 : error -> error).

Definition Gun_Read (k : nat) g : readResult * GunConn :=
  match read k g with
  | (Returns b (Some e), g) => (Returns b (Some (WrapH2 e)), g)
  | r => r
  end.

Definition UvarintLen (n : Z) : Z := len (putUvarint n).
Definition header (dataLen : Z) : list Z := [0] ++ bePut 4 ((1 + UvarintLen dataLen + dataLen) mod 2 ^ 32) ++ [10] ++ putUvarint dataLen.

Definition Flush g : GunConn := mkGunConn (g_conn g) (g_reader g) (g_create g) (g_flusher g) (readRemaining g) (if g_flusher g then S (flushed g) else flushed g).

(** [Write], with the bytes of the message in one write. *)
Definition Gun_Write (b : list Z) g : (Z * option error) * GunConn :=
  match connWrite (header (len b) ++ b) (g_conn g) with
  | (Some e, c) => ((0, Some (WrapH2 e)), setRemaining c (readRemaining g) g)
  | (None, c) => ((len b, None), Flush (setRemaining c (readRemaining g) g))
  end.

(** [WriteBuffer] of a buffer with that much room before its bytes; [None]: it is too little, a panic. *)
Definition Gun_WriteBuffer (headroom : Z) (b : list Z) g : option (option error * GunConn) :=
  if headroom <? 6 + UvarintLen (len b) then None else
  Some match connWrite (header (len b) ++ b) (g_conn g) with
       | (Some e, c) => (Some (WrapH2 e), setRemaining c (readRemaining g) g)
       | (None, c) => (None, Flush (setRemaining c (readRemaining g) g))
       end.
End Wrap.

Definition FrontHeadroom : Z := 6 + 10.

(** ** The stream is carried *)

Definition message (p : list Z) : list Z := header (len p) ++ p.

(** What is left of the message being read, and the messages after it. *)
Record carries g (cur : list Z) (ps : list (list Z)) : Prop := {
  ca_ready : g_reader g = true;
  ca_rest : rest (incoming (g_conn g)) = cur ++ concat (message <$> ps);
  ca_sizes : Forall (fun p => len p < 2 ^ 63) ps;
  ca_remain : readRemaining g = len cur
}.

Lemma putUvarint_length n : 0 <= n < 2 ^ 64 -> (1 <= length (putUvarint n) <= 10)%nat.
Proof.
  intros Hn. unfold putUvarint. assert (forall k v, (1 <= length (uvarintBytes (S k) v) <= S k)%nat) as Hl; [|apply Hl].
  induction k as [|k IH]; intros v; [cbn; destruct (v <? 128); cbn; lia|].
  change (uvarintBytes (S (S k)) v) with (if v <? 128 then [v] else Z.lor (v mod 256) 128 :: uvarintBytes (S k) (Z.shiftr v 7)). destruct (v <? 128); [cbn; lia|]. specialize (IH (Z.shiftr v 7)). cbn [length]. lia.
Qed.

Lemma header_length n : 0 <= n < 2 ^ 64 -> 6 <= len (header n) <= FrontHeadroom.
Proof. intros Hn. pose proof (putUvarint_length n Hn). unfold header, FrontHeadroom. rewrite !len_app. unfold len. rewrite bePut_length. cbn [length]. lia. Qed.

(** A buffer with the headroom asked for never panics. *)
Lemma WriteBuffer_fits WrapH2 b g : len b < 2 ^ 63 -> is_Some (Gun_WriteBuffer WrapH2 FrontHeadroom b g).
Proof.
  intros Hb. unfold Gun_WriteBuffer. pose proof (len_nonneg b). pose proof (putUvarint_length (len b)). rewrite (proj2 (Z.ltb_ge _ _)); [by eexists|].
  unfold FrontHeadroom, UvarintLen, len in *. lia.
Qed.

(** A read of some bytes of what is there. *)
Lemma readInto_some k g cur later : (0 < k)%nat -> cur <> [] -> rest (incoming (g_conn g)) = cur ++ later -> (k <= length cur)%nat ->
  exists n, (0 < n <= k)%nat /\ exists c, readInto k (len cur) g = (Returns (take n cur) None, setRemaining c (len cur - len (take n cur)) g) /\
    rest (incoming c) = drop n cur ++ later.
Proof.
  intros Hk Hne Hrest Hl. destruct k as [|k]; [lia|]. unfold readInto, connRead. rewrite Hrest. destruct cur as [|x cur]; [done|]. cbn [app].
  set (n := Nat.min (S k) _). assert (0 < n <= S k)%nat as Hn by (unfold n; lia). exists n. split; [done|].
  change (x :: cur ++ later) with ((x :: cur) ++ later). rewrite take_app_le, drop_app_le by lia. eexists. split; [reflexivity|]. done.
Qed.

(** The header of a message is read. *)
Lemma readMessage_opens k g p ps : (0 < k)%nat -> rest (incoming (g_conn g)) = message p ++ concat (message <$> ps) -> len p < 2 ^ 63 ->
  exists c, rest (incoming c) = p ++ concat (message <$> ps) /\
    readMessage k g = (if len p <? Z.of_nat k then readInto (length p) (len p) (setRemaining c (len p) g) else readInto k (len p) (setRemaining c (len p) g)).
Proof.
  intros Hk Hrest Hp. pose proof (len_nonneg p) as Hp0. set (later := concat (message <$> ps)) in *.
  assert (exists h, length h = 6%nat /\ message p ++ later = h ++ putUvarint (len p) ++ p ++ later) as (h & Hh & E).
  { exists ([0] ++ bePut 4 ((1 + UvarintLen (len p) + len p) mod 2 ^ 32) ++ [10]). rewrite !length_app, bePut_length. split; [done|]. unfold message, header. by rewrite <-!(assoc_L (++)). }
  rewrite E in Hrest. unfold readMessage, discard. rewrite Hrest, <-Hh, length_app, (proj2 (Nat.leb_le _ _)), drop_app_length by lia. set (c := setIncoming _ _ _).
  assert (ReadUvarint (incoming c) = Some (Ok (len p, mkSource (p ++ later) (ending (incoming (g_conn g)))))) as -> by (apply (reads_ReadUvarint (len p)); lia).
  cbv zeta. unfold toInt. rewrite (proj2 (Z.ltb_lt _ (2 ^ 63))) by lia. rewrite (proj2 (Z.ltb_ge _ 0)) by lia. cbn [rest].
  exists (setIncoming (p ++ later) (cuts c) c). split; [done|]. by replace (Z.to_nat (len p)) with (length p) by (unfold len; lia).
Qed.

(** A read returns the next bytes. *)
Lemma read_next k g cur ps : (0 < k)%nat -> carries g cur ps -> cur <> [] \/ ps <> [] ->
  exists b cur' ps' g', read k g = (Returns b None, g') /\ carries g' cur' ps' /\ cur ++ concat ps = b ++ cur' ++ concat ps' /\
    (length (cur' ++ concat ps') + length ps' < length (cur ++ concat ps) + length ps)%nat /\ (length b <= k)%nat.
Proof.
  intros Hk [Hr Hrest Hsz Hrem] Hne. unfold read. rewrite Hr. cbn [negb]. rewrite Hrem. destruct (Z.ltb_spec 0 (len cur)) as [Hpos|Hz].
  - set (n := Z.to_nat _). assert (0 < n <= length cur)%nat as Hn by (unfold n, len in *; lia). assert (n <= k)%nat as Hnk by (unfold n; lia).
    destruct (readInto_some n g cur (concat (message <$> ps))) as (j & Hj & c & -> & Hc); [lia|by destruct cur|done|lia|].
    eexists _, (drop j cur), ps, _. split; [done|]. split_and!.
    + constructor; [done|done|done|]. cbn [readRemaining setRemaining]. unfold len. rewrite length_take, length_drop. lia.
    + by rewrite (assoc_L (++)), take_drop.
    + rewrite !length_app, length_drop. lia.
    + rewrite length_take. lia.
  - assert (cur = []) as -> by (destruct cur; [done|unfold len in Hz; cbn in Hz; lia]). destruct ps as [|p ps]; [by destruct Hne|].
    apply Forall_cons in Hsz as [Hp Hsz]. cbn [fmap list_fmap concat app] in Hrest. destruct (readMessage_opens k g p ps Hk Hrest Hp) as (c & Hc & ->).
    assert (exists m, (m <= k)%nat /\ (m <= length p)%nat /\ (p <> [] -> 0 < m)%nat /\
      (if len p <? Z.of_nat k then readInto (length p) (len p) (setRemaining c (len p) g) else readInto k (len p) (setRemaining c (len p) g)) = readInto m (len p) (setRemaining c (len p) g))
      as (m & Hm & Hmp & Hmpos & ->).
    { destruct (Z.ltb_spec (len p) (Z.of_nat k)) as [Hlt|Hge]; unfold len in *; [exists (length p)|exists k]; (split_and!; [lia..| |done]); destruct p; cbn in *; [done|lia|done|lia]. }
    destruct p as [|x p].
    + cbn in Hmp. assert (m = 0)%nat as -> by lia. eexists [], [], ps, _. split; [reflexivity|]. split_and!; [|done|cbn; lia|cbn; lia]. by constructor.
    + destruct (readInto_some m (setRemaining c (len (x :: p)) g) (x :: p) (concat (message <$> ps))) as (j & Hj & c' & -> & Hc'); [by apply Hmpos|done|done|done|].
      eexists _, (drop j (x :: p)), ps, _. split; [done|]. split_and!.
      * constructor; [done|done|done|]. cbn [readRemaining setRemaining]. unfold len. rewrite length_take, length_drop. lia.
      * cbn [concat app]. by rewrite (assoc_L (++)), take_drop.
      * cbn [app]. rewrite !length_app, length_drop. cbn [concat length]. rewrite length_app. cbn [length]. lia.
      * rewrite length_take. lia.
Qed.

(** Reads into buffers of sizes [ks], up to the first that does not return bytes. *)
Fixpoint readStream (ks : list nat) g : list Z :=
  match ks with
  | [] => []
  | k :: ks => match read k g with (Returns b None, g) => b ++ readStream ks g | (Returns b (Some _), _) => b | _ => [] end
  end.

Lemma readStream_in_order ks g cur ps : Forall (fun k => (0 < k)%nat) ks -> carries g cur ps ->
  readStream ks g `prefix_of` cur ++ concat ps /\ ((length (cur ++ concat ps) + length ps <= length ks)%nat -> readStream ks g = cur ++ concat ps).
Proof.
  intros Hks. revert g cur ps. induction Hks as [|k ks Hk _ IH]; intros g cur ps Hc.
  { split; [apply prefix_nil|]. intros Hl. destruct (cur ++ concat ps); [done|cbn in Hl; lia]. }
  destruct (decide (cur = [] /\ ps = [])) as [[-> ->]|Hne].
  - destruct Hc as [Hr Hrest _ Hrem]. cbn in Hrest. cbn [readStream]. unfold read. rewrite Hr, Hrem. change (negb true) with false. change (0 <? len []) with false. cbv iota.
    unfold readMessage, discard. rewrite Hrest. done.
  - destruct (read_next k g cur ps Hk Hc) as (b & cur' & ps' & g' & E & Hc' & Hd & Hm & _).
    { destruct cur as [|z cur]; [|by left]. destruct ps as [|p ps]; [|by right]. by destruct Hne. }
    cbn [readStream]. rewrite E. destruct (IH g' cur' ps' Hc') as [IH1 IH2]. rewrite Hd. split.
    + destruct IH1 as [t ->]. exists t. by rewrite (assoc_L (++)).
    + intros Hl. rewrite IH2; [done|]. rewrite Hd in Hm. cbn in Hl. rewrite !length_app in *. lia.
Qed.

Definition writeAll (WrapH2 : error -> error) (ws : list (list Z)) g : GunConn := fold_left (fun g w => (Gun_Write WrapH2 w g).2) ws g.

Lemma writeAll_messages WrapH2 ws g : writable (g_conn g) -> written (g_conn (writeAll WrapH2 ws g)) = written (g_conn g) ++ concat (message <$> ws).
Proof.
  revert g. induction ws as [|w ws IH]; intros g Hw; [by rewrite app_nil_r|]. cbn [writeAll fold_left]. fold (writeAll WrapH2 ws (Gun_Write WrapH2 w g).2).
  assert (writable (g_conn (Gun_Write WrapH2 w g).2) /\ written (g_conn (Gun_Write WrapH2 w g).2) = written (g_conn g) ++ message w) as [Hw' E].
  { unfold Gun_Write, connWrite. rewrite Hw. done. }
  rewrite IH, E by done. cbn [fmap list_fmap concat]. by rewrite (assoc_L (++)).
Qed.

(** What is written to one end, write by write, is what reads at the other end return, in order
    and whole, into buffers of any sizes and however the bytes arrive. *)
Theorem gun_carries_the_stream WrapH2 ws g c flusher ks : writable (g_conn g) -> Forall (fun w => len w < 2 ^ 63) ws -> Forall (fun k => (0 < k)%nat) ks ->
  written (g_conn (writeAll WrapH2 ws g)) = written (g_conn g) ++ rest (incoming c) ->
  readStream ks (newGunConn flusher c) `prefix_of` concat ws /\
  ((length (concat ws) + length ws <= length ks)%nat -> readStream ks (newGunConn flusher c) = concat ws).
Proof.
  intros Hw Hs Hks E. rewrite writeAll_messages in E by done. apply app_inv_head in E. apply (readStream_in_order ks (newGunConn flusher c) [] ws Hks).
  constructor; [done|symmetry; exact E|done|done].
Qed.

(** ** Examples *)

Module GunSample.
Definition sender : GunConn := newGunConn true (mkConn (mkSource [] None) [] [] []).
Definition stream : list Z := written (g_conn (writeAll id [[1; 2; 3]; [4]] sender)).
Definition receiver : Conn := mkConn (mkSource stream None) [2; 1]%nat [] [].
Definition sizes : list nat := [2; 2; 2; 2; 2; 2]%nat.

Lemma gun_carries_the_stream_witness : readStream sizes (newGunConn false receiver) = [1; 2; 3; 4].
Proof.
  apply (gun_carries_the_stream id [[1; 2; 3]; [4]] sender receiver false sizes); [done|repeat constructor; done|repeat constructor; lia|vm_compute; reflexivity|cbn; lia].
Defined.

(** A message that claims a length of 2^63 or more panics the reader. *)
Example huge_length_panics :
  (read 4 (newGunConn false (mkConn (mkSource ([0; 0; 0; 0; 0; 10] ++ putUvarint (2 ^ 63)) None) [] [] []))).1 = Panics.
Proof. vm_compute. reflexivity. Qed.
End GunSample.
