(* ===== verification/Groups.v ===== *)
(** * Outbound groups (src/fork/sing-box/protocol/group, common/interrupt, common/urltest)

    A selector sends traffic through the member that was picked, a URL-test group through a member
    whose last test was among the fastest; both interrupt connections when the choice changes.

    A member is known by its tag; [real] is [RealTag], which asks a nested group for its current
    choice.  The tests of one check run at once, each for another real tag, and are taken in order.
    Times are in nanoseconds, delays in milliseconds of 16 bits. *)

From S2P Require Import Prelude GoStrings.

#[local] Open Scope Z_scope.

(** ** Connections of a group *)

(** The tracked connections, by identity and whether they came from outside; [gone] are those an
    interruption closed. *)
Record Interrupts := mkInterrupts {
  tracked : list (nat * bool);
  gone : list nat
}.

Definition NewGroup : Interrupts := mkInterrupts [] [].
Definition NewConn (conn : nat) (isExternal : bool) (g : Interrupts) : Interrupts := mkInterrupts (tracked g ++ [(conn, isExternal)]) (gone g).
(** [Conn.Close] of a tracked connection. *)
Definition Conn_Close (conn : nat) (g : Interrupts) : Interrupts :=
  mkInterrupts (List.filter (fun c => negb (c.1 =? conn)%nat) (tracked g)) (gone g).
Definition Interrupt (external : bool) (g : Interrupts) : Interrupts :=
  let hit (c : nat * bool) := negb c.2 || external in
  mkInterrupts (List.filter (fun c => negb (hit c)) (tracked g)) (gone g ++ map fst (List.filter hit (tracked g))).

(** ** Members and their history *)

Record Member := mkMember { mb_Tag : string; mb_Network : list string }.

#[export] Instance Member_eq_dec : EqDecision Member.
Proof. solve_decision. Defined.

(** [HistoryStorage]: the time and delay of the last test by real tag. *)
Record History := mkHistory { h_Time : Z; h_Delay : Z }.
Notation HistoryStorage := (gmap string History).

Definition LoadURLTestHistory (tag : string) (s : HistoryStorage) : option History := s !! tag.
Definition DeleteURLTestHistory (tag : string) (s : HistoryStorage) : HistoryStorage := delete tag s.
Definition StoreURLTestHistory (tag : string) (h : History) (s : HistoryStorage) : HistoryStorage := <[tag := h]> s.

Definition wrapU16 (z : Z) : Z := z mod 2 ^ 16.

(** ** URL-test groups *)

Record URLTestGroup := mkURLTestGroup {
  outbounds : list Member;
  interval : Z;
  tolerance : Z;
  idleTimeout : Z;
  history : HistoryStorage;
  checking : bool;
  selectedOutboundTCP : option Member;
  selectedOutboundUDP : option Member;
  interruptGroup : Interrupts;
  interruptExternalConnections : bool;
  ticker : bool;
  closeChannel : bool;
  started : bool;
  lastActive : Z
}.

Definition setHistory (h : HistoryStorage) g : URLTestGroup :=
  mkURLTestGroup (outbounds g) (interval g) (tolerance g) (idleTimeout g) h (checking g) (selectedOutboundTCP g) (selectedOutboundUDP g)
    (interruptGroup g) (interruptExternalConnections g) (ticker g) (closeChannel g) (started g) (lastActive g).
Definition setChecking (b : bool) g : URLTestGroup :=
  mkURLTestGroup (outbounds g) (interval g) (tolerance g) (idleTimeout g) (history g) b (selectedOutboundTCP g) (selectedOutboundUDP g)
    (interruptGroup g) (interruptExternalConnections g) (ticker g) (closeChannel g) (started g) (lastActive g).
Definition setSelected (tcp udp : option Member) g : URLTestGroup :=
  mkURLTestGroup (outbounds g) (interval g) (tolerance g) (idleTimeout g) (history g) (checking g) tcp udp
    (interruptGroup g) (interruptExternalConnections g) (ticker g) (closeChannel g) (started g) (lastActive g).
Definition setInterrupts (i : Interrupts) g : URLTestGroup :=
  mkURLTestGroup (outbounds g) (interval g) (tolerance g) (idleTimeout g) (history g) (checking g) (selectedOutboundTCP g) (selectedOutboundUDP g)
    i (interruptExternalConnections g) (ticker g) (closeChannel g) (started g) (lastActive g).
Definition setActivity (tick : bool) (active : Z) g : URLTestGroup :=
  mkURLTestGroup (outbounds g) (interval g) (tolerance g) (idleTimeout g) (history g) (checking g) (selectedOutboundTCP g) (selectedOutboundUDP g)
    (interruptGroup g) (interruptExternalConnections g) tick (closeChannel g) (started g) active.
Definition setLifecycle (start closed : bool) g : URLTestGroup :=
  mkURLTestGroup (outbounds g) (interval g) (tolerance g) (idleTimeout g) (history g) (checking g) (selectedOutboundTCP g) (selectedOutboundUDP g)
    (interruptGroup g) (interruptExternalConnections g) (ticker g) closed start (lastActive g).

Definition Minute : Z := 60 * 1000000000.

(** [NewURLTestGroup]; [shared] is the history of the context. *)
Definition NewURLTestGroup (members : list Member) (interval tolerance idleTimeout : Z) (external : bool) (shared : option HistoryStorage) :
    res error URLTestGroup :=
  let interval := if interval =? 0 then 3 * Minute else interval in
  let tolerance := if tolerance =? 0 then 50 else tolerance in
  let idleTimeout := if idleTimeout =? 0 then 30 * Minute else idleTimeout in
  if idleTimeout <? interval then Err (New "interval must be less or equal than idle_timeout") else
  Ok (mkURLTestGroup members interval tolerance idleTimeout (default ∅ shared) false None None NewGroup external false false false 0).

Section URLTest.
Variable real : string -> string.

Definition historyOf (m : Member) g : option History := LoadURLTestHistory (real (mb_Tag m)) (history g).
Definition selectedFor (network : string) g : option Member :=
  if bool_decide (network = "tcp") then selectedOutboundTCP g
  else if bool_decide (network = "udp") then selectedOutboundUDP g else None.
Definition supports (network : string) (m : Member) : bool := bool_decide (network ∈ mb_Network m).

(** The loop of [Select] over the members: the member so far and its delay. *)
Definition selectStep (network : string) g (best : Z * option Member) (detour : Member) : Z * option Member :=
  if negb (supports network detour) then best else
  match historyOf detour g with
  | None => best
  | Some h => if (best.1 =? 0) || (wrapU16 (h_Delay h + tolerance g) <? best.1) then (h_Delay h, Some detour) else best
  end.

Definition Select (network : string) g : option Member * bool :=
  let best0 := match selectedFor network g with
               | Some m => match historyOf m g with Some h => (h_Delay h, Some m) | None => (0, None) end
               | None => (0, None)
               end in
  match (foldl (selectStep network g) best0 (outbounds g)).2 with
  | Some m => (Some m, true)
  | None => (List.find (supports network) (outbounds g), false)
  end.

(** What one network's selection becomes, and whether connections are interrupted for it. *)
Definition updateSelected (network : string) g : option Member * bool :=
  match Select network g with
  | (Some m, exists_) =>
      match selectedFor network g with
      | None => (Some m, false)
      | Some m' => if exists_ && negb (bool_decide (m = m')) then (Some m, true) else (Some m', false)
      end
  | (None, _) => (selectedFor network g, false)
  end.

Definition performUpdateCheck g : URLTestGroup :=
  let (tcp, updated) := updateSelected "tcp" g in
  let g := setSelected tcp (selectedOutboundUDP g) g in
  let (udp, updated') := updateSelected "udp" g in
  let g := setSelected (selectedOutboundTCP g) udp g in
  if updated || updated' then setInterrupts (Interrupt (interruptExternalConnections g) (interruptGroup g)) g else g.

(** The members a check tests, each by its real tag once: those without a recent test. *)
Fixpoint toCheck (force : bool) (now : Z) (checked : list string) (members : list Member) g : list (string * string) :=
  match members with
  | [] => []
  | m :: members =>
      let realTag := real (mb_Tag m) in
      if bool_decide (realTag ∈ checked) then toCheck force now checked members g else
      if negb force && match LoadURLTestHistory realTag (history g) with Some h => now - h_Time h <? interval g | None => false end
      then toCheck force now checked members g
      else (mb_Tag m, realTag) :: toCheck force now (realTag :: checked) members g
  end.

(** One test: [urltest.URLTest] through the outbound of the real tag, if there is one, at [now]. *)
Definition testOne (test : string -> option (res error Z)) (now : Z) (acc : HistoryStorage * gmap string Z) (t : string * string) :
    HistoryStorage * gmap string Z :=
  match test t.2 with
  | None => acc
  | Some (Err _) => (DeleteURLTestHistory t.2 acc.1, acc.2)
  | Some (Ok delay) => (StoreURLTestHistory t.2 (mkHistory now delay) acc.1, <[t.1 := delay]> acc.2)
  end.

Definition urlTest (force : bool) (test : string -> option (res error Z)) (now after : Z) g : gmap string Z * URLTestGroup :=
  if checking g then (∅, g) else
  let (h, result) := foldl (testOne test after) (history g, ∅) (toCheck force now [] (outbounds g) g) in
  (result, setChecking false (performUpdateCheck (setHistory h (setChecking true g)))).

(** ** Activity *)

Definition PostStart (now : Z) g : URLTestGroup := setActivity (ticker g) now (setLifecycle true (closeChannel g) g).

(** [Touch]: whether it starts the check loop. *)
Definition Touch (now : Z) g : bool * URLTestGroup :=
  if negb (started g) then (false, g)
  else if ticker g then (false, setActivity true now g)
  else (true, setActivity true (lastActive g) g).

(** The start of [loopCheck] and one tick of it; the flag says that the loop goes on. *)
Definition loopStart (test : string -> option (res error Z)) (now after : Z) g : URLTestGroup :=
  if interval g <? now - lastActive g then (urlTest false test now after (setActivity (ticker g) now g)).2 else g.
Definition loopTick (test : string -> option (res error Z)) (now after : Z) g : bool * URLTestGroup :=
  if idleTimeout g <? now - lastActive g then (false, setActivity false (lastActive g) g)
  else (true, (urlTest false test now after g).2).

(** [None] is the panic of closing a channel twice. *)
Definition Group_Close g : option URLTestGroup :=
  if negb (ticker g) then Some g else if closeChannel g then None else Some (setLifecycle (started g) true g).

(** [DialContext] and [ListenPacket]: the member used, after the selection or by it. *)
Definition outboundFor (network : string) g : option Member :=
  match selectedFor network g with Some m => Some m | None => (Select network g).1 end.

(** [dialed]: what dialing the member gives, with the identity of the connection. *)
Definition DialContext (now : Z) (network : string) (external : bool) (dialed : Member -> res error nat) g :
    res error nat * URLTestGroup :=
  let (_, g) := Touch now g in
  if negb (bool_decide (network ∈ ["tcp"; "udp"])) then (Err (New ("unknown network: " +:+ network)), g) else
  match outboundFor network g with
  | None => (Err (New "missing supported outbound"), g)
  | Some m =>
      match dialed m with
      | Ok conn => (Ok conn, setInterrupts (NewConn conn external (interruptGroup g)) g)
      | Err e => (Err e, setHistory (DeleteURLTestHistory (mb_Tag m) (history g)) g)
      end
  end.
End URLTest.

(** ** Selectors *)

Record Selector := mkSelector {
  sel_Tag : string;
  tags : list string;
  defaultTag : string;
  members : gmap string Member;
  selected : option Member;
  sel_interrupts : Interrupts;
  sel_external : bool;
  (** The selections stored in the cache file; [None] without one. *)
  cacheFile : option (gmap string string)
}.

Definition setMember (m : Member) (s : Selector) : Selector :=
  mkSelector (sel_Tag s) (tags s) (defaultTag s) (members s) (Some m) (sel_interrupts s) (sel_external s) (cacheFile s).

Definition NewSelector (tag : string) (outbounds : list string) (dflt : string) (external : bool) (cache : option (gmap string string)) :
    res error Selector :=
  if nonempty outbounds then Ok (mkSelector tag outbounds dflt ∅ None NewGroup external cache) else Err (New "missing tags").

(** The members found by their tags, in order. *)
Fixpoint findMembers (lookup : string -> option Member) (i : Z) (l : list string) (acc : gmap string Member) : res error (gmap string Member) :=
  match l with
  | [] => Ok acc
  | tag :: l =>
      match lookup tag with
      | None => Err (New ("outbound " +:+ Itoa i +:+ " not found: " +:+ tag))
      | Some m => findMembers lookup (i + 1) l (<[tag := m]> acc)
      end
  end.

(** The member the cache file names, if the group has it. *)
Definition cachedMember (s : Selector) (found : gmap string Member) : option Member :=
  if bool_decide (sel_Tag s = "") then None else
  cache ← cacheFile s; name ← cache !! sel_Tag s; if bool_decide (name = "") then None else found !! name.

Definition Selector_Start (lookup : string -> option Member) (s : Selector) : res error Selector :=
  found ← findMembers lookup 0 (tags s) (members s);
  let s := mkSelector (sel_Tag s) (tags s) (defaultTag s) found (selected s) (sel_interrupts s) (sel_external s) (cacheFile s) in
  match cachedMember s found with
  | Some m => Ok (setMember m s)
  | None =>
      if negb (bool_decide (defaultTag s = "")) then
        match found !! defaultTag s with
        | None => Err (New ("default outbound not found: " +:+ defaultTag s))
        | Some m => Ok (setMember m s)
        end
      else
        match head (tags s) with
        | Some tag => Ok (mkSelector (sel_Tag s) (tags s) (defaultTag s) found (found !! tag) (sel_interrupts s) (sel_external s) (cacheFile s))
        | None => Err (New "panic: index out of range")
        end
  end.

Definition Selector_Now (s : Selector) : string :=
  match selected s with Some m => mb_Tag m | None => default "" (head (tags s)) end.
Definition Selector_Network (s : Selector) : list string := match selected s with Some m => mb_Network m | None => ["tcp"; "udp"] end.

(** [SelectOutbound]; a failing cache file is only logged. *)
Definition SelectOutbound (tag : string) (s : Selector) : bool * Selector :=
  match members s !! tag with
  | None => (false, s)
  | Some m =>
      let old := selected s in
      let s := setMember m s in
      if bool_decide (old = Some m) then (true, s) else
      (true, mkSelector (sel_Tag s) (tags s) (defaultTag s) (members s) (selected s) (Interrupt (sel_external s) (sel_interrupts s)) (sel_external s)
               (if bool_decide (sel_Tag s = "") then cacheFile s else (fun c => <[sel_Tag s := tag]> c) <$> cacheFile s))
  end.

(** A started selector has a member selected: the cached, the default or the first one. *)
Lemma findMembers_found lookup i l acc found tag :
  findMembers lookup i l acc = Ok found -> tag ∈ l \/ is_Some (acc !! tag) -> is_Some (found !! tag).
Proof.
  revert i acc. induction l as [|t l IH]; cbn; intros i acc Hf Hin.
  - injection Hf as <-. destruct Hin as [Hin|]; [by apply elem_of_nil in Hin|done].
  - destruct (lookup t) as [m|]; [|done]. apply (IH _ _ Hf). destruct (decide (t = tag)) as [->|Ht].
    + right. by rewrite lookup_insert_eq.
    + rewrite lookup_insert_ne by done. destruct Hin as [Hin|]; [|by right]. apply elem_of_cons in Hin as [->|]; [done|by left].
Qed.

Lemma started_selector_selects lookup s s' : Selector_Start lookup s = Ok s' ->
  exists tag m, selected s' = Some m /\ members s' !! tag = Some m.
Proof.
  unfold Selector_Start. destruct (findMembers lookup 0 (tags s) (members s)) as [found|] eqn:Hf; [|done]. cbn.
  set (s1 := mkSelector _ _ _ _ _ _ _ _). destruct (cachedMember s1 found) as [m|] eqn:Hc.
  { intros [= <-]. unfold cachedMember in Hc. case_bool_decide; [done|]. destruct (cacheFile s1) as [c|]; [|done]. cbn in Hc.
    destruct (c !! _) as [name|]; [|done]. cbn in Hc. case_bool_decide; [done|]. by exists name, m. }
  cbn. destruct (negb _).
  - destruct (found !! defaultTag s) as [m|] eqn:Hd; [|done]. intros [= <-]. by exists (defaultTag s), m.
  - destruct (tags s) as [|tag l] eqn:Ht; [done|]. cbn. intros [= <-]. destruct (findMembers_found _ _ _ _ _ tag Hf) as [m Hm]; [left; by left|].
    exists tag, m. by split.
Qed.

(** ** A checked group uses a fast member *)

Section Fast.
Variable real : string -> string.

(** Delays that 16 bits can be compared in: positive, and not above what the tolerance leaves. *)
Definition comparable (tol d : Z) : Prop := 0 < d /\ d + tol < 2 ^ 16.

(** [best] was chosen among the members of [seen]: it was tested, and none of them is faster by more
    than the tolerance. *)
Definition chosenAmong (network : string) g (seen : list Member) (best : Z * option Member) : Prop :=
  match best.2 with
  | None => best.1 = 0 /\ forall m, m ∈ seen -> supports network m = true -> historyOf real m g = None
  | Some m0 =>
      (exists h, historyOf real m0 g = Some h /\ h_Delay h = best.1) /\ 0 < best.1 /\
      forall m h, m ∈ seen -> supports network m = true -> historyOf real m g = Some h -> best.1 <= h_Delay h + tolerance g
  end.

Lemma selectStep_chosen network g seen best m :
  0 <= tolerance g -> (forall m h, historyOf real m g = Some h -> comparable (tolerance g) (h_Delay h)) ->
  chosenAmong network g seen best -> chosenAmong network g (seen ++ [m]) (selectStep real network g best m).
Proof using Type.
  intros Htol Hcmp Hb. unfold selectStep.
  assert ((supports network m = true -> forall h, historyOf real m g = Some h -> 0 < best.1 /\ best.1 <= h_Delay h + tolerance g) ->
    chosenAmong network g (seen ++ [m]) best) as Hkeep.
  { intros Hm. unfold chosenAmong in *. destruct best.2 as [m0|].
    - destruct Hb as (Hh & Hpos & Hall). split; [done|]. split; [done|]. intros m' h Hin Hs Hh'.
      apply elem_of_app in Hin as [Hin|Hin%list_elem_of_singleton]; [by eapply Hall|]. subst m'. by apply Hm.
    - destruct Hb as [Hz Hall]. split; [done|]. intros m' Hin Hs.
      apply elem_of_app in Hin as [Hin|Hin%list_elem_of_singleton]; [by apply Hall|]. subst m'.
      destruct (historyOf real m g) as [h|] eqn:E; [|done]. destruct (Hm Hs h eq_refl). lia. }
  destruct (supports network m) eqn:Hsup; [|by apply Hkeep]. cbn [negb].
  destruct (historyOf real m g) as [h|] eqn:Hh; [|by apply Hkeep].
  destruct (Hcmp m h Hh) as [Hd0 Hd]. unfold wrapU16. rewrite Z.mod_small by lia.
  destruct (Z.eqb_spec best.1 0) as [Hz|Hz]; cbn [orb]; [|destruct (Z.ltb_spec (h_Delay h + tolerance g) best.1) as [Hlt|Hge]].
  3: { apply Hkeep. intros _ h' [= <-]. split; [|lia]. unfold chosenAmong in Hb. destruct best.2; [tauto|lia]. }
  all: unfold chosenAmong; cbn; split; [by exists h|]; split; [done|]; intros m' h' Hin Hs Hh'.
  all: apply elem_of_app in Hin as [Hin|Hin%list_elem_of_singleton]; [|subst m'; rewrite Hh in Hh'; injection Hh' as <-; lia].
  all: unfold chosenAmong in Hb; destruct best.2 as [m0|].
  - lia.
  - destruct Hb as [_ Hall]. by rewrite Hall in Hh'.
  - destruct Hb as (_ & _ & Hall). specialize (Hall m' h' Hin Hs Hh'). lia.
  - lia.
Qed.

Lemma select_chosen network g seen best l :
  0 <= tolerance g -> (forall m h, historyOf real m g = Some h -> comparable (tolerance g) (h_Delay h)) ->
  chosenAmong network g seen best -> chosenAmong network g (seen ++ l) (foldl (selectStep real network g) best l).
Proof using Type.
  intros Htol Hcmp. revert seen best. induction l as [|m l IH]; intros seen best Hb; [by rewrite app_nil_r|].
  cbn [foldl]. rewrite cons_middle, (assoc_L (++)). apply IH. by apply selectStep_chosen.
Qed.

(** [Select] finds a tested member when there is one. *)
Lemma Select_chosen network g :
  0 <= tolerance g -> (forall m h, historyOf real m g = Some h -> comparable (tolerance g) (h_Delay h)) ->
  match Select real network g with
  | (Some m, true) => exists h, historyOf real m g = Some h /\
      forall m' h', m' ∈ outbounds g -> supports network m' = true -> historyOf real m' g = Some h' -> h_Delay h <= h_Delay h' + tolerance g
  | (_, false) => forall m, m ∈ outbounds g -> supports network m = true -> historyOf real m g = None
  | (None, true) => False
  end.
Proof using Type.
  intros Htol Hcmp. unfold Select. set (best0 := match selectedFor network g with Some _ => _ | None => _ end).
  assert (chosenAmong network g [] best0) as H0.
  { unfold best0, chosenAmong. destruct (selectedFor network g) as [m|]; [destruct (historyOf real m g) as [h|] eqn:E|]; cbn.
    - split; [by exists h|]. split; [by apply (Hcmp m)|]. intros m' h' Hin. by apply elem_of_nil in Hin.
    - split; [done|]. intros m' Hin. by apply elem_of_nil in Hin.
    - split; [done|]. intros m' Hin. by apply elem_of_nil in Hin. }
  apply (select_chosen _ _ [] _ (outbounds g)) in H0; [|done..]. unfold chosenAmong in H0. cbn [app] in H0.
  destruct (foldl _ _ _).2 as [m|]; [destruct H0 as ((h & Hh & Hd) & _ & Hall)|destruct H0 as [_ Hall]].
  - exists h. split; [done|]. rewrite Hd. intros m' h'. apply Hall.
  - destruct (List.find _ _); apply Hall.
Qed.

(** What is selected is a member that serves the network. *)
Definition group_ok g : Prop :=
  forall network m, selectedFor network g = Some m -> m ∈ outbounds g /\ supports network m = true.

Lemma selectFold_member network g best l :
  (forall m, best.2 = Some m -> m ∈ outbounds g /\ supports network m = true) -> (forall m, m ∈ l -> m ∈ outbounds g) ->
  forall m, (foldl (selectStep real network g) best l).2 = Some m -> m ∈ outbounds g /\ supports network m = true.
Proof using Type.
  revert best. induction l as [|m0 l IH]; intros best Hb Hl; [done|]. cbn [foldl]. apply IH; [|intros; apply Hl; by right].
  intros m. unfold selectStep. destruct (supports network m0) eqn:Hs; [|apply Hb]. cbn [negb]. destruct (historyOf real m0 g); [|apply Hb].
  destruct (_ || _); [|apply Hb]. intros [= <-]. split; [apply Hl; by left|done].
Qed.

Lemma Select_member network g m b : group_ok g -> Select real network g = (Some m, b) -> m ∈ outbounds g /\ supports network m = true.
Proof using Type.
  intros Hok. unfold Select. set (best0 := match selectedFor network g with Some _ => _ | None => _ end).
  assert (forall m, best0.2 = Some m -> m ∈ outbounds g /\ supports network m = true) as H0.
  { unfold best0. destruct (selectedFor network g) as [m1|] eqn:E; [|done]. destruct (historyOf real m1 g); [|done]. intros m' [= <-]. by apply Hok. }
  destruct (foldl _ _ _).2 as [m1|] eqn:E.
  - intros [= <- _]. by apply (selectFold_member network g best0 (outbounds g) H0).
  - intros [= Hf _]. apply List.find_some in Hf as [Hin Hs]. split; [by apply list_elem_of_In|done].
Qed.

Lemma updateSelected_member network g m : group_ok g -> (updateSelected real network g).1 = Some m -> m ∈ outbounds g /\ supports network m = true.
Proof using Type.
  intros Hok. unfold updateSelected. destruct (Select real network g) as [[m1|] b] eqn:E; [|by intros; apply Hok].
  pose proof (Select_member _ _ _ _ Hok E) as Hm. destruct (selectedFor network g) as [m'|] eqn:Hs; [|by intros [= <-]].
  destruct (_ && _); [by intros [= <-]|]. intros [= <-]. by apply Hok.
Qed.

(** Both selections are updated from the same state. *)
Lemma performUpdateCheck_selected network g :
  network = "tcp" \/ network = "udp" -> selectedFor network (performUpdateCheck real g) = (updateSelected real network g).1.
Proof using Type.
  intros Hn. unfold performUpdateCheck. destruct (updateSelected real "tcp" g) as [tcp u] eqn:Et.
  set (g1 := setSelected tcp (selectedOutboundUDP g) g). change (updateSelected real "udp" g1) with (updateSelected real "udp" g).
  destruct (updateSelected real "udp" g) as [udp u'] eqn:Eu. destruct Hn as [->| ->]; rewrite ?Et, ?Eu; by destruct (u || u').
Qed.

Lemma performUpdateCheck_fields g :
  let g' := performUpdateCheck real g in
  outbounds g' = outbounds g /\ history g' = history g /\ tolerance g' = tolerance g.
Proof using Type.
  unfold performUpdateCheck. destruct (updateSelected real "tcp" g) as [tcp u]. destruct (updateSelected real "udp" _) as [udp u']. by destruct (u || u').
Qed.

Lemma selectedFor_network network g m : selectedFor network g = Some m -> network = "tcp" \/ network = "udp".
Proof using Type. unfold selectedFor. repeat case_bool_decide; auto. done. Qed.

Lemma performUpdateCheck_ok g : group_ok g -> group_ok (performUpdateCheck real g).
Proof using Type.
  intros Hok network m Hm. pose proof (performUpdateCheck_fields g) as (-> & _). pose proof (selectedFor_network _ _ _ Hm) as Hn.
  rewrite performUpdateCheck_selected in Hm by done. by apply updateSelected_member.
Qed.

(** Every group reached by checks and dials is well formed. *)
Lemma urlTest_ok force test now after g : group_ok g -> group_ok (urlTest real force test now after g).2.
Proof using Type.
  intros Hok. unfold urlTest. destruct (checking g); [done|]. destruct (foldl _ _ _) as [h result]. cbn [snd].
  apply (performUpdateCheck_ok (setHistory h (setChecking true g)) Hok).
Qed.

Lemma DialContext_ok now network external dialed g : group_ok g -> group_ok (DialContext real now network external dialed g).2.
Proof using Type.
  intros Hok. unfold DialContext. assert (group_ok (Touch now g).2) as Ht by (unfold Touch; by repeat case_match).
  destruct (Touch now g) as [b g1]. cbn in Ht. destruct (negb _); [done|]. destruct (outboundFor real network g1) as [m|]; [|done]. by destruct (dialed m).
Qed.

(** ** What a check leaves in the history *)

Definition outcome (after : Z) (r : res error Z) : option History := match r with Ok d => Some (mkHistory after d) | Err _ => None end.

Lemma tests_recorded test after l acc tag r :
  test tag = Some r -> tag ∈ map snd l \/ acc.1 !! tag = outcome after r -> (foldl (testOne test after) acc l).1 !! tag = outcome after r.
Proof using Type.
  intros Ht. revert acc. induction l as [|[t rt] l IH]; intros acc Hin; cbn [foldl].
  - destruct Hin as [Hin|]; [by apply elem_of_nil in Hin|done].
  - apply IH. destruct (decide (rt = tag)) as [->|Hne].
    + right. unfold testOne. cbn [snd fst]. rewrite Ht. destruct r; [apply lookup_insert_eq|apply lookup_delete_eq].
    + destruct Hin as [Hin|Hacc]; [left; cbn in Hin; apply elem_of_cons in Hin as [->|]; done|]. right. unfold testOne. cbn [snd fst].
      destruct (test rt) as [[d|e]|]; [etrans; [by apply lookup_insert_ne|done]|etrans; [by apply lookup_delete_ne|done]|done].
Qed.

Lemma tests_comparable test after l acc tol :
  (forall tag d, test tag = Some (Ok d) -> comparable tol d) -> (forall tag h, acc.1 !! tag = Some h -> comparable tol (h_Delay h)) ->
  forall tag h, (foldl (testOne test after) acc l).1 !! tag = Some h -> comparable tol (h_Delay h).
Proof using Type.
  intros Ht. revert acc. induction l as [|[t rt] l IH]; intros acc Hacc; [done|]. cbn [foldl]. apply IH.
  unfold testOne. cbn [snd fst]. destruct (test rt) as [[d|e]|] eqn:E; cbn; [|unfold DeleteURLTestHistory; intros tag h Hh; apply (Hacc tag); by apply lookup_delete_Some in Hh as [_ Hh]|done].
  intros tag h Hh. unfold StoreURLTestHistory in Hh. destruct (decide (rt = tag)) as [->|Hne].
  - rewrite lookup_insert_eq in Hh. injection Hh as <-. by apply (Ht tag).
  - rewrite lookup_insert_ne in Hh by done. by apply (Hacc tag).
Qed.

Lemma toCheck_all now checked l g m : m ∈ l -> real (mb_Tag m) ∈ checked \/ real (mb_Tag m) ∈ map snd (toCheck real true now checked l g).
Proof using Type.
  revert checked. induction l as [|m0 l IH]; intros checked Hin; [by apply elem_of_nil in Hin|]. cbn [toCheck negb andb].
  case_bool_decide as Hc; apply elem_of_cons in Hin as [->|Hin]; [by left|by apply IH|right; by left|].
  destruct (IH (real (mb_Tag m0) :: checked) Hin) as [Hin'|Hin']; [|right; by right].
  apply elem_of_cons in Hin' as [->|]; [right; by left|by left].
Qed.

(** C11. After a forced check a group sends the traffic of a network through a member that passed
    the test, and no member that passed is faster by more than the tolerance.  That is where the
    outbound of every member is known, some member with that network passed, and every delay,
    measured or remembered, is above 0 and fits in 16 bits together with the tolerance. *)
Theorem checked_group_is_fast test now after g network :
  network = "tcp" \/ network = "udp" -> group_ok g -> checking g = false -> 0 <= tolerance g ->
  (forall m, m ∈ outbounds g -> is_Some (test (real (mb_Tag m)))) ->
  (forall tag d, test tag = Some (Ok d) -> comparable (tolerance g) d) ->
  (forall tag h, history g !! tag = Some h -> comparable (tolerance g) (h_Delay h)) ->
  (exists m d, m ∈ outbounds g /\ supports network m = true /\ test (real (mb_Tag m)) = Some (Ok d)) ->
  exists m d, selectedFor network (urlTest real true test now after g).2 = Some m /\ m ∈ outbounds g /\ supports network m = true /\
    test (real (mb_Tag m)) = Some (Ok d) /\
    forall m' d', m' ∈ outbounds g -> supports network m' = true -> test (real (mb_Tag m')) = Some (Ok d') -> d <= d' + tolerance g.
Proof using Type.
  intros Hn Hok Hck Htol Hall Htest Hhist (m1 & d1 & Hin1 & Hs1 & Ht1). unfold urlTest. rewrite Hck.
  destruct (foldl _ _ _) as [h result] eqn:Hfold. set (g1 := setHistory h (setChecking true g)). cbn [snd].
  change (selectedFor network (setChecking false (performUpdateCheck real g1))) with (selectedFor network (performUpdateCheck real g1)).
  assert (forall m r, m ∈ outbounds g -> test (real (mb_Tag m)) = Some r -> historyOf real m g1 = outcome after r) as Hrec.
  { intros m r Hm Hr. change (h !! real (mb_Tag m) = outcome after r). change h with (fst (h, result)). rewrite <-Hfold.
    apply (tests_recorded test after _ _ _ r Hr). left. by destruct (toCheck_all now [] (outbounds g) g m Hm) as [[]%elem_of_nil|]. }
  assert (forall m h, historyOf real m g1 = Some h -> comparable (tolerance g1) (h_Delay h)) as Hcmp.
  { intros m hh Hh. eapply (tests_comparable test after (toCheck real true now [] (outbounds g) g) (history g, ∅)); [done|done|].
    rewrite Hfold. exact Hh. }
  pose proof (Select_chosen network g1 Htol Hcmp) as Hsel. pose proof (fun m b => Select_member network g1 m b Hok) as Hmem.
  rewrite performUpdateCheck_selected by done. unfold updateSelected.
  destruct (Select real network g1) as [[m|] [|]]; [|by specialize (Hsel m1 Hin1 Hs1); rewrite (Hrec m1 _ Hin1 Ht1) in Hsel|done|by specialize (Hsel m1 Hin1 Hs1); rewrite (Hrec m1 _ Hin1 Ht1) in Hsel].
  destruct Hsel as (hm & Hh & Hbest). destruct (Hmem m true eq_refl) as [Hin Hs]. destruct (Hall m Hin) as [[d|e] Hr]; rewrite (Hrec m _ Hin Hr) in Hh; [|done].
  injection Hh as <-. exists m, d. split.
  { destruct (selectedFor network g1) as [m'|]; [|done]. cbn [andb]. case_bool_decide; [by subst|done]. }
  do 3 (split; [done|]). intros m' d' Hin' Hs' Hr'. apply (Hbest m' (mkHistory after d') Hin' Hs'). by rewrite (Hrec m' _ Hin' Hr').
Qed.
End Fast.

(** ** Groups step by step *)

Module GroupSample.
Definition fast : Member := mkMember "fast" ["tcp"; "udp"].
Definition slow : Member := mkMember "slow" ["tcp"].
Definition group (tol : Z) : URLTestGroup :=
  mkURLTestGroup [slow; fast] (3 * Minute) tol (30 * Minute) ∅ false (Some slow) None (mkInterrupts [(1%nat, false); (2%nat, true)] []) false true false true 0.
Definition delays (fastDelay slowDelay : Z) (tag : string) : option (res error Z) :=
  if bool_decide (tag = "fast") then Some (Ok fastDelay) else if bool_decide (tag = "slow") then Some (Ok slowDelay) else None.
Definition afterCheck (tol fastDelay slowDelay : Z) : URLTestGroup :=
  (urlTest (fun tag => tag) true (delays fastDelay slowDelay) 0 0 (group tol)).2.

Lemma checked_group_is_fast_witness :
  selectedFor "tcp" (afterCheck 50 20 200) = Some fast /\
  exists m d, selectedFor "tcp" (afterCheck 50 20 200) = Some m /\ delays 20 200 (mb_Tag m) = Some (Ok d) /\ d <= 20 + 50.
Proof.
  split; [vm_compute; reflexivity|].
  destruct (checked_group_is_fast (fun tag => tag) (delays 20 200) 0 0 (group 50) "tcp") as (m & d & Hm & _ & _ & Hd & Hall).
  - by left.
  - intros network m Hm. unfold selectedFor in Hm. case_bool_decide; [injection Hm as <-; subst; by split; [left|]|by case_bool_decide].
  - reflexivity.
  - cbn. lia.
  - intros m Hin. repeat (apply elem_of_cons in Hin as [->|Hin]; [by eexists|]). by apply elem_of_nil in Hin.
  - intros tag d. unfold delays, comparable. cbn [tolerance group]. repeat case_bool_decide; try done; intros [= <-]; lia.
  - intros tag h Hh. cbn [history group] in Hh. by rewrite lookup_empty in Hh.
  - exists fast, 20. split; [right; by left|]. by split.
  - exists m, d. split; [exact Hm|]. split; [exact Hd|]. apply (Hall fast 20); [right; by left|reflexivity|reflexivity].
Defined.

(** The internal connection is interrupted by the change and the external one is not. *)
Example change_interrupts : interruptGroup (afterCheck 50 20 200) = mkInterrupts [(2%nat, true)] [1%nat].
Proof. vm_compute. reflexivity. Qed.

(** The sum of a delay and the tolerance wraps around: the slower member is taken. *)
Definition untested (tol : Z) (h : list (string * Z)) : URLTestGroup :=
  mkURLTestGroup [fast; slow] (3 * Minute) tol (30 * Minute) (list_to_map ((fun p => (p.1, mkHistory 0 p.2)) <$> h)) false None None NewGroup false false false true 0.
Example tolerance_wraps : (Select (fun tag => tag) "tcp" (untested 60000 [("fast", 5000); ("slow", 10000)])).1 = Some slow.
Proof. vm_compute. reflexivity. Qed.

(** A delay below a millisecond is stored as 0, which stands for no choice yet. *)
Example instant_member_loses : (Select (fun tag => tag) "tcp" (untested 50 [("fast", 0); ("slow", 10000)])).1 = Some slow.
Proof. vm_compute. reflexivity. Qed.

(** Closing a group that checks twice panics. *)
Example close_twice : Group_Close (group 50) ≫= Group_Close = None.
Proof. reflexivity. Qed.
End GroupSample.
