(* ===== verification/Managers.v ===== *)
(** * Managers of inbounds, endpoints and services
      (src/fork/sing-box/adapter/inbound/manager.go, adapter/endpoint/manager.go,
       adapter/service/manager.go, adapter/lifecycle_legacy.go)

    The three managers are one program over different objects: [Manager] is their state, with the
    calls made to the objects as a trace.  Objects are told apart by the number they were created
    with.  The registries and what the calls return are [ItemLibs].  An operation is its part under
    the manager's lock; what the managers of inbounds and services do after they have released it,
    the loop of [Start] and the [Close] of a removed object, are tasks of their own, which
    interleave with the operations ([World]).  The loop of [Start] goes over the array of the list as
    it is then: removals and creations write into it.  A panic of the source is an error whose
    message starts with "panic". *)

From S2P Require Import Prelude GoStrings Lifecycle.

#[local] Open Scope Z_scope.

(** ** Objects *)

(** [it_type] is the kind and type as the messages write them, e.g. "inbound/vless". *)
Record Item := mkItem { it_id : nat; it_type : string; it_tag : string }.

#[export] Instance Item_eq_dec : EqDecision Item.
Proof. solve_decision. Defined.

(** [ok] is that [Close] returned no error. *)
Inductive event := StartCall (id : nat) (s : StartStage) | CloseCall (id : nat) (ok : bool).

#[export] Instance event_eq_dec : EqDecision event.
Proof. solve_decision. Defined.

(** The interfaces an object has, with what its methods return, and its Close. *)
Class ItemLibs := {
  asLifecycle : Item -> option (StartStage -> option error);
  asPreStart : Item -> option (option error);
  asStart : Item -> option (option error);
  asPostStart : Item -> option (option error);
  closeItem : Item -> option error
}.

Section Manager.
Context `{ItemLibs}.

(** [LegacyStart]: what the object returns, and the call if there is one. *)
Definition LegacyStart (i : Item) (s : StartStage) : option error * list event :=
  let call (r : option (option error)) := match r with Some e => (e, [StartCall (it_id i) s]) | None => (None, []) end in
  match asLifecycle i with
  | Some start => (start s, [StartCall (it_id i) s])
  | None =>
      match s with
      | StartStateInitialize => call (asPreStart i)
      | StartStateStart => call (asStart i)
      | StartStatePostStart => (None, [])
      | StartStateStarted => call (asPostStart i)
      end
  end.

Record Manager := mkManager {
  started : bool;
  stage : StartStage;
  items : list Item;
  itemByTag : gmap string Item;
  (** The objects created so far and the calls made to them. *)
  created : nat;
  trace : list event
}.
Implicit Types (m : Manager).

Definition NewManager : Manager := mkManager false StartStateInitialize [] ∅ 0 [].

Definition setStage (b : bool) (s : StartStage) m : Manager := mkManager b s (items m) (itemByTag m) (created m) (trace m).
Definition setItems (l : list Item) (byTag : gmap string Item) m : Manager := mkManager (started m) (stage m) l byTag (created m) (trace m).
Definition call (es : list event) m : Manager := mkManager (started m) (stage m) (items m) (itemByTag m) (created m) (trace m ++ es).
Definition allocate m : Manager := mkManager (started m) (stage m) (items m) (itemByTag m) (S (created m)) (trace m).

(** One stage for the objects in order, up to the first error. *)
Fixpoint startAll (s : StartStage) (l : list Item) m : option error * Manager :=
  match l with
  | [] => (None, m)
  | i :: l =>
      let (e, es) := LegacyStart i s in
      match e with
      | Some e => (Some (Error (stageString s +:+ " " +:+ it_type i +:+ "[" +:+ it_tag i +:+ "]") [e]), call es m)
      | None => startAll s l (call es m)
      end
  end.

Definition alreadyStarted : error := New "panic: already started".
Definition refuses (s : StartStage) m : bool := started m && (stageNumber s <=? stageNumber (stage m)).

(** [Start] of the endpoint manager, under its lock; [elsewhere] is the stage the outbound manager
    does. *)
Definition Manager_Start (elsewhere : StartStage -> bool) (s : StartStage) m : option error * Manager :=
  if refuses s m then (Some alreadyStarted, m) else
  let m := setStage true s m in
  if elsewhere s then (None, m) else startAll s (items m) m.

(** A call of an object's [Close]. *)
Definition closing (i : Item) : event := CloseCall (it_id i) (match closeItem i with None => true | Some _ => false end).

(** [Close] drops the errors of the objects. *)
Definition Manager_Close m : option error * Manager :=
  if negb (started m) then (None, m) else
  (None, call (map closing (items m)) (setItems [] (itemByTag m) (setStage false (stage m) m))).

(** [Get]; an inbound may also be an endpoint. *)
Definition Manager_Get (fallback : string -> option Item) (tag : string) m : option Item :=
  match itemByTag m !! tag with Some i => Some i | None => fallback tag end.

Definition removeItem (i : Item) (l : list Item) : option (list Item) := removeById it_id (it_id i) l.

(** [Remove] under the lock, and the object that is to be closed after it. *)
Definition Manager_Remove (tag : string) m : (option error * option Item) * Manager :=
  match itemByTag m !! tag with
  | None => ((Some (New "invalid argument"), None), m)
  | Some i =>
      let byTag := delete tag (itemByTag m) in
      match removeItem i (items m) with
      | None => ((Some (New "panic: invalid index"), None), setItems (items m) byTag m)
      | Some l =>
          let m := setItems l byTag m in
          ((None, if started m then Some i else None), m)
      end
  end.

(** All stages for an object created late. *)
Fixpoint startStages (i : Item) (l : list StartStage) m : option error * Manager :=
  match l with
  | [] => (None, m)
  | s :: l =>
      let (e, es) := LegacyStart i s in
      match e with
      | Some e => (Some (Error (stageString s +:+ " " +:+ it_type i +:+ "[" +:+ it_tag i +:+ "]") [e]), call es m)
      | None => startStages i l (call es m)
      end
  end.

(** The object a tag had before is closed, if the manager is started, and taken off the list. *)
Definition replaceItem (tag : string) m : option error * Manager :=
  match itemByTag m !! tag with
  | None => (None, m)
  | Some old =>
      let closing := if started m then (closeItem old, call [closing old] m) else (None, m) in
      match closing with
      | (Some e, m) => (Some (Error ("close " +:+ it_type old +:+ "[" +:+ it_tag old +:+ "]") [e]), m)
      | (None, m) =>
          match removeItem old (items m) with
          | None => (Some (New "panic: invalid index"), m)
          | Some l => (None, setItems l (itemByTag m) m)
          end
      end
  end.

(** [Create]; [made] is the error of the registry, if it made no object. *)
Definition Manager_Create (made : option error) (tag type : string) m : option error * Manager :=
  match made with
  | Some e => (Some e, m)
  | None =>
      let i := mkItem (created m) type tag in
      let (e, m) := if started m then startStages i ListStartStages (allocate m) else (None, allocate m) in
      match e with
      | Some e => (Some e, m)
      | None =>
          let (e, m) := replaceItem tag m in
          match e with
          | Some e => (Some e, m)
          | None => (None, setItems (items m ++ [i]) (<[tag := i]> (itemByTag m)) m)
          end
      end
  end.

(** ** Outside the lock *)

(** The rest of a [Start]: [slots] is the array its slice was taken from, up to the slice's length,
    [shared] that the manager still uses that array.  And the [Close] of a removed object. *)
Inductive task :=
| Starting (s : StartStage) (slots : list Item) (pos : nat) (shared : bool)
| Closing (i : Item).

(** [append(l[:j], l[j+1:]...)] moves the elements after [j] within the array. *)
Definition shiftSlots (j : nat) (l slots : list Item) : list Item :=
  imap (fun p i => if ((j <=? p) && (S p <? length l))%nat then default i (l !! S p) else i) slots.

Definition shiftTask (j : nat) (l : list Item) (t : task) : task :=
  match t with
  | Starting s slots pos true => Starting s (shiftSlots j l slots) pos true
  | _ => t
  end.

(** [append(l, i)] writes behind the list where there is room, or moves to a new array. *)
Definition appendTask (fits : bool) (n : nat) (i : Item) (t : task) : task :=
  match t with
  | Starting s slots pos true => if fits then Starting s (<[n := i]> slots) pos true else Starting s slots pos false
  | _ => t
  end.

Definition indexOf (i : Item) (l : list Item) : nat := from_option fst 0%nat (list_find (fun x => it_id x = it_id i) l).

Record World := mkWorld { manager : Manager; tasks : list task }.

(** One operation under the lock, or a step of a task; [room] is that the array has a free slot.
    [locked] is that the manager keeps its lock while it starts its objects. *)
Inductive operation :=
| DoStart (s : StartStage)
| DoRemove (tag : string)
| DoCreate (made : option error) (tag type : string) (room : bool)
| DoTask (k : nat).

Definition endTask (k : nat) (w : World) : World := mkWorld (manager w) (delete k (tasks w)).
Definition inManager (f : Manager -> Manager) (w : World) : World := mkWorld (f (manager w)) (tasks w).

Definition stepTask (k : nat) (t : task) (w : World) : option error * World :=
  match t with
  | Starting s slots pos shared =>
      match slots !! pos with
      | None => (None, endTask k w)
      | Some i =>
          let (e, es) := LegacyStart i s in
          let w := inManager (call es) w in
          match e with
          | Some e => (Some (Error (stageString s +:+ " " +:+ it_type i +:+ "[" +:+ it_tag i +:+ "]") [e]), endTask k w)
          | None => (None, mkWorld (manager w) (<[k := Starting s slots (S pos) shared]> (tasks w)))
          end
      end
  | Closing i => (closeItem i, endTask k (inManager (call [closing i]) w))
  end.

Definition perform (locked : bool) (elsewhere : StartStage -> bool) (o : operation) (w : World) : option error * World :=
  let m := manager w in
  match o with
  | DoStart s =>
      if locked then let (e, m) := Manager_Start elsewhere s m in (e, mkWorld m (tasks w))
      else if refuses s m then (Some alreadyStarted, w)
      else (None, mkWorld (setStage true s m) (tasks w ++ [Starting s (items m) 0 true]))
  | DoRemove tag =>
      let '((e, rest), m') := Manager_Remove tag m in
      let ts := match itemByTag m !! tag with Some i => shiftTask (indexOf i (items m)) (items m) <$> tasks w | None => tasks w end in
      (e, mkWorld m' (ts ++ option_list (Closing <$> rest)))
  | DoCreate made tag type room =>
      let (e, m') := Manager_Create made tag type m in
      let i := mkItem (created m) type tag in
      let ts :=
        match e, itemByTag m !! tag with
        | Some _, _ => tasks w
        | None, Some old => appendTask true (pred (length (items m))) i ∘ shiftTask (indexOf old (items m)) (items m) <$> tasks w
        | None, None => appendTask room (length (items m)) i <$> tasks w
        end in
      (e, mkWorld m' ts)
  | DoTask k => match tasks w !! k with Some t => stepTask k t w | None => (None, w) end
  end.
End Manager.

(** ** No object is closed twice *)

(** The objects whose [Close] was called and returned no error. *)
Definition closedIds (l : list event) : list nat := omap (fun e => match e with CloseCall i true => Some i | _ => None end) l.

(** The objects a task is about to close, where that will return no error. *)
Definition willClose `{ItemLibs} (t : task) : option nat :=
  match t with Closing i => match closeItem i with None => Some (it_id i) | Some _ => None end | Starting _ _ _ _ => None end.
Definition toClose `{ItemLibs} (ts : list task) : list nat := omap willClose ts.

Section Once.
Context `{ItemLibs}.
Variable locked : bool.
Variable elsewhere : StartStage -> bool.
Implicit Types (m : Manager) (w : World) (pend : list nat).

Inductive managed : list operation -> World -> Prop :=
| managed_new : managed [] (mkWorld NewManager [])
| managed_next ops o w : managed ops w -> managed (ops ++ [o]) (perform locked elsewhere o w).2.

(** The objects that are closed or about to be. *)
Definition gone pend m : list nat := closedIds (trace m) ++ pend.

Record manager_ok pend m : Prop := {
  ok_items : NoDup (it_id <$> items m);
  ok_registered i : i ∈ items m -> itemByTag m !! it_tag i = Some i /\ (it_id i < created m)%nat;
  ok_byTag tag i : itemByTag m !! tag = Some i -> it_tag i = tag /\ i ∈ items m;
  ok_closed : NoDup (gone pend m);
  ok_closed_known n : n ∈ gone pend m -> (n < created m)%nat;
  ok_open i : i ∈ items m -> it_id i ∉ gone pend m
}.

Lemma closedIds_app l k : closedIds (l ++ k) = closedIds l ++ closedIds k.
Proof using Type. apply omap_app. Qed.

(** What the invariant says depends on the set of the closed objects only. *)
Lemma gone_ok pend pend' m m' :
  manager_ok pend m -> gone pend m ≡ₚ gone pend' m' -> items m' = items m -> itemByTag m' = itemByTag m -> created m' = created m ->
  manager_ok pend' m'.
Proof using Type.
  intros [H1 H2 H3 H5 H6 H7] Hg Ei Eb Ec. constructor; rewrite ?Ei, ?Eb, ?Ec; try done; [by rewrite <- Hg|intros n; rewrite <- Hg; auto|].
  intros i Hi. rewrite <- Hg. auto.
Qed.

(** Calls that close nothing. *)
Definition silent (es : list event) : Prop := closedIds es = [].

Lemma LegacyStart_silent i s : silent (LegacyStart i s).2.
Proof using Type. unfold LegacyStart, silent. destruct (asLifecycle i); [done|]. destruct s; cbn; [destruct (asPreStart i)|destruct (asStart i)| |destruct (asPostStart i)]; done. Qed.

Lemma call_ok pend es m : silent es -> manager_ok pend m -> manager_ok pend (call es m).
Proof using Type.
  intros Hs Hm. apply (gone_ok _ _ _ _ Hm); try done. unfold gone. cbn. by rewrite closedIds_app, Hs, app_nil_r.
Qed.

Lemma startAll_ok pend s l m : manager_ok pend m -> manager_ok pend (startAll s l m).2.
Proof using Type.
  revert m. induction l as [|i l IH]; intros m Hm; [done|]. cbn [startAll]. pose proof (LegacyStart_silent i s) as Hs.
  destruct (LegacyStart i s) as [[e|] es]; [by apply call_ok|]. by apply IH, call_ok.
Qed.

(** What the starts leave alone. *)
Lemma startStages_keeps i l m :
  let m' := (startStages i l m).2 in
  items m' = items m /\ itemByTag m' = itemByTag m /\ created m' = created m /\ started m' = started m /\ closedIds (trace m') = closedIds (trace m).
Proof using Type.
  revert m. induction l as [|s l IH]; intros m; [done|]. cbn [startStages]. pose proof (LegacyStart_silent i s) as Hs.
  assert (closedIds (trace (call (LegacyStart i s).2 m)) = closedIds (trace m)) as Hc by (cbn; rewrite closedIds_app, Hs; apply app_nil_r).
  destruct (LegacyStart i s) as [[e|] es]; [done|]. rewrite <- Hc. apply (IH (call es m)).
Qed.

(** The object of a tag is the one taken off the list. *)
Lemma remove_same pend m tag i :
  manager_ok pend m -> itemByTag m !! tag = Some i -> exists l, removeItem i (items m) = Some l /\ items m ≡ₚ i :: l /\ it_id i ∉ it_id <$> l.
Proof using Type.
  intros Hm Hi. destruct (ok_byTag _ _ Hm tag i Hi) as [_ Hin]. pose proof (ok_items _ _ Hm) as Hnd.
  destruct (removeById_spec it_id i (items m) Hnd Hin) as (l & Hr & Hp). exists l. split; [done|]. split; [done|].
  rewrite Hp in Hnd. cbn in Hnd. by apply NoDup_cons in Hnd as [? _].
Qed.

(** The manager without the object of a tag. *)
Lemma remove_ok pend m tag i l :
  manager_ok pend m -> itemByTag m !! tag = Some i -> items m ≡ₚ i :: l -> it_id i ∉ it_id <$> l ->
  manager_ok pend (setItems l (delete tag (itemByTag m)) m).
Proof using Type.
  intros [H1 H2 H3 H5 H6 H7] Hi Hp Hni.
  assert (forall y, y ∈ l -> y ∈ items m) as Hsub by (intros y Hy; rewrite Hp; by right).
  constructor; cbn; try done; [| | |intros y Hy; by apply H7, Hsub].
  - rewrite Hp in H1. cbn in H1. by apply NoDup_cons in H1 as [_ ?].
  - intros y Hy. destruct (H2 y (Hsub y Hy)) as [Hy1 Hy2]. split; [|done]. rewrite lookup_delete_ne; [done|]. intros ->.
    rewrite Hy1 in Hi. injection Hi as <-. apply Hni. by apply list_elem_of_fmap_2.
  - intros tag' y Hy. apply lookup_delete_Some in Hy as [Hne Hy]. destruct (H3 tag' y Hy) as [Hy1 Hy2]. split; [done|].
    rewrite Hp in Hy2. apply elem_of_cons in Hy2 as [->|]; [|done]. exfalso. apply Hne. by rewrite <-Hy1, (proj1 (H3 tag i Hi)).
Qed.

Lemma new_manager_ok : manager_ok [] NewManager.
Proof using Type. constructor; cbn; try done; try constructor; intros; by match goal with Hi : _ ∈ [] |- _ => apply elem_of_nil in Hi end. Qed.

(** One more object to close. *)
Lemma close_later_ok pend m n : manager_ok pend m -> (n < created m)%nat -> n ∉ gone pend m -> n ∉ it_id <$> items m ->
  manager_ok (pend ++ [n]) m.
Proof using Type.
  intros [H1 H2 H3 H5 H6 H7] Hn Hc Hi. assert (gone (pend ++ [n]) m = gone pend m ++ [n]) as E by (unfold gone; by rewrite app_assoc).
  constructor; rewrite ?E; try done.
  - apply NoDup_app. split_and!; [done| |apply NoDup_singleton]. by intros k Hk ->%list_elem_of_singleton.
  - intros k [Hk|Hk%list_elem_of_singleton]%elem_of_app; [by apply H6|by subst].
  - intros i Hin [Hk|Hk%list_elem_of_singleton]%elem_of_app; [by apply (H7 i)|]. apply Hi. rewrite <-Hk. by apply list_elem_of_fmap_2.
Qed.

(** Taking an object off, to be closed. *)
Lemma remove_close_ok pend m tag i l :
  manager_ok pend m -> itemByTag m !! tag = Some i -> items m ≡ₚ i :: l -> it_id i ∉ it_id <$> l ->
  manager_ok (pend ++ [it_id i]) (setItems l (delete tag (itemByTag m)) m).
Proof using Type.
  intros Hm Hi Hp Hni. destruct (ok_byTag _ _ Hm tag i Hi) as [_ Hin].
  apply close_later_ok; [by eapply remove_ok|by apply (ok_registered _ _ Hm)|by apply (ok_open _ _ Hm)|done].
Qed.

Lemma allocate_ok pend m : manager_ok pend m -> manager_ok pend (allocate m).
Proof using Type.
  intros [H1 H2 H3 H5 H6 H7]. constructor; cbn; try done.
  - intros i Hi. destruct (H2 i Hi). split; [done|lia].
  - intros n Hn. specialize (H6 n Hn). lia.
Qed.

(** A new object under a tag that has none. *)
Lemma register_ok pend m i :
  manager_ok pend m -> itemByTag m !! it_tag i = None -> (it_id i < created m)%nat -> it_id i ∉ it_id <$> items m -> it_id i ∉ gone pend m ->
  manager_ok pend (setItems (items m ++ [i]) (<[it_tag i := i]> (itemByTag m)) m).
Proof using Type.
  intros [H1 H2 H3 H5 H6 H7] Hn Hlt Hni Hnc. constructor; cbn; try done.
  - rewrite fmap_app. apply NoDup_app. split_and!; [done| |apply NoDup_singleton]. by intros k Hk ->%list_elem_of_singleton.
  - intros x [Hx|Hx%list_elem_of_singleton]%elem_of_app; [|subst x; by rewrite lookup_insert_eq].
    destruct (H2 x Hx) as [Hx1 Hx2]. rewrite lookup_insert_ne; [done|]. intros E. by rewrite <-E, Hn in Hx1.
  - intros tag x Hx. destruct (decide (it_tag i = tag)) as [<-|Hne].
    + rewrite lookup_insert_eq in Hx. injection Hx as <-. split; [done|]. apply elem_of_app. right. by left.
    + rewrite lookup_insert_ne in Hx by done. destruct (H3 tag x Hx). split; [done|]. apply elem_of_app. by left.
  - intros x [Hx|Hx%list_elem_of_singleton]%elem_of_app; [by apply H7|by subst].
Qed.

(** The old object is off the list and, if the manager is started, closed; a failing [Close] leaves
    the manager as it was. *)
Lemma replaced_ok pend tag m :
  manager_ok pend m ->
  match replaceItem tag m with
  | (Some _, m') => manager_ok pend m'
  | (None, m') => exists m2, manager_ok pend m2 /\ itemByTag m2 = delete tag (itemByTag m) /\ items m2 = items m' /\
      created m2 = created m /\ created m' = created m /\ trace m2 = trace m' /\ started m2 = started m' /\ stage m2 = stage m' /\
      itemByTag m' = itemByTag m /\ (forall i, i ∈ items m' -> i ∈ items m) /\
      (forall n, n ∈ gone pend m' -> n ∈ gone pend m \/ n ∈ it_id <$> items m)
  end.
Proof using Type.
  intros Hm. unfold replaceItem. destruct (itemByTag m !! tag) as [old|] eqn:Hold.
  2: { exists m. rewrite delete_id by done. split_and!; try done. auto. }
  destruct (remove_same _ _ _ _ Hm Hold) as (l & Hr & Hp & Hno). destruct (ok_byTag _ _ Hm tag old Hold) as [_ Hin].
  assert (forall i, i ∈ l -> i ∈ items m) as Hsub by (intros i Hi; rewrite Hp; by right).
  destruct (started m).
  - destruct (closeItem old) as [e|] eqn:Ec; [apply call_ok; [by unfold silent, closing; rewrite Ec|done]|].
    cbn [items call]. rewrite Hr. exists (call [closing old] (setItems l (delete tag (itemByTag m)) m)). split_and!; try done.
    + apply (gone_ok _ _ _ _ (remove_close_ok _ _ _ _ _ Hm Hold Hp Hno)); try done. unfold gone, closing. cbn.
      rewrite Ec, closedIds_app. cbn. rewrite <- app_assoc. by rewrite (Permutation_app_comm pend).
    + intros n. unfold gone, closing. cbn. rewrite Ec, closedIds_app. cbn. rewrite !elem_of_app, list_elem_of_singleton.
      intros [[?| ->]|?]; [auto|right; by apply list_elem_of_fmap_2|auto].
  - cbn [items]. rewrite Hr. exists (setItems l (delete tag (itemByTag m)) m). split_and!; try done; [by eapply remove_ok|auto].
Qed.

Lemma created_ok pend made tag type m : manager_ok pend m -> manager_ok pend (Manager_Create made tag type m).2.
Proof using Type.
  intros Hm. unfold Manager_Create. destruct made as [e|]; [done|]. set (i := mkItem (created m) type tag).
  assert (exists e m1, (if started m then startStages i ListStartStages (allocate m) else (None, allocate m)) = (e, m1) /\
    manager_ok pend m1 /\ items m1 = items m /\ created m1 = S (created m) /\ closedIds (trace m1) = closedIds (trace m))
    as (e & m1 & -> & Hm1 & Hit & Hcr & Htr).
  { destruct (started m).
    - pose proof (startStages_keeps i ListStartStages (allocate m)) as (H1 & H2 & H3 & _ & H4).
      destruct (startStages i ListStartStages (allocate m)) as [e m1]. eexists _, _. split; [done|]. cbn in *. split_and!; try done.
      apply (gone_ok _ _ _ _ (allocate_ok _ _ Hm)); try done. unfold gone. by rewrite H4.
    - eexists _, _. split; [done|]. split; [by apply allocate_ok|done]. }
  destruct e as [e|]; [done|].
  assert (it_id i ∉ it_id <$> items m) as Hni.
  { intros (x & Hx & Hin)%list_elem_of_fmap_1. destruct (ok_registered _ _ Hm x Hin) as [_ Hlt]. rewrite <-Hx in Hlt. cbn in Hlt. lia. }
  assert (it_id i ∉ gone pend m1) as Hnc.
  { unfold gone. rewrite Htr. intros Hin. apply (ok_closed_known _ _ Hm) in Hin. cbn in Hin. lia. }
  pose proof (replaced_ok pend tag m1 Hm1) as Hr. destruct (replaceItem tag m1) as [[e|] m']; [done|].
  destruct Hr as (m2 & Hm2 & Eb & Ei & Ec2 & Ec' & Et & Es & Eg & Eb' & Hsub & Hgone). cbn [snd].
  assert (manager_ok pend (setItems (items m2 ++ [i]) (<[it_tag i := i]> (itemByTag m2)) m2)) as Hreg.
  { apply register_ok; [done|rewrite Eb; apply lookup_delete_eq|rewrite Ec2, Hcr; cbn; lia| |].
    - rewrite Ei. intros (x & Hx & Hin)%list_elem_of_fmap_1. apply Hni. rewrite Hx. apply list_elem_of_fmap_2. rewrite <- Hit. by apply Hsub.
    - unfold gone. rewrite Et. intros Hin. apply Hgone in Hin as [Hin|Hin]; [done|]. by rewrite Hit in Hin. }
  rewrite Eb, Ei in Hreg. change (it_tag i) with tag in Hreg. rewrite insert_delete_eq in Hreg.
  apply (gone_ok _ _ _ _ Hreg); cbn; [unfold gone; cbn; by rewrite Et|done|by rewrite Eb'|by rewrite Ec', Ec2].
Qed.

(** Tasks that only look at the list. *)
Lemma toClose_fmap f ts : (forall t, willClose (f t) = willClose t) -> toClose (f <$> ts) = toClose ts.
Proof using Type.
  intros Hf. unfold toClose. induction ts as [|t ts IH]; [done|].
  change (omap willClose (f <$> t :: ts)) with (omap willClose (f t :: (f <$> ts))). cbn. rewrite Hf. by rewrite IH.
Qed.
Lemma willClose_shift j l t : willClose (shiftTask j l t) = willClose t.
Proof using Type. by destruct t as [? ? ? []|]. Qed.
Lemma willClose_append b n i t : willClose (appendTask b n i t) = willClose t.
Proof using Type. destruct t as [? ? ? []|]; try done. by destruct b. Qed.

Lemma toClose_split ts k t : ts !! k = Some t -> toClose ts ≡ₚ option_list (willClose t) ++ toClose (delete k ts).
Proof using Type.
  intros (l1 & l2 & -> & ->)%list_elem_of_split_length. rewrite delete_middle. unfold toClose. rewrite !omap_app. cbn.
  destruct (willClose t); cbn; [|done]. by rewrite Permutation_middle.
Qed.

Lemma toClose_insert ts k t t' : ts !! k = Some t -> willClose t' = willClose t -> toClose (<[k := t']> ts) = toClose ts.
Proof using Type.
  intros (l1 & l2 & -> & ->)%list_elem_of_split_length Hw. rewrite insert_app_r_alt by done. rewrite Nat.sub_diag. unfold toClose.
  rewrite !omap_app. cbn. by rewrite Hw.
Qed.

#[local] Arguments toClose : simpl never.

Lemma perform_ok o w :
  manager_ok (toClose (tasks w)) (manager w) ->
  let w' := (perform locked elsewhere o w).2 in manager_ok (toClose (tasks w')) (manager w').
Proof using Type.
  intros Hm w'. destruct o as [s|tag|made tag type room|k]; cbn [perform] in w'.
  - assert (forall b, manager_ok (toClose (tasks w)) (setStage b s (manager w))) as Hs by (intros b; by apply (gone_ok _ _ _ _ Hm)).
    destruct locked.
    + assert (manager_ok (toClose (tasks w)) (Manager_Start elsewhere s (manager w)).2) as Hst.
      { unfold Manager_Start. destruct (refuses _ _); [done|]. destruct (elsewhere s); [apply Hs|]. apply startAll_ok, Hs. }
      subst w'. by destruct (Manager_Start elsewhere s (manager w)).
    + subst w'. destruct (refuses _ _); [done|]. cbn. unfold toClose. rewrite omap_app. cbn. rewrite app_nil_r. apply Hs.
  - subst w'. unfold Manager_Remove. destruct (itemByTag (manager w) !! tag) as [i|] eqn:Hi; cbn.
    2: { by rewrite app_nil_r. }
    destruct (remove_same _ _ _ _ Hm Hi) as (l & -> & Hp & Hni). cbn. unfold toClose. rewrite omap_app.
    change (omap willClose (shiftTask ?j ?l <$> ?ts)) with (toClose (shiftTask j l <$> ts)). rewrite toClose_fmap by (intros; apply willClose_shift).
    destruct (started (manager w)); cbn; [|rewrite app_nil_r; by eapply remove_ok].
    destruct (closeItem i); cbn; [rewrite app_nil_r; by eapply remove_ok|by eapply remove_close_ok].
  - pose proof (created_ok _ made tag type _ Hm) as Hc. subst w'. destruct (Manager_Create made tag type (manager w)) as [e m']. cbn [snd tasks manager] in *.
    match goal with |- manager_ok (toClose ?ts) _ => assert (toClose ts = toClose (tasks w)) as ->; [|done] end.
    destruct e, (itemByTag (manager w) !! tag); try done; apply toClose_fmap; intros t; cbn [compose]; by rewrite ?willClose_append, ?willClose_shift.
  - subst w'. destruct (tasks w !! k) as [t|] eqn:Hk; [|done]. pose proof (toClose_split _ _ _ Hk) as Hsp.
    destruct t as [s slots pos shared|i]; cbn [stepTask].
    + cbn in Hsp. assert (forall es, silent es -> manager_ok (toClose (delete k (tasks w))) (call es (manager w))) as Hend.
      { intros es Hes. apply (gone_ok _ _ _ _ (call_ok _ _ _ Hes Hm)); try done. unfold gone. by rewrite Hsp. }
      destruct (slots !! pos) as [i|]; [|cbn; apply (gone_ok _ _ _ _ Hm); try done; unfold gone; by rewrite Hsp].
      pose proof (LegacyStart_silent i s) as Hs. destruct (LegacyStart i s) as [[e|] es]; cbn; [by apply Hend|].
      rewrite (toClose_insert _ _ _ _ Hk) by done. by apply call_ok.
    + cbn. apply (gone_ok _ _ _ _ Hm); try done. unfold gone, closing. cbn in Hsp |- *. rewrite closedIds_app, Hsp.
      destruct (closeItem i); cbn; [by rewrite app_nil_r|]. by rewrite <- app_assoc.
Qed.

Lemma managed_ok ops w : managed ops w -> manager_ok (toClose (tasks w)) (manager w).
Proof using Type. induction 1 as [|ops o w _ IH]; [apply new_manager_ok|by apply perform_ok]. Qed.

Lemma closedIds_items l : closedIds (map closing l) `sublist_of` (it_id <$> l).
Proof using Type.
  induction l as [|i l IH]; [constructor|]. unfold closing at 1. cbn. destruct (closeItem i); cbn; by constructor.
Qed.

(** C10. However the operations of a manager and what goes on outside its lock interleave, the
    objects found by their tags are those on the manager's list, none of them was closed or is about
    to be, and no object is closed a second time once its [Close] has returned without an error;
    closing a started manager then calls [Close] once on each object of the list and on no other. *)
Theorem objects_closed_once ops w :
  managed ops w ->
  let m := manager w in
  let todo := toClose (tasks w) in
  (forall tag i, itemByTag m !! tag = Some i <-> i ∈ items m /\ it_tag i = tag) /\
  NoDup (closedIds (trace m) ++ todo) /\ (forall i, i ∈ items m -> it_id i ∉ closedIds (trace m) ++ todo) /\
  (started m = true -> forall m', m' = (Manager_Close m).2 ->
    trace m' = trace m ++ map closing (items m) /\ NoDup (it_id <$> items m) /\ NoDup (closedIds (trace m') ++ todo)).
Proof using Type.
  intros Hm%managed_ok m todo. split_and!; [|apply (ok_closed _ _ Hm)|apply (ok_open _ _ Hm)|].
  - intros tag i. split; [intros Hi; by destruct (ok_byTag _ _ Hm tag i Hi)|]. intros [Hin <-]. by apply (ok_registered _ _ Hm).
  - intros Hs m' ->. unfold Manager_Close. rewrite Hs. cbn [negb snd trace call setItems setStage].
    split; [done|]. split; [apply (ok_items _ _ Hm)|]. rewrite closedIds_app.
    assert (closedIds (trace m) ++ closedIds (map closing (items m)) ++ todo ≡ₚ (closedIds (trace m) ++ todo) ++ closedIds (map closing (items m))) as Hp.
    { rewrite <- app_assoc. by rewrite (Permutation_app_comm todo). }
    pose proof (sublist_submseteq _ _ (closedIds_items (items m))) as Hsub.
    rewrite <- app_assoc, Hp. apply NoDup_app. split_and!; [apply (ok_closed _ _ Hm)| |].
    + intros n Hn Hin. pose proof (elem_of_submseteq _ _ _ Hin Hsub) as (i & -> & Hi)%list_elem_of_fmap.
      by apply (ok_open _ _ Hm i Hi).
    + eapply sublist_NoDup; [apply (ok_items _ _ Hm)|apply closedIds_items].
Qed.

(** The stages in order are never refused. *)
Lemma stages_in_order m s : started m = true -> stageNumber (stage m) < stageNumber s -> forall e m', Manager_Start elsewhere s m = (e, m') ->
  started m' = true /\ stage m' = s.
Proof using Type.
  intros Hs Hlt e m'. unfold Manager_Start, refuses. rewrite (proj2 (Z.leb_gt _ _) Hlt), andb_false_r. destruct (elsewhere s); [by intros [= <- <-]|].
  generalize (items (setStage true s m)). intros l. assert (forall l m1, started (startAll s l m1).2 = started m1 /\ stage (startAll s l m1).2 = stage m1) as Hk.
  { clear. induction l as [|i l IH]; intros m1; [done|]. cbn. destruct (LegacyStart i s) as [[e|] es]; [done|]. apply (IH (call es m1)). }
  intros Heq. destruct (Hk l (setStage true s m)) as [H1 H2]. rewrite Heq in H1, H2. done.
Qed.

(** A closed manager forgets its list and not its table: an object that is removed after that panics. *)
Lemma remove_after_close_panics m tag i :
  started m = true -> itemByTag m !! tag = Some i ->
  (Manager_Remove tag (Manager_Close m).2).1 = (Some (New "panic: invalid index"), None).
Proof using Type.
  intros Hs Hi. unfold Manager_Close. rewrite Hs. unfold Manager_Remove. cbn. by rewrite Hi.
Qed.
End Once.

(** ** Two inbounds, one of them replaced while the manager runs *)

Module ManagerSample.
#[local] Instance plainItems : ItemLibs := {|
  asLifecycle := fun _ => Some (fun _ => None); asPreStart := fun _ => None; asStart := fun _ => None; asPostStart := fun _ => None;
  closeItem := fun i => if bool_decide (it_tag i = "stuck") then Some (New "busy") else None
|}.

(** The first inbound is replaced while the loop of [Start] is at it, the second one removed: the
    loop meets the new inbound, and the old one is closed. *)
Definition ops : list operation :=
  [DoCreate None "vless-in" "inbound/vless" true; DoCreate None "hy2-in" "inbound/hysteria2" true; DoStart StartStateInitialize; DoTask 0;
   DoCreate None "vless-in" "inbound/vless" true; DoRemove "hy2-in"; DoTask 0].
Definition run (l : list operation) : World :=
  fold_left (fun w o => (perform false (fun _ => false) o w).2) l (mkWorld NewManager []).

Lemma run_managed l : managed false (fun _ => false) l (run l).
Proof.
  unfold run. induction l as [|o l IH] using rev_ind; [constructor|]. rewrite fold_left_app. cbn. by apply managed_next.
Qed.

Lemma objects_closed_once_witness :
  started (manager (run ops)) = true /\ closedIds (trace (manager (run ops))) = [0%nat] /\ toClose (tasks (run ops)) = [1%nat] /\
  NoDup (closedIds (trace (Manager_Close (manager (run ops))).2) ++ [1%nat]) /\
  itemByTag (manager (run ops)) !! "vless-in" = Some (mkItem 2 "inbound/vless" "vless-in").
Proof.
  destruct (objects_closed_once false (fun _ => false) ops (run ops) (run_managed ops)) as (Ht & _ & _ & Hc).
  split; [reflexivity|]. split; [reflexivity|]. split; [reflexivity|].
  split; [exact (proj2 (proj2 (Hc eq_refl _ eq_refl)))|]. apply Ht. split; [left|reflexivity].
Defined.

(** A removal during [Start] moves the list under its loop: the second of three objects is never
    initialized, the last one twice. *)
Example start_skips_an_object :
  let three := [DoCreate None "a" "inbound/a" true; DoCreate None "b" "inbound/b" true; DoCreate None "c" "inbound/c" true] in
  trace (manager (run (three ++ [DoStart StartStateInitialize; DoTask 0; DoRemove "a"; DoTask 0; DoTask 0]))) =
  [StartCall 0 StartStateInitialize; StartCall 2 StartStateInitialize; StartCall 2 StartStateInitialize].
Proof. by vm_compute. Qed.

(** An object whose [Close] fails when it is replaced stays on the list, and is closed again. *)
Example failed_close_is_repeated :
  let l := [DoCreate None "stuck" "inbound/a" true; DoStart StartStateInitialize; DoCreate None "stuck" "inbound/b" true] in
  trace (Manager_Close (manager (run l))).2 =
  (StartCall 1 <$> ListStartStages) ++ [CloseCall 0 false; CloseCall 0 false].
Proof. by vm_compute. Qed.
End ManagerSample.
