(* ===== verification/DNSTransports.v ===== *)
(** * The DNS transport manager (src/fork/sing-box/dns/transport_manager.go)

    A manager like those of [Managers], whose objects depend on one another ([Dependencies]) and
    of which one is the default and one may hand out fake addresses.  [closed] are the objects
    whose Close was called.  A panic of the source is an error whose message starts with "panic". *)

From S2P Require Import Prelude GoStrings Lifecycle Dependencies Managers.

#[local] Open Scope Z_scope.

Record Transport := mkTransport { tr_id : nat; tr_type : string; tr_tag : string; tr_dependencies : list string }.

#[export] Instance Transport_eq_dec : EqDecision Transport.
Proof. solve_decision. Defined.

Definition itemOf (t : Transport) : Item := mkItem (tr_id t) ("dns/" +:+ tr_type t) (tr_tag t).
Definition isFakeIP (t : Transport) : bool := bool_decide (tr_type t = "fakeip").

Record TransportManager := mkTransportManager {
  defaultTag : string;
  started : bool;
  stage : StartStage;
  transports : list Transport;
  transportByTag : gmap string Transport;
  dependByTag : gmap string (list string);
  defaultTransport : option Transport;
  fakeIPTransport : option Transport;
  created : nat;
  closed : list nat
}.
Implicit Types (m : TransportManager) (t : Transport).

Definition NewTransportManager (defaultTag : string) : TransportManager :=
  mkTransportManager defaultTag false StartStateInitialize [] ∅ ∅ None None 0 [].

Definition setTransports (l : list Transport) (byTag : gmap string Transport) m : TransportManager :=
  mkTransportManager (defaultTag m) (started m) (stage m) l byTag (dependByTag m) (defaultTransport m) (fakeIPTransport m) (created m) (closed m).
Definition setDefault (d : option Transport) m : TransportManager :=
  mkTransportManager (defaultTag m) (started m) (stage m) (transports m) (transportByTag m) (dependByTag m) d (fakeIPTransport m) (created m) (closed m).
Definition setFakeIP (f : option Transport) m : TransportManager :=
  mkTransportManager (defaultTag m) (started m) (stage m) (transports m) (transportByTag m) (dependByTag m) (defaultTransport m) f (created m) (closed m).
Definition setDepend (d : gmap string (list string)) m : TransportManager :=
  mkTransportManager (defaultTag m) (started m) (stage m) (transports m) (transportByTag m) d (defaultTransport m) (fakeIPTransport m) (created m) (closed m).
Definition setStage (b : bool) (s : StartStage) m : TransportManager :=
  mkTransportManager (defaultTag m) b s (transports m) (transportByTag m) (dependByTag m) (defaultTransport m) (fakeIPTransport m) (created m) (closed m).
Definition allocate m : TransportManager :=
  mkTransportManager (defaultTag m) (started m) (stage m) (transports m) (transportByTag m) (dependByTag m) (defaultTransport m) (fakeIPTransport m) (S (created m)) (closed m).
Definition closing (l : list Transport) m : TransportManager :=
  mkTransportManager (defaultTag m) (started m) (stage m) (transports m) (transportByTag m) (dependByTag m) (defaultTransport m) (fakeIPTransport m) (created m)
    (closed m ++ (tr_id <$> l)).

Section Manager.
Context `{ItemLibs}.

(** At the start stage only objects with the whole lifecycle are started. *)
#[local] Instance startable : Startable Transport := {|
  st_tag := tr_tag; st_type := tr_type; st_dependencies := tr_dependencies;
  st_start := fun t => match asLifecycle (itemOf t) with Some start => start StartStateStart | None => None end;
  st_prefix := "dns/"; st_noun := "server"
|}.

(** The tags of the started transports in order; [startTransports_ends]: the fuel is enough. *)
Definition startTransports (l : list Transport) m : res error (list string) :=
  default (Err (New "out of fuel")) (startObjects l (transportByTag m)).

Definition label (t : Transport) : string := "dns/" +:+ tr_type t +:+ "[" +:+ tr_tag t +:+ "]".
Definition startLater (s : StartStage) (l : list Transport) : option error := stageAll (fun t => (LegacyStart (itemOf t) s).1) label s l.

(** [Start]; [fallback] makes the default transport where none is configured.  The result has the
    tags started, in order. *)
Definition Start (fallback : res error (string * string * list string)) (s : StartStage) m : res error (list string) * TransportManager :=
  if started m && (stageNumber s <=? stageNumber (stage m)) then (Err (New "panic: already started"), m) else
  let m := setStage true s m in
  match s with
  | StartStateStart =>
      match defaultTransport m with
      | Some _ => (startTransports (transports m) m, m)
      | None =>
          if bool_decide (defaultTag m <> "") then (Err (New ("default DNS server not found: " +:+ defaultTag m)), m) else
          match fallback with
          | Err e => (Err (Error "default DNS server fallback" [e]), m)
          | Ok (type, tag, deps) =>
              let t := mkTransport (created m) type tag deps in
              let m := setDefault (Some t) (setTransports (transports m ++ [t]) (<[tag := t]> (transportByTag m)) (allocate m)) in
              (startTransports (transports m) m, m)
          end
      end
  | _ => (match startLater s (transports m) with Some e => Err e | None => Ok [] end, m)
  end.

Definition Close m : TransportManager :=
  if negb (started m) then m else
  closing (transports m) (setTransports [] (transportByTag m) (setStage false (stage m) m)).

(** [Transport], [Default] and [FakeIP]. *)
Definition lookupTransport (tag : string) m : option Transport := transportByTag m !! tag.
Definition Default m : option Transport := defaultTransport m.
Definition FakeIP m : option Transport := fakeIPTransport m.

(** What becomes of the default when the transport [t] goes: the error of the source, with the
    condition it has. *)
Definition nextDefault t m : res error TransportManager :=
  match defaultTransport m with
  | Some d =>
      if bool_decide (tr_id d = tr_id t) then
        match transports m with
        | next :: _ => if negb (isFakeIP next) then Err (New "default server cannot be fakeip") else Ok (setDefault (Some next) m)
        | [] => Ok (setDefault None m)
        end
      else Ok m
  | None => Ok m
  end.

Definition Remove (tag : string) m : option error * TransportManager :=
  match transportByTag m !! tag with
  | None => (Some (New "invalid argument"), m)
  | Some t =>
      let byTag := delete tag (transportByTag m) in
      match removeById tr_id (tr_id t) (transports m) with
      | None => (Some (New "panic: invalid inbound index"), setTransports (transports m) byTag m)
      | Some l =>
          let m := setTransports l byTag m in
          match nextDefault t m with
          | Err e => (Some e, m)
          | Ok m =>
              let dependBy := default [] (dependByTag m !! tag) in
              if (0 <? length dependBy)%nat
              then (Some (New ("server[" +:+ tag +:+ "] is depended by " +:+ joinComma dependBy)), m)
              else let m := setDepend (foldl (dropDepend tag) (dependByTag m) (tr_dependencies t)) m in
                   (None, if started m then closing [t] m else m)
          end
      end
  end.

Definition startNew t (l : list StartStage) : option error := throughStages (fun s => (LegacyStart (itemOf t) s).1) (label t) l.

Definition dropExisting (tag : string) m : option error * TransportManager :=
  match transportByTag m !! tag with
  | None => (None, m)
  | Some old =>
      match (if started m then (closeItem (itemOf old), closing [old] m) else (None, m)) with
      | (Some e, m) => (Some (Error ("close " +:+ label old) [e]), m)
      | (None, m) =>
          match removeById tr_id (tr_id old) (transports m) with
          | None => (Some (New "panic: invalid inbound index"), m)
          | Some l => (None, setTransports l (transportByTag m) m)
          end
      end
  end.

(** The default and the fake-address transport after [t] was registered. *)
Definition assignRoles t m : option error * TransportManager :=
  let isDefault := bool_decide (tr_tag t = defaultTag m) || bool_decide (defaultTag m = "") && bool_decide (defaultTransport m = None) in
  if isDefault && isFakeIP t then (Some (New "default server cannot be fakeip"), m) else
  let m := if isDefault then setDefault (Some t) m else m in
  if isFakeIP t then
    match fakeIPTransport m with
    | Some _ => (Some (New "multiple fakeip server are not supported"), m)
    | None => (None, setFakeIP (Some t) m)
    end
  else (None, m).

(** [Create]; the registry returns the dependencies of the new object. *)
Definition Create (made : res error (list string)) (tag type : string) m : option error * TransportManager :=
  if bool_decide (tag = "") then (Some (New "invalid argument"), m) else
  match made with
  | Err e => (Some e, m)
  | Ok deps =>
      let t := mkTransport (created m) type tag deps in
      let m := allocate m in
      match (if started m then startNew t ListStartStages else None) with
      | Some e => (Some e, m)
      | None =>
          match dropExisting tag m with
          | (Some e, m) => (Some e, m)
          | (None, m) =>
              assignRoles t (setDepend (foldl (addDepend tag) (dependByTag m) deps)
                               (setTransports (transports m ++ [t]) (<[tag := t]> (transportByTag m)) m))
          end
      end
  end.
End Manager.

(** ** Table and list agree *)

Record transports_ok m : Prop := {
  tr_ids : NoDup (tr_id <$> transports m);
  tr_created t : t ∈ transports m -> (tr_id t < created m)%nat;
  tr_byTag tag t : transportByTag m !! tag = Some t <-> t ∈ transports m /\ tr_tag t = tag
}.

(** Only the list, the table and the numbers given matter. *)
Lemma transports_ok_ext m m' :
  transports m' = transports m -> transportByTag m' = transportByTag m -> created m' = created m -> transports_ok m -> transports_ok m'.
Proof. intros E1 E2 E3 [H1 H2 H3]. constructor; rewrite ?E1, ?E2, ?E3; done. Qed.

Lemma transport_allocate_ok m : transports_ok m -> transports_ok (allocate m).
Proof. intros [H1 H2 H3]. constructor; cbn; [done| |done]. intros t Ht%H2. lia. Qed.

(** Without the transport of a tag the list has the others. *)
Lemma removed_others m tag t l :
  transports_ok m -> transportByTag m !! tag = Some t -> transports m ≡ₚ t :: l ->
  NoDup (tr_id <$> l) /\ forall x, x ∈ l <-> x ∈ transports m /\ tr_tag x <> tag.
Proof.
  intros Hm Ht Hp. assert (NoDup (tr_id <$> t :: l)) as Hnd by (rewrite <-Hp; apply Hm).
  cbn [fmap list_fmap] in Hnd. apply NoDup_cons in Hnd as [Hn Hnd]. destruct (proj1 (tr_byTag m Hm tag t) Ht) as [_ Htag].
  split; [done|]. intros x. rewrite Hp, elem_of_cons. split.
  - intros Hx. split; [by right|]. intros E. assert (transportByTag m !! tag = Some x) as Hx'.
    { apply (tr_byTag m Hm). split; [rewrite Hp; by right|done]. }
    assert (x = t) as -> by congruence. apply Hn. by apply list_elem_of_fmap_2.
  - intros [[->|Hx] Hne]; done.
Qed.

Lemma setTransports_removed_ok m tag t l :
  transports_ok m -> transportByTag m !! tag = Some t -> transports m ≡ₚ t :: l -> transports_ok (setTransports l (delete tag (transportByTag m)) m).
Proof.
  intros Hm Ht Hp. destruct (removed_others m tag t l Hm Ht Hp) as [Hnd Hin]. constructor; cbn; [done| |].
  - intros x [Hx _]%Hin. by apply (tr_created m Hm).
  - intros tag' x. rewrite lookup_delete_Some, (tr_byTag m Hm), Hin. naive_solver.
Qed.

(** A new object under a tag: the one before, if any, is already off the list. *)
Lemma setTransports_added_ok m t :
  NoDup (tr_id <$> transports m) -> (forall x, x ∈ transports m -> (tr_id x < tr_id t)%nat) -> (tr_id t < created m)%nat ->
  (forall tag x, tag <> tr_tag t -> transportByTag m !! tag = Some x <-> x ∈ transports m /\ tr_tag x = tag) ->
  (forall x, x ∈ transports m -> tr_tag x <> tr_tag t) ->
  transports_ok (setTransports (transports m ++ [t]) (<[tr_tag t := t]> (transportByTag m)) m).
Proof.
  intros Hnd Hlt Hc Hby Hne. constructor; cbn.
  - rewrite fmap_app. apply NoDup_app. split_and!; [done| |apply NoDup_singleton].
    intros i (x & -> & Hx)%list_elem_of_fmap_1 Hi%list_elem_of_singleton. specialize (Hlt x Hx). lia.
  - intros x [Hx|Hx%list_elem_of_singleton]%elem_of_app; [specialize (Hlt x Hx); lia|by subst].
  - intros tag x. rewrite elem_of_app, list_elem_of_singleton. destruct (decide (tag = tr_tag t)) as [->|Ht].
    + rewrite lookup_insert_eq. split; [intros [= <-]; split; [by right|done]|]. intros [[Hx| ->] E]; [by destruct (Hne x Hx)|done].
    + rewrite lookup_insert_ne, Hby by done. split; [intros [? <-]; split; [by left|done]|]. intros [[Hx| ->] <-]; [by split|done].
Qed.

Section Reachable.
Context `{ItemLibs}.

Lemma nextDefault_keeps t m m' : nextDefault t m = Ok m' -> exists d, m' = setDefault d m.
Proof using Type.
  unfold nextDefault. destruct (defaultTransport m) as [d|] eqn:Ed; [|intros [= <-]; exists None; by destruct m; cbn in *; subst].
  case_bool_decide; [|intros [= <-]; exists (Some d); by destruct m; cbn in *; subst].
  destruct (transports m) as [|next l]; [intros [= <-]; by eexists|]. destruct (isFakeIP next); cbn; [|done]. intros [= <-]. by eexists.
Qed.

Lemma transports_removed_ok tag m : transports_ok m -> transports_ok (Remove tag m).2.
Proof using Type.
  intros Hm. unfold Remove. destruct (transportByTag m !! tag) as [t|] eqn:Ht; [|done].
  destruct (removeById_spec tr_id t (transports m)) as (l & -> & Hp); [apply Hm|by apply (tr_byTag m Hm) in Ht as [? _]|].
  pose proof (setTransports_removed_ok m tag t l Hm Ht Hp) as Hok.
  destruct (nextDefault t _) as [m'|e] eqn:En; [|done]. apply nextDefault_keeps in En as [d ->]. cbv zeta.
  destruct (0 <? _)%nat; [by eapply transports_ok_ext; [..|exact Hok]|].
  cbn [started setDepend setDefault setTransports snd]. destruct (started m); by eapply transports_ok_ext; [..|exact Hok].
Qed.

Lemma assignRoles_ok t m : transports_ok m -> transports_ok (assignRoles t m).2.
Proof using Type.
  intros Hm. unfold assignRoles. destruct (_ && isFakeIP t); [done|].
  match goal with |- context [if ?b then setDefault _ _ else _] => destruct b end; (destruct (isFakeIP t); [|by eapply transports_ok_ext; [..|exact Hm]]);
    (match goal with |- context [fakeIPTransport ?x] => destruct (fakeIPTransport x) end); by eapply transports_ok_ext; [..|exact Hm].
Qed.

(** What is left after the object a tag had is taken off. *)
Lemma dropExisting_left tag m m' : transports_ok m -> dropExisting tag m = (None, m') ->
  NoDup (tr_id <$> transports m') /\ (forall x, x ∈ transports m' <-> x ∈ transports m /\ tr_tag x <> tag) /\
  transportByTag m' = transportByTag m /\ created m' = created m.
Proof using Type.
  intros Hm. unfold dropExisting. destruct (transportByTag m !! tag) as [old|] eqn:Ho.
  - destruct (removeById_spec tr_id old (transports m)) as (l & Hl & Hp); [apply Hm|by apply (tr_byTag m Hm) in Ho as [? _]|].
    destruct (removed_others m tag old l Hm Ho Hp) as [Hnd Hin].
    destruct (started m); [destruct (closeItem (itemOf old)); [done|]|]; cbn [transports closing]; rewrite Hl; intros [= <-]; done.
  - intros [= <-]. split_and!; [apply Hm| |done..]. intros x. split; [|by intros []]. intros Hx. split; [done|]. intros E.
    assert (transportByTag m !! tag = Some x) by (by apply (tr_byTag m Hm)). congruence.
Qed.

Lemma dropExisting_kept tag m e m' : dropExisting tag m = (Some e, m') ->
  transports m' = transports m /\ transportByTag m' = transportByTag m /\ created m' = created m.
Proof using Type.
  unfold dropExisting. destruct (transportByTag m !! tag) as [old|]; [|done].
  destruct (started m); [destruct (closeItem (itemOf old)); [by intros [= _ <-]|]|]; cbn [transports closing]; destruct (removeById _ _ _); by intros [= _ <-].
Qed.

Lemma transports_created_ok made tag type m : transports_ok m -> transports_ok (Create made tag type m).2.
Proof using Type.
  intros Hm. unfold Create. case_bool_decide; [done|]. destruct made as [deps|e]; [|done]. cbv zeta.
  set (t := mkTransport (created m) type tag deps). pose proof (transport_allocate_ok m Hm) as Ha.
  destruct (if started (allocate m) then _ else _); [done|]. destruct (dropExisting tag (allocate m)) as [[e|] m1] eqn:Ed.
  - destruct (dropExisting_kept _ _ _ _ Ed) as (E1 & E2 & E3). by eapply transports_ok_ext; [exact E1|exact E2|exact E3|].
  - destruct (dropExisting_left _ _ _ Ha Ed) as (Hnd & Hin & E2 & E3). apply assignRoles_ok.
    eapply transports_ok_ext; [..|apply (setTransports_added_ok m1 t)]; try done.
    + intros x [Hx _]%Hin. by apply (tr_created m Hm).
    + rewrite E3. cbn. lia.
    + intros tag' x Hne. rewrite E2, (tr_byTag _ Ha), Hin. cbn in Hne. naive_solver.
    + intros x [_ Hx]%Hin. done.
Qed.

(** Whatever was created and removed. *)
Inductive transportOp := DoCreate (made : res error (list string)) (tag type : string) | DoRemove (tag : string).
Definition performOp (o : transportOp) m : option error * TransportManager :=
  match o with DoCreate made tag type => Create made tag type m | DoRemove tag => Remove tag m end.
Definition performAll (ops : list transportOp) m : TransportManager := fold_left (fun m o => (performOp o m).2) ops m.

Lemma performOp_started o m : started (performOp o m).2 = started m.
Proof using Type.
  destruct o as [made tag type|tag]; cbn [performOp].
  - unfold Create. case_bool_decide; [done|]. destruct made as [deps|e]; [|done]. cbv zeta. destruct (if started (allocate m) then _ else _); [done|].
    assert (started (dropExisting tag (allocate m)).2 = started m) as Hd.
    { unfold dropExisting. destruct (_ !! tag) as [old|]; [|done]. destruct (started (allocate m)); [destruct (closeItem (itemOf old)); [done|]|];
        cbn [transports closing]; destruct (removeById _ _ _); done. }
    destruct (dropExisting tag (allocate m)) as [[e|] m1]; [done|]. cbn [snd] in Hd. unfold assignRoles. destruct (_ && isFakeIP _); [done|].
    match goal with |- context [if ?b then setDefault _ _ else _] => destruct b end; (destruct (isFakeIP _); [|done]);
      match goal with |- context [fakeIPTransport ?x] => destruct (fakeIPTransport x) end; done.
  - unfold Remove. destruct (_ !! tag) as [t|]; [|done]. destruct (removeById _ _ _) as [l|]; [|done].
    destruct (nextDefault t _) as [m'|e] eqn:En; [|done]. apply nextDefault_keeps in En as [d ->]. cbv zeta. destruct (0 <? _)%nat; [done|].
    cbn [started setDepend setDefault setTransports snd]. destruct (started m) eqn:E; exact E.
Qed.

Lemma performed_ok ops dflt : transports_ok (performAll ops (NewTransportManager dflt)).
Proof using Type.
  assert (transports_ok (NewTransportManager dflt)) as Hm.
  { constructor; cbn; [constructor|intros t Ht; by apply elem_of_nil in Ht|]. intros tag t. split; [done|]. intros [Ht _]. by apply elem_of_nil in Ht. }
  revert Hm. generalize (NewTransportManager dflt). induction ops as [|o ops IH]; intros m Hm; [done|]. cbn. apply IH.
  destruct o; [by apply transports_created_ok|by apply transports_removed_ok].
Qed.

(** ** Starting *)

Lemma startTransports_ends l m : exists r, startObjects (H := startable) l (transportByTag m) = Some r /\ startTransports l m = r.
Proof using Type. destruct (startObjects_spec (H := startable) l (transportByTag m)) as (r & Hr & _). exists r. unfold startTransports. by rewrite Hr. Qed.

(** The DNS servers start as the outbounds do: whatever was created and removed before, a start
    that succeeds leaves a default server and has started every server once, after those it
    depends on; where no server fails and the default is known, it succeeds exactly when the
    servers have such an order. *)
Theorem dns_servers_start ops dflt fallback r m' :
  let m := performAll ops (NewTransportManager dflt) in
  Start fallback StartStateStart m = (r, m') ->
  (forall order, r = Ok order ->
     is_Some (Default m') /\ order ≡ₚ tr_tag <$> transports m' /\
     forall t d, t ∈ transports m' -> d ∈ tr_dependencies t -> exists pre post, order = pre ++ tr_tag t :: post /\ d ∈ pre) /\
  (is_Some (Default m) -> (forall t, t ∈ transports m -> st_start (Startable := startable) t = None) ->
     transports m' = transports m /\ ((exists order, r = Ok order) <-> orderable (H := startable) (transports m))).
Proof using Type.
  intros m. assert (started m = false) as Hs.
  { unfold m. change false with (started (NewTransportManager dflt)). clear. generalize (NewTransportManager dflt).
    induction ops as [|o ops IH]; intros m; [done|]. cbn. rewrite IH. apply performOp_started. }
  unfold Start. rewrite Hs. cbn [andb]. cbv zeta. cbn [defaultTransport setStage defaultTag].
  assert (forall l byTag, exists r, startTransports l byTag = r /\
    (forall order, r = Ok order -> order ≡ₚ tr_tag <$> l /\
       forall t d, t ∈ l -> d ∈ tr_dependencies t -> exists pre post, order = pre ++ tr_tag t :: post /\ d ∈ pre) /\
    ((forall t, t ∈ l -> st_start (Startable := startable) t = None) -> ((exists order, r = Ok order) <-> orderable (H := startable) l))) as Hspec.
  { intros l m0. destruct (startObjects_spec (H := startable) l (transportByTag m0)) as (r0 & Hr & Hrest). exists r0. split; [|exact Hrest].
    unfold startTransports. by rewrite Hr. }
  unfold Default. destruct (defaultTransport m) as [d|] eqn:Ed.
  - destruct (Hspec (transports (setStage true StartStateStart m)) (setStage true StartStateStart m)) as (r0 & -> & Ho & Hc). intros [= <- <-]. split.
    + intros order E. split; [|by apply Ho]. cbn. rewrite Ed. by eexists.
    + intros _ Hst. split; [done|]. by apply Hc.
  - case_bool_decide; [intros [= <- <-]; split; [done|by intros []]|]. destruct fallback as [[[type tag] deps]|e]; [|intros [= <- <-]; split; [done|by intros []]].
    match goal with |- context [startTransports ?l ?m0] => destruct (Hspec l m0) as (r0 & -> & Ho & _) end. intros [= <- <-]. split.
    + intros order E. split; [by eexists|by apply Ho].
    + by intros [].
Qed.

(** ** The default server *)

(** Removing the default server while others are left: the condition on the next one is the wrong
    way round.  Where the next one could serve, the removal fails half-way and the removed server
    stays the default, found under no tag and never closed; where the next one hands out fake
    addresses, it becomes the default. *)
Theorem removed_default_stays ops dflt tag t next rest :
  let m := performAll ops (NewTransportManager dflt) in
  Default m = Some t -> lookupTransport tag m = Some t -> removeById tr_id (tr_id t) (transports m) = Some (next :: rest) ->
  (isFakeIP next = false ->
     (Remove tag m).1 = Some (New "default server cannot be fakeip") /\ Default (Remove tag m).2 = Some t /\
     lookupTransport tag (Remove tag m).2 = None /\ t ∉ transports (Remove tag m).2 /\ closed (Remove tag m).2 = closed m) /\
  (isFakeIP next = true -> Default (Remove tag m).2 = Some next).
Proof using Type.
  intros m Hd Ht Hr. pose proof (performed_ok ops dflt) as Hm. fold m in Hm. unfold Default, lookupTransport in *.
  destruct (removeById_spec tr_id t (transports m)) as (l & Hl & Hp); [apply Hm|by apply (tr_byTag m Hm) in Ht as [? _]|].
  rewrite Hr in Hl. injection Hl as <-. destruct (removed_others m tag t _ Hm Ht Hp) as [_ Hin].
  unfold Remove. rewrite Ht, Hr. cbv zeta. unfold nextDefault. cbn [defaultTransport setTransports transports]. rewrite Hd, bool_decide_eq_true_2 by done.
  split; intros ->; cbn [negb].
  - split_and!; [done|done|by apply lookup_delete_eq| |done]. cbn. rewrite Hin. intros [_ Hne]. by apply (tr_byTag m Hm) in Ht as [_ ?].
  - destruct (0 <? _)%nat; [done|]. cbn [snd]. by destruct (started _).
Qed.
End Reachable.

(** ** Two servers of which the first is the default *)

Module TransportSample.
#[local] Instance plainServers : ItemLibs := {|
  asLifecycle := fun _ => Some (fun _ => None); asPreStart := fun _ => None; asStart := fun _ => None; asPostStart := fun _ => None;
  closeItem := fun _ => None
|}.

(** [remote] is resolved through [local]. *)
Definition ops : list transportOp := [DoCreate (Ok ["local"]) "remote" "https"; DoCreate (Ok []) "local" "udp"].
Definition servers : TransportManager := performAll ops (NewTransportManager "").
Definition remote : Transport := mkTransport 0 "https" "remote" ["local"].
Definition local : Transport := mkTransport 1 "udp" "local" [].

Lemma dns_servers_start_witness :
  (Start (Err (New "none")) StartStateStart servers).1 = Ok ["local"; "remote"] /\
  exists pre post, ["local"; "remote"] = pre ++ tr_tag remote :: post /\ "local" ∈ pre.
Proof.
  destruct (Start (Err (New "none")) StartStateStart servers) as [r m'] eqn:E. pose proof E as E'. vm_compute in E'. injection E' as <- <-.
  split; [reflexivity|]. destruct (dns_servers_start ops "" _ _ _ E) as [Ho _]. destruct (Ho _ eq_refl) as (_ & _ & Hd).
  apply (Hd remote "local"); compute_done.
Defined.

Lemma removed_default_stays_witness :
  Default servers = Some remote /\ Default (Remove "remote" servers).2 = Some remote /\ lookupTransport "remote" (Remove "remote" servers).2 = None.
Proof.
  destruct (removed_default_stays ops "" "remote" remote local []) as [Hn _]; [reflexivity..|].
  split; [reflexivity|]. destruct (Hn eq_refl) as (_ & Hd & Hl & _). exact (conj Hd Hl).
Defined.

(** A server that takes the tag of the implied default: the closed one stays the default. *)
Definition running : TransportManager := (Start (Err (New "none")) StartStateStart servers).2.
Example replaced_default_stays :
  Default (Create (Ok []) "remote" "tls" running).2 = Some remote /\ closed (Create (Ok []) "remote" "tls" running).2 = [tr_id remote].
Proof. by vm_compute. Qed.

(** The fake-address server is remembered after its removal. *)
Example removed_fakeip_stays :
  let m := performAll [DoCreate (Ok []) "local" "udp"; DoCreate (Ok []) "fake" "fakeip"; DoRemove "fake"] (NewTransportManager "local") in
  FakeIP m = Some (mkTransport 1 "fakeip" "fake" []) /\ (Create (Ok []) "fake" "fakeip" m).1 = Some (New "multiple fakeip server are not supported").
Proof. by vm_compute. Qed.
End TransportSample.
