(* ===== verification/Box.v ===== *)
(** * The life of the box (src/fork/sing-box/box.go, adapter/lifecycle.go)

    Starting brings the parts of the box through four stages in a fixed order; an error on the way
    closes everything.  The parts are names here: their managers are in [Managers], [Outbounds],
    [DNSRouter] and [Relay].  What their calls return is [BoxLibs], the calls made are a trace. *)

From S2P Require Import Prelude GoStrings Lifecycle.

#[local] Open Scope Z_scope.

(** The parts; [Internal] are the services the options ask for, in order. *)
Inductive component :=
| Network | DNSTransport | DNSRouter | Connection | Router | Outbound | Inbound | Endpoint | Service
| Internal (n : nat).

#[export] Instance component_eq_dec : EqDecision component.
Proof. solve_decision. Defined.

Inductive boxEvent :=
| LoggerStart
| Started (c : component) (s : StartStage)
| Closed (c : component)
| LoggerClose.

#[export] Instance boxEvent_eq_dec : EqDecision boxEvent.
Proof. solve_decision. Defined.

Class BoxLibs := {
  startLogger : option error;
  startComponent : component -> StartStage -> option error;
  closeComponent : component -> option error;
  closeLogger : option error;
  serviceName : nat -> string;
  (** [common.Close] over what the parts return, and the errors [E.Append] collects. *)
  commonClose : list (option error) -> option error;
  appendError : option error -> error -> option error
}.

(** [internalService] is the number of internal services, [isDone] that the channel is closed. *)
Record Box := mkBox { internalService : nat; isDone : bool; boxTrace : list boxEvent }.

Definition note (es : list boxEvent) (b : Box) : Box := mkBox (internalService b) (isDone b) (boxTrace b ++ es).
Definition internals (b : Box) : list component := Internal <$> seq 0 (internalService b).

Section Box.
Context `{BoxLibs}.

(** [adapter.Start] and [adapter.StartNamed]: up to the first error, which the latter names. *)
Fixpoint Start (wrap : component -> error -> error) (s : StartStage) (l : list component) (b : Box) : option error * Box :=
  match l with
  | [] => (None, b)
  | c :: l =>
      match startComponent c s with
      | Some e => (Some (wrap c e), note [Started c s] b)
      | None => Start wrap s l (note [Started c s] b)
      end
  end.
Definition plain (_ : component) (e : error) : error := e.
Definition named (s : StartStage) (c : component) (e : error) : error :=
  match c with Internal n => Error (stageString s +:+ " " +:+ serviceName n) [e] | _ => e end.

(** [if err != nil { return err }] between the calls. *)
Definition andThen (f : Box -> option error * Box) (r : option error * Box) : option error * Box :=
  match r with (Some e, b) => (Some e, b) | (None, b) => f b end.

Definition preStart (b : Box) : option error * Box :=
  match startLogger with
  | Some e => (Some (Error "start logger" [e]), note [LoggerStart] b)
  | None =>
      let b := note [LoggerStart] b in
      let r := Start (named StartStateInitialize) StartStateInitialize (internals b) b in
      let r := andThen (Start plain StartStateInitialize
                          [Network; DNSTransport; DNSRouter; Connection; Router; Outbound; Inbound; Endpoint; Service]) r in
      andThen (Start plain StartStateStart [Outbound; DNSTransport; DNSRouter; Network; Connection; Router]) r
  end.

Definition start (b : Box) : option error * Box :=
  let r := preStart b in
  let r := andThen (fun b => Start (named StartStateStart) StartStateStart (internals b) b) r in
  let r := andThen (Start plain StartStateStart [Inbound; Endpoint; Service]) r in
  let r := andThen (Start plain StartStatePostStart
                      [Outbound; Network; DNSTransport; DNSRouter; Connection; Router; Inbound; Endpoint; Service]) r in
  let r := andThen (fun b => Start (named StartStatePostStart) StartStatePostStart (internals b) b) r in
  let r := andThen (Start plain StartStateStarted
                      [Network; DNSTransport; DNSRouter; Connection; Router; Outbound; Inbound; Endpoint; Service]) r in
  andThen (fun b => Start (named StartStateStarted) StartStateStarted (internals b) b) r.

Definition managersClosed : list component :=
  [Service; Endpoint; Inbound; Outbound; Router; Connection; DNSRouter; DNSTransport; Network].
Definition closeOrder (b : Box) : list component := managersClosed ++ internals b.

(** [E.Append] with the error named. *)
Definition Append (err other : option error) (name : error -> error) : option error :=
  match other with Some e => appendError err (name e) | None => err end.
Definition serviceNameOf (c : component) : string := match c with Internal n => serviceName n | _ => "" end.

(** [Close]: the managers, then the internal services in order; a second call does nothing. *)
Definition Close (b : Box) : option error * Box :=
  if isDone b then (Some (New "file already closed"), b) else
  let err := commonClose (closeComponent <$> managersClosed) in
  let err := fold_left (fun err c => Append err (closeComponent c) (fun e => Error ("close " +:+ serviceNameOf c) [e])) (internals b) err in
  let err := Append err closeLogger (fun e => Error "close logger" [e]) in
  (err, note ((Closed <$> closeOrder b) ++ [LoggerClose]) (mkBox (internalService b) true (boxTrace b))).

(** [Start] and [PreStart] of the box: an error closes it. *)
Definition Box_Start (b : Box) : option error * Box :=
  match start b with
  | (None, b) => (None, b)
  | (Some e, b) => (Some e, (Close b).2)
  end.
Definition PreStart (b : Box) : option error * Box :=
  match preStart b with
  | (None, b) => (None, b)
  | (Some e, b) => (Some e, (Close b).2)
  end.
End Box.

(** ** Stages in order *)

(** The calls of a start without errors. *)
Definition during (s : StartStage) (l : list component) : list boxEvent := (fun c => Started c s) <$> l.
Definition startPlan (b : Box) : list boxEvent :=
  [LoggerStart] ++ during StartStateInitialize (internals b) ++
  during StartStateInitialize [Network; DNSTransport; DNSRouter; Connection; Router; Outbound; Inbound; Endpoint; Service] ++
  during StartStateStart [Outbound; DNSTransport; DNSRouter; Network; Connection; Router] ++
  during StartStateStart (internals b) ++ during StartStateStart [Inbound; Endpoint; Service] ++
  during StartStatePostStart [Outbound; Network; DNSTransport; DNSRouter; Connection; Router; Inbound; Endpoint; Service] ++
  during StartStatePostStart (internals b) ++
  during StartStateStarted [Network; DNSTransport; DNSRouter; Connection; Router; Outbound; Inbound; Endpoint; Service] ++
  during StartStateStarted (internals b).

(** The stages a part went through, and how often it was closed. *)
Definition stagesOf (c : component) (l : list boxEvent) : list StartStage :=
  omap (fun e => match e with Started c' s => if bool_decide (c' = c) then Some s else None | _ => None end) l.
Definition closes (c : component) (l : list boxEvent) : nat := length (List.filter (fun e => bool_decide (e = Closed c)) l).

(** The parts a box has: every manager of the record, and the internal services the options asked
    for. *)
Definition isPart (b : Box) (c : component) : Prop :=
  match c with Internal n => (n < internalService b)%nat | _ => True end.

Section Order.
Context `{BoxLibs}.

(** A run of calls from [b]: a prefix of the plan, all of it unless there was an error. *)
Definition follows (plan : list boxEvent) (b : Box) (r : option error * Box) : Prop :=
  exists done, r.2 = note done b /\ (exists rest, plan = done ++ rest /\ (r.1 = None -> rest = [])).

Lemma note_note es es' b : note es' (note es b) = note (es ++ es') b.
Proof using Type. unfold note. cbn. by rewrite (assoc_L (++)). Qed.
Lemma note_nil b : note [] b = b.
Proof using Type. unfold note. rewrite app_nil_r. by destruct b. Qed.

Lemma Start_follows wrap s l b : follows (during s l) b (Start wrap s l b).
Proof using Type.
  revert b. induction l as [|c l IH]; intros b; cbn [Start].
  - exists []. split; [by rewrite note_nil|]. by exists [].
  - destruct (startComponent c s) as [e|].
    + exists [Started c s]. split; [done|]. by exists (during s l).
    + destruct (IH (note [Started c s] b)) as (done & Hb & rest & Hp & Hn). exists (Started c s :: done). split; [by rewrite Hb, note_note|].
      exists rest. split; [|done]. change (Started c s :: during s l = (Started c s :: done) ++ rest). by rewrite Hp.
Qed.

Lemma andThen_follows plan plan' f b r :
  follows plan b r -> (forall b', internalService b' = internalService b -> follows plan' b' (f b')) -> follows (plan ++ plan') b (andThen f r).
Proof using Type.
  intros (done & Hb & rest & Hp & Hn) Hf. destruct r as [[e|] b1]; cbn [andThen fst snd] in *.
  - exists done. split; [done|]. exists (rest ++ plan'). split; [by rewrite Hp, (assoc_L (++))|done].
  - specialize (Hn eq_refl). subst rest. rewrite app_nil_r in Hp. subst plan b1. destruct (Hf (note done b) eq_refl) as (done' & Hb' & rest & Hp' & Hn').
    exists (done ++ done'). split; [by rewrite Hb', note_note|]. exists rest. split; [|done]. by rewrite Hp', (assoc_L (++)).
Qed.

Lemma internals_follow wrap s b b' :
  internalService b' = internalService b -> follows (during s (internals b)) b' (Start wrap s (internals b') b').
Proof using Type. intros Hb. unfold internals. rewrite Hb. apply Start_follows. Qed.

Lemma first_follows e plan b r : follows plan (note [e] b) r -> follows (e :: plan) b r.
Proof using Type.
  intros (done & Hb & rest & Hp & Hn). exists (e :: done). split; [by rewrite Hb, note_note|]. exists rest. split; [|done]. by rewrite Hp.
Qed.

Lemma start_follows b : follows (startPlan b) b (start b).
Proof using Type.
  unfold start, preStart. destruct startLogger as [e|].
  { cbn [andThen]. exists [LoggerStart]. split; [done|]. by eexists. }
  unfold startPlan. rewrite !(assoc_L (++)).
  repeat (apply andThen_follows; [|intros b' Hb'; first [by apply internals_follow|apply Start_follows]]).
  apply first_follows. by apply internals_follow.
Qed.

(** Every part goes through the four stages in order, once. *)
Lemma omap_during c s l : NoDup l -> stagesOf c (during s l) = if bool_decide (c ∈ l) then [s] else [].
Proof using Type.
  induction l as [|x l IH]; intros Hnd; [by rewrite bool_decide_eq_false_2 by apply not_elem_of_nil|]. apply NoDup_cons in Hnd as [Hx Hnd].
  change (stagesOf c (during s (x :: l))) with (omap (fun e => match e with Started c' s => if bool_decide (c' = c) then Some s else None | _ => None end) (Started x s :: during s l)).
  cbn. destruct (decide (x = c)) as [->|Hne].
  - rewrite (bool_decide_eq_true_2 (c = c)) by done. rewrite (bool_decide_eq_true_2 (c ∈ c :: l)) by (by left). f_equal.
    etrans; [apply (IH Hnd)|]. by rewrite bool_decide_eq_false_2.
  - rewrite (bool_decide_eq_false_2 (x = c)) by done. etrans; [apply (IH Hnd)|].
    destruct (decide (c ∈ l)) as [Hin|Hin]; [rewrite !bool_decide_eq_true_2; [done|by right|done]|].
    rewrite !bool_decide_eq_false_2; [done| |done]. intros [E|E]%elem_of_cons; [by subst|done].
Qed.

Lemma stagesOf_app c l k : stagesOf c (l ++ k) = stagesOf c l ++ stagesOf c k.
Proof using Type. apply omap_app. Qed.

Lemma internals_NoDup b : NoDup (internals b).
Proof using Type. apply NoDup_fmap_2; [by intros x y [= ->]|apply NoDup_seq]. Qed.

Lemma internals_elem c b : c ∈ internals b -> exists n, c = Internal n.
Proof using Type. intros (n & -> & _)%list_elem_of_fmap_1. by exists n. Qed.

Lemma internals_part n b : isPart b (Internal n) <-> Internal n ∈ internals b.
Proof using Type.
  unfold internals. rewrite list_elem_of_fmap. cbn. setoid_rewrite elem_of_seq. split.
  - intros Hn. exists n. split; [done|lia].
  - intros (m & [= ->] & Hm). lia.
Qed.

Lemma internals_manager c b : c ∈ internals b -> match c with Internal _ => True | _ => False end.
Proof using Type. by intros [n ->]%internals_elem. Qed.

Lemma plan_stages c b : isPart b c -> stagesOf c (startPlan b) = ListStartStages.
Proof using Type.
  intros Hc. unfold startPlan. rewrite !stagesOf_app. rewrite !(omap_during c _ (internals b)) by apply internals_NoDup.
  destruct c; try (rewrite bool_decide_eq_false_2 by (by intros ?%internals_manager); reflexivity).
  rewrite bool_decide_eq_true_2 by (by apply internals_part). reflexivity.
Qed.

(** Closing forgets no part. *)
Lemma part_closed c b : isPart b c -> c ∈ closeOrder b.
Proof using Type.
  intros Hc. unfold closeOrder. apply elem_of_app.
  destruct c; try (left; unfold managersClosed; rewrite !elem_of_cons; tauto). right. by apply internals_part.
Qed.

Lemma closes_plan c b : closes c (startPlan b) = 0%nat.
Proof using Type.
  unfold closes, startPlan. assert (forall s l, List.filter (fun e => bool_decide (e = Closed c)) (during s l) = []) as Hd.
  { intros s l. induction l as [|x l IH]; [done|]. change (during s (x :: l)) with (Started x s :: during s l). cbn. by rewrite IH. }
  by rewrite !List.filter_app, !Hd.
Qed.

Lemma closes_app c l k : closes c (l ++ k) = (closes c l + closes c k)%nat.
Proof using Type. unfold closes. by rewrite List.filter_app, length_app. Qed.

Lemma closes_closing c l : NoDup l -> c ∈ l -> closes c (Closed <$> l) = 1%nat.
Proof using Type.
  unfold closes. induction l as [|x l IH]; intros Hnd Hc; [by apply elem_of_nil in Hc|]. apply NoDup_cons in Hnd as [Hx Hnd]. cbn.
  destruct (decide (x = c)) as [->|Hne].
  - rewrite bool_decide_eq_true_2 by done. cbn. f_equal. clear -Hx. induction l as [|y l IH]; [done|]. apply not_elem_of_cons in Hx as [Hy Hx]. cbn.
    rewrite bool_decide_eq_false_2 by congruence. by apply IH.
  - rewrite bool_decide_eq_false_2 by congruence. apply elem_of_cons in Hc as [->|Hc]; [done|]. by apply IH.
Qed.

Lemma closeOrder_NoDup b : NoDup (closeOrder b).
Proof using Type.
  unfold closeOrder, managersClosed. apply NoDup_app. split_and!; [compute_done| |apply internals_NoDup].
  intros c Hc [n ->]%internals_elem. repeat (apply elem_of_cons in Hc as [[=]|Hc]). by apply elem_of_nil in Hc.
Qed.

Lemma stagesOf_closing c l : stagesOf c (Closed <$> l) = [].
Proof using Type. induction l as [|x l IH]; [done|]. apply IH. Qed.

Lemma Close_trace b : isDone b = false -> boxTrace (Close b).2 = boxTrace b ++ (Closed <$> closeOrder b) ++ [LoggerClose].
Proof using Type. intros Hd. unfold Close. by rewrite Hd. Qed.

Lemma during_split c s l : c ∈ l -> exists l1 l2, during s l = l1 ++ Started c s :: l2.
Proof using Type.
  intros (l1 & l2 & ->)%list_elem_of_split. exists (during s l1), (during s l2). unfold during. by rewrite fmap_app.
Qed.

(** The routing parts start before the inbounds do. *)
Lemma plan_inbounds_last b : exists A B C,
  startPlan b = A ++ during StartStateStart [Outbound; DNSTransport; DNSRouter; Network; Connection; Router] ++ B ++ Started Inbound StartStateStart :: C.
Proof using Type.
  exists ([LoggerStart] ++ during StartStateInitialize (internals b) ++
          during StartStateInitialize [Network; DNSTransport; DNSRouter; Connection; Router; Outbound; Inbound; Endpoint; Service]),
         (during StartStateStart (internals b)). eexists. unfold startPlan. rewrite <-!(assoc_L (++)). reflexivity.
Qed.

(** C9. A box that starts brings every part through the stages in order, each once, and the inbounds
    begin to accept connections after the outbounds, the DNS and the routing have started; a box
    whose start fails at any point has closed every part exactly once. *)
Theorem box_starts_in_stages n e b :
  Box_Start (mkBox n false []) = (e, b) ->
  (e = None -> isDone b = false /\ (forall c, isPart b c -> stagesOf c (boxTrace b) = ListStartStages /\ closes c (boxTrace b) = 0%nat) /\
     forall c, c ∈ [Outbound; DNSTransport; DNSRouter; Network; Connection; Router] ->
       exists l1 l2 l3, boxTrace b = l1 ++ Started c StartStateStart :: l2 ++ Started Inbound StartStateStart :: l3) /\
  (e <> None -> isDone b = true /\ (Close b).2 = b /\ forall c, isPart b c -> stagesOf c (boxTrace b) `prefix_of` ListStartStages /\ closes c (boxTrace b) = 1%nat).
Proof using Type.
  set (b0 := mkBox n false []). destruct (start_follows b0) as (done & Hb & rest & Hp & Hn). unfold Box_Start.
  destruct (start b0) as [[er|] b1]; cbn [fst snd] in *; subst b1; intros Heq.
  - assert (b = (Close (note done b0)).2) as -> by congruence. split; [congruence|]. intros _. split; [done|]. split; [done|]. intros c Hc.
    change (isPart b0 c) in Hc. rewrite Close_trace by done. change (closeOrder (note done b0)) with (closeOrder b0). change (boxTrace (note done b0)) with done.
    rewrite !stagesOf_app, !closes_app, stagesOf_closing, closes_closing; [|apply (closeOrder_NoDup b0)|by apply part_closed].
    pose proof (plan_stages c b0 Hc) as Hs. pose proof (closes_plan c b0) as Hz. rewrite Hp, stagesOf_app in Hs. rewrite Hp, closes_app in Hz. split.
    + exists (stagesOf c rest). by rewrite <-Hs, !app_nil_r.
    + change (closes c [LoggerClose]) with 0%nat. lia.
  - injection Heq as <- <-. split; [|done]. intros _. rewrite (Hn eq_refl), app_nil_r in Hp. subst done. split; [done|]. split.
    + intros c Hc. cbn [boxTrace note b0 app]. split; [by apply plan_stages|apply closes_plan].
    + intros c Hc. cbn [boxTrace note b0 app]. destruct (plan_inbounds_last b0) as (A & B & C & ->).
      destruct (during_split c StartStateStart _ Hc) as (l1 & l2 & ->). exists (A ++ l1), (l2 ++ B), C. by rewrite <-!(assoc_L (++)).
Qed.
End Order.

(** ** A box of two services whose router does not start, and one that starts *)

Module BoxSample.
#[local] Instance works : BoxLibs := {|
  startLogger := None; startComponent := fun _ _ => None; closeComponent := fun _ => None; closeLogger := None;
  serviceName := fun _ => "clash-api";
  commonClose := fun l => last (omap id l); appendError := fun err e => Some (Error "multi" (match err with Some e' => [e'; e] | None => [e] end))
|}.
Definition fails : BoxLibs := {|
  startLogger := None;
  startComponent := fun c s => if bool_decide (c = Router /\ s = StartStateStart) then Some (New "listen") else None;
  closeComponent := fun c => if bool_decide (c = Inbound) then Some (New "busy") else None;
  closeLogger := None; serviceName := fun _ => "clash-api";
  commonClose := fun l => last (omap id l); appendError := fun err e => Some (Error "multi" (match err with Some e' => [e'; e] | None => [e] end))
|}.

Lemma box_starts_in_stages_witness :
  (Box_Start (mkBox 2 false [])).1 = None /\
  stagesOf (Internal 1) (boxTrace (Box_Start (mkBox 2 false [])).2) = ListStartStages /\
  isDone (Box_Start (H := fails) (mkBox 2 false [])).2 = true /\
  closes Inbound (boxTrace (Box_Start (H := fails) (mkBox 2 false [])).2) = 1%nat.
Proof.
  destruct (Box_Start (mkBox 2 false [])) as [e b] eqn:E. destruct (Box_Start (H := fails) (mkBox 2 false [])) as [e' b'] eqn:E'.
  pose proof (proj1 (box_starts_in_stages 2 e b E)) as Hw. pose proof (proj2 (box_starts_in_stages (H := fails) 2 e' b' E')) as Hf.
  assert (e = None) as -> by (vm_compute in E; congruence). assert (e' <> None) as He by (vm_compute in E'; congruence).
  destruct (Hw eq_refl) as (_ & Hs & _). destruct (Hf He) as (Hd & _ & Hc). split; [done|]. split; [|split; [done|]].
  - apply Hs. vm_compute in E. injection E as <-. cbn. lia.
  - by apply Hc.
Defined.

(** The box that fails had begun no inbound. *)
Example failed_start_order :
  stagesOf Inbound (boxTrace (Box_Start (H := fails) (mkBox 2 false [])).2) = [StartStateInitialize] /\
  (Close (Box_Start (H := fails) (mkBox 2 false [])).2).1 = Some (New "file already closed").
Proof. by vm_compute. Qed.
End BoxSample.
