(* ===== verification/LimitedConn.v ===== *)
(** * Connection wrappers (src/counter/ratelimit.go, src/counter/counter.go and the routed
    connections of src/cmd/mini-sb-agent/main.go)

    A connection is its operations over a state [IO]: the heap of limiters, the heap of traffic
    storages, the sleeps so far, the number of limiter calls and the network [N] below.  The
    wrappers are functions from connections to connections, so the stack a tracker builds is
    their composition. *)

From S2P Require Import Prelude GoStrings Counter Hook RateLimit PanelTypes Inbounds UserManager.

#[local] Open Scope Z_scope.

Record IO (N : Type) := mkIO {
  io_limiters : limiterHeap;
  io_storages : storages;
  io_slept : list Z;
  io_calls : nat;
  io_net : N
}.
Arguments mkIO {N}.
Arguments io_limiters {N}.
Arguments io_storages {N}.
Arguments io_slept {N}.
Arguments io_calls {N}.
Arguments io_net {N}.

(** [net.Conn] with the buffer operations of [N.ExtendedConn].  [Read len] fills a slice of
    [len] bytes; a buffer is its contents. *)
Record Conn (N : Type) := mkConn {
  Read : nat -> IO N -> (list ascii * option error) * IO N;
  Write : list ascii -> IO N -> (Z * option error) * IO N;
  ReadBuffer : IO N -> (list ascii * option error) * IO N;
  WriteBuffer : list ascii -> IO N -> option error * IO N
}.
Arguments mkConn {N}.
Arguments Read {N}.
Arguments Write {N}.
Arguments ReadBuffer {N}.
Arguments WriteBuffer {N}.

(** [N.PacketConn], with destinations [D]. *)
Record PacketConn (N D : Type) := mkPacketConn {
  ReadPacket : IO N -> ((list ascii * D) * option error) * IO N;
  WritePacket : list ascii -> D -> IO N -> option error * IO N
}.
Arguments mkPacketConn {N D}.
Arguments ReadPacket {N D}.
Arguments WritePacket {N D}.

Definition ErrShortWrite : error := New "short write".

(** The iterations of the write loops: slices of at most [maxWriteChunk] bytes. *)
Definition chunkLen : nat := Z.to_nat maxWriteChunk.

Fixpoint chunksOf (fuel : nat) (b : list ascii) : list (list ascii) :=
  match b, fuel with
  | [], _ => []
  | _, O => [b]
  | _, S fuel => take chunkLen b :: chunksOf fuel (drop chunkLen b)
  end.

Definition chunks (b : list ascii) : list (list ascii) := chunksOf (length b) b.

Section Wrappers.
Context `{Float64} {N D : Type}.
(** The clock and the other goroutines at the [j]-th reservation of the [i]-th call. *)
Context (clock : nat -> nat -> Z) (env : nat -> nat -> RateLimiter -> RateLimiter).
Implicit Types (st : IO N) (c : Conn N) (p : PacketConn N D).

Definition setLimiter (l : limloc) (v : option RateLimiter) (slept : list Z) st : IO N :=
  mkIO (partial_alter (fun _ => v) l (io_limiters st)) (io_storages st) (io_slept st ++ slept)
    (S (io_calls st)) (io_net st).

Definition setStorages (h : storages) st : IO N :=
  mkIO (io_limiters st) h (io_slept st) (io_calls st) (io_net st).

(** [l.Wait(n)] through a pointer; [Wait] always has a result. *)
Definition waitOn (l : limloc) (n : Z) st : option error * IO N :=
  match Wait n (clock (io_calls st)) (env (io_calls st)) (io_limiters st !! l) with
  | Some ((ws, err), v) => (err, setLimiter l v ws st)
  | None => (Some (New "unreachable"), st)
  end.

Definition allowOn (l : limloc) (n : Z) st : (bool * option error) * IO N :=
  let now := clock (io_calls st) 0%nat in
  let (r, v) := Allow n now (env (io_calls st) 0%nat <$> io_limiters st !! l) in
  (r, setLimiter l v [] st).

(** ** ConnCounter *)

Definition NewConnCounter (c : Conn N) (l : loc) : Conn N :=
  mkConn
    (fun len st =>
       let '((data, err), st) := Read c len st in
       let '((_, err), h) := ConnCounter_Read (Z.of_nat (length data), err) l (io_storages st) in
       ((data, err), setStorages h st))
    (fun b st =>
       let (r, st) := Write c b st in
       let (r, h) := ConnCounter_Write r l (io_storages st) in (r, setStorages h st))
    (fun st =>
       let '((data, err), st) := ReadBuffer c st in
       let (err, h) := ConnCounter_ReadBuffer err (Z.of_nat (length data)) l (io_storages st) in
       ((data, err), setStorages h st))
    (fun b st =>
       let (err, st) := WriteBuffer c b st in
       let (err, h) := ConnCounter_WriteBuffer err (Z.of_nat (length b)) l (io_storages st) in
       (err, setStorages h st)).

(** ** RateLimitedConn *)

Definition limitedRead c (rl : option limloc) (len : nat) st : (list ascii * option error) * IO N :=
  let len := match rl with
             | Some _ => if (Z.to_nat maxReadChunk <? len)%nat then Z.to_nat maxReadChunk else len
             | None => len
             end in
  let '((data, err), st) := Read c len st in
  match rl with
  | Some l =>
      if bool_decide (data <> [])
      then let (waitErr, st) := waitOn l (Z.of_nat (length data)) st in
           ((data, match waitErr, err with Some e, None => Some e | _, _ => err end), st)
      else ((data, err), st)
  | None => ((data, err), st)
  end.

(** The loop of [Write] over the remaining chunks. *)
Fixpoint writeLoop c (l : limloc) (todo : list (list ascii)) (total : Z) st : (Z * option error) * IO N :=
  match todo with
  | [] => ((total, None), st)
  | chunk :: todo =>
      let (err, st) := waitOn l (Z.of_nat (length chunk)) st in
      match err with
      | Some e => ((total, Some e), st)
      | None =>
          let '((n, err), st) := Write c chunk st in
          let total := total + n in
          match err with
          | Some e => ((total, Some e), st)
          | None =>
              if n =? Z.of_nat (length chunk) then writeLoop c l todo total st
              else ((total, Some ErrShortWrite), st)
          end
      end
  end.

Definition limitedWrite c (wl : option limloc) (b : list ascii) st : (Z * option error) * IO N :=
  match wl with
  | None => Write c b st
  | Some l => if bool_decide (b = []) then Write c b st else writeLoop c l (chunks b) 0 st
  end.

Definition limitedReadBuffer c (rl : option limloc) st : (list ascii * option error) * IO N :=
  let '((data, err), st) := ReadBuffer c st in
  match err, rl with
  | None, Some l =>
      if bool_decide (data <> [])
      then let (err, st) := waitOn l (Z.of_nat (length data)) st in ((data, err), st)
      else ((data, err), st)
  | _, _ => ((data, err), st)
  end.

(** All chunks but the last go through [Write], the last through [WriteBuffer]. *)
Fixpoint writeBufferLoop c (l : limloc) (todo : list (list ascii)) st : option error * IO N :=
  match todo with
  | [] => (None, st)
  | chunk :: todo =>
      let (err, st) := waitOn l (Z.of_nat (length chunk)) st in
      match err with
      | Some e => (Some e, st)
      | None =>
          match todo with
          | [] => WriteBuffer c chunk st
          | _ =>
              let '((_, err), st) := Write c chunk st in
              match err with Some e => (Some e, st) | None => writeBufferLoop c l todo st end
          end
      end
  end.

Definition limitedWriteBuffer c (wl : option limloc) (b : list ascii) st : option error * IO N :=
  match wl with
  | None => WriteBuffer c b st
  | Some l => if bool_decide (b = []) then WriteBuffer c b st else writeBufferLoop c l (chunks b) st
  end.

Definition NewRateLimitedConn c (rl wl : option limloc) : Conn N :=
  match rl, wl with
  | None, None => c
  | _, _ => mkConn (limitedRead c rl) (limitedWrite c wl) (limitedReadBuffer c rl) (limitedWriteBuffer c wl)
  end.

(** ** Packet connections *)

Definition NewPacketConnCounter p (l : loc) : PacketConn N D :=
  mkPacketConn
    (fun st =>
       let '((pkt, err), st) := ReadPacket p st in
       let '((pkt, err), h) :=
         PacketConnCounter_ReadPacket (pkt, err) (Z.of_nat (length pkt.1)) l (io_storages st) in
       ((pkt, err), setStorages h st))
    (fun b dest st =>
       let (err, st) := WritePacket p b dest st in
       let (err, h) := PacketConnCounter_WritePacket err (Z.of_nat (length b)) l (io_storages st) in
       (err, setStorages h st)).

(** A packet over the limit is dropped: emptied when read, not sent when written. *)
Definition limitedReadPacket p (rl : option limloc) st : ((list ascii * D) * option error) * IO N :=
  let '((pkt, err), st) := ReadPacket p st in
  match err, rl with
  | None, Some l =>
      if bool_decide (pkt.1 <> [])
      then
        let '((allowed, waitErr), st) := allowOn l (Z.of_nat (length pkt.1)) st in
        match waitErr with
        | Some e => ((pkt, Some e), st)
        | None => ((if allowed : bool then pkt else ([], pkt.2), None), st)
        end
      else ((pkt, err), st)
  | _, _ => ((pkt, err), st)
  end.

Definition limitedWritePacket p (wl : option limloc) (b : list ascii) (dest : D) st : option error * IO N :=
  match wl with
  | Some l =>
      if bool_decide (b <> [])
      then
        let '((allowed, err), st) := allowOn l (Z.of_nat (length b)) st in
        match err with
        | Some e => (Some e, st)
        | None => if allowed : bool then WritePacket p b dest st else (None, st)
        end
      else WritePacket p b dest st
  | None => WritePacket p b dest st
  end.

Definition NewRateLimitedPacketConn p (rl wl : option limloc) : PacketConn N D :=
  match rl, wl with
  | None, None => p
  | _, _ => mkPacketConn (limitedReadPacket p rl) (limitedWritePacket p wl)
  end.
End Wrappers.

(** ** What a connection promises *)

Definition cong64 (a b : Z) : Prop := wrap64 a = wrap64 b.

#[export] Instance cong64_equiv : Equivalence cong64.
Proof. split; unfold cong64; [intros ? | intros ? ? | intros ? ? ?]; congruence. Qed.

#[export] Instance cong64_add : Proper (cong64 ==> cong64 ==> cong64) Z.add.
Proof.
  unfold cong64. intros a a' Ha b b' Hb. rewrite <- wrap64_add_l, <- wrap64_add_r, Ha, Hb.
  by rewrite wrap64_add_l, wrap64_add_r.
Qed.

Lemma cong64_wrap a : cong64 (wrap64 a) a.
Proof. unfold cong64. apply wrap64_id, wrap64_range. Qed.

Lemma cong64_exact a b : in_int64 a -> in_int64 b -> cong64 a b -> a = b.
Proof. intros Ha Hb E. unfold cong64 in E. by rewrite !wrap64_id in E. Qed.

Section Contract.
Context {N : Type} (l : loc) (k : Z).
Implicit Types (st : IO N) (c : Conn N).

Definition storageOf st : TrafficStorage := load (io_storages st) l.

(** From [st] to [st'], [k] times [u] and [d] bytes were counted on storage [l], and nothing on
    any other; the amounts are modulo 2^64. *)
Record booked st st' (u d : Z) : Prop := {
  bk_dom : dom (io_storages st') = dom (io_storages st);
  bk_other : forall l', l' <> l -> io_storages st' !! l' = io_storages st !! l';
  bk_up : cong64 (UpCounter (storageOf st')) (UpCounter (storageOf st) + k * u);
  bk_down : cong64 (DownCounter (storageOf st')) (DownCounter (storageOf st) + k * d)
}.

Lemma booked_none st st' : io_storages st' = io_storages st -> booked st st' 0 0.
Proof. intros E. split; unfold storageOf; rewrite E; rewrite ?Z.mul_0_r, ?Z.add_0_r; done. Qed.

Lemma booked_trans st1 st2 st3 u d u' d' :
  booked st1 st2 u d -> booked st2 st3 u' d' -> booked st1 st3 (u + u') (d + d').
Proof.
  intros [D1 O1 U1 W1] [D2 O2 U2 W2]. split; [congruence| |..].
  - intros l' Hl. by rewrite O2, O1.
  - rewrite U2, U1. by rewrite Z.mul_add_distr_l, Z.add_assoc.
  - rewrite W2, W1. by rewrite Z.mul_add_distr_l, Z.add_assoc.
Qed.

End Contract.

(** What is observed of the network: the bytes sent and received, and how many of them went
    through a [WriteBuffer] or [ReadBuffer] that failed. *)
Record Wire (N : Type) := mkWire {
  sent : N -> list ascii;
  recv : N -> list ascii;
  lostOut : N -> Z;
  lostIn : N -> Z
}.
Arguments mkWire {N} _ _ _ _.
Arguments sent {N} _ _.
Arguments recv {N} _ _.
Arguments lostOut {N} _ _.
Arguments lostIn {N} _ _.

(** The connection below: it delivers a prefix of what is written, the whole of it unless it
    fails, hands out what it receives, and knows nothing of the counters. *)
Record network_ok {N} (W : Wire N) (c : Conn N) : Prop := {
  nw_write b st n err st' :
    Write c b st = ((n, err), st') ->
    io_storages st' = io_storages st /\ 0 <= n <= Z.of_nat (length b) /\
    sent W (io_net st') = sent W (io_net st) ++ take (Z.to_nat n) b /\
    recv W (io_net st') = recv W (io_net st) /\ (err = None -> n = Z.of_nat (length b)) /\
    lostOut W (io_net st') = lostOut W (io_net st) /\ lostIn W (io_net st') = lostIn W (io_net st);
  nw_read len st data err st' :
    Read c len st = ((data, err), st') ->
    io_storages st' = io_storages st /\ (length data <= len)%nat /\
    recv W (io_net st') = recv W (io_net st) ++ data /\ sent W (io_net st') = sent W (io_net st) /\
    lostOut W (io_net st') = lostOut W (io_net st) /\ lostIn W (io_net st') = lostIn W (io_net st);
  nw_readBuffer st data err st' :
    ReadBuffer c st = ((data, err), st') ->
    io_storages st' = io_storages st /\
    recv W (io_net st') = recv W (io_net st) ++ data /\ sent W (io_net st') = sent W (io_net st) /\
    lostOut W (io_net st') = lostOut W (io_net st) /\
    lostIn W (io_net st') = lostIn W (io_net st) + (if err then Z.of_nat (length data) else 0);
  nw_writeBuffer b st err st' :
    WriteBuffer c b st = (err, st') ->
    io_storages st' = io_storages st /\
    exists p q, b = p ++ q /\ sent W (io_net st') = sent W (io_net st) ++ p /\
      recv W (io_net st') = recv W (io_net st) /\ (err = None -> q = []) /\
      lostIn W (io_net st') = lostIn W (io_net st) /\
      lostOut W (io_net st') = lostOut W (io_net st) + (if err then Z.of_nat (length p) else 0)
}.

(** A connection that delivers a prefix of what is written, hands out what it receives, and has
    on storage [l] counted all of both but what went through failing buffer operations. *)
Record conn_ok {N} (W : Wire N) (l : loc) (c : Conn N) : Prop := {
  ok_write b st n err st' :
    l ∈ dom (io_storages st) -> Write c b st = ((n, err), st') ->
    0 <= n <= Z.of_nat (length b) /\ sent W (io_net st') = sent W (io_net st) ++ take (Z.to_nat n) b /\
    recv W (io_net st') = recv W (io_net st) /\ (err = None -> n = Z.of_nat (length b)) /\
    lostOut W (io_net st') = lostOut W (io_net st) /\ lostIn W (io_net st') = lostIn W (io_net st) /\
    booked l 1 st st' 0 n;
  ok_read len st data err st' :
    l ∈ dom (io_storages st) -> Read c len st = ((data, err), st') ->
    (length data <= len)%nat /\ recv W (io_net st') = recv W (io_net st) ++ data /\
    sent W (io_net st') = sent W (io_net st) /\
    lostOut W (io_net st') = lostOut W (io_net st) /\ lostIn W (io_net st') = lostIn W (io_net st) /\
    booked l 1 st st' (Z.of_nat (length data)) 0;
  ok_readBuffer st data err st' :
    l ∈ dom (io_storages st) -> ReadBuffer c st = ((data, err), st') ->
    exists x, 0 <= x <= Z.of_nat (length data) /\ (err = None -> x = 0) /\
    recv W (io_net st') = recv W (io_net st) ++ data /\ sent W (io_net st') = sent W (io_net st) /\
    lostOut W (io_net st') = lostOut W (io_net st) /\ lostIn W (io_net st') = lostIn W (io_net st) + x /\
    booked l 1 st st' (Z.of_nat (length data) - x) 0;
  ok_writeBuffer b st err st' :
    l ∈ dom (io_storages st) -> WriteBuffer c b st = (err, st') ->
    exists p q x, b = p ++ q /\ 0 <= x <= Z.of_nat (length p) /\ (err = None -> q = [] /\ x = 0) /\
      sent W (io_net st') = sent W (io_net st) ++ p /\ recv W (io_net st') = recv W (io_net st) /\
      lostIn W (io_net st') = lostIn W (io_net st) /\ lostOut W (io_net st') = lostOut W (io_net st) + x /\
      booked l 1 st st' 0 (Z.of_nat (length p) - x)
}.

(** ** The chunks of a write *)

Lemma chunksOf_concat fuel b : concat (chunksOf fuel b) = b.
Proof.
  revert b. induction fuel as [|fuel IH]; intros [|a b]; try done; cbn -[chunkLen take drop]; [by rewrite app_nil_r|].
  by rewrite IH, take_drop.
Qed.

Lemma chunks_concat b : concat (chunks b) = b.
Proof. apply chunksOf_concat. Qed.

Lemma chunkLen_pos : (0 < chunkLen)%nat.
Proof.
  unfold chunkLen. change 0%nat with (Z.to_nat 0). apply Z2Nat.inj_lt; [lia | |]; unfold maxWriteChunk; lia.
Qed.

#[local] Opaque chunkLen.

Lemma chunksOf_bound fuel b :
  (length b <= fuel)%nat -> Forall (fun ch => ch <> [] /\ (length ch <= chunkLen)%nat) (chunksOf fuel b).
Proof.
  pose proof chunkLen_pos as Hp. revert b.
  induction fuel as [|fuel IH]; intros [|a b] Hle; simpl in Hle; try lia; [constructor..|].
  cbn -[chunkLen take drop]. constructor.
  - split; [|rewrite length_take; lia]. destruct chunkLen; [lia | done].
  - apply IH. rewrite length_drop. simpl. lia.
Qed.

Lemma chunks_bound b : Forall (fun ch => ch <> [] /\ (length ch <= chunkLen)%nat) (chunks b).
Proof. by apply chunksOf_bound. Qed.

(** ** The wrappers keep the promise *)

Section Preservation.
Context `{Float64} {N : Type} (W : Wire N) (l : loc).
Context (clock : nat -> nat -> Z) (env : nat -> nat -> RateLimiter -> RateLimiter).
Implicit Types (st : IO N) (c : Conn N).

#[local] Abbreviation conn_ok := (conn_ok W l).

(** A limiter call leaves the network and the counters alone. *)
Lemma waitOn_frame w n st err st' :
  waitOn clock env w n st = (err, st') -> io_net st' = io_net st /\ io_storages st' = io_storages st.
Proof. unfold waitOn. destruct (Wait _ _ _ _) as [[[ws e] v]|]; intros [= _ <-]; done. Qed.

Lemma counted_up n st h :
  l ∈ dom (io_storages st) -> h = (if 0 <? n then alter (addUp n) l (io_storages st) else io_storages st) ->
  0 <= n -> booked l 1 st (setStorages h st) n 0.
Proof using Type.
  intros Hl -> Hn. destruct (0 <? n) eqn:E; bool_inv.
  - split; unfold storageOf, setStorages; simpl.
    + apply dom_alter_L.
    + intros l' Hne. by apply lookup_alter_ne.
    + rewrite load_alter, decide_True by done. simpl. rewrite Z.mul_1_l. apply cong64_wrap.
    + rewrite load_alter, decide_True by done. simpl. by rewrite Z.mul_0_r, Z.add_0_r.
  - assert (n = 0) as -> by lia. by apply booked_none.
Qed.

Lemma counted_down n st h :
  l ∈ dom (io_storages st) -> h = (if 0 <? n then alter (addDown n) l (io_storages st) else io_storages st) ->
  0 <= n -> booked l 1 st (setStorages h st) 0 n.
Proof using Type.
  intros Hl -> Hn. destruct (0 <? n) eqn:E; bool_inv.
  - split; unfold storageOf, setStorages; simpl.
    + apply dom_alter_L.
    + intros l' Hne. by apply lookup_alter_ne.
    + rewrite load_alter, decide_True by done. simpl. by rewrite Z.mul_0_r, Z.add_0_r.
    + rewrite load_alter, decide_True by done. simpl. rewrite Z.mul_1_l. apply cong64_wrap.
  - assert (n = 0) as -> by lia. by apply booked_none.
Qed.

(** An uncounted step followed by counting. *)
Lemma booked_count st st1 st2 u d u' d' :
  booked l 0 st st1 u d -> booked l 1 st1 st2 u' d' -> booked l 1 st st2 u' d'.
Proof using Type.
  intros [D1 O1 U1 W1] [D2 O2 U2 W2]. split; [congruence| |..].
  - intros l' Hl. by rewrite O2, O1.
  - by rewrite U2, U1, Z.mul_0_l, Z.add_0_r.
  - by rewrite W2, W1, Z.mul_0_l, Z.add_0_r.
Qed.

Lemma ConnCounter_ok c : network_ok W c -> conn_ok (NewConnCounter c l).
Proof using Type.
  assert (forall st st1 h u d, io_storages st1 = io_storages st -> booked l 1 st1 (setStorages h st1) u d ->
    booked l 1 st (setStorages h st1) u d) as Hfr.
  { intros st st1 h u d E [D O U V]. unfold storageOf in *. rewrite E in *. by split. }
  intros [Hw Hr Hrb Hwb]. split; simpl.
  - intros b st n err st' Hl. destruct (Write c b st) as [[n1 err1] st1] eqn:E.
    apply Hw in E as (Hst & Hn & Hs & Hv & Hf & Ho & Hi). intros [= <- <- <-]. split_and!; try done; try lia.
    apply Hfr; [done|]. apply counted_down; [by rewrite Hst | done | lia].
  - intros len st data err st' Hl. destruct (Read c len st) as [[data1 err1] st1] eqn:E.
    apply Hr in E as (Hst & Hn & Hs & Hv & Ho & Hi). intros [= <- <- <-]. split_and!; try done.
    apply Hfr; [done|]. apply counted_up; [by rewrite Hst | done | lia].
  - intros st data err st' Hl. destruct (ReadBuffer c st) as [[data1 err1] st1] eqn:E.
    apply Hrb in E as (Hst & Hs & Hv & Ho & Hi). intros [= <- <- <-]. destruct err1 as [e|]; simpl.
    + exists (Z.of_nat (length data1)). rewrite Z.sub_diag. split_and!; try done; try lia. by apply booked_none.
    + exists 0. rewrite Z.sub_0_r. split_and!; try done; try lia.
      apply Hfr; [done|]. apply counted_up; [by rewrite Hst | done | lia].
  - intros b st err st' Hl. destruct (WriteBuffer c b st) as [err1 st1] eqn:E.
    apply Hwb in E as (Hst & p & q & -> & Hs & Hv & Hf & Hi & Ho). intros [= <- <-].
    destruct err1 as [e|]; simpl.
    + exists p, q, (Z.of_nat (length p)). rewrite Z.sub_diag. split_and!; try done; try lia. by apply booked_none.
    + rewrite (Hf eq_refl), app_nil_r in *. exists p, [], 0. rewrite app_nil_r, Z.sub_0_r.
      split_and!; try done; try lia. apply Hfr; [done|]. apply counted_down; [by rewrite Hst | done | lia].
Qed.

Lemma booked_frame k st st1 st2 u d :
  io_storages st1 = io_storages st -> booked l k st1 st2 u d -> booked l k st st2 u d.
Proof using Type. intros E [D O U V]. unfold storageOf in *. rewrite E in *. by split. Qed.

Lemma booked_frame_r k st st1 st2 u d :
  io_storages st2 = io_storages st1 -> booked l k st st1 u d -> booked l k st st2 u d.
Proof using Type. intros E [D O U V]. split; unfold storageOf in *; by rewrite E in *. Qed.

Lemma writeLoop_ok c w todo total st n err st' :
  conn_ok c -> l ∈ dom (io_storages st) -> writeLoop clock env c w todo total st = ((n, err), st') ->
  total <= n <= total + Z.of_nat (length (concat todo)) /\
  sent W (io_net st') = sent W (io_net st) ++ take (Z.to_nat (n - total)) (concat todo) /\
  recv W (io_net st') = recv W (io_net st) /\
  (err = None -> n = total + Z.of_nat (length (concat todo))) /\
  lostOut W (io_net st') = lostOut W (io_net st) /\ lostIn W (io_net st') = lostIn W (io_net st) /\
  booked l 1 st st' 0 (n - total).
Proof.
  intros Hc. revert total st. induction todo as [|chunk todo IH]; intros total st Hl; simpl.
  { intros [= <- <- <-]. rewrite Z.sub_diag, app_nil_r. split_and!; try done; try lia. by apply booked_none. }
  rewrite length_app.
  destruct (waitOn _ _ _ _ _) as [[e|] st1] eqn:Ew; apply waitOn_frame in Ew as [En Es].
  { intros [= <- <- <-]. rewrite Z.sub_diag, En, app_nil_r. split_and!; try done; try lia. by apply booked_none. }
  destruct (Write c chunk st1) as [[m err1] st2] eqn:E.
  apply (ok_write _ _ _ Hc) in E as (Hm & Hs & Hv & Hf & Ho & Hi & Hb); [|by rewrite Es].
  assert (booked l 1 st st2 0 m) as Hb' by (by eapply booked_frame).
  assert (forall n, 0 <= n <= Z.of_nat (length chunk) ->
    take (Z.to_nat n) (chunk ++ concat todo) = take (Z.to_nat n) chunk) as Htake
    by (intros; apply take_app_le; lia).
  rewrite En in Hs, Hv, Ho, Hi.
  destruct err1 as [e|]; [|destruct (m =? _) eqn:Em; bool_inv].
  - intros [= <- <- <-]. rewrite Z.add_simpl_l. rewrite Htake by done. split_and!; try done; lia.
  - subst m. intros Hrec. apply IH in Hrec as (Hn & Hs' & Hv' & Hf' & Ho' & Hi' & Hb'');
      [|by rewrite (bk_dom _ _ _ _ _ _ Hb')].
    rewrite Hs', Hs, Hv', Hv, Ho', Ho, Hi', Hi. rewrite Nat2Z.id, firstn_all. rewrite <- app_assoc.
    split_and!; try done; try lia.
    + f_equal. rewrite take_app_ge by lia. f_equal. f_equal. lia.
    + intros He. specialize (Hf' He). lia.
    + replace (n - total) with (Z.of_nat (length chunk) + (n - (total + Z.of_nat (length chunk)))) by lia.
      change 0 with (0 + 0). by eapply booked_trans.
  - rewrite Hf in Em by done. done.
Qed.

Lemma writeBufferLoop_ok c w todo st err st' :
  conn_ok c -> l ∈ dom (io_storages st) -> todo <> [] -> writeBufferLoop clock env c w todo st = (err, st') ->
  exists p q x, concat todo = p ++ q /\ 0 <= x <= Z.of_nat (length p) /\ (err = None -> q = [] /\ x = 0) /\
    sent W (io_net st') = sent W (io_net st) ++ p /\ recv W (io_net st') = recv W (io_net st) /\
    lostIn W (io_net st') = lostIn W (io_net st) /\ lostOut W (io_net st') = lostOut W (io_net st) + x /\
    booked l 1 st st' 0 (Z.of_nat (length p) - x).
Proof.
  intros Hc. revert st. induction todo as [|chunk todo IH]; intros st Hl Hne; [done|]. simpl.
  destruct (waitOn _ _ _ _ _) as [[e|] st1] eqn:Ew; apply waitOn_frame in Ew as [En Es].
  { intros [= <- <-]. exists [], (chunk ++ concat todo), 0. rewrite En, app_nil_r.
    split_and!; try done; try lia. by apply booked_none. }
  destruct todo as [|chunk2 todo].
  - intros E. apply (ok_writeBuffer _ _ _ Hc) in E as (p & q & x & -> & Hx & Hf & Hs & Hv & Hi & Ho & Hb); [|by rewrite Es].
    rewrite En in Hs, Hv, Hi, Ho. exists p, q, x. rewrite app_nil_r. split_and!; try done; try lia. by eapply booked_frame.
  - destruct (Write c chunk st1) as [[m err1] st2] eqn:E.
    apply (ok_write _ _ _ Hc) in E as (Hm & Hs & Hv & Hf & Ho & Hi & Hb); [|by rewrite Es].
    assert (booked l 1 st st2 0 m) as Hb' by (by eapply booked_frame). rewrite En in Hs, Hv, Ho, Hi.
    destruct err1 as [e|].
    + intros [= <- <-]. exists (take (Z.to_nat m) chunk), (drop (Z.to_nat m) chunk ++ concat (chunk2 :: todo)), 0.
      rewrite app_assoc, take_drop, length_take, Nat.min_l, Z2Nat.id, Z.sub_0_r, Z.add_0_r by lia.
      split_and!; try done; lia.
    + rewrite (Hf eq_refl), Nat2Z.id, firstn_all in *. intros Hrec.
      apply IH in Hrec as (p & q & x & Heq & Hx & Hf' & Hs' & Hv' & Hi' & Ho' & Hb''); [|by rewrite (bk_dom _ _ _ _ _ _ Hb')|done].
      exists (chunk ++ p), q, x. rewrite Heq, app_assoc, length_app, Hs', Hs, Hv', Hv, Hi', Hi, Ho', Ho.
      split_and!; try done; try lia.
      * by rewrite <- app_assoc.
      * replace (Z.of_nat (length chunk + length p) - x)
          with (Z.of_nat (length chunk) + (Z.of_nat (length p) - x)) by lia.
        change 0 with (0 + 0). by eapply booked_trans.
Qed.

Lemma chunks_nonempty b : b <> [] -> chunks b <> [].
Proof. intros Hb E. apply Hb. by rewrite <- (chunks_concat b), E. Qed.

Lemma limitedRead_ok c rl len st data err st' :
  conn_ok c -> l ∈ dom (io_storages st) -> limitedRead clock env c rl len st = ((data, err), st') ->
  (length data <= len)%nat /\ recv W (io_net st') = recv W (io_net st) ++ data /\
  sent W (io_net st') = sent W (io_net st) /\
  lostOut W (io_net st') = lostOut W (io_net st) /\ lostIn W (io_net st') = lostIn W (io_net st) /\
  booked l 1 st st' (Z.of_nat (length data)) 0.
Proof.
  intros Hc Hl. unfold limitedRead. cbv zeta.
  set (len' := match rl with Some _ => _ | None => _ end).
  assert (len' <= len)%nat as Hlen.
  { unfold len'. destruct rl; [|done]. destruct (Nat.ltb_spec (Z.to_nat maxReadChunk) len); lia. }
  destruct (Read c len' st) as [[data1 err1] st1] eqn:E.
  apply (ok_read _ _ _ Hc) in E as (Hn & Hv & Hs & Ho & Hi & Hb); [|done].
  destruct rl as [w|]; [|by intros [= <- <- <-]; split_and!; try done; lia].
  case_bool_decide; [|by intros [= <- <- <-]; split_and!; try done; lia].
  destruct (waitOn _ _ _ _ _) as [e st2] eqn:Ew. apply waitOn_frame in Ew as [En Es]. intros [= <- <- <-].
  rewrite En. split_and!; try done; [lia|]. by eapply booked_frame_r.
Qed.

Lemma RateLimitedConn_ok c rl wl : conn_ok c -> conn_ok (NewRateLimitedConn clock env c rl wl).
Proof.
  intros Hc. assert (conn_ok (mkConn (limitedRead clock env c rl) (limitedWrite clock env c wl)
    (limitedReadBuffer clock env c rl) (limitedWriteBuffer clock env c wl))) as Hok;
    [|by destruct rl, wl]. split; simpl.
  - intros b st n err st' Hl. unfold limitedWrite. destruct wl as [w|]; [|by apply (ok_write _ _ _ Hc)].
    case_bool_decide; [by apply (ok_write _ _ _ Hc)|].
    intros E. apply writeLoop_ok in E; [|done..]. by rewrite chunks_concat, Z.sub_0_r in E.
  - intros len st data err st' Hl E. by eapply limitedRead_ok.
  - intros st data err st' Hl. unfold limitedReadBuffer. destruct (ReadBuffer c st) as [[data1 err1] st1] eqn:E.
    apply (ok_readBuffer _ _ _ Hc) in E as (x & Hx & Hf & Hv & Hs & Ho & Hi & Hb); [|done].
    destruct err1 as [e|]; [intros [= <- <- <-]; by exists x|].
    destruct rl as [w|]; [|intros [= <- <- <-]; by exists x].
    case_bool_decide; [|intros [= <- <- <-]; by exists x].
    destruct (waitOn _ _ _ _ _) as [e st2] eqn:Ew. apply waitOn_frame in Ew as [En Es]. intros [= <- <- <-].
    exists x. rewrite En. split_and!; try done; try lia; [by intros _; apply Hf | by eapply booked_frame_r].
  - intros b st err st' Hl. unfold limitedWriteBuffer. destruct wl as [w|]; [|by apply (ok_writeBuffer _ _ _ Hc)].
    case_bool_decide as Hb; [by apply (ok_writeBuffer _ _ _ Hc)|].
    intros E. apply writeBufferLoop_ok in E; [|done..|by apply chunks_nonempty]. by rewrite chunks_concat in E.
Qed.

(** *** Packets *)

Context (k : Z) {D : Type} (psent : N -> list (list ascii * D)) (precv : N -> list (list ascii)).

(** Every packet is sent whole and counted, or neither; a packet that is read was counted, and
    is handed out whole or emptied.  A [strict] connection drops nothing silently. *)
Record packets_ok (strict : Prop) (k' : Z) (p : PacketConn N D) : Prop := {
  ok_writePacket b dest st err st' :
    l ∈ dom (io_storages st) -> WritePacket p b dest st = (err, st') ->
    exists s : bool, psent (io_net st') = psent (io_net st) ++ (if s then [(b, dest)] else []) /\
      precv (io_net st') = precv (io_net st) /\
      booked l k' st st' 0 (if s then Z.of_nat (length b) else 0) /\
      (err <> None -> s = false) /\ (strict -> s = false -> err <> None);
  ok_readPacket st data dest st' :
    l ∈ dom (io_storages st) -> ReadPacket p st = (((data, dest), None), st') ->
    exists full, precv (io_net st') = precv (io_net st) ++ [full] /\
      psent (io_net st') = psent (io_net st) /\
      booked l k' st st' (Z.of_nat (length full)) 0 /\ (data = full \/ (~ strict /\ data = []))
}.

Lemma PacketConnCounter_ok p : packets_ok True 0 p -> packets_ok True 1 (NewPacketConnCounter p l).
Proof using Type.
  intros [Hw Hr]. split; simpl.
  - intros b dest st err st' Hl. destruct (WritePacket p b dest st) as [err1 st1] eqn:E.
    apply Hw in E as (s & Hs & Hv & Hb & Herr & Hst); [|done]. intros [= <- <-]. exists s. split_and!; try done.
    destruct err1 as [e|]; simpl.
    + rewrite Herr in * by done. eapply booked_count; [exact Hb | by apply booked_none].
    + destruct s; [|by destruct (Hst I eq_refl)].
      eapply booked_count; [exact Hb|]. apply counted_down; [by rewrite (bk_dom _ _ _ _ _ _ Hb) | done | lia].
  - intros st data dest st' Hl. destruct (ReadPacket p st) as [[[data1 dest1] err1] st1] eqn:E.
    intros [= <- <- -> <-]. apply Hr in E as (full & Hv & Hs & Hb & Hd); [|done]. exists full. split_and!; try done.
    destruct Hd as [-> | [Hd _]]; [|by destruct Hd]. simpl.
    eapply booked_count; [exact Hb|]. apply counted_up; [by rewrite (bk_dom _ _ _ _ _ _ Hb) | done | lia].
Qed.

Lemma allowOn_frame w n st r st' :
  allowOn clock env w n st = (r, st') -> io_net st' = io_net st /\ io_storages st' = io_storages st.
Proof. unfold allowOn. destruct (Allow _ _ _) as [r1 v]. intros [= _ <-]. done. Qed.

Lemma RateLimitedPacketConn_ok strict p rl wl :
  packets_ok strict k p -> packets_ok False k (NewRateLimitedPacketConn clock env p rl wl).
Proof.
  intros Hp.
  assert (forall b dest st err st', l ∈ dom (io_storages st) -> WritePacket p b dest st = (err, st') ->
    exists s : bool, psent (io_net st') = psent (io_net st) ++ (if s then [(b, dest)] else []) /\
      precv (io_net st') = precv (io_net st) /\ booked l k st st' 0 (if s then Z.of_nat (length b) else 0) /\
      (err <> None -> s = false) /\ (False -> s = false -> err <> None)) as Hw.
  { intros b dest st err st' Hl E. apply (ok_writePacket _ _ _ Hp) in E as (s & Hs); [|done].
    exists s. naive_solver. }
  assert (forall st data dest st', l ∈ dom (io_storages st) -> ReadPacket p st = (((data, dest), None), st') ->
    exists full, precv (io_net st') = precv (io_net st) ++ [full] /\ psent (io_net st') = psent (io_net st) /\
      booked l k st st' (Z.of_nat (length full)) 0 /\ (data = full \/ (~ False /\ data = []))) as Hr.
  { intros st data dest st' Hl E. apply (ok_readPacket _ _ _ Hp) in E as (full & Hs); [|done].
    exists full. naive_solver. }
  assert (packets_ok False k (mkPacketConn (limitedReadPacket clock env p rl) (limitedWritePacket clock env p wl)))
    as Hok; [|by destruct rl, wl]. split; simpl.
  - intros b dest st err st' Hl. unfold limitedWritePacket. destruct wl as [w|]; [|by apply Hw].
    case_bool_decide; [|by apply Hw].
    destruct (allowOn _ _ _ _ _) as [[allowed e] st1] eqn:Ea. apply allowOn_frame in Ea as [En Es].
    destruct e as [e|]; [|destruct allowed].
    + intros [= <- <-]. exists false. rewrite En, app_nil_r. split_and!; try done. by apply booked_none.
    + intros E. apply Hw in E as (s & Hs & Hv & Hb & He & Hst); [|by rewrite Es].
      exists s. rewrite En in *. split_and!; try done. by eapply booked_frame.
    + intros [= <- <-]. exists false. rewrite En, app_nil_r. split_and!; try done. by apply booked_none.
  - intros st data dest st' Hl. unfold limitedReadPacket.
    destruct (ReadPacket p st) as [[[data1 dest1] [e|]] st1] eqn:E; [done|].
    apply Hr in E as (full & Hv & Hs & Hb & Hd); [|done].
    destruct rl as [w|]; [|by intros [= <- <- <-]; eauto].
    case_bool_decide; [|by intros [= <- <- <-]; eauto].
    destruct (allowOn _ _ _ _ _) as [[allowed [e|]] st2] eqn:Ea; [done|]. apply allowOn_frame in Ea as [En Es].
    intros [= Hpkt <-]. exists full. rewrite En. split_and!; try done; [by eapply booked_frame_r|].
    destruct allowed; injection Hpkt as <- <-; naive_solver.
Qed.
End Preservation.

(** ** Routed connections (src/cmd/mini-sb-agent/main.go) *)

Section Routed.
Context `{Float64} `{Build} {N D : Type}.
Context (clock : nat -> nat -> Z) (env : nat -> nat -> RateLimiter -> RateLimiter).

(** [Hook.users] may be nil. *)
Definition ResolveUser (um : option UserManager) (user : string) : string :=
  match um with Some m => Resolve user m | None => user end.

Definition directionalLimiters (um : option UserManager) (user : string)
  : option limloc * option limloc * option limloc * option limloc :=
  match um with Some m => DirectionalLimiters user m | None => (None, None, None, None) end.

Definition RoutedConnection (um : option UserManager) (tag user : string) (c : Conn N) (hk : Hook)
  : Conn N * Hook :=
  if bool_decide (user = "") then (c, hk) else
  let '(nodeRead, nodeWrite, userRead, userWrite) := directionalLimiters um user in
  let (l, hk) := userStorage tag (ResolveUser um user) hk in
  (NewRateLimitedConn clock env
    (NewRateLimitedConn clock env (NewConnCounter c l) nodeRead nodeWrite) userRead userWrite, hk).

Definition RoutedPacketConnection (um : option UserManager) (tag user : string) (p : PacketConn N D) (hk : Hook)
  : PacketConn N D * Hook :=
  if bool_decide (user = "") then (p, hk) else
  let '(nodeRead, nodeWrite, userRead, userWrite) := directionalLimiters um user in
  let (l, hk) := userStorage tag (ResolveUser um user) hk in
  (NewRateLimitedPacketConn clock env
    (NewRateLimitedPacketConn clock env (NewPacketConnCounter p l) nodeRead nodeWrite) userRead userWrite, hk).

(** C6. The connection a tracker returns for a known user still delivers a prefix of what is
    written (the whole of it without an error) and hands out what is received, and the bytes
    counted for it, in 64-bit arithmetic, on the storage of the inbound and of the user the name
    resolves to are exactly the bytes sent and received, each in its direction, except those
    that went through a [WriteBuffer] or [ReadBuffer] of the connection below that failed. *)
Theorem routed_connection_accounts (W : Wire N) um tag user c hk c' hk' :
  user <> "" -> network_ok W c -> RoutedConnection um tag user c hk = (c', hk') ->
  exists l, ptr hk' (tagOf tag) (ResolveUser um user) = Some l /\ conn_ok W l c'.
Proof.
  intros Hu Hc. unfold RoutedConnection. rewrite bool_decide_eq_false_2 by done.
  destruct (directionalLimiters um user) as [[[nr nw] ur] uw].
  destruct (userStorage tag _ hk) as [l hk1] eqn:E. intros [= <- <-]. apply userStorage_ptr in E as [Hp _].
  exists l. split; [done|]. do 2 apply RateLimitedConn_ok. apply ConnCounter_ok, Hc.
Qed.

(** A routed packet connection sends every packet whole or not at all; a packet is counted for
    the user exactly when it is sent, so a packet the limiters drop is not billed.  Packets
    read are counted before the limiters may empty them. *)
Theorem routed_packets_accounted psent precv um tag user (p : PacketConn N D) hk p' hk' :
  user <> "" -> (forall l, packets_ok l psent precv True 0 p) ->
  RoutedPacketConnection um tag user p hk = (p', hk') ->
  exists l, ptr hk' (tagOf tag) (ResolveUser um user) = Some l /\ packets_ok l psent precv False 1 p'.
Proof.
  intros Hu Hc. unfold RoutedPacketConnection. rewrite bool_decide_eq_false_2 by done.
  destruct (directionalLimiters um user) as [[[nr nw] ur] uw].
  destruct (userStorage tag _ hk) as [l hk1] eqn:E. intros [= <- <-]. apply userStorage_ptr in E as [Hp _].
  exists l. split; [done|]. apply RateLimitedPacketConn_ok with False, RateLimitedPacketConn_ok with True. apply PacketConnCounter_ok, Hc.
Qed.

(** ** Closed limiters *)

Lemma Wait_closed n clk en lim :
  0 < n -> closed lim = true -> (forall i x, closed x = true -> closed (en i x) = true) ->
  exists lim', Wait n clk en (Some lim) = Some (([], Some ErrLimiterClosed), Some lim').
Proof.
  intros Hn Hcl Hen. unfold Wait. destruct (n <=? 0) eqn:E; bool_inv; [lia|].
  assert (exists f, Z.to_nat n = S f) as [f ->] by (exists (pred (Z.to_nat n)); lia). simpl.
  destruct (n <=? 0) eqn:E'; bool_inv; [lia|].
  assert (closed (en 0%nat lim) = true) as Hc0 by auto.
  rewrite Hc0, !orb_true_r. rewrite reserve_closed by auto. simpl. eauto.
Qed.

Lemma waitOn_closed w n st lim :
  0 < n -> io_limiters st !! w = Some lim -> closed lim = true ->
  (forall i j x, closed x = true -> closed (env i j x) = true) ->
  exists st' : IO N, waitOn clock env w n st = (Some ErrLimiterClosed, st') /\
    io_net st' = io_net st /\ io_storages st' = io_storages st.
Proof.
  intros Hn Hw Hcl Hen. unfold waitOn. rewrite Hw.
  destruct (Wait_closed n (clock (io_calls st)) (env (io_calls st)) lim) as [lim' ->]; eauto.
Qed.

(** Once the write limiter of a user is closed, as it is when the user is removed, no byte
    leaves through the user's connections and none is counted: every write fails with the
    limiter's error. *)
Theorem closed_limiter_stops_writes m tag user (c : Conn N) hk c' hk' pr b st lim :
  user <> "" -> userPair user m = Some pr -> RoutedConnection (Some m) tag user c hk = (c', hk') ->
  io_limiters st !! tx pr = Some lim -> closed lim = true ->
  (forall i j x, closed x = true -> closed (env i j x) = true) -> b <> [] ->
  exists st1 st2, Write c' b st = ((0, Some ErrLimiterClosed), st1) /\
    WriteBuffer c' b st = (Some ErrLimiterClosed, st2) /\
    Forall (fun st' => io_net st' = io_net st /\ io_storages st' = io_storages st) [st1; st2].
Proof.
  intros Hu Hpr. unfold RoutedConnection, directionalLimiters, DirectionalLimiters.
  rewrite bool_decide_eq_false_2 by done. rewrite Hpr. destruct (userStorage tag _ hk) as [l hk1].
  intros [= <- <-] Hlim Hcl Hen Hb. cbn [option_fmap option_map NewRateLimitedConn Write WriteBuffer].
  unfold limitedWrite, limitedWriteBuffer. rewrite !bool_decide_eq_false_2 by done.
  pose proof (chunks_bound b) as Hbound. pose proof (chunks_nonempty b Hb) as Hne.
  destruct (chunks b) as [|ch todo]; [done|]. apply Forall_cons in Hbound as [[Hch _] _].
  destruct (waitOn_closed (tx pr) (Z.of_nat (length ch)) st lim) as (st' & E & Hf); try done.
  { destruct ch; [done|]. simpl. lia. }
  exists st', st'. simpl. rewrite E. split_and!; try done. by rewrite !Forall_cons, Forall_nil.
Qed.
End Routed.

(** ** Example: a pipe under the wrappers *)

Module Pipe.
#[local] Existing Instance exact_float.
#[local] Existing Instance UserManager.Fixture.full_build.

(** Input still to come, bytes received, bytes sent, and those of them a failed [WriteBuffer]
    sent. *)
Record Net := mkNet { input : list ascii; received : list ascii; written : list ascii; cutOff : Z }.

Definition setNet (n : Net) (st : IO Net) : IO Net :=
  mkIO (io_limiters st) (io_storages st) (io_slept st) (io_calls st) n.

Definition pipeRead (len : nat) (st : IO Net) : (list ascii * option error) * IO Net :=
  let n := io_net st in
  ((take len (input n), None),
   setNet (mkNet (drop len (input n)) (received n ++ take len (input n)) (written n) (cutOff n)) st).

Definition pipeWrite (b : list ascii) (lost : Z) (st : IO Net) : IO Net :=
  let n := io_net st in setNet (mkNet (input n) (received n) (written n ++ b) (cutOff n + lost)) st.

(** A buffer of more than 8 bytes breaks after the fourth. *)
Definition pipeWriteBuffer (b : list ascii) (st : IO Net) : option error * IO Net :=
  if bool_decide (8 < length b)%nat then (Some (New "broken pipe"), pipeWrite (take 4 b) 4 st)
  else (None, pipeWrite b 0 st).

Definition pipe : Conn Net :=
  mkConn pipeRead (fun b st => ((Z.of_nat (length b), None), pipeWrite b 0 st)) (pipeRead 4096) pipeWriteBuffer.

Definition pipeWire : Wire Net := mkWire written received cutOff (fun _ => 0).

Lemma pipe_ok : network_ok pipeWire pipe.
Proof.
  split; simpl.
  - intros b st n err st' [= <- <- <-]. simpl. rewrite Nat2Z.id, firstn_all, Z.add_0_r. split_and!; done || lia.
  - intros len st data err st' [= <- <- <-]. simpl. rewrite length_take. split_and!; done || lia.
  - intros st data err st' [= <- <- <-]. done.
  - intros b st err st'. unfold pipeWriteBuffer. case_bool_decide; intros [= <- <-]; (split; [done|]); simpl.
    + exists (take 4 b), (drop 4 b). rewrite take_drop, length_take. split_and!; done || lia.
    + exists b, []. rewrite app_nil_r, Z.add_0_r. done.
Qed.

Definition clk (_ _ : nat) : Z := 0.
Definition quietLimiters (_ _ : nat) (l : RateLimiter) : RateLimiter := l.

(** The user of the example of [UserManager], with a limit. *)
Definition manager : UserManager := UserManager.Fixture.applied.1.

Definition routed : Conn Net * Hook := RoutedConnection clk quietLimiters (Some manager) "vless-1-in" "uuid-a" pipe NewHook.

Lemma routed_connection_accounts_witness :
  exists l, ptr routed.2 (tagOf "vless-1-in") (ResolveUser (Some manager) "uuid-a") = Some l /\
    conn_ok pipeWire l routed.1.
Proof.
  apply (routed_connection_accounts clk quietLimiters pipeWire (Some manager) "vless-1-in" "uuid-a" pipe NewHook
    routed.1 routed.2).
  - discriminate.
  - exact pipe_ok.
  - reflexivity.
Defined.

(** The bytes a failing [WriteBuffer] has sent are not billed. *)
Example failed_buffer_is_not_billed :
  let st := mkIO ∅ (heap routed.2) [] 0 (mkNet [] [] [] 0) in
  let '(err, st') := WriteBuffer (NewConnCounter pipe 0) (bytes "0123456789") st in
  err <> None /\ written (io_net st') = bytes "0123" /\ DownCounter (load (io_storages st') 0) = 0.
Proof. vm_compute. split_and!; done. Qed.

(** Alice's write limiter, closed. *)
Definition alicePair : limiterPair := default (mkPair 0 0) (userPair "uuid-a" manager).

Definition afterRemoval : IO Net :=
  mkIO {[tx alicePair := Close (NewRateLimiter 1000 0)]} (heap routed.2) [] 0 (mkNet [] [] [] 0).

Lemma closed_limiter_stops_writes_witness :
  exists st1 st2, Write routed.1 (bytes "hello") afterRemoval = ((0, Some ErrLimiterClosed), st1) /\
    WriteBuffer routed.1 (bytes "hello") afterRemoval = (Some ErrLimiterClosed, st2) /\
    Forall (fun st' => io_net st' = io_net afterRemoval /\ io_storages st' = io_storages afterRemoval) [st1; st2].
Proof.
  apply (closed_limiter_stops_writes clk quietLimiters manager "vless-1-in" "uuid-a" pipe NewHook routed.1 routed.2
    alicePair (bytes "hello") afterRemoval (Close (NewRateLimiter 1000 0))).
  - discriminate.
  - vm_compute. reflexivity.
  - reflexivity.
  - apply lookup_singleton_eq.
  - reflexivity.
  - done.
  - discriminate.
Defined.

(** Packets sent and received. *)
Definition packetPipe : PacketConn (list (list ascii * nat) * list (list ascii)) nat :=
  mkPacketConn
    (fun st => let p := bytes "ping" in
               (((p, 7%nat), None), mkIO (io_limiters st) (io_storages st) (io_slept st) (io_calls st)
                                 ((io_net st).1, (io_net st).2 ++ [p])))
    (fun b dest st => (None, mkIO (io_limiters st) (io_storages st) (io_slept st) (io_calls st)
                               ((io_net st).1 ++ [(b, dest)], (io_net st).2))).

Lemma packetPipe_ok l : packets_ok l fst snd True 0 packetPipe.
Proof.
  assert (forall (st st' : IO (list (list ascii * nat) * list (list ascii))) u d,
    io_storages st' = io_storages st -> booked l 0 st st' u d) as Hbk.
  { intros st st' u d E. split; unfold storageOf; rewrite E; rewrite ?Z.mul_0_l, ?Z.add_0_r; done. }
  split.
  - intros b dest st err st' _ [= <- <-]. exists true. split_and!; try done. by apply Hbk.
  - intros st data dest st' _ [= <- <- <-]. eexists. split_and!; [done..| |by left]. by apply Hbk.
Qed.

Definition routedPackets : PacketConn (list (list ascii * nat) * list (list ascii)) nat * Hook :=
  RoutedPacketConnection clk quietLimiters (Some manager) "vless-1-in" "uuid-a" packetPipe NewHook.

Lemma routed_packets_accounted_witness :
  exists l, ptr routedPackets.2 (tagOf "vless-1-in") (ResolveUser (Some manager) "uuid-a") = Some l /\
    packets_ok l fst snd False 1 routedPackets.1.
Proof.
  apply (routed_packets_accounted clk quietLimiters fst snd (Some manager) "vless-1-in" "uuid-a" packetPipe NewHook
    routedPackets.1 routedPackets.2).
  - discriminate.
  - exact packetPipe_ok.
  - reflexivity.
Defined.
End Pipe.
