(* ===== verification/TopologyPanel.v ===== *)
(** * One panel for many nodes (src/cmd/mini-sb-agent/topology_panel.go)

    [topologyPanel] runs one client per node.  Its state is the whole system: the agent's
    traffic hook, user manager and inbounds, and the remote services.  A ghost remembers for
    which inbound and user every traffic storage was made, and credits the bytes that go through
    a storage to them for as long as a connection holds it, also when the counters have dropped
    the storage. *)

From S2P Require Import Prelude GoStrings Topology Counter Hook PanelTypes Sync Client RateLimit Inbounds UserManager.

#[local] Open Scope Z_scope.

(** Which inbound and user a storage was made for; the bytes of the connections opened for an
    inbound and user; those of them that went through a storage the counters had dropped. *)
Record Ghost := mkGhost {
  owner : gmap loc (string * string);
  credited : string -> string -> usage;
  detached : string -> string -> usage
}.

Definition noGhost : Ghost := mkGhost ∅ (fun _ _ => (0, 0)) (fun _ _ => (0, 0)).

Record World (R : Type) := mkWorld {
  hook : Hook;
  manager : UserManager;
  inbounds : inboundMap;
  remote : R;
  ghost : Ghost
}.
Arguments mkWorld {R} _ _ _ _ _.
Arguments hook {R} _.
Arguments manager {R} _.
Arguments inbounds {R} _.
Arguments remote {R} _.
Arguments ghost {R} _.

Definition counted {R} (w : World R) : string -> string -> usage := credited (ghost w).
Definition stranded {R} (w : World R) : string -> string -> usage := detached (ghost w).

(** ** Merging the users of all nodes *)

(** The definitions of one user on two nodes agree; names are not compared. *)
Definition sameDefinition (a b : User) : bool :=
  bool_decide (UUID a = UUID b) && bool_decide (Password a = Password b) &&
  (SpeedLimit a =? SpeedLimit b).

Definition conflict (id : Z) (nodeKey : string) : error :=
  New ("conflicting user definition for ID " +:+ Itoa id +:+ " across nodes (" +:+ nodeKey +:+ ")").

Fixpoint mergeList (nodeKey : string) (us : list User) (merged : snapshot) : res error snapshot :=
  match us with
  | [] => Ok merged
  | u :: us =>
      match merged !! ID u with
      | Some existing =>
          if sameDefinition existing u then mergeList nodeKey us merged
          else Err (conflict (ID u) nodeKey)
      | None => mergeList nodeKey us (<[ID u := u]> merged)
      end
  end.

Fixpoint mergeNodes (es : list (string * list User)) (merged : snapshot) : res error snapshot :=
  match es with
  | [] => Ok merged
  | (nodeKey, us) :: es => merged ← mergeList nodeKey us merged; mergeNodes es merged
  end.

Section TopologyPanel.
Context `{UnicodeTables} `{MapOrder} `{Float64} `{Build} {R : Type} `{Net R}.
Implicit Types (w : World R) (nodes : list NodeSpec).

Definition mergeUsersByNode (usersByNode : gmap string (list User)) : res error (list User) :=
  merged ← mergeNodes (go_range 30 usersByNode) ∅;
  mret (go_range 31 merged).*2.

Record topologyPanel := mkTopologyPanel {
  clients : list Client;
  nodes : list NodeSpec;
  apply : option (gmap string (list User) -> World R -> option error * World R)
}.

Definition newTopologyPanel (baseURL token : string) (ns : list NodeSpec) ap : topologyPanel :=
  mkTopologyPanel (NewNodeClient baseURL token <$> ns) ns ap.

Definition setRemote (r : R) w : World R :=
  mkWorld (hook w) (manager w) (inbounds w) r (ghost w).

(** The fetch loop, clients and nodes side by side. *)
Fixpoint fetchAll (cs : list (Client * NodeSpec)) (byNode : gmap string (list User)) (r : R)
  : res error (gmap string (list User)) * R :=
  match cs with
  | [] => (Ok byNode, r)
  | (c, n) :: cs =>
      let (us, r) := Client_FetchUsers c r in
      match us with
      | Err e => (Err (wrapErr ("fetch users for " +:+ Key n) e), r)
      | Ok us => fetchAll cs (<[Key n := us]> byNode) r
      end
  end.

Definition topologyPanel_FetchUsers (p : topologyPanel) w : res error (list User) * World R :=
  let (byNode, r) := fetchAll (zip (clients p) (nodes p)) ∅ (remote w) in
  let w := setRemote r w in
  match byNode with
  | Err e => (Err e, w)
  | Ok byNode =>
      match mergeUsersByNode byNode with
      | Err e => (Err e, w)
      | Ok merged =>
          match apply p with
          | None => (Ok merged, w)
          | Some ap =>
              let (err, w) := ap byNode w in
              (match err with Some e => Err e | None => Ok merged end, w)
          end
      end
  end.

(** The push loop: the acknowledged tags and the errors so far. *)
Fixpoint pushAll (cs : list (Client * NodeSpec)) (d : delta) (acked : ackSet) (errs : list error)
    (r : R) : (ackSet * list error) * R :=
  match cs with
  | [] => ((acked, errs), r)
  | (c, n) :: cs =>
      let '((_, err), r) := Client_PushTraffic c d r in
      match err with
      | Some e => pushAll cs d acked (errs ++ [wrapErr ("push traffic for " +:+ Key n) e]) r
      | None => pushAll cs d (<[InboundTag n := true]> acked) errs r
      end
  end.

(** [errors.Join]. *)
Definition joinErrors (errs : list error) : option error :=
  match errs with [] => None | _ => Some (Error "" errs) end.

Definition topologyPanel_PushTraffic (p : topologyPanel) (d : delta) w
  : (ackSet * option error) * World R :=
  let '((acked, errs), r) := pushAll (zip (clients p) (nodes p)) d ∅ [] (remote w) in
  ((acked, joinErrors errs), setRemote r w).

Definition asPanel (p : topologyPanel) : Panel (World R) :=
  mkPanel (topologyPanel_FetchUsers p) (topologyPanel_PushTraffic p).

(** ** The agent in topology mode (main) *)

(** The time the limiters read while the users are applied. *)
Context (clock : World R -> limloc -> Z).

(** The apply callback main gives to [newTopologyPanel]. *)
Definition applyTopology (ns : list NodeSpec) (byNode : gmap string (list User)) w
  : option error * World R :=
  let '(err, (m, inb)) :=
    ApplyBoxByInbound (clock w) (groupNodeUsers ns byNode) (manager w, inbounds w) in
  (err, mkWorld (hook w) m inb (remote w) (ghost w)).

Definition pruneStats w : World R :=
  mkWorld (Hook_RemoveAbsent (ActiveIDs (manager w)) (hook w)) (manager w) (inbounds w)
    (remote w) (ghost w).

(** [newPanelUsersCallback] in both modes. *)
Definition newPanelUsersCallback (topologyMode : bool) (us : list User) w
  : option error * World R :=
  if topologyMode then (None, pruneStats w) else
  let '(err, (m, inb)) := ApplyBox (clock w) us (manager w, inbounds w) in
  let w := mkWorld (hook w) m inb (remote w) (ghost w) in
  match err with Some e => (Some e, w) | None => (None, pruneStats w) end.

Definition snapshotDelta w : delta := Hook_SnapshotDelta (hook w).
Definition commitSnapshot (d : delta) w : World R :=
  mkWorld (Hook_CommitSnapshot d (hook w)) (manager w) (inbounds w) (remote w) (ghost w).

(** The synchroniser main starts. *)
Definition agentSyncer (panel : Panel (World R)) (topologyMode : bool) (panelEvery : Z)
  : Syncer (World R) :=
  mkSyncer (Some panel) (Some snapshotDelta) (Some commitSnapshot)
    (Some (newPanelUsersCallback topologyMode)) panelEvery.

Definition topologyAgent (baseURL token : string) (ns : list NodeSpec) (panelEvery : Z)
  : Syncer (World R) :=
  agentSyncer (asPanel (newTopologyPanel baseURL token ns (Some (applyTopology ns)))) true panelEvery.

(** Shutdown: the loop has returned, the box is closed (which may still move traffic), the
    rest is pushed. *)
Definition shutdown (s : Syncer (World R)) (closeBox : World R -> World R) env w : World R :=
  FinalFlush s env (closeBox w).
End TopologyPanel.

(** ** Accounting *)

(** Numeric keys of the counters are ids of panel users. *)
Definition keys_ok (hk : Hook) : Prop :=
  forall t u, is_Some (ptr hk t u) -> isNumericUser u = true -> panelUser u.

(** The bytes of an event and the storage they go through. *)
Definition bytesOf (e : hook_event) : option (loc * usage) :=
  match e with
  | EvOpen _ _ => None
  | EvUp l n => Some (l, (n, 0))
  | EvDown l n => Some (l, (0, n))
  end.

(** A connection is opened for an inbound and a user, and its storage is theirs. *)
Definition openOwner (hk : Hook) (e : hook_event) (own : gmap loc (string * string)) :=
  match e with
  | EvOpen tag user => <[(userStorage tag user hk).1 := (tagOf tag, user)]> own
  | _ => own
  end.

(** The bytes of an event that belong to a user on an inbound, and those of them that no
    counter of the hook sees. *)
Definition bytesFor (own : gmap loc (string * string)) (e : hook_event) (t u : string) : usage :=
  match bytesOf e with
  | Some (l, b) => if decide (own !! l = Some (t, u)) then b else (0, 0)
  | None => (0, 0)
  end.

Definition bytesUnseen (hk : Hook) (own : gmap loc (string * string)) (e : hook_event) (t u : string) : usage :=
  match bytesOf e with
  | Some (l, b) => if decide (own !! l = Some (t, u) /\ ptr hk t u <> Some l) then b else (0, 0)
  | None => (0, 0)
  end.

Definition ghost_step (hk : Hook) (e : hook_event) (g : Ghost) : Ghost :=
  let own := openOwner hk e (owner g) in
  mkGhost own (fun t u => uadd (credited g t u) (bytesFor own e t u))
    (fun t u => uadd (detached g t u) (bytesUnseen hk own e t u)).

Fixpoint ghost_run (evs : list hook_event) (hk : Hook) (g : Ghost) : Ghost :=
  match evs with
  | [] => g
  | e :: evs => ghost_run evs (hook_step hk e) (ghost_step hk e g)
  end.

(** Connections open and move traffic; the ghost follows. *)
Definition traffic {R} (evs : list hook_event) (w : World R) : World R :=
  mkWorld (run evs (hook w)) (manager w) (inbounds w) (remote w) (ghost_run evs (hook w) (ghost w)).

Definition key_event_ok (e : hook_event) : Prop :=
  match e with EvOpen _ u => isNumericUser u = true -> panelUser u | _ => True end.

(** The storage the counters keep for a user on an inbound was made for them. *)
Definition owned (hk : Hook) (g : Ghost) : Prop :=
  forall t u l, ptr hk t u = Some l -> owner g !! l = Some (t, u).

Definition world_ok {R} (w : World R) : Prop :=
  hook_ok (hook w) /\ keys_ok (hook w) /\ owned (hook w) (ghost w).

Definition traffic_ok {R} (w : World R) (evs : list hook_event) : Prop :=
  events_ok (hook w) evs /\ Forall key_event_ok evs.

(** What the agent relies on from the panel service, per node: an answer in the 200s means
    that the pushed usage was added to the node's ledger.  When a push fails the agent does not
    know: the service may have booked any part of it, for instance when its answer was lost;
    [disputed] is what it booked in this way.  Other requests book nothing. *)
Definition nodeOf (u : URL) : string * string :=
  (default "" (url_query u !! "node_type"), default "" (url_query u !! "node_id")).

Definition success (r : res error response) : bool :=
  match r with Ok resp => is2xx (StatusCode resp) | Err _ => false end.

(** What a push asks for, of a user of a node. *)
Definition due (ep : URL) (p : PushRequest) (n : string * string) (id : Z) : usage :=
  if bool_decide (n = nodeOf ep) then default (0, 0) (p !! id) else (0, 0).

(** A part of an amount, possibly nothing. *)
Definition partOf (d v : usage) : Prop := d = (0, 0) \/ ule (0, 0) d /\ ule d v.

Class BookingService (R : Type) `{Net R} := {
  ledger : R -> string * string -> Z -> usage;
  disputed : R -> string * string -> Z -> usage;
  get_books_nothing : forall ep r n id,
    let r' := (http_do "GET" ep None r).2 in
    ledger r' n id = ledger r n id /\ disputed r' n id = disputed r n id;
  post_books : forall ep p r n id,
    let (resp, r') := http_do "POST" ep (Some p) r in
    if success resp
    then ledger r' n id = uadd (ledger r n id) (due ep p n id) /\ disputed r' n id = disputed r n id
    else exists d, partOf d (due ep p n id) /\
      ledger r' n id = uadd (ledger r n id) d /\ disputed r' n id = uadd (disputed r n id) d
}.

Section Accounting.
Context `{UnicodeTables} `{MapOrder} `{Float64} `{Build} {R : Type} `{BookingService R}.
Implicit Types (w : World R).

Definition remoteNode (n : NodeSpec) : string * string := (PanelNodeType n, NodeID n).

(** What a ledger of the panel holds for a user on the node of an inbound. *)
Definition entryFor (ns : list NodeSpec) (book : string * string -> Z -> usage) (tag user : string) : usage :=
  match list_find (fun n => InboundTag n = tag) ns, Atoi user with
  | Some (_, n), Some id =>
      if decide (0 <= id <= int64_max /\ user = Itoa id) then book (remoteNode n) id else (0, 0)
  | _, _ => (0, 0)
  end.

(** What the panel has booked for them, and what of it under pushes that failed. *)
Definition bookedFor ns (r : R) (tag user : string) : usage := entryFor ns (ledger r) tag user.
Definition disputedFor ns (r : R) (tag user : string) : usage := entryFor ns (disputed r) tag user.

(** What the panel has booked under pushes it acknowledged. *)
Definition confirmed (r : R) (n : string * string) (id : Z) : usage := usub (ledger r n id) (disputed r n id).
Definition confirmedFor ns (r : R) (tag user : string) : usage := entryFor ns (confirmed r) tag user.

(** The bytes of the user's connections, and what was booked twice, are what is booked, what is
    pending and what went through dropped counters. *)
Definition balanced ns w (t u : string) : Prop :=
  uadd (counted w t u) (disputedFor ns (remote w) t u) =
  uadd (uadd (bookedFor ns (remote w) t u) (pending (hook w) t u)) (stranded w t u).

Definition agentAccounts (ns : list NodeSpec) : Accounts (World R) :=
  mkAccounts world_ok (fun w => pending (hook w)) (fun w => confirmedFor ns (remote w))
    (fun w t u => usub (counted w t u) (stranded w t u)).

Lemma confirmedFor_split ns r t u :
  confirmedFor ns r t u = usub (bookedFor ns r t u) (disputedFor ns r t u).
Proof.
  unfold confirmedFor, bookedFor, disputedFor, entryFor. destruct (list_find _ ns) as [[? ?]|]; [|done].
  destruct (Atoi u); [|done]. by case_decide.
Qed.

Lemma balanced_accounted ns scope w :
  accounted (agentAccounts ns) scope w <->
  forall t u, scope t -> isNumericUser u = true -> balanced ns w t u.
Proof.
  unfold accounted, balanced, agentAccounts, pend, booked, total.
  split; intros Ha t u Ht Hu; specialize (Ha t u Ht Hu); revert Ha; rewrite confirmedFor_split;
    unfold uadd, usub; simpl; intros [= E1 E2]; f_equal; lia.
Qed.

(** A push seen as the agent sees it: an acknowledged one is booked, another one is not. *)
Lemma post_confirms ep p r n id :
  let (resp, r') := http_do "POST" ep (Some p) r in
  confirmed r' n id = uadd (confirmed r n id) (if success resp then due ep p n id else (0, 0)).
Proof.
  pose proof (post_books ep p r n id) as Hb. destruct (http_do "POST" ep (Some p) r) as [resp r'].
  unfold confirmed. destruct (success resp).
  - destruct Hb as [-> ->]. unfold uadd, usub; simpl. f_equal; lia.
  - destruct Hb as (d & _ & -> & ->). unfold uadd, usub; simpl. f_equal; lia.
Qed.

Lemma keys_ok_step hk e : keys_ok hk -> key_event_ok e -> keys_ok (hook_step hk e).
Proof.
  intros Hk He t u Hp Hn. destruct e as [tag user|l n|l n]; simpl in *; [|by apply (Hk t u)..].
  destruct (userStorage tag user hk) as [l hk'] eqn:E. simpl in Hp.
  apply userStorage_ptr in E as (_ & _ & Hother).
  destruct (decide ((t, u) = (tagOf tag, user))) as [[= -> ->]|Hne]; [by apply He|].
  rewrite Hother in Hp by done. by apply (Hk t u).
Qed.

Lemma keys_ok_run evs hk : keys_ok hk -> Forall key_event_ok evs -> keys_ok (run evs hk).
Proof.
  intros Hk Hall. apply (foldl_invariant hook_step keys_ok); [done|].
  intros s e He Hs. rewrite Forall_forall in Hall. by apply keys_ok_step, Hall.
Qed.

Lemma owned_step hk e g : hook_ok hk -> owned hk g -> owned (hook_step hk e) (ghost_step hk e g).
Proof.
  intros Hok Ho t u l Hp. destruct e as [tag user|l' n|l' n]; simpl in *; [|by apply Ho..].
  destruct (userStorage tag user hk) as [l0 hk'] eqn:E. simpl in *.
  apply userStorage_ptr in E as (Hp0 & Hcase & Hother).
  destruct (decide ((t, u) = (tagOf tag, user))) as [[= -> ->]|Hne].
  - rewrite Hp0 in Hp. injection Hp as ->. apply lookup_insert_eq.
  - rewrite Hother in Hp by done. rewrite lookup_insert_ne; [by apply Ho|]. intros ->.
    destruct Hcase as [[Hold _]|(_ & Hfresh & _)].
    + apply Ho in Hp, Hold. congruence.
    + destruct (ok_storage hk Hok _ _ _ Hp) as (s & Hs & _). by apply Hfresh, elem_of_dom.
Qed.

(** Of the bytes of a user's connections the counters see those of the storage they keep. *)
Lemma bytesFor_seen hk e g t u :
  owned hk g ->
  usub (bytesFor (openOwner hk e (owner g)) e t u) (bytesUnseen hk (openOwner hk e (owner g)) e t u) =
  from_option (fun l => moved1 l e) (0, 0) (ptr (hook_step hk e) t u).
Proof.
  intros Ho. unfold bytesFor, bytesUnseen, usub.
  destruct e as [tag user|l n|l n]; simpl; [by destruct (ptr _ t u)|..];
    try change (ptr (trafficUp l n hk) t u) with (ptr hk t u);
    try change (ptr (trafficDown l n hk) t u) with (ptr hk t u);
    (destruct (ptr hk t u) as [l'|] eqn:Hp; simpl;
      [pose proof (Ho t u l' Hp); repeat case_decide; simpl; try congruence; try naive_solver; f_equal; lia
      | repeat case_decide; simpl; try naive_solver; f_equal; lia]).
Qed.

(** Events change what is pending for a user by the bytes of its connections that the counters
    see. *)
Lemma ghost_run_pending evs hk g t u :
  hook_ok hk -> owned hk g -> events_ok hk evs ->
  exists b, ule (0, 0) b /\ pending (run evs hk) t u = uadd (pending hk t u) b /\
    usub (credited (ghost_run evs hk g) t u) (detached (ghost_run evs hk g) t u) =
    uadd (usub (credited g t u) (detached g t u)) b.
Proof.
  revert hk g. induction evs as [|e evs IH]; intros hk g Hok Ho Hevs; simpl in *.
  { exists (0, 0). rewrite !uadd_0_r. unfold ule; simpl. split_and!; done || lia. }
  destruct Hevs as [He Hevs].
  destruct (IH (hook_step hk e) (ghost_step hk e g)) as (b & Hb & -> & ->);
    [by apply hook_step_ok | by apply owned_step | done |].
  rewrite pending_step by done. pose proof (bytesFor_seen hk e g t u Ho) as Hseen.
  set (m := from_option _ _ _) in *. exists (uadd m b). split_and!; [| by rewrite uadd_assoc |].
  - assert (ule (0, 0) m) as Hm.
    { unfold m. destruct (ptr _ t u); simpl; [|unfold ule; simpl; lia].
      destruct e; simpl in *; try case_decide; unfold ule; simpl; lia. }
    unfold ule, uadd in *; simpl in *; lia.
  - rewrite <- Hseen. unfold ghost_step, uadd, usub; simpl. f_equal; lia.
Qed.

Lemma owned_run evs hk g : hook_ok hk -> owned hk g -> events_ok hk evs -> owned (run evs hk) (ghost_run evs hk g).
Proof.
  revert hk g. induction evs as [|e evs IH]; intros hk g Hok Ho Hevs; simpl in *; [done|].
  destruct Hevs. apply IH; [by apply hook_step_ok | by apply owned_step | done].
Qed.

(** Traffic is what the environment of the loop may do. *)
Lemma traffic_only_traffic ns (f : World R -> list hook_event) :
  (forall w, world_ok w -> traffic_ok w (f w)) ->
  traffic_only (agentAccounts ns) (fun w => traffic (f w) w).
Proof.
  intros Hf w Hw. pose proof Hw as (Hok & Hk & Ho). destruct (Hf w Hw) as [Hev Hke].
  split; [split_and!; simpl; [by apply run_ok | by apply keys_ok_run | by apply owned_run]|].
  intros t u. destruct (ghost_run_pending (f w) (hook w) (ghost w) t u Hok Ho Hev) as (b & Hb & Hp & Hc).
  by exists b.
Qed.

Lemma ptr_RemoveAbsent_is_Some active hk t u :
  is_Some (ptr (Hook_RemoveAbsent active hk) t u) -> is_Some (ptr hk t u).
Proof. intros [l [Hl _]%ptr_RemoveAbsent]. eauto. Qed.

Lemma prune_neutral ns : neutral (agentAccounts ns) (pruneStats (R := R)).
Proof.
  intros w (Hok & Hk & Ho). split; [split_and!; simpl|].
  - by apply Hook_RemoveAbsent_ok.
  - intros t u Hp. apply ptr_RemoveAbsent_is_Some in Hp. by apply (Hk t u).
  - intros t u l [Hp _]%ptr_RemoveAbsent. by apply Ho.
  - intros t u. simpl. by rewrite pending_RemoveAbsent.
Qed.

(** Pruning drops a storage only when its user is not active and all of it was reported. *)
Lemma pruned_storage_settled w t u l :
  hook_ok (hook w) -> ptr (hook w) t u = Some l -> ptr (hook (pruneStats w)) t u <> Some l ->
  u ∉ ActiveIDs (manager w) /\ pending (hook w) t u = (0, 0).
Proof.
  intros Hok Hp Hd. assert (~ (u ∈ ActiveIDs (manager w) \/ fullyCommitted (load (heap (hook w)) l) = false)) as Hn.
  { intros Hc. apply Hd. by apply ptr_RemoveAbsent. }
  split; [tauto|]. rewrite <- (pending_RemoveAbsent (ActiveIDs (manager w))) by done.
  unfold pending. destruct (ptr (Hook_RemoveAbsent _ _) t u) as [l'|] eqn:Hp'; [|done].
  apply ptr_RemoveAbsent in Hp' as Hp2. destruct Hp2 as [Hp2 _]. simpl in Hd. congruence.
Qed.

(** Steps that leave the hook, the ledgers and the ghost alone are neutral. *)
Lemma same_hook_neutral ns (f : World R -> World R) :
  (forall w, hook (f w) = hook w /\ ghost (f w) = ghost w /\
    forall n id, confirmed (remote (f w)) n id = confirmed (remote w) n id) ->
  neutral (agentAccounts ns) f.
Proof.
  intros Hf w Hw. destruct (Hf w) as (Eh & Ec & El).
  split; [unfold consistent, agentAccounts, world_ok in *; by rewrite Eh, Ec|].
  intros t u. simpl. unfold counted, stranded. rewrite Eh, Ec. split_and!; try done.
  unfold confirmedFor, entryFor. destruct (list_find _ ns) as [[? ?]|]; [|done]. destruct (Atoi u); [|done].
  by case_decide.
Qed.

#[export] Instance hook_traffic_laws ns :
  TrafficLaws (agentAccounts ns) (snapshotDelta (R := R)) commitSnapshot.
Proof.
  split.
  - intros w t u (Hok & _). by apply at2_SnapshotDelta.
  - intros w (Hok & Hk & _) t m u v Hm Hv. rewrite (SnapshotDelta_entry _ _ _ _ _ Hok Hm Hv).
    split_and!; [| by apply pending_nonneg | by apply pending_le].
    intros Hn. apply (Hk t u); [|done]. by eapply SnapshotDelta_ptr.
  - intros d w (Hok & Hk & Ho) Hd. split; [split_and!; simpl|].
    + by apply Hook_CommitSnapshot_ok.
    + intros t u. rewrite ptr_CommitSnapshot. apply Hk.
    + intros t u l. rewrite ptr_CommitSnapshot. apply Ho.
    + intros t u. by apply pending_CommitSnapshot.
  - done.
Qed.

(** ** The panel of a validated topology *)

Lemma node_ok_id n : node_ok n -> NodeID n <> "".
Proof. intros ((Hid & _) & _) E. apply Hid. by rewrite E. Qed.

Lemma PanelNodeType_nonempty n : PanelNodeType n <> "".
Proof. unfold PanelNodeType. by case_bool_decide. Qed.

Lemma InboundTag_nonempty n : InboundTag n <> "".
Proof.
  unfold InboundTag. cbv zeta. case_bool_decide as E; [done|].
  destruct (protocolTag n); done.
Qed.

(** Nodes with distinct keys are distinct for the panel. *)
Lemma remoteNode_Key n m : remoteNode n = remoteNode m -> node_ok n -> node_ok m -> Key n = Key m.
Proof.
  unfold remoteNode, Key, NodeKey, PanelNodeType. intros [= Ht ->] (_ & Hn & _) (_ & Hm & _).
  destruct Hn as [E|E], Hm as [E'|E']; rewrite E, E' in Ht |- *; (reflexivity || discriminate).
Qed.

Lemma endpoint_node base token n path ep :
  node_ok n -> endpoint (NewNodeClient base token n) path = Ok ep -> nodeOf ep = remoteNode n.
Proof.
  intros Hn He. unfold endpoint in He. res_inv.
  pose proof (node_ok_id n Hn). pose proof (PanelNodeType_nonempty n).
  unfold nodeOf, remoteNode, setParam; simpl.
  rewrite (bool_decide_eq_true_2 (PanelNodeType n <> "")) by done.
  rewrite (bool_decide_eq_true_2 (NodeID n <> "")) by done.
  rewrite lookup_insert_eq, lookup_insert_ne by done. by rewrite lookup_insert_eq.
Qed.

Lemma fetch_books_nothing c r n id : confirmed (Client_FetchUsers c r).2 n id = confirmed r n id.
Proof.
  unfold Client_FetchUsers. destruct (endpoint c _) as [ep|e]; [|done].
  pose proof (get_books_nothing ep r n id) as E. destruct (http_do "GET" ep None r) as [resp r'].
  simpl in E |- *. unfold confirmed. destruct E as [-> ->]. done.
Qed.

Lemma fetchAll_books_nothing cs byNode r n id : confirmed (fetchAll cs byNode r).2 n id = confirmed r n id.
Proof.
  revert byNode r. induction cs as [|[c k] cs IH]; intros byNode r; simpl; [done|].
  pose proof (fetch_books_nothing c r n id) as E. destruct (Client_FetchUsers c r) as [[us|e] r1]; simpl in *; [|done].
  by rewrite IH.
Qed.

(** One client's push: its node is billed the delta of its inbound under an acknowledged push
    exactly when no error is returned. *)
Lemma client_push_books base token n d r m id :
  node_ok n -> wf_delta d -> 0 <= id <= int64_max ->
  let '((_, err), r') := Client_PushTraffic (NewNodeClient base token n) d r in
  confirmed r' m id = uadd (confirmed r m id)
    (if bool_decide (err = None /\ m = remoteNode n) then at2 d (InboundTag n) (Itoa id) else (0, 0)).
Proof.
  intros Hn Hd Hid. unfold Client_PushTraffic.
  rewrite flatInbounds_tag by apply InboundTag_nonempty. simpl Client_InboundTag.
  set (c := NewNodeClient base token n).
  set (tag := InboundTag n).
  set (flat := match d !! tag with Some m => foldl flatUser ∅ (go_range 11 m) | None => ∅ end).
  set (ack := match d !! tag with Some _ => {[tag := true]} | None => ∅ end : ackSet).
  assert (match d !! tag with
    | Some m => (foldl flatUser ∅ (go_range 11 m), {[tag := true]})
    | None => (∅, ∅) end = (flat, ack)) as -> by (unfold flat, ack; by destruct (d !! tag)).
  assert (forall u, flat !! u = if isNumericUser u then d !! tag ≫= lookup u else None) as Hflat.
  { intros u. unfold flat. destruct (d !! tag) as [m'|] eqn:Hm; simpl.
    - rewrite flatUsers_lookup. destruct (isNumericUser u); [|done].
      destruct (m' !! u) as [v|] eqn:Hv; simpl; [|done]. f_equal.
      destruct (Hd tag m' u v Hm Hv) as (_ & [] & []). unfold wrapUsage. destruct v; simpl in *.
      rewrite !wrap64_id by (unfold64; lia). done.
    - rewrite lookup_empty. by destruct (isNumericUser u). }
  assert (payloadOf flat !! id = flat !! Itoa id) as Hpay.
  { apply payloadOf_lookup; [|done]. intros u v Hu. rewrite Hflat in Hu.
    destruct (isNumericUser u) eqn:Hnu; [|done]. destruct (d !! tag) as [m'|] eqn:Hm; [|done].
    by destruct (Hd tag m' u v Hm Hu) as (Hp & _); apply Hp. }
  assert (default (0, 0) (flat !! Itoa id) = at2 d tag (Itoa id)) as Hat.
  { rewrite Hflat. rewrite isNumericUser_Itoa by lia. done. }
  case_bool_decide as Hempty.
  { rewrite <- Hat, Hempty, lookup_empty. simpl. case_bool_decide; by rewrite uadd_0_r. }
  destruct (endpoint c _) as [ep|e] eqn:Hep; [|by rewrite bool_decide_eq_false_2, uadd_0_r by naive_solver].
  case_bool_decide as Hpe.
  { rewrite <- Hat, <- Hpay, Hpe, lookup_empty. simpl. case_bool_decide; by rewrite uadd_0_r. }
  pose proof (post_confirms ep (payloadOf flat) r m id) as Hpost.
  destruct (http_do "POST" ep _ r) as [resp r']. unfold due in Hpost.
  rewrite Hpay, Hat, (endpoint_node _ _ _ _ _ Hn Hep) in Hpost.
  destruct resp as [resp|e]; simpl in Hpost.
  - destruct (is2xx (StatusCode resp)); simpl in Hpost |- *; rewrite Hpost; [|done].
    rewrite (bool_decide_ext (None = None /\ m = remoteNode n) (m = remoteNode n)); [done | tauto].
  - by rewrite Hpost, (bool_decide_eq_false_2 (Some e = None /\ _)) by (by intros [? _]).
Qed.

(** The push loop over the nodes of a topology. *)
Definition nodeClients (base token : string) (ns : list NodeSpec) : list (Client * NodeSpec) :=
  (fun n => (NewNodeClient base token n, n)) <$> ns.

Lemma zip_clients base token ns :
  zip (NewNodeClient base token <$> ns) ns = nodeClients base token ns.
Proof. unfold nodeClients. induction ns as [|n ns IH]; simpl; [done|]. f_equal. apply IH. Qed.

Lemma pushAll_spec base token ns d acked errs r :
  Forall node_ok ns -> NoDup (Key <$> ns) -> NoDup (InboundTag <$> ns) -> wf_delta d ->
  exists ok : gset string,
    let '((acked', errs'), r') := pushAll (nodeClients base token ns) d acked errs r in
    (forall t, acked' !! t = if decide (t ∈ ok) then Some true else acked !! t) /\
    (ok ⊆ list_to_set (InboundTag <$> ns)) /\
    (errs' = [] -> errs = [] /\ forall n, n ∈ ns -> InboundTag n ∈ ok) /\
    (forall n id, n ∈ ns -> 0 <= id <= int64_max ->
      confirmed r' (remoteNode n) id = uadd (confirmed r (remoteNode n) id)
        (if decide (InboundTag n ∈ ok) then at2 d (InboundTag n) (Itoa id) else (0, 0))) /\
    (forall n id, node_ok n -> Key n ∉ Key <$> ns -> 0 <= id <= int64_max ->
      confirmed r' (remoteNode n) id = confirmed r (remoteNode n) id).
Proof.
  revert acked errs r. induction ns as [|n ns IH]; intros acked errs r Hok Hk Ht Hd; simpl.
  - exists ∅. split_and!; [done | set_solver | | set_solver | done]. intros ->. split; [done|set_solver].
  - apply Forall_cons in Hok as [Hn Hok]. simpl in Hk, Ht. apply NoDup_cons in Hk as [Hk1 Hk], Ht as [Ht1 Ht].
    pose proof (fun m id => client_push_books base token n d r m id Hn Hd) as Hpush.
    destruct (Client_PushTraffic _ d r) as [[a err] r1].
    assert (forall m, node_ok m -> Key m <> Key n -> remoteNode m <> remoteNode n) as Hrn.
    { intros m Hm Hkm E. by apply Hkm, remoteNode_Key. }
    assert (forall m, m ∈ ns -> remoteNode m <> remoteNode n) as Hne.
    { intros m Hm. rewrite Forall_forall in Hok. apply Hrn; [by apply Hok|].
      intros E. apply Hk1. rewrite <- E. by apply list_elem_of_fmap_2. }
    destruct err as [e|].
    + destruct (IH acked (errs ++ [wrapErr ("push traffic for " +:+ Key n) e]) r1) as (ok & Hrec); try done.
      exists ok. destruct (pushAll _ d _ _ r1) as [[acked' errs'] r'].
      destruct Hrec as (Ha & Hsub & He & Hin & Hout).
      split_and!; [exact Ha | etrans; [exact Hsub | apply union_subseteq_r] | | |].
      * intros E. destruct (He E) as [E' _]. by apply app_eq_nil in E' as [_ ?].
      * intros m id Hm Hid. rewrite elem_of_cons in Hm. destruct Hm as [-> |Hm].
        -- rewrite Hout, Hpush by done. rewrite bool_decide_eq_false_2 by (by intros [? _]).
           rewrite decide_False; [done|]. intros Hin'. apply Hsub in Hin'.
           by apply elem_of_list_to_set in Hin'.
        -- rewrite Hin, Hpush by done. rewrite bool_decide_eq_false_2 by (by intros [? _]).
           by rewrite uadd_0_r.
      * intros m id Hm Hkm Hid. rewrite not_elem_of_cons in Hkm. destruct Hkm as [Hkn Hkm].
        rewrite Hout, Hpush by done. rewrite bool_decide_eq_false_2 by (intros [_ E]; by apply (Hrn m)).
        by rewrite uadd_0_r.
    + destruct (IH (<[InboundTag n := true]> acked) errs r1) as (ok & Hrec); try done.
      exists ({[InboundTag n]} ∪ ok). destruct (pushAll _ d _ _ r1) as [[acked' errs'] r'].
      destruct Hrec as (Ha & Hsub & He & Hin & Hout).
      assert (forall t, t ∈ {[InboundTag n]} ∪ ok <-> t = InboundTag n \/ t ∈ ok) as Hok'
        by (clear; set_solver).
      split_and!; [|apply union_mono_l; exact Hsub | | |].
      * intros t. rewrite Ha. destruct (decide (t ∈ ok)) as [Hto|Hto];
          [by rewrite decide_True by (apply Hok'; by right)|].
        destruct (decide (t = InboundTag n)) as [->|Htn].
        -- by rewrite lookup_insert_eq, decide_True by (apply Hok'; by left).
        -- rewrite lookup_insert_ne, decide_False; [done | | congruence].
           intros [?|?]%Hok'; done.
      * intros E. destruct (He E) as [E' Hall]. split; [done|].
        intros m [-> |Hm]%elem_of_cons; apply Hok'; [by left | right; by apply Hall].
      * intros m id Hm Hid. rewrite elem_of_cons in Hm. destruct Hm as [-> |Hm].
        -- rewrite Hout, Hpush by done. rewrite bool_decide_eq_true_2 by done.
           by rewrite decide_True by (apply Hok'; by left).
        -- assert (InboundTag m <> InboundTag n).
           { intros E. apply Ht1. rewrite <- E. by apply list_elem_of_fmap_2. }
           rewrite Hin, Hpush by done. rewrite bool_decide_eq_false_2 by (intros [_ E]; by apply (Hne m)).
           rewrite uadd_0_r.
           f_equal. rewrite (decide_ext (InboundTag m ∈ {[InboundTag n]} ∪ ok) (InboundTag m ∈ ok));
             [done|]. rewrite Hok'. naive_solver.
      * intros m id Hm Hkm Hid. rewrite not_elem_of_cons in Hkm. destruct Hkm as [Hkn Hkm].
        rewrite Hout, Hpush by done. rewrite bool_decide_eq_false_2 by (intros [_ E]; by apply (Hrn m)).
        by rewrite uadd_0_r.
Qed.

(** The inbounds of the topology's nodes. *)
Definition nodeTags (ns : list NodeSpec) (t : string) : Prop := t ∈ InboundTag <$> ns.

Lemma confirmedFor_node ns r n u :
  NoDup (InboundTag <$> ns) -> n ∈ ns ->
  confirmedFor ns r (InboundTag n) u =
  match Atoi u with
  | Some id => if decide (0 <= id <= int64_max /\ u = Itoa id) then confirmed r (remoteNode n) id else (0, 0)
  | None => (0, 0)
  end.
Proof.
  intros Hnd Hn. unfold confirmedFor, entryFor.
  destruct (list_find_elem_of (fun m => InboundTag m = InboundTag n) ns n Hn eq_refl) as [[i m] Hf].
  rewrite Hf. apply list_find_Some in Hf as (Hi & Ht & _).
  apply list_elem_of_lookup_2 in Hi. by rewrite (NoDup_fmap_eq InboundTag ns m n).
Qed.

Lemma panelUser_booked u :
  panelUser u -> exists id, 0 <= id <= int64_max /\ u = Itoa id /\ Atoi u = Some id.
Proof. intros (id & Hid & ->). exists id. split_and!; try done; try lia. apply Atoi_Itoa. unfold64. lia. Qed.

Lemma wf_delta_panelUser d t u :
  wf_delta d -> isNumericUser u = true -> ~ panelUser u -> at2 d t u = (0, 0).
Proof.
  intros Hd Hu Hp. unfold at2. destruct (d !! t) as [m|] eqn:Hm; simpl; [|done].
  destruct (m !! u) as [v|] eqn:Hv; simpl; [|done].
  destruct (Hd t m u v Hm Hv) as (Hpu & _). by destruct (Hp (Hpu Hu)).
Qed.

Context (clock : World R -> limloc -> Z) (base token : string) (ns : list NodeSpec).

Definition nodePanel : Panel (World R) :=
  asPanel (newTopologyPanel base token ns (Some (applyTopology clock ns))).

Lemma nodePanel_fetch_frame w :
  hook (FetchUsers nodePanel w).2 = hook w /\ ghost (FetchUsers nodePanel w).2 = ghost w /\
  forall n id, confirmed (remote (FetchUsers nodePanel w).2) n id = confirmed (remote w) n id.
Proof.
  simpl. unfold topologyPanel_FetchUsers. simpl.
  pose proof (fun n id => fetchAll_books_nothing (zip (NewNodeClient base token <$> ns) ns) ∅ (remote w) n id) as Hl.
  destruct (fetchAll _ ∅ (remote w)) as [[byNode|e] r]; [|done].
  destruct (mergeUsersByNode byNode); [|done]. unfold applyTopology.
  by destruct (ApplyBoxByInbound _ _ _) as [[e|] [m inb]].
Qed.

Context (Hvalid : Validate (mkTopology ns) = Ok tt).

#[export] Instance nodePanel_laws : PanelLaws (agentAccounts ns) (nodeTags ns) nodePanel.
Proof using Hvalid.
  apply Validate_Ok in Hvalid as (_ & Hok & Hk & Ht & _). simpl in Hok, Hk, Ht.
  split.
  - apply same_hook_neutral. apply nodePanel_fetch_frame.
  - intros d w Hw. simpl. unfold topologyPanel_PushTraffic. by destruct (pushAll _ _ _ _ _) as [[acked errs] r].
  - intros d w t u _ Hd Hs Hu. simpl. unfold topologyPanel_PushTraffic. simpl.
    rewrite zip_clients.
    destruct (pushAll_spec base token ns d ∅ [] (remote w) Hok Hk Ht Hd) as (ok & Hpush).
    destruct (pushAll _ d ∅ [] (remote w)) as [[acked errs] r].
    destruct Hpush as (Hack & _ & Herr & Hled & _).
    apply list_elem_of_fmap in Hs as (n & -> & Hn). simpl. rewrite !confirmedFor_node by done.
    assert (accepted acked (joinErrors errs) (InboundTag n) = bool_decide (InboundTag n ∈ ok)) as ->.
    { destruct errs as [|e errs]; simpl.
      - destruct (Herr eq_refl) as [_ Hall]. by rewrite bool_decide_eq_true_2 by auto.
      - rewrite Hack, lookup_empty. case_decide; [by rewrite !bool_decide_eq_true_2|].
        by rewrite !bool_decide_eq_false_2. }
    assert ((forall id, Atoi u = Some id -> ~ (0 <= id <= int64_max /\ u = Itoa id)) ->
      at2 d (InboundTag n) u = (0, 0)) as Hnot.
    { intros Hno. apply wf_delta_panelUser; [done..|]. intros (id & Hid & -> & Ha)%panelUser_booked.
      by apply (Hno id). }
    destruct (Atoi u) as [id|] eqn:Ha; [case_decide as Hid|].
    + destruct Hid as [Hid ->]. rewrite Hled by done. by case_decide; case_bool_decide.
    + rewrite Hnot by (by intros ? [= <-]). by destruct (bool_decide _).
    + rewrite Hnot by done. by destruct (bool_decide _).
Qed.

Lemma users_callback_neutral mode us :
  neutral (agentAccounts ns) (fun w => (newPanelUsersCallback clock mode us w).2).
Proof.
  unfold newPanelUsersCallback. destruct mode; [apply prune_neutral|].
  intros w Hw. pose proof (same_hook_neutral ns (fun w =>
    let '(err, (m, inb)) := ApplyBox (clock w) us (manager w, inbounds w) in
    mkWorld (hook w) m inb (remote w) (ghost w))) as Hn.
  specialize (Hn ltac:(intros w0; cbv beta;
    by destruct (ApplyBox (clock w0) us (manager w0, inbounds w0)) as [? [? ?]]) w Hw). cbv beta in Hn.
  destruct (ApplyBox (clock w) us (manager w, inbounds w)) as [[e|] [m inb]]; [exact Hn|].
  destruct Hn as [Hw' Hn]. destruct (prune_neutral ns _ Hw') as [Hw2 Hp]. split; [done|].
  intros t u. destruct (Hp t u) as (E1 & E2 & E3), (Hn t u) as (F1 & F2 & F3).
  split_and!; [etrans; [exact E1 | exact F1] | etrans; [exact E2 | exact F2] | etrans; [exact E3 | exact F3]].
Qed.

(** The synchroniser of the agent in topology mode, and its environment: at every point where
    the loop holds no lock, connections may open and move traffic. *)
Definition agent (panelEvery : Z) : Syncer (World R) := topologyAgent clock base token ns panelEvery.

Definition connections (f : nat -> World R -> list hook_event) : interleaving (World R) :=
  fun k w => traffic (f k w) w.

Definition connections_ok (f : nat -> World R -> list hook_event) : Prop :=
  forall k w, world_ok w -> traffic_ok w (f k w).

Lemma connections_env_ok f : connections_ok f -> env_ok (agentAccounts ns) (connections f).
Proof. intros Hf k. apply (traffic_only_traffic ns (f k)), Hf. Qed.

Lemma agent_round every f evs w :
  world_ok w -> connections_ok f ->
  round_spec (agentAccounts ns) (nodeTags ns) w (Run (agent every) (connections f) evs w).
Proof using Hvalid.
  intros Hw Hf. eapply (Run_round (agentAccounts ns) (nodeTags ns) snapshotDelta commitSnapshot nodePanel);
    try done; [|by apply connections_env_ok].
  intros g us [= <-]. apply users_callback_neutral.
Qed.
End Accounting.

(** ** Grouping and merging *)

Section Grouping.
Context `{UnicodeTables} `{MapOrder}.
Implicit Types (ns : list NodeSpec) (byNode : gmap string (list User)).

Lemma groupNodeUsers_snoc ns n byNode :
  groupNodeUsers (ns ++ [n]) byNode =
  <[InboundTag n := default [] (byNode !! Key n)]> (groupNodeUsers ns byNode).
Proof. unfold groupNodeUsers. by rewrite foldl_app. Qed.

Lemma groupNodeUsers_other ns byNode t :
  t ∉ InboundTag <$> ns -> groupNodeUsers ns byNode !! t = None.
Proof.
  induction ns as [|n ns IH] using rev_ind; [done|].
  rewrite fmap_app, groupNodeUsers_snoc. intros Ht. rewrite lookup_insert_ne by set_solver.
  apply IH. set_solver.
Qed.

Lemma groupNodeUsers_lookup ns byNode n :
  NoDup (InboundTag <$> ns) -> n ∈ ns ->
  groupNodeUsers ns byNode !! InboundTag n = Some (default [] (byNode !! Key n)).
Proof.
  induction ns as [|m ns IH] using rev_ind; [set_solver|].
  rewrite fmap_app, groupNodeUsers_snoc, elem_of_app. intros (Hnd & Hd & _)%NoDup_app [Hn|Hn].
  - rewrite lookup_insert_ne; [by apply IH|]. intros E.
    apply (Hd (InboundTag n)); [by apply list_elem_of_fmap_2 | rewrite <- E; set_solver].
  - apply list_elem_of_singleton in Hn as ->. apply lookup_insert_eq.
Qed.

Lemma sameDefinition_iff a b :
  sameDefinition a b = true <-> UUID a = UUID b /\ Password a = Password b /\ SpeedLimit a = SpeedLimit b.
Proof. unfold sameDefinition. rewrite !andb_true_iff, !bool_decide_eq_true, Z.eqb_eq. tauto. Qed.

(** All definitions given for one id agree. *)
Definition agree (us : list User) : Prop :=
  forall u v, u ∈ us -> v ∈ us -> ID u = ID v -> sameDefinition u v = true.

#[export] Instance agree_dec us : Decision (agree us).
Proof.
  refine (dec_iff (decide (Forall (fun u => Forall (fun v => ID u <> ID v \/ sameDefinition u v = true) us) us)) _).
  rewrite Forall_forall. setoid_rewrite Forall_forall. split.
  - intros Ha u v Hu Hv E. by destruct (Ha u Hu v Hv).
  - intros Ha u Hu v Hv. destruct (decide (ID u = ID v)); [right; by apply Ha | by left].
Defined.

(** [merged] represents the users seen so far. *)
Definition represents (merged : snapshot) (us : list User) : Prop :=
  (forall u, u ∈ us -> exists v, merged !! ID u = Some v /\ sameDefinition v u = true) /\
  (forall id v, merged !! id = Some v -> v ∈ us /\ ID v = id).

Lemma sameDefinition_trans a b c :
  sameDefinition a b = true -> sameDefinition a c = true -> sameDefinition b c = true.
Proof. rewrite !sameDefinition_iff. intuition congruence. Qed.

Lemma represents_agree merged us : represents merged us -> agree us.
Proof.
  intros [Hr _] u v Hu Hv E. destruct (Hr u Hu) as (x & Hx & Sx), (Hr v Hv) as (y & Hy & Sy).
  rewrite E, Hy in Hx. injection Hx as ->. by eapply sameDefinition_trans.
Qed.

Lemma represents_extend merged us u :
  represents merged us -> merged !! ID u = None -> represents (<[ID u := u]> merged) (us ++ [u]).
Proof.
  intros [H1 H2] Hn. split.
  - intros v. rewrite elem_of_app, list_elem_of_singleton. intros [Hv| ->].
    + destruct (H1 v Hv) as (x & Hx & S). exists x. split; [|done].
      rewrite lookup_insert_ne; [done|]. intros E. congruence.
    + exists u. rewrite lookup_insert_eq. split; [done|]. by apply sameDefinition_iff.
  - intros id v. rewrite elem_of_app, list_elem_of_singleton. destruct (decide (id = ID u)) as [->|Hne].
    + rewrite lookup_insert_eq. intros [= <-]. auto.
    + rewrite lookup_insert_ne by done. intros Hv%H2. naive_solver.
Qed.

Lemma mergeList_spec k us merged seen :
  represents merged seen ->
  match mergeList k us merged with
  | Ok merged' => represents merged' (seen ++ us)
  | Err _ => ~ agree (seen ++ us)
  end.
Proof.
  revert merged seen. induction us as [|u us IH]; intros merged seen Hr; simpl; [by rewrite app_nil_r|].
  destruct (merged !! ID u) as [x|] eqn:Hx; [destruct (sameDefinition x u) eqn:S|].
  - assert (represents merged (seen ++ [u])) as Hr'.
    { destruct Hr as [H1 H2]. split; intros.
      - rewrite elem_of_app, list_elem_of_singleton in *. naive_solver.
      - rewrite elem_of_app. naive_solver. }
    specialize (IH merged (seen ++ [u]) Hr'). rewrite <- app_assoc in IH. done.
  - intros Hag. destruct Hr as [_ H2]. destruct (H2 _ _ Hx) as [Hin E].
    rewrite (Hag x u) in S; [done | set_solver | set_solver | done].
  - specialize (IH _ (seen ++ [u]) (represents_extend merged seen u Hr Hx)).
    by rewrite <- app_assoc in IH.
Qed.

Lemma mergeNodes_spec es merged seen :
  represents merged seen ->
  match mergeNodes es merged with
  | Ok merged' => represents merged' (seen ++ concat es.*2)
  | Err _ => ~ agree (seen ++ concat es.*2)
  end.
Proof.
  revert merged seen. induction es as [|[k us] es IH]; intros merged seen Hr; simpl; [by rewrite app_nil_r|].
  pose proof (mergeList_spec k us merged seen Hr) as Hl.
  destruct (mergeList k us merged) as [m|e]; simpl.
  - specialize (IH m (seen ++ us) Hl). by rewrite <- app_assoc in IH.
  - intros Hag. apply Hl. intros u v Hu Hv. apply Hag; set_solver.
Qed.

(** Every definition fetched for any node. *)
Definition allUsers byNode : list User := concat (map_to_list byNode).*2.

Lemma agree_perm us vs : us ≡ₚ vs -> agree us <-> agree vs.
Proof. intros E. unfold agree. by setoid_rewrite E. Qed.

Lemma concat_snd_perm {A} (l k : list (string * list A)) : l ≡ₚ k -> concat l.*2 ≡ₚ concat k.*2.
Proof.
  induction 1 as [|[? a] l k _ IH|[? a] [? b] l| l1 l2 l3 _ IH1 _ IH2]; simpl; [done| | |by etrans].
  - by rewrite IH.
  - rewrite !app_assoc. by rewrite (Permutation_app_comm b a).
Qed.
End Grouping.

(** ** Properties *)

Lemma quiet_flush_ghost `{UnicodeTables} `{MapOrder} `{Float64} `{Build} {R} `{Net R}
    (clock : World R -> limloc -> Z) base token ns every (w : World R) :
  ghost (FinalFlush (agent clock base token ns every) quiet w) = ghost w.
Proof.
  unfold FinalFlush, flush. simpl. unfold quiet. case_decide; [done|].
  destruct (negb _); [done|]. unfold topologyPanel_PushTraffic.
  destruct (pushAll _ _ _ _ _) as [[acked errs] r].
  destruct (joinErrors errs); [by case_decide | done].
Qed.

Section Properties.
Context `{UnicodeTables} `{MapOrder} `{Float64} `{Build} {R : Type} `{BookingService R}
  (clock : World R -> limloc -> Z) (base token : string) (ns : list NodeSpec).
Implicit Types (w : World R) (f : nat -> World R -> list hook_event).

(** C1. Exactly-once billing.  Run the agent on a validated topology for any number of rounds,
    with any answers of the panel service (errors and partial failures included), users coming
    and going, and connections opening and moving traffic at every point of every round.  Then
    for every node and panel user all bytes of the connections opened for that user on the
    node's inbound are accounted for: what was carried, plus what the service booked under
    pushes it did not acknowledge (such a push is repeated), is what the service has booked,
    plus what is pending, plus what was carried after the counters had dropped the user's
    storage; and the acknowledged amount has not decreased.  So nothing but the bytes of a
    connection that outlives its user's counters is lost, and nothing but an unacknowledged
    push is billed twice.  Counters stay within 64 bits, numeric names are ids of panel users, and an
    answer in the 200s means that the push was booked once ([BookingService]). *)
Theorem billing_exactly_once every f evs w n u :
  Validate (mkTopology ns) = Ok tt -> world_ok w -> connections_ok f ->
  (forall n u, n ∈ ns -> isNumericUser u = true -> balanced ns w (InboundTag n) u) ->
  n ∈ ns -> isNumericUser u = true ->
  let w' := Run (agent clock base token ns every) (connections f) evs w in
  balanced ns w' (InboundTag n) u /\
  ule (confirmedFor ns (remote w) (InboundTag n) u) (confirmedFor ns (remote w') (InboundTag n) u).
Proof.
  intros Hv Hw Hf Hacc Hn Hu w'.
  destruct (agent_round clock base token ns Hv every f evs w Hw Hf) as [_ Ha Hb _].
  assert (nodeTags ns (InboundTag n)) as Ht by (by apply list_elem_of_fmap_2).
  split; [|by apply Hb]. rewrite !balanced_accounted in Ha. apply Ha; [|done..].
  intros t u' (m & -> & Hm)%list_elem_of_fmap Hu'. by apply Hacc.
Qed.

(** C15. Shutdown loses nothing: after the loop and the last bytes of the closing connections, a
    final flush that the panel accepts leaves nothing pending: every byte of the connections
    opened for a panel user is booked, but those carried after the counters had dropped the
    user's storage, and nothing is booked twice but under pushes that were not acknowledged.
    The conditions are those of the runs before. *)
Theorem shutdown_books_everything every f evs last w n u :
  Validate (mkTopology ns) = Ok tt -> world_ok w -> connections_ok f ->
  (forall w, world_ok w -> traffic_ok w (last w)) ->
  (forall n u, n ∈ ns -> isNumericUser u = true -> balanced ns w (InboundTag n) u) ->
  n ∈ ns -> isNumericUser u = true ->
  let s := agent clock base token ns every in
  let w1 := Run s (connections f) evs w in
  let w2 := traffic (last w1) w1 in
  (PushTraffic (nodePanel clock base token ns) (snapshotDelta w2) w2).1.2 = None ->
  let w3 := shutdown s (fun w => traffic (last w) w) quiet w1 in
  uadd (counted w2 (InboundTag n) u) (disputedFor ns (remote w3) (InboundTag n) u) =
  uadd (bookedFor ns (remote w3) (InboundTag n) u) (stranded w2 (InboundTag n) u).
Proof.
  intros Hv Hw Hf Hlast Hacc Hn Hu s w1 w2 Hpush w3. unfold shutdown in w3. fold w2 in w3.
  assert (nodeTags ns (InboundTag n)) as Ht by (by apply list_elem_of_fmap_2).
  pose proof (agent_round clock base token ns Hv every f evs w Hw Hf) as R1. fold s w1 in R1.
  pose proof (nodePanel_laws clock base token ns Hv) as Hlaws.
  pose proof (round_spec_traffic (agentAccounts ns) (nodeTags ns) (fun w => traffic (last w) w) w1
    (traffic_only_traffic ns last Hlast) (rs_consistent _ _ _ _ R1)) as R2.
  pose proof (flush_round (agentAccounts ns) (nodeTags ns) snapshotDelta commitSnapshot
    (nodePanel clock base token ns) s quiet w2 eq_refl eq_refl eq_refl (rs_consistent _ _ _ _ R2)
    (env_ok_quiet (agentAccounts ns))) as R3.
  pose proof (flush_drains (agentAccounts ns) (nodeTags ns) snapshotDelta commitSnapshot
    (nodePanel clock base token ns) s w2 (InboundTag n) u eq_refl eq_refl eq_refl
    (rs_consistent _ _ _ _ R2) Hpush Hu) as Hdrain.
  assert (balanced ns w3 (InboundTag n) u) as Hfin.
  { apply (proj1 (balanced_accounted ns (nodeTags ns) w3)); [|done..].
    apply R3, R2, R1, balanced_accounted. intros t u' (m & -> & Hm)%list_elem_of_fmap Hu'. by apply Hacc. }
  assert (ghost w3 = ghost w2) as Eg by apply quiet_flush_ghost.
  unfold balanced, counted, stranded in *. rewrite Eg in Hfin. simpl in Hdrain.
  change (flush s quiet w2) with w3 in Hdrain. by rewrite Hdrain, uadd_0_r in Hfin.
Qed.

(** C16. Each node gets its own users.  When the inbounds match the manager, the build serves
    their protocols, and neither the present nor the fetched list of an inbound gives two users
    the same credential, after a successful fetch the inbound of every node accepts exactly the
    credentials of the users the panel listed for that node, and inbounds of no node accept
    nobody. *)
Theorem fetch_isolates_nodes w merged w' :
  Validate (mkTopology ns) = Ok tt ->
  synced (manager w) (inbounds w) -> serves (inbounds w) ->
  distinct (fun tag => InboundSnapshot tag (manager w)) (inbounds w) ->
  (forall byNode, (fetchAll (nodeClients base token ns) ∅ (remote w)).1 = Ok byNode ->
    distinct (fun tag => usersByID (nextUsers (groupNodeUsers ns byNode) tag)) (inbounds w)) ->
  FetchUsers (nodePanel clock base token ns) w = (Ok merged, w') ->
  exists byNode, (fetchAll (nodeClients base token ns) ∅ (remote w)).1 = Ok byNode /\
    synced (manager w') (inbounds w') /\
    (forall n raw c, n ∈ ns -> inbounds w' !! InboundTag n = Some raw ->
      accepts raw c <-> c <> "" /\ exists id u,
        usersByID (default [] (byNode !! Key n)) !! id = Some u /\ credentialOf raw u = c) /\
    (forall tag raw c, tag ∉ InboundTag <$> ns -> inbounds w' !! tag = Some raw -> ~ accepts raw c).
Proof.
  intros Hv Hs Hb Hd Hd'. simpl. unfold topologyPanel_FetchUsers. simpl. rewrite zip_clients.
  destruct (fetchAll _ ∅ (remote w)) as [[byNode|e] r]; [|done]. specialize (Hd' byNode eq_refl).
  destruct (mergeUsersByNode byNode) as [us|]; [|done]. unfold applyTopology. simpl.
  apply Validate_Ok in Hv as (_ & _ & _ & Ht & _). simpl in Ht.
  destruct (ApplyBoxByInbound_synced (clock (setRemote r w)) (groupNodeUsers ns byNode) (manager w)
    (inbounds w) Hs Hb Hd Hd') as (m' & inb & E & Hs' & _ & Hsnap & _).
  unfold setRemote in E |- *. simpl in E |- *. rewrite E.
  intros [= <- <-]. exists byNode. split; [done|]. simpl. split; [done|].
  assert (forall tag raw c, inb !! tag = Some raw ->
    accepts raw c <-> c <> "" /\ exists id u,
      usersByID (nextUsers (groupNodeUsers ns byNode) tag) !! id = Some u /\ credentialOf raw u = c) as Hacc.
  { intros tag raw c Hr. rewrite <- Hsnap. apply synced_accepts. by apply Hs'. }
  split.
  - intros n raw c Hn Hr. rewrite (Hacc _ _ _ Hr). unfold nextUsers. by rewrite groupNodeUsers_lookup.
  - intros tag raw c Hn Hr. rewrite (Hacc _ _ _ Hr). unfold nextUsers. rewrite groupNodeUsers_other by done.
    intros (_ & id & u & Hu & _). by apply usersByID_elem, not_elem_of_nil in Hu.
Qed.

(** C17. The nodes' definitions of the users are merged if and only if they agree, whatever the
    order in which the nodes are visited; on a conflict nothing at all is applied. *)
Theorem conflicting_users_apply_nothing w byNode r :
  fetchAll (nodeClients base token ns) ∅ (remote w) = (Ok byNode, r) ->
  (agree (allUsers byNode) ->
    exists merged, mergeUsersByNode byNode = Ok merged /\ NoDup (ID <$> merged) /\
      (forall u, u ∈ merged -> u ∈ allUsers byNode) /\
      (forall u, u ∈ allUsers byNode -> exists v, v ∈ merged /\ ID v = ID u /\ sameDefinition v u = true)) /\
  (~ agree (allUsers byNode) ->
    exists e, FetchUsers (nodePanel clock base token ns) w = (Err e, setRemote r w)).
Proof.
  intros Hf. assert (represents ∅ []) as H0'.
  { split; [set_solver|]. intros id v Hv. by rewrite lookup_empty in Hv. }
  pose proof (mergeNodes_spec (go_range 30 byNode) ∅ [] H0') as Hm. simpl in Hm.
  assert (concat (go_range 30 byNode).*2 ≡ₚ allUsers byNode) as Hperm.
  { apply concat_snd_perm, go_range_perm. }
  simpl. unfold topologyPanel_FetchUsers. simpl. rewrite zip_clients, Hf.
  unfold mergeUsersByNode. destruct (mergeNodes _ ∅) as [m|e] eqn:Em; simpl; split; intros Hag.
  - eexists. split; [done|]. destruct Hm as [H1' H2']. setoid_rewrite Hperm in H1'. setoid_rewrite Hperm in H2'.
    split_and!.
    + assert (ID <$> (go_range 31 m).*2 = (go_range 31 m).*1) as ->; [|apply NoDup_fst_go_range].
      rewrite <- list_fmap_compose. apply list_fmap_ext. intros i [id u] Hi. simpl.
      apply list_elem_of_lookup_2, elem_of_go_range in Hi. by destruct (H2' id u Hi).
    + intros u ([id v] & -> & Hu%elem_of_go_range)%list_elem_of_fmap. by destruct (H2' id v Hu).
    + intros u Hu. destruct (H1' u Hu) as (v & Hv & Sv). exists v. destruct (H2' _ _ Hv).
      split_and!; try done. apply list_elem_of_fmap. exists (ID u, v). split; [done|]. by apply elem_of_go_range.
  - exfalso. apply Hag. apply represents_agree in Hm. by rewrite (agree_perm _ _ Hperm) in Hm.
  - exfalso. apply Hm. by rewrite (agree_perm _ _ Hperm).
  - eauto.
Qed.
End Properties.

(** ** Example: two nodes and a panel that once fails *)

Module Scenario.
Import UserManager.Fixture.
#[export] Instance tables : UnicodeTables := ascii_tables.

(** The panel: the ledger, what was booked without an answer, and the number of pushes so far.
    The second push is booked, but its answer is an error. *)
Abbreviation account := (gmap (string * string) (gmap Z usage)).
Record Service := mkService { books : account; unanswered : account; pushes : nat }.

Definition book (n : string * string) (p : PushRequest) (l : account) : account :=
  <[n := union_with (fun a b => Some (uadd a b)) (default ∅ (l !! n)) p]> l.

Definition entry (l : account) (n : string * string) (id : Z) : usage :=
  default (0, 0) (l !! n ≫= fun m => m !! id).

Definition nonnegative (p : PushRequest) : Prop := map_Forall (fun _ v => 0 <= v.1 /\ 0 <= v.2) p.

Definition serve (method : string) (ep : URL) (body : option PushRequest) (r : Service)
  : res error response * Service :=
  match body with
  | None => (Ok (mkResponse 200 "200 OK" (nodeOf ep).2), r)
  | Some p =>
      if bool_decide (pushes r = 1%nat /\ nonnegative p)
      then (Ok (mkResponse 503 "503" ""),
            mkService (book (nodeOf ep) p (books r)) (book (nodeOf ep) p (unanswered r)) (S (pushes r)))
      else (Ok (mkResponse 200 "200 OK" ""),
            mkService (book (nodeOf ep) p (books r)) (unanswered r) (S (pushes r)))
  end.

(** Node 3 has another secret for Bob than nodes 1 and 2. *)
Definition otherBob : User := mkUser 2 "uuid-x" "uuid-x" "2" 100.

Definition decodeUsers (body : string) : res error UserList :=
  Ok (mkUserList (if bool_decide (body = "1") then [alice; bob] else
    if bool_decide (body = "3") then [otherBob] else [bob; carol]) []).

#[export] Instance net : Net Service := Build_Net Service (fun s => Ok (mkURL s ∅)) serve decodeUsers.

Lemma entry_book ep p l n id : entry (book (nodeOf ep) p l) n id = uadd (entry l n id) (due ep p n id).
Proof.
  unfold entry, book, due. case_bool_decide as E.
  - subst n. rewrite lookup_insert_eq. simpl. rewrite lookup_union_with.
    destruct (l !! nodeOf ep) as [m|]; simpl; rewrite ?lookup_empty.
    + destruct (m !! id) as [[]|], (p !! id) as [[]|]; unfold uadd; simpl; f_equal; lia.
    + by destruct (p !! id) as [[]|].
  - rewrite lookup_insert_ne by done. by rewrite uadd_0_r.
Qed.

#[export] Instance booking : BookingService Service.
Proof.
  refine {| ledger := fun r => entry (books r); disputed := fun r => entry (unanswered r) |}; [done|].
  intros ep p r n id. unfold http_do, net, serve. case_bool_decide as E; simpl; [|by rewrite entry_book].
  exists (due ep p n id). rewrite !entry_book. split_and!; try done. right.
  assert (ule (0, 0) (due ep p n id)) as Hp; [|split; [done | reflexivity]].
  unfold due. destruct E as [_ E]. case_bool_decide; [|unfold ule; simpl; lia].
  destruct (p !! id) as [v|] eqn:Hv; simpl; [by apply (E id v Hv) | unfold ule; simpl; lia].
Defined.

Definition directOut : OutboundSpec := mkOutbound "direct" "" 0 "" "" "" "".
Definition twoNodes : list NodeSpec := [mkNode "1" "vless" "" directOut; mkNode "2" "hysteria2" "" directOut].

Definition world0 : World Service :=
  mkWorld NewHook start
    {[ "vless-1-in" := InVLESS (VLESS.NewInbound []); "hy2-2-in" := InHysteria2 (Hysteria2.NewInbound []) ]}
    (mkService ∅ ∅ 0) noGhost.

Definition limiterClock (_ : World Service) (_ : limloc) : Z := 0.

(** Alice moves bytes on node 1 and Bob on node 2, in every gap of the loop. *)
Definition someTraffic : list hook_event :=
  [EvOpen "vless-1-in" "1"; EvOpen "hy2-2-in" "2"; EvUp 0 100; EvDown 1 50].

Definition gaps (_ : nat) (w : World Service) : list hook_event :=
  if decide (events_ok (hook w) someTraffic) then someTraffic else [].

Lemma twoNodes_valid : Validate (mkTopology twoNodes) = Ok tt.
Proof. vm_compute. reflexivity. Qed.

Lemma world0_ok : world_ok world0.
Proof.
  split_and!; [apply NewHook_ok|..]; intros t u; unfold ptr; simpl; rewrite lookup_empty; [by intros []|done].
Qed.

Lemma gaps_traffic_ok w k : world_ok w -> traffic_ok w (gaps k w).
Proof.
  intros _. unfold gaps. case_decide as E; [|split; [done | constructor]]. split; [done|].
  repeat constructor; simpl; intros _; [exists 1 | exists 2]; (split; [unfold64; lia | reflexivity]).
Qed.

Lemma world0_balanced n u :
  n ∈ twoNodes -> isNumericUser u = true -> balanced twoNodes world0 (InboundTag n) u.
Proof.
  intros _ _. unfold balanced, bookedFor, disputedFor, entryFor.
  assert (pending (hook world0) (InboundTag n) u = (0, 0)) as ->
    by (unfold pending, ptr; simpl; by rewrite lookup_empty).
  destruct (list_find _ _) as [[i m]|]; [|done]. destruct (Atoi u) as [id|]; [|done]. by case_decide.
Qed.

Definition theAgent : Syncer (World Service) := agent limiterClock "http://panel/" "token" twoNodes 0.

(** Three rounds; the answer to node 2's first push is lost, and the push is repeated: 600 bytes
    were acknowledged, and the 100 of the unanswered push were booked once more. *)
Lemma billing_exactly_once_witness :
  let w := Run theAgent (connections gaps) [Tick; Tick] world0 in
  bookedFor twoNodes (remote w) "hy2-2-in" "2" = (0, 700) /\
  disputedFor twoNodes (remote w) "hy2-2-in" "2" = (0, 100) /\
  balanced twoNodes w "hy2-2-in" "2".
Proof.
  intros w. split; [vm_compute; reflexivity|]. split; [vm_compute; reflexivity|].
  exact (proj1 (billing_exactly_once limiterClock "http://panel/" "token" twoNodes 0 gaps [Tick; Tick]
    world0 (mkNode "2" "hysteria2" "" directOut) "2" twoNodes_valid world0_ok
    (fun k w => gaps_traffic_ok w k) world0_balanced
    ltac:(right; left) ltac:(reflexivity))).
Defined.

(** The same run followed by a shutdown: everything is booked. *)
Lemma shutdown_books_everything_witness :
  let w := Run theAgent (connections gaps) [Tick; Tick] world0 in
  let w2 := traffic (gaps 0 w) w in
  let w' := shutdown theAgent (fun w => traffic (gaps 0 w) w) quiet w in
  bookedFor twoNodes (remote w') "vless-1-in" "1" = (1500, 0) /\
  uadd (counted w2 "vless-1-in" "1") (disputedFor twoNodes (remote w') "vless-1-in" "1") =
  uadd (bookedFor twoNodes (remote w') "vless-1-in" "1") (stranded w2 "vless-1-in" "1").
Proof.
  intros w w2 w'. split; [vm_compute; reflexivity|].
  refine (shutdown_books_everything limiterClock "http://panel/" "token" twoNodes 0 gaps [Tick; Tick]
    (gaps 0) world0 (mkNode "1" "vless" "" directOut) "1" twoNodes_valid world0_ok
    (fun k w => gaps_traffic_ok w k) (fun w => gaps_traffic_ok w 0) world0_balanced
    ltac:(left) ltac:(reflexivity) _).
  vm_compute. reflexivity.
Defined.

(** A connection of a user the panel no longer lists outlives the user's counters: the bytes it
    carries from then on are never reported. *)
Example late_bytes_are_lost :
  let w := traffic [EvUp 0 100] (pruneStats (traffic [EvOpen "vless-1-in" "9"] world0)) in
  counted w "vless-1-in" "9" = (100, 0) /\ stranded w "vless-1-in" "9" = (100, 0) /\
  snapshotDelta w = ∅.
Proof. vm_compute. done. Qed.

Lemma world0_synced : synced (manager world0) (inbounds world0).
Proof.
  change (map_Forall (fun tag raw => inbound_synced raw (InboundSnapshot tag start)) (inbounds world0)).
  apply map_Forall_insert_2; [split; done|]. apply map_Forall_singleton. apply Hysteria2.synced_empty.
Qed.

(** What the panel serves. *)
Definition fetched : gmap string (list User) :=
  {[ "vless:1" := [alice; bob]; "hysteria:2" := [bob; carol] ]}.

Lemma fetched_eq :
  (fetchAll (nodeClients "http://panel/" "token" twoNodes) ∅ (remote world0)).1 = Ok fetched.
Proof. vm_compute. reflexivity. Qed.

(** Bob is listed for both nodes, Alice only for node 1. *)
Lemma fetch_isolates_nodes_witness :
  exists merged w' raw,
    FetchUsers (nodePanel limiterClock "http://panel/" "token" twoNodes) world0 = (Ok merged, w') /\
    inbounds w' !! "hy2-2-in" = Some raw /\ accepts raw "uuid-b" /\ ~ accepts raw "uuid-a".
Proof.
  destruct (FetchUsers (nodePanel limiterClock "http://panel/" "token" twoNodes) world0)
    as [[merged|e] w'] eqn:E; [|exfalso; apply (f_equal (fun x => match x.1 with Ok _ => true | Err _ => false end)) in E; vm_compute in E; discriminate E].
  assert (match inbounds w' !! "hy2-2-in" with Some (InHysteria2 _) => true | _ => false end = true) as Hr.
  { change w' with (Ok (E := error) merged, w').2. rewrite <- E. vm_compute. reflexivity. }
  destruct (inbounds w' !! "hy2-2-in") as [[h|h|]|] eqn:Eh; try discriminate Hr.
  exists merged, w', (InHysteria2 h). split; [reflexivity|]. split; [exact Eh|].
  destruct (fetch_isolates_nodes limiterClock "http://panel/" "token" twoNodes world0 merged w'
    twoNodes_valid world0_synced ltac:(decide_vm) ltac:(decide_vm)) as (byNode & Hb & _ & Hacc & _).
  - intros byNode Hb. rewrite fetched_eq in Hb. injection Hb as <-. decide_vm.
  - exact E.
  - assert (usersByID (default [] (byNode !! "hysteria:2")) = usersByID [bob; carol]) as Eu.
    { rewrite fetched_eq in Hb. injection Hb as <-. vm_compute. reflexivity. }
    specialize (fun c => Hacc (mkNode "2" "hysteria2" "" directOut) (InHysteria2 h) c
      ltac:(right; left) Eh) as Hacc2. clear E Hb.
    change (Key (mkNode "2" "hysteria2" "" directOut)) with "hysteria:2" in Hacc2. rewrite Eu in Hacc2.
    rewrite !Hacc2. split.
    + split; [discriminate|]. exists 2, bob. split; vm_compute; reflexivity.
    + intros (_ & id & u & Hu & Hc). apply usersByID_elem in Hu.
      rewrite !elem_of_cons in Hu. destruct Hu as [-> |[-> |Hu]]; [discriminate | discriminate|].
      by apply not_elem_of_nil in Hu.
Defined.

(** Nodes 1 and 3 disagree about Bob: the fetch fails and leaves the agent as it was. *)
Definition atOdds : list NodeSpec := [mkNode "1" "vless" "" directOut; mkNode "3" "hysteria2" "" directOut].

Lemma conflicting_users_apply_nothing_witness :
  exists byNode r e,
    fetchAll (nodeClients "http://panel/" "token" atOdds) ∅ (remote world0) = (Ok byNode, r) /\
    ~ agree (allUsers byNode) /\
    FetchUsers (nodePanel limiterClock "http://panel/" "token" atOdds) world0 = (Err e, setRemote r world0).
Proof.
  destruct (fetchAll (nodeClients "http://panel/" "token" atOdds) ∅ (remote world0)) as [[byNode|e] r] eqn:E;
    [|exfalso; vm_compute in E; discriminate].
  destruct (conflicting_users_apply_nothing limiterClock "http://panel/" "token" atOdds world0 byNode r E)
    as [_ Hodds].
  assert (~ agree (allUsers byNode)) as Hno.
  { assert (bool_decide (agree (allUsers byNode)) = false) as Hb; [|exact (proj1 (bool_decide_eq_false _) Hb)].
    assert (byNode = match (fetchAll (nodeClients "http://panel/" "token" atOdds) ∅ (remote world0)).1 with
      | Ok b => b | Err _ => ∅ end) as -> by (rewrite E; reflexivity).
    vm_compute. reflexivity. }
  destruct (Hodds Hno) as [e He]. exists byNode, r, e. split; [reflexivity|]. split; [exact Hno | exact He].
Defined.
End Scenario.
