(* ===== verification/MultiPanel.v ===== *)
(** * Several panels as one (src/panelapi/multi.go), and the agent with one or two panel nodes
    (the non-topology modes of main in src/cmd/mini-sb-agent/main.go)

    A nil panel is [None].  [ScopedPanel] is what a panel promises to its neighbours: it books
    and acknowledges the inbounds of its own scope only.  Panels with disjoint scopes compose,
    and the legacy agent's two clients are such panels. *)

From S2P Require Import Prelude GoStrings Topology Counter Hook PanelTypes Sync Client RateLimit Inbounds UserManager TopologyPanel.

#[local] Open Scope Z_scope.

Section MultiPanel.
Context {W : Type}.
Implicit Types (ps : list (option (Panel W))) (w : W).

(** The loop over one panel's users: a positive id is taken the first time only. *)
Definition addUnseen (st : gset Z * list User) (u : User) : gset Z * list User :=
  let (seen, merged) := st in
  if 0 <? ID u
  then if bool_decide (ID u ∈ seen) then st else ({[ID u]} ∪ seen, merged ++ [u])
  else (seen, merged ++ [u]).

Fixpoint multiFetch ps (seen : gset Z) (merged : list User) w : res error (list User) * W :=
  match ps with
  | [] => (Ok merged, w)
  | None :: ps => multiFetch ps seen merged w
  | Some p :: ps =>
      let (r, w) := FetchUsers p w in
      match r with
      | Err e => (Err e, w)
      | Ok us => let (seen, merged) := foldl addUnseen (seen, merged) us in multiFetch ps seen merged w
      end
  end.

(** Every panel is pushed to, whatever the others answer; the keys of a panel's answer are
    acknowledged. *)
Fixpoint multiPush ps (d : delta) (acked : ackSet) (errs : list error) w : (ackSet * list error) * W :=
  match ps with
  | [] => ((acked, errs), w)
  | None :: ps => multiPush ps d acked errs w
  | Some p :: ps =>
      let '((panelAcked, err), w) := PushTraffic p d w in
      multiPush ps d (((fun _ => true) <$> panelAcked) ∪ acked) (errs ++ option_list err) w
  end.

Definition MultiPanel ps : Panel W :=
  mkPanel (multiFetch ps ∅ [])
    (fun d w => let '((acked, errs), w) := multiPush ps d ∅ [] w in ((acked, joinErrors errs), w)).

(** ** The merged list *)

(** All lists, panel by panel, or the first error. *)
Fixpoint fetchEach ps w : res error (list (list User)) * W :=
  match ps with
  | [] => (Ok [], w)
  | None :: ps => fetchEach ps w
  | Some p :: ps =>
      let (r, w) := FetchUsers p w in
      match r with
      | Err e => (Err e, w)
      | Ok us => let (r, w) := fetchEach ps w in (cons us <$> r, w)
      end
  end.

(** Of the users with the same positive id the first is kept; the others are all kept. *)
Definition repeats (u v : User) : bool := (0 <? ID u) && (ID u =? ID v).

Fixpoint keepFirst (us : list User) : list User :=
  match us with
  | [] => []
  | u :: us => u :: filter (fun v => repeats u v = false) (keepFirst us)
  end.

Definition seenBy (seen : gset Z) (u : User) : bool := (0 <? ID u) && bool_decide (ID u ∈ seen).

Lemma filter_filter_ext (P Q S : User -> Prop) `{!forall u, Decision (P u)} `{!forall u, Decision (Q u)}
    `{!forall u, Decision (S u)} (l : list User) :
  (forall u, S u <-> P u /\ Q u) -> filter P (filter Q l) = filter S l.
Proof. intros E. rewrite list_filter_filter. apply list_filter_iff. intros u. rewrite E. tauto. Qed.

Lemma addUnseen_keepFirst us seen merged :
  foldl addUnseen (seen, merged) us =
  (list_to_set (filter (fun id => 0 < id) (ID <$> us)) ∪ seen,
   merged ++ filter (fun u => seenBy seen u = false) (keepFirst us)).
Proof.
  revert seen merged. induction us as [|u us IH]; intros seen merged.
  { simpl. rewrite app_nil_r. f_equal. set_solver. }
  cbn [foldl]. unfold addUnseen at 2. destruct (0 <? ID u) eqn:Hid; bool_inv.
  - case_bool_decide as Hin.
    + rewrite IH. f_equal.
      * rewrite fmap_cons, filter_cons_True by done. simpl. set_solver.
      * f_equal. simpl. rewrite filter_cons_False by (unfold seenBy; rewrite (proj2 (Z.ltb_lt 0 _)) by lia;
          simpl; by rewrite bool_decide_eq_true_2).
        symmetry. apply filter_filter_ext. intros v. split; [|tauto]. intros Hv. split; [done|].
        unfold repeats, seenBy in *. rewrite (proj2 (Z.ltb_lt 0 (ID u))) by lia. simpl. apply Z.eqb_neq.
        intros E. rewrite <- E in Hv. rewrite (proj2 (Z.ltb_lt 0 (ID u))) in Hv by lia. simpl in Hv.
        by rewrite bool_decide_eq_true_2 in Hv.
    + rewrite IH. f_equal.
      * rewrite fmap_cons, filter_cons_True by done. simpl. set_solver.
      * rewrite <- app_assoc. f_equal. simpl. rewrite filter_cons_True by (unfold seenBy;
          rewrite (proj2 (Z.ltb_lt 0 _)) by lia; simpl; by rewrite bool_decide_eq_false_2).
        f_equal. symmetry. apply filter_filter_ext. intros v. unfold seenBy, repeats.
        rewrite (proj2 (Z.ltb_lt 0 (ID u))) by lia. simpl.
        destruct (0 <? ID v) eqn:Hv; simpl; bool_inv.
        -- rewrite !bool_decide_eq_false, elem_of_union, elem_of_singleton, Z.eqb_neq. naive_solver.
        -- rewrite Z.eqb_neq. split; [|done]. intros _. split; [done|]. lia.
  - rewrite IH. f_equal.
    + rewrite fmap_cons, filter_cons_False by lia. done.
    + rewrite <- app_assoc. f_equal. simpl.
      assert (0 <? ID u = false) as E by (apply Z.ltb_ge; lia).
      rewrite filter_cons_True by (unfold seenBy; by rewrite E). f_equal. symmetry. apply filter_filter_ext.
      intros v. unfold repeats. rewrite E. simpl. tauto.
Qed.

Lemma multiFetch_fold ps seen merged w :
  multiFetch ps seen merged w =
  let (r, w') := fetchEach ps w in ((fun ls => (foldl addUnseen (seen, merged) (concat ls)).2) <$> r, w').
Proof.
  revert seen merged w. induction ps as [|[p|] ps IH]; intros seen merged w; simpl; [done| |apply IH].
  destruct (FetchUsers p w) as [[us|e] w1]; [|done].
  destruct (foldl addUnseen (seen, merged) us) as [seen1 merged1] eqn:E. rewrite IH.
  destruct (fetchEach ps w1) as [[ls|e] w2]; simpl; [|done]. by rewrite foldl_app, E.
Qed.

(** The merged list is the concatenation of the panels' lists with only the first user of every
    positive id, and the first failing panel fails the fetch. *)
Theorem multi_fetch_keeps_first ps w :
  FetchUsers (MultiPanel ps) w =
  let (r, w') := fetchEach ps w in ((fun ls => keepFirst (concat ls)) <$> r, w').
Proof.
  simpl. rewrite multiFetch_fold. destruct (fetchEach ps w) as [[ls|e] w']; simpl; [|done].
  rewrite addUnseen_keepFirst. simpl. do 2 f_equal.
  assert (forall l : list User, filter (fun u => seenBy ∅ u = false) l = l) as Hall; [|apply Hall].
  intros l. induction l as [|u l IH]; [done|]. rewrite filter_cons_True, IH; [done|].
  unfold seenBy. rewrite bool_decide_eq_false_2 by set_solver. apply andb_false_r.
Qed.

(** ** Panels with scopes *)

Context (A : Accounts W).

Class ScopedPanel (scope : string -> Prop) (p : Panel W) : Prop := {
  sp_fetch : neutral A (fun w => (FetchUsers p w).2);
  sp_frame : forall d w, consistent A w -> consistent A (PushTraffic p d w).2 /\
    forall t u, pend A (PushTraffic p d w).2 t u = pend A w t u /\
      total A (PushTraffic p d w).2 t u = total A w t u;
  sp_books : forall d w t u, consistent A w -> wf_delta d -> isNumericUser u = true ->
    let '((acked, err), w') := PushTraffic p d w in
    (scope t -> booked A w' t u =
      uadd (booked A w t u) (if accepted acked err t then at2 d t u else (0, 0))) /\
    (~ scope t -> booked A w' t u = booked A w t u);
  sp_acks : forall d w t, let '((acked, err), _) := PushTraffic p d w in
    (is_Some (acked !! t) -> acked !! t = Some true /\ scope t) /\
    (err = None -> scope t -> is_Some (d !! t) -> acked !! t = Some true)
}.

(** A scoped panel keeps the promise the synchronisation loop relies on. *)
Lemma ScopedPanel_laws scope p : ScopedPanel scope p -> PanelLaws A scope p.
Proof.
  intros [Hf Hp Hb _]. split; [done | done |]. intros d w t u Hw Hd Hs Hu.
  specialize (Hb d w t u Hw Hd Hu). destruct (PushTraffic p d w) as [[acked err] w']. by apply Hb.
Qed.

(** ** Composition *)

Abbreviation scoped := ((string -> Prop) * option (Panel W))%type.

(** Panels given with their scopes; a nil panel has none. *)
Definition scopedOk (sp : scoped) : Prop :=
  match sp.2 with Some p => ScopedPanel sp.1 p | None => forall t, ~ sp.1 t end.

Definition disjointScopes (sps : list scoped) : Prop :=
  forall i j s1 s2 t, i <> j -> sps !! i = Some s1 -> sps !! j = Some s2 -> s1.1 t -> ~ s2.1 t.

Definition anyScope (sps : list scoped) (t : string) : Prop := Exists (fun sp => sp.1 t) sps.

Lemma disjointScopes_cons sp sps :
  disjointScopes (sp :: sps) -> disjointScopes sps /\ forall t, sp.1 t -> ~ anyScope sps t.
Proof.
  intros Hd. split.
  - intros i j s1 s2 t Hij. apply (Hd (S i) (S j)). lia.
  - intros t Ht (s2 & Hin & Ht2)%Exists_exists. apply list_elem_of_lookup_1 in Hin as [j Hj].
    by eapply (Hd 0%nat (S j)).
Qed.

(** What the push loop has done for a tag and a user. *)
Lemma multiPush_spec sps d acked errs w t u :
  Forall scopedOk sps -> disjointScopes sps -> consistent A w -> wf_delta d -> isNumericUser u = true ->
  (anyScope sps t -> acked !! t = None) ->
  let '((acked', errs'), w') := multiPush (snd <$> sps) d acked errs w in
  consistent A w' /\ pend A w' t u = pend A w t u /\ total A w' t u = total A w t u /\
  (anyScope sps t -> booked A w' t u =
    uadd (booked A w t u) (if bool_decide (acked' !! t = Some true) then at2 d t u else (0, 0))) /\
  (~ anyScope sps t -> booked A w' t u = booked A w t u /\ acked' !! t = acked !! t) /\
  exists more, errs' = errs ++ more /\ (more = [] -> anyScope sps t -> is_Some (d !! t) -> acked' !! t = Some true).
Proof.
  intros Hok Hdis Hw Hd Hu. revert acked errs w Hw Hdis.
  induction Hok as [|[sc o] sps Hsp _ IH]; intros acked errs w Hw Hdis Hack; simpl.
  { assert (~ anyScope [] t) as Hno by (intros Hx; by apply Exists_nil in Hx).
    split_and!; try done. exists []. by rewrite app_nil_r. }
  apply disjointScopes_cons in Hdis as [Hdis Hapart]. simpl in Hapart.
  assert (forall x, anyScope ((sc, o) :: sps) x <-> sc x \/ anyScope sps x) as Hcons by (intros; apply Exists_cons).
  destruct o as [p|]; simpl in Hsp.
  - change (ScopedPanel sc p) in Hsp. pose proof (sp_frame (scope := sc) (p := p) d w Hw) as [Hw1 Hfr]. destruct (Hfr t u) as [Hp1 Ht1].
    pose proof (sp_books (scope := sc) (p := p) d w t u Hw Hd Hu) as Hb. pose proof (sp_acks (scope := sc) (p := p) d w t) as Ha.
    destruct (PushTraffic p d w) as [[pa err] w1]. simpl in *. destruct Hb as [Hb Hb'], Ha as [Ha Ha'].
    set (acked1 := ((fun _ : bool => true) <$> pa) ∪ acked).
    assert (forall b, acked1 !! t = b <-> (match pa !! t with Some _ => Some true | None => acked !! t end) = b) as Hacked1.
    { intros b. unfold acked1. rewrite lookup_union, lookup_fmap. destruct (pa !! t), (acked !! t); done. }
    specialize (IH acked1 (errs ++ option_list err) w1 Hw1 Hdis).
    destruct (multiPush _ d acked1 _ w1) as [[acked' errs'] w'].
    destruct IH as (Hw' & Hp' & Ht' & Hin & Hout & more & -> & Hmore).
    { intros Hx. apply Hacked1. destruct (pa !! t) as [b|] eqn:E; [|apply Hack, Hcons; by right].
      destruct (Ha (ltac:(eauto))) as [_ Hs]. by destruct (Hapart t Hs). }
    split_and!; [done | congruence | congruence | | |].
    + intros [Hs|Hx]%Hcons.
      * destruct (Hout (Hapart t Hs)) as [-> ->]. rewrite Hb by done. f_equal.
        assert (acked1 !! t = pa !! t) as ->.
        { apply Hacked1. destruct (pa !! t) as [b|] eqn:E; [|apply Hack, Hcons; by left].
          by destruct (Ha (ltac:(eauto))) as [[= ->] _]. }
        destruct err as [e|]; [done|]. simpl. destruct (d !! t) as [m|] eqn:Em.
        -- rewrite bool_decide_eq_true_2; [done|]. apply Ha'; eauto.
        -- unfold at2. rewrite Em. destruct (bool_decide (pa !! t = Some true)); reflexivity.
      * rewrite Hin by done. f_equal. apply Hb'. intros Hs. by destruct (Hapart t Hs).
    + intros Hn. assert (~ sc t /\ ~ anyScope sps t) as [Hs Hx] by (split; intros ?; apply Hn, Hcons; auto).
      destruct (Hout Hx) as [-> ->]. split; [by apply Hb'|]. apply Hacked1.
      destruct (pa !! t) as [b|] eqn:E; [|done]. by destruct (Ha (ltac:(eauto))).
    + exists (option_list err ++ more). split; [by rewrite app_assoc|].
      intros [He Hm]%app_eq_nil [Hs|Hx]%Hcons Hd'; [|by apply Hmore].
      destruct (Hout (Hapart t Hs)) as [_ ->]. apply Hacked1. destruct err; [done|].
      by rewrite Ha'.
  - specialize (IH acked errs w Hw Hdis). destruct (multiPush _ d acked errs w) as [[acked' errs'] w'].
    assert (anyScope ((sc, None) :: sps) t <-> anyScope sps t) as E.
    { rewrite Hcons. split; [|by right]. intros [Hs|?]; [by destruct (Hsp t)|done]. }
    setoid_rewrite E. apply IH. intros Hx. apply Hack. by apply E.
Qed.

Lemma multiFetch_neutral ps seen merged :
  Forall (fun o => forall p, o = Some p -> neutral A (fun w => (FetchUsers p w).2)) ps ->
  neutral A (fun w => (multiFetch ps seen merged w).2).
Proof.
  intros Hps. revert seen merged. induction Hps as [|o ps Hp _ IH]; intros seen merged w Hw; simpl; [done|].
  destruct o as [p|]; [|by apply IH]. destruct (Hp p eq_refl w Hw) as [Hw1 H1].
  destruct (FetchUsers p w) as [[us|e] w1]; simpl in *; [|done].
  destruct (foldl addUnseen (seen, merged) us) as [seen1 merged1].
  destruct (IH seen1 merged1 w1 Hw1) as [Hw2 H2]. split; [done|]. intros t u.
  destruct (H1 t u) as (? & ? & ?), (H2 t u) as (? & ? & ?). split_and!; congruence.
Qed.

(** Panels that keep to disjoint scopes make one panel for all of them: whatever subset of
    them fails, a tag's traffic is booked exactly when the combined answer accepts the tag. *)
Theorem multi_panel_composes sps :
  Forall scopedOk sps -> disjointScopes sps -> PanelLaws A (anyScope sps) (MultiPanel (snd <$> sps)).
Proof.
  intros Hok Hdis. assert (forall d w t u, consistent A w -> wf_delta d -> isNumericUser u = true -> _) as Hpush
    by (intros d w t u Hw Hd Hu; exact (multiPush_spec sps d ∅ [] w t u Hok Hdis Hw Hd Hu (fun _ => lookup_empty t))).
  split.
  - apply multiFetch_neutral. apply Forall_fmap, (Forall_impl _ _ _ Hok). intros [sc o] Hsp p E; simpl in *. subst o.
    apply Hsp.
  - intros d w Hw. simpl.
    assert (forall t u, let '((acked, errs), w') := multiPush (snd <$> sps) d ∅ [] w in
      consistent A w' /\ pend A w' t u = pend A w t u /\ total A w' t u = total A w t u) as Hfr.
    { intros t u. revert w Hw. generalize (∅ : ackSet), ([] : list error).
      clear -Hok. induction Hok as [|[sc o] sps Hsp _ IH]; intros acked errs w Hw; simpl; [done|].
      destruct o as [p|]; [|by apply IH]. change (ScopedPanel sc p) in Hsp.
      destruct (sp_frame (scope := sc) (p := p) d w Hw) as [Hw1 Hf]. destruct (Hf t u) as [Hp Ht].
      destruct (PushTraffic p d w) as [[pa err] w1]. simpl in *.
      specialize (IH (((fun _ => true) <$> pa) ∪ acked) (errs ++ option_list err) w1 Hw1).
      destruct (multiPush _ _ _ _ _) as [[? ?] ?]. destruct IH as (? & ? & ?). split_and!; congruence. }
    destruct (multiPush _ d ∅ [] w) as [[acked errs] w']. split; [by apply (Hfr "" "")|].
    intros t u. by apply (Hfr t u).
  - intros d w t u Hw Hd Hs Hu. simpl. specialize (Hpush d w t u Hw Hd Hu).
    destruct (multiPush _ d ∅ [] w) as [[acked errs] w'].
    destruct Hpush as (_ & _ & _ & Hin & _ & more & E & Hmore). simpl in E. subst errs.
    rewrite Hin by done. f_equal. destruct more as [|e more]; simpl; [|done].
    destruct (d !! t) as [m|] eqn:Em; [rewrite bool_decide_eq_true_2; [done | by apply Hmore]|].
    unfold at2. rewrite Em. destruct (bool_decide (acked !! t = Some true)); reflexivity.
Qed.
End MultiPanel.

(** ** The agent without a topology *)

Section Legacy.
Context `{UnicodeTables} `{MapOrder} `{Float64} `{Build} {R : Type} `{BookingService R}.
Implicit Types (w : World R) (c : Client) (n : NodeSpec).

(** A client as a panel of the whole system. *)
Definition clientPanel c : Panel (World R) :=
  mkPanel (fun w => let (us, r) := Client_FetchUsers c (remote w) in (us, setRemote r w))
    (fun d w => let (res, r) := Client_PushTraffic c d (remote w) in (res, setRemote r w)).

(** The panel main chooses when only panel flags are given. *)
Definition legacyPanel (url token nodeID nodeType hy2NodeID hy2NodeType : string) : Panel (World R) :=
  let primary := clientPanel (NewClient url token nodeID nodeType) in
  if bool_decide (hy2NodeID <> "")
  then MultiPanel [Some primary; Some (clientPanel (NewClient url token hy2NodeID hy2NodeType))]
  else primary.

(** What a node's client acknowledges. *)
Lemma client_push_acks base token n d r :
  let '((acked, err), _) := Client_PushTraffic (NewNodeClient base token n) d r in
  acked = match err, d !! InboundTag n with None, Some _ => {[InboundTag n := true]} | _, _ => ∅ end.
Proof.
  unfold Client_PushTraffic. rewrite flatInbounds_tag by apply InboundTag_nonempty. simpl Client_InboundTag.
  destruct (d !! InboundTag n) as [m|].
  - case_bool_decide; [done|]. destruct (endpoint _ _) as [ep|e]; [|done]. case_bool_decide; [done|].
    destruct (http_do _ _ _ _) as [[resp|e] r']; [|done]. by destruct (negb _).
  - by rewrite bool_decide_eq_true_2.
Qed.

(** A node's client keeps to the node's inbound. *)
Lemma nodeClient_scoped base token ns n :
  Forall node_ok ns -> NoDup (Key <$> ns) -> NoDup (InboundTag <$> ns) -> n ∈ ns ->
  ScopedPanel (agentAccounts ns) (eq (InboundTag n)) (clientPanel (NewNodeClient base token n)).
Proof.
  intros Hok Hkey Htag Hn. pose proof (proj1 (Forall_forall _ _) Hok n Hn) as Hnok. split.
  - apply same_hook_neutral. intros w. simpl.
    pose proof (fun m id => fetch_books_nothing (NewNodeClient base token n) (remote w) m id) as Hl.
    by destruct (Client_FetchUsers _ (remote w)).
  - intros d w Hw. simpl. by destruct (Client_PushTraffic _ d (remote w)).
  - intros d w t u _ Hd Hu. simpl.
    pose proof (fun m id => client_push_books base token n d (remote w) m id Hnok Hd) as Hb.
    pose proof (client_push_acks base token n d (remote w)) as Ha.
    destruct (Client_PushTraffic _ d (remote w)) as [[acked err] r]. split.
    + intros <-. simpl. rewrite !confirmedFor_node by done.
      assert ((if accepted acked err (InboundTag n) then at2 d (InboundTag n) u else (0, 0)) =
        (if bool_decide (err = None) then at2 d (InboundTag n) u else (0, 0))) as ->.
      { destruct err as [e|]; [|done]. simpl. subst acked. by rewrite bool_decide_eq_false_2. }
      assert ((forall id, Atoi u = Some id -> ~ (0 <= id <= int64_max /\ u = Itoa id)) ->
        at2 d (InboundTag n) u = (0, 0)) as Hnot.
      { intros Hno. apply wf_delta_panelUser; [done..|]. intros (id & Hid & -> & Hat)%panelUser_booked.
        by apply (Hno id). }
      destruct (Atoi u) as [id|] eqn:Hat; [case_decide as Hid|].
      * destruct Hid as [Hid ->]. rewrite Hb by done.
        by rewrite (bool_decide_ext (err = None /\ remoteNode n = remoteNode n) (err = None)) by tauto.
      * rewrite Hnot by (by intros ? [= <-]). by destruct (bool_decide _).
      * rewrite Hnot by done. by destruct (bool_decide _).
    + intros Hne. simpl. unfold confirmedFor, entryFor. destruct (list_find _ ns) as [[i m]|] eqn:Hf; [|done].
      apply list_find_Some in Hf as (Hm & Htm & _). apply list_elem_of_lookup_2 in Hm.
      destruct (Atoi u) as [id|]; [|done]. case_decide as Hid; [|done]. destruct Hid as [Hid _].
      rewrite Hb by done. rewrite bool_decide_eq_false_2, uadd_0_r; [done|].
      intros [_ E]. apply Hne. rewrite <- Htm. f_equal.
      apply remoteNode_Key in E; [|by eapply Forall_forall in Hok|done].
      by eapply (NoDup_fmap_eq Key ns).
  - intros d w t. simpl. pose proof (client_push_acks base token n d (remote w)) as Ha.
    destruct (Client_PushTraffic _ d (remote w)) as [[acked err] r]. subst acked. split.
    + destruct err as [e|]; [by rewrite lookup_empty; intros []|].
      destruct (d !! InboundTag n); [|by rewrite lookup_empty; intros []].
      intros [b Hb]. apply lookup_singleton_Some in Hb as [<- <-]. by rewrite lookup_singleton_eq.
    + intros -> <- [m ->]. apply lookup_singleton_eq.
Qed.

(** *** The two nodes of the dual mode *)

Definition vlessNode (id : string) : NodeSpec := mkNode id "vless" "vless-in" (mkOutbound "direct" "" 0 "" "" "" "").
Definition hy2Node (id : string) : NodeSpec := mkNode id "hysteria" "hy2-in" (mkOutbound "direct" "" 0 "" "" "" "").

(** A legacy client matches the inbound of its protocol only, so it does what the client of
    that node does. *)
Lemma push_same_matches c c' d (r : R) :
  (forall tag, matchesInbound c tag = matchesInbound c' tag) ->
  (forall path, endpoint c path = endpoint c' path) ->
  Client_PushTraffic c d r = Client_PushTraffic c' d r.
Proof.
  intros Hm He. unfold Client_PushTraffic.
  assert (foldl (flatInbound c) (∅, ∅) (go_range 10 d) = foldl (flatInbound c') (∅, ∅) (go_range 10 d)) as ->.
  { generalize ((∅, ∅) : gmap string usage * ackSet). generalize (go_range 10 d). intros l.
    induction l as [|e l IH]; intros s; simpl; [done|]. rewrite IH. unfold flatInbound. by rewrite Hm. }
  by rewrite He.
Qed.

Lemma legacy_push url token id (mk : string -> NodeSpec) ty d (r : R) :
  mk = vlessNode /\ ty = "vless" \/ mk = hy2Node /\ ty = "hysteria" ->
  Client_PushTraffic (NewClient url token id ty) d r = Client_PushTraffic (NewNodeClient url token (mk id)) d r.
Proof.
  intros [[-> ->]|[-> ->]]; apply push_same_matches; intros x; reflexivity.
Qed.

Lemma legacy_fetch url token id (mk : string -> NodeSpec) ty (r : R) :
  mk = vlessNode /\ ty = "vless" \/ mk = hy2Node /\ ty = "hysteria" ->
  Client_FetchUsers (NewClient url token id ty) r = Client_FetchUsers (NewNodeClient url token (mk id)) r.
Proof. intros [[-> ->]|[-> ->]]; reflexivity. Qed.

Lemma ScopedPanel_ext (A : Accounts (World R)) scope p q :
  (forall w, FetchUsers p w = FetchUsers q w) -> (forall d w, PushTraffic p d w = PushTraffic q d w) ->
  ScopedPanel A scope q -> ScopedPanel A scope p.
Proof.
  intros Hf Hp [Q1 Q2 Q3 Q4]. split.
  - intros w Hw. rewrite Hf. by apply Q1.
  - intros d w Hw. rewrite Hp. by apply Q2.
  - intros d w t u. rewrite Hp. apply Q3.
  - intros d w t. rewrite Hp. apply Q4.
Qed.

Lemma legacy_scoped url token ns id (mk : string -> NodeSpec) ty :
  mk = vlessNode /\ ty = "vless" \/ mk = hy2Node /\ ty = "hysteria" ->
  Forall node_ok ns -> NoDup (Key <$> ns) -> NoDup (InboundTag <$> ns) -> mk id ∈ ns ->
  ScopedPanel (agentAccounts ns) (eq (InboundTag (mk id))) (clientPanel (NewClient url token id ty)).
Proof.
  intros Hmk Hok Hk Ht Hin. eapply ScopedPanel_ext; [| |by apply (nodeClient_scoped url token)].
  - intros w. simpl. by rewrite (legacy_fetch url token id mk ty).
  - intros d w. simpl. by rewrite (legacy_push url token id mk ty).
Qed.

Definition dualNodes (vlessID hy2ID : string) : list NodeSpec := [vlessNode vlessID; hy2Node hy2ID].
Definition dualTags : list string := ["vless-in"; "hy2-in"].

Lemma dualNodes_tags i j : InboundTag <$> dualNodes i j = dualTags.
Proof. reflexivity. Qed.

Lemma dualNodes_ok i j :
  node_id_ok i -> node_id_ok j ->
  Forall node_ok (dualNodes i j) /\ NoDup (Key <$> dualNodes i j) /\ NoDup (InboundTag <$> dualNodes i j).
Proof.
  intros Hi Hj. split_and!.
  - unfold dualNodes. rewrite !Forall_cons, Forall_nil. split_and!; try done.
    + split_and!; [exact Hi | by left | by left].
    + split_and!; [exact Hj | by right | by left].
  - simpl. apply NoDup_cons. split; [|apply NoDup_singleton]. intros E%list_elem_of_singleton.
    unfold Key, NodeKey in E. discriminate E.
  - rewrite dualNodes_tags. decide_vm.
Qed.

Lemma legacyPanel_laws url token i j :
  node_id_ok i -> node_id_ok j ->
  PanelLaws (agentAccounts (dualNodes i j)) (fun t => t ∈ dualTags) (legacyPanel url token i "vless" j "hysteria").
Proof.
  intros Hi Hj. destruct (dualNodes_ok i j Hi Hj) as (Hok & Hk & Ht).
  assert (j <> "") as Hne by (intros ->; by apply (proj1 Hj)).
  unfold legacyPanel. rewrite bool_decide_eq_true_2 by done.
  set (sps := [(eq "vless-in", Some (clientPanel (NewClient url token i "vless")));
               (eq "hy2-in", Some (clientPanel (NewClient url token j "hysteria")))]).
  assert (forall t, anyScope sps t <-> t ∈ dualTags) as Hscope.
  { intros t. unfold anyScope, sps, dualTags. rewrite !Exists_cons, Exists_nil, !elem_of_cons, elem_of_nil. simpl.
    naive_solver. }
  destruct (multi_panel_composes (agentAccounts (dualNodes i j)) sps) as [L1 L2 L3].
  - unfold sps. rewrite !Forall_cons, Forall_nil. split_and!; [| |done].
    + apply (legacy_scoped url token _ i vlessNode "vless"); [by left | done.. | by left].
    + apply (legacy_scoped url token _ j hy2Node "hysteria"); [by right | done.. | by right; left].
  - intros [|[|?]] [|[|?]] s1 s2 t Hij; simpl; intros [= <-] [= <-]; simpl; naive_solver.
  - split; [exact L1 | exact L2 |]. intros d w t u Hw Hd Hs%Hscope Hu. by apply L3.
Qed.

(** C12. Exactly-once billing without a topology: with one client for the VLESS node and one for
    the Hysteria2 node, over any rounds with any answers of the panel and traffic at every
    point, all bytes of the connections opened for a panel user on either inbound are accounted
    for: what was carried, plus what was booked under pushes that were not acknowledged, is what
    the panel has booked for the node, plus what is pending, plus what was carried after the
    counters had dropped the user's storage; and the acknowledged amount never decreases.
    Counters stay within 64 bits, numeric names are ids of panel users, and an answer in the 200s
    means that the push was booked once ([BookingService]). *)
Theorem legacy_billing_exactly_once clock url token i j every f evs w t u :
  node_id_ok i -> node_id_ok j -> world_ok w -> connections_ok f ->
  (forall t u, t ∈ dualTags -> isNumericUser u = true -> balanced (dualNodes i j) w t u) ->
  t ∈ dualTags -> isNumericUser u = true ->
  let s := agentSyncer clock (legacyPanel url token i "vless" j "hysteria") false every in
  let w' := Run s (connections f) evs w in
  balanced (dualNodes i j) w' t u /\
  ule (confirmedFor (dualNodes i j) (remote w) t u) (confirmedFor (dualNodes i j) (remote w') t u).
Proof.
  intros Hi Hj Hw Hf Hacc Ht Hu s w'. pose proof (legacyPanel_laws url token i j Hi Hj) as Hlaws.
  assert (round_spec (agentAccounts (dualNodes i j)) (fun t => t ∈ dualTags) w w') as [_ Ha Hb _].
  { eapply (Run_round _ _ snapshotDelta commitSnapshot (legacyPanel url token i "vless" j "hysteria"));
      try done; [|by apply connections_env_ok].
    intros g us [= <-]. apply users_callback_neutral. }
  split; [|by apply Hb]. rewrite !balanced_accounted in Ha. by apply Ha.
Qed.
End Legacy.

(** ** Example: the dual mode *)

Module Dual.
Import UserManager.Fixture TopologyPanel.Scenario.

Definition dualAgent : Syncer (World Service) :=
  agentSyncer limiterClock (legacyPanel "http://panel/" "token" "1" "vless" "2" "hysteria") false 0.

Definition dualWorld : World Service :=
  mkWorld NewHook start
    {[ "vless-in" := InVLESS (VLESS.NewInbound []); "hy2-in" := InHysteria2 (Hysteria2.NewInbound []) ]}
    (mkService ∅ ∅ 0) noGhost.

Definition dualTraffic : list hook_event :=
  [EvOpen "vless-in" "1"; EvOpen "hy2-in" "2"; EvUp 0 100; EvDown 1 50].

Definition dualGaps (_ : nat) (w : World Service) : list hook_event :=
  if decide (events_ok (hook w) dualTraffic) then dualTraffic else [].

Lemma dualGaps_ok : connections_ok dualGaps.
Proof.
  intros k w _. unfold dualGaps. case_decide as E; [|split; [done | constructor]]. split; [done|].
  repeat constructor; simpl; intros _; [exists 1 | exists 2]; (split; [unfold64; lia | reflexivity]).
Qed.

(** Three rounds; the second push is booked but not acknowledged, and repeated. *)
Lemma legacy_billing_exactly_once_witness :
  let w' := Run dualAgent (connections dualGaps) [Tick; Tick] dualWorld in
  bookedFor (dualNodes "1" "2") (remote w') "hy2-in" "2" = (0, 700) /\
  disputedFor (dualNodes "1" "2") (remote w') "hy2-in" "2" = (0, 100) /\
  balanced (dualNodes "1" "2") w' "hy2-in" "2".
Proof.
  intros w'. split; [vm_compute; reflexivity|]. split; [vm_compute; reflexivity|].
  refine (proj1 (legacy_billing_exactly_once limiterClock "http://panel/" "token" "1" "2" 0 dualGaps [Tick; Tick]
    dualWorld "hy2-in" "2" _ _ _ dualGaps_ok _ _ _)).
  - unfold node_id_ok. decide_vm.
  - unfold node_id_ok. decide_vm.
  - split_and!; [apply NewHook_ok|..]; intros t u; unfold ptr; simpl; rewrite lookup_empty; [by intros []|done].
  - intros t u _ _. unfold balanced, bookedFor, disputedFor, entryFor.
    assert (pending (hook dualWorld) t u = (0, 0)) as -> by (unfold pending, ptr; simpl; by rewrite lookup_empty).
    destruct (list_find _ _) as [[? ?]|]; [|done]. destruct (Atoi u) as [id|]; [|done]. by case_decide.
  - by right; left.
  - reflexivity.
Defined.

(** Disjoint scopes: the two clients as one panel. *)
Lemma multi_panel_composes_witness :
  let sps := [(eq "vless-in", Some (clientPanel (R := Service) (NewClient "http://panel/" "token" "1" "vless")));
              (fun _ => False, None);
              (eq "hy2-in", Some (clientPanel (NewClient "http://panel/" "token" "2" "hysteria")))] in
  PanelLaws (agentAccounts (dualNodes "1" "2")) (anyScope sps) (MultiPanel (snd <$> sps)).
Proof.
  intros sps.
  assert (node_id_ok "1" /\ node_id_ok "2") as [H1 H2] by (unfold node_id_ok; decide_vm).
  destruct (dualNodes_ok "1" "2" H1 H2) as (Hok & Hk & Ht).
  apply (multi_panel_composes (agentAccounts (dualNodes "1" "2")) sps).
  - unfold sps. rewrite !Forall_cons, Forall_nil. split_and!; [|by intros t [] | |done].
    + apply (legacy_scoped "http://panel/" "token" _ "1" vlessNode "vless"); [by left | done.. | by left].
    + apply (legacy_scoped "http://panel/" "token" _ "2" hy2Node "hysteria"); [by right | done.. | by right; left].
  - intros [|[|[|?]]] [|[|[|?]]] s1 s2 t Hij; simpl; intros [= <-] [= <-]; simpl; naive_solver.
Defined.
End Dual.
