(* ===== verification/Store.v ===== *)
(** * The panel's store (src/panelserver/store.go)

    Agents, their topologies, the usage booked per agent, node and user, and the batches
    already applied.  The time of day and the random revision are arguments; [etagOf] stands
    for the hash of the revision.  Each operation runs under the store's mutex. *)

From S2P Require Import Prelude GoStrings Topology Counter.

#[local] Open Scope Z_scope.

Record Agent := mkAgent {
  Agent_ID : string;
  Agent_Name : string;
  Secret : string;
  CreatedAt : option Z;
  SeenAt : option Z
}.

Record TopologyRecord := mkRecord {
  Revision : string;
  ETag : string;
  Record_Topology : Topology;
  UpdatedAt : Z
}.

(** [Usage]: upload and download; [usageKey]: agent, node key, user; [batchKey]: agent, batch. *)
Abbreviation Usage := (Z * Z)%type.
Abbreviation usageKey := (string * string * Z)%type.
Abbreviation batchKey := (string * string)%type.

Record Store := mkStore {
  agents : gmap string Agent;
  topologies : gmap string TopologyRecord;
  usage : gmap usageKey Usage;
  batches : gset batchKey
}.

(** src/panelapi/control_plane.go *)
Record TrafficItem := mkItem {
  Item_NodeID : string;
  Item_NodeType : string;
  UserID : Z;
  Upload : Z;
  Download : Z
}.

Record TrafficPushRequest := mkPush {
  BatchID : string;
  Items : list TrafficItem
}.

Definition NewStore : Store := mkStore ∅ ∅ ∅ ∅.

Definition PutAgent (now : Z) (agent : Agent) (s : Store) : option error * Store :=
  if bool_decide (Agent_ID agent = "") || bool_decide (Secret agent = "")
  then (Some (New "agent id and secret are required"), s)
  else
    let created := match CreatedAt agent with None => Some now | Some t => Some t end in
    let agent := mkAgent (Agent_ID agent) (Agent_Name agent) (Secret agent) created (SeenAt agent) in
    (None, mkStore (<[Agent_ID agent := agent]> (agents s)) (topologies s) (usage s) (batches s)).

Definition publicAgent (a : Agent) : Agent :=
  mkAgent (Agent_ID a) (Agent_Name a) "" (CreatedAt a) (SeenAt a).

Section Store.
Context `{UnicodeTables} `{MapOrder}.
Implicit Types (s : Store) (payload : TrafficPushRequest).

Definition AgentBySecret (secret : string) s : option Agent :=
  snd <$> (list_find (fun a => Secret a = secret) (go_range 40 (agents s)).*2).

Definition Agents s : list Agent := publicAgent <$> (go_range 41 (agents s)).*2.

Definition PutTopology (etagOf : string -> string) (now : Z) (revision agentID : string)
    (topology : Topology) s : option error * Store :=
  match Validate topology with
  | Err e => (Some e, s)
  | Ok _ =>
      match agents s !! agentID with
      | None => (Some (New ("agent " +:+ agentID +:+ " not found")), s)
      | Some _ =>
          let record := mkRecord revision (etagOf revision) topology now in
          (None, mkStore (agents s) (<[agentID := record]> (topologies s)) (usage s) (batches s))
      end
  end.

Definition Store_Topology (agentID : string) s : option TopologyRecord := topologies s !! agentID.

Definition usageAt s (k : usageKey) : Usage := default (0, 0) (usage s !! k).

Definition Store_Usage (agentID nodeType nodeID : string) (userID : Z) s : Usage :=
  usageAt s (agentID, NodeKey nodeType nodeID, userID).

(** The validation loop of [ApplyTraffic]. *)
Definition itemKey (item : TrafficItem) : string := NodeKey (Item_NodeType item) (Item_NodeID item).

Definition invalidItem (item : TrafficItem) : bool :=
  bool_decide (Item_NodeID item = "") || bool_decide (Item_NodeType item = "") ||
  (UserID item <=? 0) || (Upload item <? 0) || (Download item <? 0).

Fixpoint validateItems (agentID : string) (owned : gset string) (items : list TrafficItem)
  : res error unit :=
  match items with
  | [] => Ok tt
  | item :: items =>
      reject_if (invalidItem item) (New "invalid traffic item") ;;
      reject_if (negb (bool_decide (itemKey item ∈ owned)))
        (New ("node " +:+ Item_NodeID item +:+ " of type " +:+ Item_NodeType item +:+
              " is not assigned to agent " +:+ agentID)) ;;
      validateItems agentID owned items
  end.

(** The booking loop. *)
Definition bookItem (agentID : string) (u : gmap usageKey Usage) (item : TrafficItem)
  : gmap usageKey Usage :=
  let k := (agentID, itemKey item, UserID item) in
  let old := default (0, 0) (u !! k) in
  <[k := (wrap64 (old.1 + Upload item), wrap64 (old.2 + Download item))]> u.

Definition see (now : Z) (a : Agent) : Agent :=
  mkAgent (Agent_ID a) (Agent_Name a) (Secret a) (CreatedAt a) (Some now).

Definition ApplyTraffic (now : Z) (agentID : string) payload s : (bool * option error) * Store :=
  if bool_decide (BatchID payload = "") then ((false, Some (New "batch_id is required")), s) else
  match agents s !! agentID with
  | None => ((false, Some (New "agent not found")), s)
  | Some agent =>
      let bk := (agentID, BatchID payload) in
      if bool_decide (bk ∈ batches s) then ((false, None), s) else
      match topologies s !! agentID with
      | None => ((false, Some (New ("agent " +:+ agentID +:+ " has no assigned topology"))), s)
      | Some record =>
          let owned : gset string := list_to_set (Key <$> Nodes (Record_Topology record)) in
          match validateItems agentID owned (Items payload) with
          | Err e => ((false, Some e), s)
          | Ok _ =>
              ((true, None),
               mkStore (<[agentID := see now agent]> (agents s)) (topologies s)
                 (foldl (bookItem agentID) (usage s) (Items payload)) ({[bk]} ∪ batches s))
          end
      end
  end.

(** ** Booking *)

(** What a list of items adds to an account of the agent. *)
Definition itemsFor (items : list TrafficItem) (node : string) (user : Z) : Usage :=
  foldr (fun item acc =>
    if bool_decide (itemKey item = node /\ UserID item = user)
    then (Upload item + acc.1, Download item + acc.2) else acc) (0, 0) items.

Definition wrapUsage64 (v : Usage) : Usage := (wrap64 v.1, wrap64 v.2).

Lemma wrapUsage64_add a b : wrapUsage64 (uadd (wrapUsage64 a) b) = wrapUsage64 (uadd a b).
Proof. unfold wrapUsage64, uadd; simpl. by rewrite !wrap64_add_l. Qed.

Lemma bookItems_other agentID items u a node user :
  a <> agentID -> foldl (bookItem agentID) u items !! (a, node, user) = u !! (a, node, user).
Proof.
  intros Hne. apply (foldl_frame (bookItem agentID) (fun u => u !! (a, node, user))).
  intros u' item _. unfold bookItem. apply lookup_insert_ne. congruence.
Qed.

Lemma bookItems_sum agentID items u node user :
  wrapUsage64 (default (0, 0) (foldl (bookItem agentID) u items !! (agentID, node, user))) =
  wrapUsage64 (uadd (default (0, 0) (u !! (agentID, node, user))) (itemsFor items node user)).
Proof.
  revert u. induction items as [|item items IH]; intros u; simpl.
  - f_equal. destruct (default _ _); unfold uadd; simpl. by rewrite !Z.add_0_r.
  - rewrite IH. unfold bookItem at 1. cbv zeta. case_bool_decide as E.
    + destruct E as [-> ->]. rewrite lookup_insert_eq. simpl.
      set (old := default (0, 0) (u !! (agentID, node, user))).
      change (wrap64 (old.1 + Upload item), wrap64 (old.2 + Download item))
        with (wrapUsage64 (uadd old (Upload item, Download item))).
      rewrite wrapUsage64_add. f_equal. unfold uadd; simpl. f_equal; lia.
    + rewrite lookup_insert_ne; [done|]. intros [= ? ?]. naive_solver.
Qed.

Lemma validateItems_Ok agentID owned items u :
  validateItems agentID owned items = Ok u <->
  Forall (fun item => invalidItem item = false /\ itemKey item ∈ owned) items.
Proof.
  destruct u. induction items as [|item items IH]; simpl; [by rewrite Forall_nil|].
  rewrite Forall_cons, <- IH. rewrite !bind_Ok. setoid_rewrite reject_if_Ok. split.
  - intros ([] & Hi & Hk). res_inv. bool_inv. done.
  - intros [[Hi Hk] Hr]. exists tt. split; [done|]. rewrite bool_decide_eq_true_2 by done. done.
Qed.

(** ** Histories

    The store after any sequence of operations, with the batches it accepted: an abstract
    ledger that the map of usages refines. *)

Inductive op :=
| OpPutAgent (now : Z) (agent : Agent)
| OpPutTopology (now : Z) (revision agentID : string) (topology : Topology)
| OpTraffic (now : Z) (agentID : string) (payload : TrafficPushRequest).

Context (etagOf : string -> string).

Definition exec (o : op) s : Store :=
  match o with
  | OpPutAgent now a => (PutAgent now a s).2
  | OpPutTopology now revision id t => (PutTopology etagOf now revision id t s).2
  | OpTraffic now id payload => (ApplyTraffic now id payload s).2
  end.

Definition accepts (o : op) s : list (string * TrafficPushRequest) :=
  match o with
  | OpTraffic now id payload => if (ApplyTraffic now id payload s).1.1 then [(id, payload)] else []
  | _ => []
  end.

Fixpoint history (ops : list op) s : list (string * TrafficPushRequest) :=
  match ops with
  | [] => []
  | o :: ops => accepts o s ++ history ops (exec o s)
  end.

Definition execAll (ops : list op) s : Store := foldl (fun s o => exec o s) s ops.

(** The abstract ledger: the sum over the accepted batches of the agent. *)
Definition ledgerOf (log : list (string * TrafficPushRequest)) (k : usageKey) : Usage :=
  foldr (fun e acc => if bool_decide (e.1 = k.1.1) then uadd (itemsFor (Items e.2) k.1.2 k.2) acc else acc)
    (0, 0) log.

Lemma ApplyTraffic_cases now id payload s :
  (exists err, ApplyTraffic now id payload s = ((false, err), s)) \/
  (exists agent record, agents s !! id = Some agent /\ topologies s !! id = Some record /\
    BatchID payload <> "" /\ (id, BatchID payload) ∉ batches s /\
    Forall (fun item => invalidItem item = false /\
      itemKey item ∈ Key <$> Nodes (Record_Topology record)) (Items payload) /\
    ApplyTraffic now id payload s =
      ((true, None), mkStore (<[id := see now agent]> (agents s)) (topologies s)
        (foldl (bookItem id) (usage s) (Items payload)) ({[(id, BatchID payload)]} ∪ batches s))).
Proof.
  unfold ApplyTraffic. case_bool_decide as Hb; [eauto|].
  destruct (agents s !! id) as [agent|] eqn:Ha; [|eauto].
  case_bool_decide as Hd; [eauto|].
  destruct (topologies s !! id) as [record|] eqn:Ht; [|eauto]. cbv zeta.
  destruct (validateItems _ _ _) as [u|e] eqn:Hv; [|eauto].
  right. exists agent, record. split_and!; try done.
  apply validateItems_Ok in Hv. eapply Forall_impl; [exact Hv|].
  intros item [? Hk]. split; [done|]. by apply elem_of_list_to_set in Hk.
Qed.

Lemma usage_frame_PutAgent now a s : usage (PutAgent now a s).2 = usage s.
Proof. unfold PutAgent. by destruct (_ || _). Qed.

Lemma usage_frame_PutTopology now rev id t s : usage (PutTopology etagOf now rev id t s).2 = usage s.
Proof. unfold PutTopology. destruct (Validate t); [|done]. by destruct (agents s !! id). Qed.

Lemma exec_usage o s a node user :
  wrapUsage64 (usageAt (exec o s) (a, node, user)) =
  wrapUsage64 (uadd (usageAt s (a, node, user)) (ledgerOf (accepts o s) (a, node, user))).
Proof.
  assert (forall s', usage s' = usage s -> wrapUsage64 (usageAt s' (a, node, user)) =
    wrapUsage64 (uadd (usageAt s (a, node, user)) (0, 0))) as Hsame.
  { intros s' E. unfold usageAt. rewrite E. f_equal. destruct (default _ _). unfold uadd; simpl. f_equal; lia. }
  destruct o as [now ag|now rev id t|now id payload]; simpl.
  - apply Hsame, usage_frame_PutAgent.
  - apply Hsame, usage_frame_PutTopology.
  - destruct (ApplyTraffic_cases now id payload s) as [[err ->]|(agent & record & _ & _ & _ & _ & _ & ->)];
      simpl; [by apply Hsame|].
    case_bool_decide as E.
    + subst id. unfold usageAt. simpl. rewrite bookItems_sum. f_equal. unfold uadd; simpl.
      f_equal; lia.
    + unfold usageAt at 1. simpl. rewrite bookItems_other by done. by apply Hsame.
Qed.

Lemma ledgerOf_app l1 l2 k : ledgerOf (l1 ++ l2) k = uadd (ledgerOf l1 k) (ledgerOf l2 k).
Proof.
  induction l1 as [|e l1 IH]; simpl; [by destruct (ledgerOf l2 k)|].
  rewrite IH. case_bool_decide; [|done]. unfold uadd; simpl. f_equal; lia.
Qed.

Lemma execAll_usage ops s k :
  wrapUsage64 (usageAt (execAll ops s) k) =
  wrapUsage64 (uadd (usageAt s k) (ledgerOf (history ops s) k)).
Proof.
  destruct k as [[a node] user]. revert s. induction ops as [|o ops IH]; intros s; simpl.
  - f_equal. destruct (usageAt _ _). unfold uadd; simpl. f_equal; lia.
  - change (foldl (fun s o => exec o s) (exec o s) ops) with (execAll ops (exec o s)).
    rewrite IH, ledgerOf_app. rewrite <- wrapUsage64_add, exec_usage, wrapUsage64_add. f_equal.
    unfold uadd; simpl. f_equal; lia.
Qed.

(** Accepted batches are remembered, and agents never disappear. *)
Lemma exec_batches o s :
  batches (exec o s) = list_to_set ((fun e => (e.1, BatchID e.2)) <$> accepts o s) ∪ batches s /\
  dom (agents s) ⊆ dom (agents (exec o s)).
Proof.
  destruct o as [now ag|now rev id t|now id payload]; simpl.
  - unfold PutAgent. destruct (_ || _); simpl; (split; [set_solver|]); [done|]. rewrite dom_insert_L. set_solver.
  - unfold PutTopology. split.
    + destruct (Validate t); [|set_solver]. destruct (agents s !! id); set_solver.
    + destruct (Validate t); [|done]. by destruct (agents s !! id).
  - destruct (ApplyTraffic_cases now id payload s) as [[err ->]|(agent & record & _ & _ & _ & _ & _ & ->)];
      simpl; (split; [set_solver|]); [done|]. rewrite dom_insert_L. set_solver.
Qed.

Lemma exec_accepts_fresh o s e : e ∈ accepts o s -> (e.1, BatchID e.2) ∉ batches s.
Proof.
  destruct o as [now ag|now rev id t|now id payload]; simpl; [set_solver..|].
  destruct (ApplyTraffic_cases now id payload s) as [[err ->]|(agent & record & _ & _ & _ & Hb & _ & ->)];
    simpl; [set_solver|]. intros ->%list_elem_of_singleton. done.
Qed.

Lemma history_fresh ops s e : e ∈ history ops s -> (e.1, BatchID e.2) ∉ batches s.
Proof.
  revert s. induction ops as [|o ops IH]; intros s; simpl; [set_solver|].
  rewrite elem_of_app. intros [He|He]; [by apply (exec_accepts_fresh o)|].
  apply IH in He. destruct (exec_batches o s) as [E _]. rewrite E in He. set_solver.
Qed.

Lemma history_NoDup ops s : NoDup ((fun e => (e.1, BatchID e.2)) <$> history ops s).
Proof.
  revert s. induction ops as [|o ops IH]; intros s; simpl; [constructor|].
  rewrite fmap_app. apply NoDup_app. split_and!; [| |apply IH].
  - destruct o as [| |now id payload]; simpl; [constructor..|].
    destruct (ApplyTraffic now id payload s).1.1; simpl; [apply NoDup_singleton | constructor].
  - intros k (e & -> & He)%list_elem_of_fmap (e' & E & He')%list_elem_of_fmap.
    apply history_fresh in He'. destruct (exec_batches o s) as [Eb _]. rewrite Eb, <- E in He'.
    apply He'. apply elem_of_union_l, elem_of_list_to_set, list_elem_of_fmap. by exists e.
Qed.

(** Stored usages fit 64 bits. *)
Definition usage_ok s : Prop := forall k, in_int64 (usageAt s k).1 /\ in_int64 (usageAt s k).2.

Lemma bookItems_ok (id : string) (items : list TrafficItem) (u : gmap usageKey Usage) :
  (forall k, in_int64 (default (0, 0) (u !! k)).1 /\ in_int64 (default (0, 0) (u !! k)).2) ->
  forall k, in_int64 (default (0, 0) (foldl (bookItem id) u items !! k)).1 /\
    in_int64 (default (0, 0) (foldl (bookItem id) u items !! k)).2.
Proof.
  intros Hu. apply (foldl_invariant (bookItem id) (fun u : gmap usageKey Usage => forall k,
    in_int64 (default (0, 0) (u !! k)).1 /\ in_int64 (default (0, 0) (u !! k)).2)); [done|].
  intros u' item _ Hu' k. unfold bookItem. cbv zeta.
  destruct (decide (k = (id, itemKey item, UserID item))) as [->|Hne].
  - rewrite lookup_insert_eq. simpl. split; apply wrap64_range.
  - rewrite lookup_insert_ne by congruence. apply Hu'.
Qed.

Lemma exec_usage_ok o s : usage_ok s -> usage_ok (exec o s).
Proof.
  intros Hs k. unfold usageAt. destruct o as [now ag|now rev id t|now id payload]; simpl.
  - rewrite usage_frame_PutAgent. apply Hs.
  - rewrite usage_frame_PutTopology. apply Hs.
  - destruct (ApplyTraffic_cases now id payload s) as [[err ->]|(agent & record & _ & _ & _ & _ & _ & ->)];
      simpl; [apply Hs | by apply bookItems_ok].
Qed.

Lemma execAll_usage_ok ops s : usage_ok s -> usage_ok (execAll ops s).
Proof. intros Hs. unfold execAll. apply (foldl_invariant _ usage_ok); [done|]. intros. by apply exec_usage_ok. Qed.

Lemma NewStore_usage_ok : usage_ok NewStore.
Proof. intros k. unfold usageAt. simpl. rewrite lookup_empty. simpl. unfold64. lia. Qed.

Lemma wrapUsage64_id v : in_int64 v.1 /\ in_int64 v.2 -> wrapUsage64 v = v.
Proof. destruct v. intros [? ?]. unfold wrapUsage64. simpl in *. by rewrite !wrap64_id. Qed.

Lemma execAll_batches ops s :
  batches s ⊆ batches (execAll ops s) /\ dom (agents s) ⊆ dom (agents (execAll ops s)).
Proof.
  revert s. induction ops as [|o ops IH]; intros s; simpl; [done|].
  destruct (IH (exec o s)) as [H1' H2'], (exec_batches o s) as [E H3']. rewrite E in H1'.
  split; [|by etrans].
  etrans; [apply union_subseteq_r | exact H1'].
Qed.

(** ** Properties *)

(** C13. The store refines a ledger of batches: after any sequence of operations, the usage of an
    account is the sum of the items for it over the batches that were accepted for its agent,
    modulo 64 bits, and no batch is in that sum twice however often it was sent. *)
Theorem store_refines_ledger ops k :
  usageAt (execAll ops NewStore) k = wrapUsage64 (ledgerOf (history ops NewStore) k) /\
  NoDup ((fun e => (e.1, BatchID e.2)) <$> history ops NewStore).
Proof.
  split; [|apply history_NoDup].
  rewrite <- (wrapUsage64_id (usageAt (execAll ops NewStore) k))
    by apply execAll_usage_ok, NewStore_usage_ok.
  by rewrite execAll_usage.
Qed.

(** A batch is applied as a whole or not at all: when it is not applied the store is the same;
    when it is, it was new, the agent has a topology in which every item's node occurs, every
    account of the agent grows by the items for it, and no account of another agent changes. *)
Theorem traffic_batch_atomic now id payload s :
  let '((applied, err), s') := ApplyTraffic now id payload s in
  if applied
  then err = None /\ (id, BatchID payload) ∉ batches s /\
    (exists record, topologies s !! id = Some record /\
      Forall (fun item => 0 < UserID item /\ 0 <= Upload item /\ 0 <= Download item /\
        exists n, n ∈ Nodes (Record_Topology record) /\ Key n = itemKey item) (Items payload)) /\
    (forall node user, wrapUsage64 (usageAt s' (id, node, user)) =
      wrapUsage64 (uadd (usageAt s (id, node, user)) (itemsFor (Items payload) node user))) /\
    (forall a node user, a <> id -> usageAt s' (a, node, user) = usageAt s (a, node, user))
  else s' = s.
Proof.
  destruct (ApplyTraffic_cases now id payload s)
    as [[err ->]|(agent & record & _ & Ht & _ & Hb & Hitems & ->)]; [done|].
  split_and!; [done | done | | |].
  - exists record. split; [done|]. eapply Forall_impl; [exact Hitems|].
    intros item [Hv (n & Hk & Hn)%list_elem_of_fmap]. unfold invalidItem in Hv. bool_inv.
    split_and!; [lia..|]. by exists n.
  - intros node user. apply bookItems_sum.
  - intros a node user Hne. unfold usageAt. simpl. by rewrite bookItems_other.
Qed.

(** Sending an accepted batch again, at any later time, is acknowledged and changes nothing. *)
Theorem batch_retry_changes_nothing now now' id payload payload' s ops :
  (ApplyTraffic now id payload s).1.1 = true -> BatchID payload' = BatchID payload ->
  let s' := execAll ops (ApplyTraffic now id payload s).2 in
  ApplyTraffic now' id payload' s' = ((false, None), s').
Proof.
  intros Happ Hid s'.
  destruct (ApplyTraffic_cases now id payload s)
    as [[err E]|(agent & record & Ha & _ & Hne & _ & _ & E)]; rewrite E in Happ; [done|].
  unfold s'. rewrite E. simpl.
  match goal with |- context [execAll ops ?x] => destruct (execAll_batches ops x) as [Hb Hd];
    set (s2 := execAll ops x) in * end.
  simpl in Hb, Hd. unfold ApplyTraffic. rewrite Hid, bool_decide_eq_false_2 by done.
  assert (is_Some (agents s2 !! id)) as [a2 ->].
  { apply elem_of_dom, Hd. rewrite dom_insert_L. set_solver. }
  rewrite bool_decide_eq_true_2; [done|]. apply Hb. set_solver.
Qed.
End Store.

(** A batch sent twice, with other operations in between. *)
Lemma batch_retry_changes_nothing_witness :
  let _ := ascii_tables in let _ := canonical_order in
  let topo := mkTopology [mkNode "42" "vless" "" (mkOutbound "direct" "" 0 "" "" "" "")] in
  let s := (PutTopology (fun r => r) 0 "rev" "edge" topo
    (PutAgent 0 (mkAgent "edge" "" "secret" None None) NewStore).2).2 in
  let batch := mkPush "b1" [mkItem "42" "vless" 7 100 200] in
  let ops := [OpPutAgent 5 (mkAgent "other" "" "s2" None None)] in
  let s' := execAll (fun r => r) ops (ApplyTraffic 1 "edge" batch s).2 in
  Store_Usage "edge" "vless" "42" 7 s' = (100, 200) /\
  ApplyTraffic 9 "edge" batch s' = ((false, None), s').
Proof.
  intros tables order topo s batch ops s'. split; [vm_compute; reflexivity|].
  apply (batch_retry_changes_nothing (fun r => r) 1 9 "edge" batch batch s ops); vm_compute; reflexivity.
Defined.
