(* ===== verification/Server.v ===== *)
(** * The HTTP API of the panel

    src/panelserver/server.go and src/panelserver/ui.go.

    A request carries the header values the handlers read and the bytes of its body; decoding and
    encoding JSON are parameters, the decoder reading a body that may be cut at its limit.  The clock and the random revision of a request are its
    arguments [now] and [revision]. *)

From S2P Require Import Prelude GoStrings Topology Counter Store.

#[local] Open Scope Z_scope.

Record Request := mkRequest {
  Method : string;
  Path : list string;
  Authorization : string;
  IfNoneMatch : string;
  IdempotencyKey : string;
  Body : string
}.

(** What a decoder reads: the bytes before the end of the stream, and whether that is the end of
    the body (or an error). *)
Definition stream : Type := string * bool.

(** [http.MaxBytesReader]: after [n] bytes a longer body ends in an error. *)
Definition MaxBytesReader (body : string) (n : Z) : stream :=
  if Z.of_nat (String.length body) <=? n then (body, true) else (String.substring 0 (Z.to_nat n) body, false).

Definition maxBody : Z := Z.shiftl 1 20.

(** [TopologyResponse]. *)
Record TopologyResponse := mkTopologyResponse {
  SchemaVersion : Z;
  Response_Revision : string;
  Response_Topology : Topology
}.

Inductive content :=
| JSONError (message : string)
| JSONHealth
| JSONTopology (r : TopologyResponse)
| JSONApplied (applied : bool)
| JSONAgents (agents : list Agent)
| JSONAgent (agent : Agent)
| JSONRecord (record : option TopologyRecord)
| HTML
| Empty.

Record Response := mkResponse {
  Status : Z;
  ETagHeader : string;
  Content : content
}.

Inductive handler :=
| HDashboard
| HHealthz
| HAgentTopology
| HAgentTraffic
| HAdminAgents
| HAdminPutAgent
| HAdminPutTopology (id : string)
| HNone.

Definition writeJSON (status : Z) (c : content) : Response := mkResponse status "" c.
Definition writeError (status : Z) (message : string) : Response := writeJSON status (JSONError message).

Section Server.
Context `{UnicodeTables} `{MapOrder}
  (decodeTraffic : stream -> option TrafficPushRequest)
  (decodeAgent : stream -> option Agent)
  (decodeTopology : stream -> option Topology)
  (etagOf : string -> string) (adminToken : string).
Implicit Types (req : Request) (s : Store).

Definition bearer req : string := TrimSpace (TrimPrefix (Authorization req) "Bearer ").

Definition equal (a b : string) : bool :=
  bool_decide (a <> "") && bool_decide (b <> "") && bool_decide (a = b).

Definition requireAgent req s : res Response Agent :=
  match AgentBySecret (bearer req) s with
  | Some a => Ok a
  | None => Err (writeError 401 "invalid agent token")
  end.

Definition requireAdmin req : res Response unit :=
  reject_if (negb (equal (bearer req) adminToken)) (writeError 401 "invalid admin token").

Definition agentTopology req s : Response :=
  match requireAgent req s with
  | Err r => r
  | Ok agent =>
      match Store_Topology (Agent_ID agent) s with
      | None => writeError 404 "no topology assigned"
      | Some record =>
          if bool_decide (IfNoneMatch req = ETag record) then mkResponse 304 (ETag record) Empty
          else mkResponse 200 (ETag record)
            (JSONTopology (mkTopologyResponse 1 (Revision record) (Record_Topology record)))
      end
  end.

Definition agentTraffic (now : Z) req s : Response * Store :=
  match requireAgent req s with
  | Err r => (r, s)
  | Ok agent =>
      match decodeTraffic (MaxBytesReader (Body req) maxBody) with
      | None => (writeError 400 "invalid JSON payload", s)
      | Some payload =>
          let key := IdempotencyKey req in
          if bool_decide (key <> "") && bool_decide (BatchID payload <> "") &&
             bool_decide (key <> BatchID payload)
          then (writeError 400 "idempotency key does not match batch_id", s)
          else
            let '((applied, err), s) := ApplyTraffic now (Agent_ID agent) payload s in
            match err with
            | Some e => (writeError 400 (errorText e), s)
            | None => (writeJSON 202 (JSONApplied applied), s)
            end
      end
  end.

Definition adminAgents req s : Response :=
  match requireAdmin req with
  | Err r => r
  | Ok _ => writeJSON 200 (JSONAgents (Agents s))
  end.

Definition adminPutAgent (now : Z) req s : Response * Store :=
  match requireAdmin req with
  | Err r => (r, s)
  | Ok _ =>
      match decodeAgent (MaxBytesReader (Body req) maxBody) with
      | None => (writeError 400 "invalid JSON payload", s)
      | Some a =>
          let (err, s) := PutAgent now a s in
          match err with
          | Some e => (writeError 400 (errorText e), s)
          | None => (writeJSON 201 (JSONAgent (publicAgent a)), s)
          end
      end
  end.

Definition adminPutTopology (now : Z) (revision id : string) req s : Response * Store :=
  match requireAdmin req with
  | Err r => (r, s)
  | Ok _ =>
      match decodeTopology (MaxBytesReader (Body req) maxBody) with
      | None => (writeError 400 "invalid JSON payload", s)
      | Some t =>
          let (err, s) := PutTopology etagOf now revision id t s in
          match err with
          | Some e => (writeError 400 (errorText e), s)
          | None => (writeJSON 200 (JSONRecord (Store_Topology id s)), s)
          end
      end
  end.

Definition dashboard : Response := mkResponse 200 "" HTML.

(** The routes of [New]; a pattern for GET also serves HEAD, and "GET /" every other path. *)
Definition isGet (method : string) : bool := bool_decide (method = "GET" \/ method = "HEAD").

Definition route (method : string) (path : list string) : handler :=
  let fallback := if isGet method then HDashboard else HNone in
  match path with
  | ["healthz"] => if isGet method then HHealthz else fallback
  | ["api"; "v2"; "agent"; "topology"] => if isGet method then HAgentTopology else fallback
  | ["api"; "v2"; "agent"; "traffic"] =>
      if bool_decide (method = "POST") then HAgentTraffic else fallback
  | ["api"; "v1"; "admin"; "agents"] =>
      if isGet method then HAdminAgents
      else if bool_decide (method = "POST") then HAdminPutAgent else fallback
  | ["api"; "v1"; "admin"; "agents"; id; "topology"] =>
      if bool_decide (method = "PUT") then HAdminPutTopology id else fallback
  | _ => fallback
  end.

Definition ServeHTTP (now : Z) (revision : string) req s : Response * Store :=
  match route (Method req) (Path req) with
  | HDashboard => (dashboard, s)
  | HHealthz => (writeJSON 200 JSONHealth, s)
  | HAgentTopology => (agentTopology req s, s)
  | HAgentTraffic => agentTraffic now req s
  | HAdminAgents => (adminAgents req s, s)
  | HAdminPutAgent => adminPutAgent now req s
  | HAdminPutTopology id => adminPutTopology now revision id req s
  | HNone => (mkResponse 405 "" Empty, s)
  end.

(** ** Authentication *)

(** Agents sit under their own id and have a secret. *)
Definition agents_ok s : Prop :=
  forall id a, agents s !! id = Some a -> Agent_ID a = id /\ id <> "" /\ Secret a <> "".

Lemma exec_agents_ok o s : agents_ok s -> agents_ok (exec etagOf o s).
Proof.
  intros Hs. destruct o as [now ag|now rev id t|now id payload]; simpl.
  - unfold PutAgent. destruct (_ || _) eqn:E; [done|]. bool_inv. intros id a. simpl.
    destruct (decide (id = Agent_ID ag)) as [->|Hne].
    + rewrite lookup_insert_eq. intros [= <-]. done.
    + rewrite lookup_insert_ne by done. apply Hs.
  - unfold PutTopology. destruct (Validate t); [|done]. by destruct (agents s !! id).
  - destruct (ApplyTraffic_cases now id payload s) as [[err ->]|(agent & record & Ha & _ & _ & _ & _ & ->)];
      [done|]. intros id' a. simpl. destruct (decide (id' = id)) as [->|Hne].
    + rewrite lookup_insert_eq. intros [= <-]. by apply (Hs id agent).
    + rewrite lookup_insert_ne by done. apply Hs.
Qed.

Lemma AgentBySecret_Some tok s a :
  AgentBySecret tok s = Some a -> Secret a = tok /\ exists id, agents s !! id = Some a.
Proof.
  unfold AgentBySecret. intros H'. apply fmap_Some in H' as ([i x] & Hf & ->).
  apply list_find_Some in Hf as (Hi & Hsec & _). split; [done|].
  apply list_elem_of_lookup_2, list_elem_of_fmap in Hi as ([id y] & -> & Hin%elem_of_go_range). eauto.
Qed.

Lemma AgentBySecret_is_Some tok s id a :
  agents s !! id = Some a -> Secret a = tok -> is_Some (AgentBySecret tok s).
Proof.
  intros Ha Hs. unfold AgentBySecret. apply fmap_is_Some.
  apply (list_find_elem_of (fun a => Secret a = tok) _ a); [|done].
  apply list_elem_of_fmap. exists (id, a). split; [done|]. by apply elem_of_go_range.
Qed.

(** No two agents share a secret. *)
Definition unique_secrets s : Prop :=
  forall i j a b, agents s !! i = Some a -> agents s !! j = Some b -> Secret a = Secret b -> i = j.

Lemma AgentBySecret_unique tok s id a :
  unique_secrets s -> agents s !! id = Some a -> Secret a = tok -> AgentBySecret tok s = Some a.
Proof.
  intros Hu Ha Hs. destruct (AgentBySecret_is_Some tok s id a Ha Hs) as [b Hb]. rewrite Hb.
  apply AgentBySecret_Some in Hb as (Hsb & j & Hj).
  assert (id = j) as -> by (apply (Hu id j a b Ha Hj); congruence). congruence.
Qed.

(** The agents shown in a response. *)
Definition shownAgents (c : content) : list Agent :=
  match c with JSONAgents l => l | JSONAgent a => [a] | _ => [] end.

(** *** Properties of the API *)

(** C37. The state of the panel changes only for a caller that proved an identity: the
    administrator, or an agent whose non-empty secret the caller presented, and then only by
    booking that agent's own traffic. *)
Theorem changes_need_credentials now revision req s :
  agents_ok s ->
  let s' := (ServeHTTP now revision req s).2 in
  s' = s \/ (bearer req = adminToken /\ adminToken <> "") \/
  exists a payload, agents s !! Agent_ID a = Some a /\ Secret a = bearer req /\ bearer req <> "" /\
    s' = (ApplyTraffic now (Agent_ID a) payload s).2.
Proof.
  intros Hs. cbv zeta. unfold ServeHTTP.
  assert (forall u, requireAdmin req = Ok u -> bearer req = adminToken /\ adminToken <> "") as Hadmin.
  { intros u Hu. apply reject_if_Ok in Hu. apply negb_false_iff in Hu. unfold equal in Hu. by bool_inv. }
  destruct (route (Method req) (Path req)); try (by left).
  - unfold agentTraffic, requireAgent.
    destruct (AgentBySecret (bearer req) s) as [a|] eqn:Ha; [|by left].
    apply AgentBySecret_Some in Ha as (Hsec & id & Ha). destruct (Hs id a Ha) as (<- & _ & Hne).
    destruct (decodeTraffic (MaxBytesReader (Body req) maxBody)) as [payload|]; [|by left]. cbv zeta.
    destruct (_ && _); [by left|]. right. right. exists a, payload. rewrite Hsec in Hne.
    split_and!; try done. by destruct (ApplyTraffic now (Agent_ID a) payload s) as [[applied [e|]] s'].
  - unfold adminPutAgent. destruct (requireAdmin req) as [u|] eqn:Hu; [|by left]. right. left. by eapply Hadmin.
  - unfold adminPutTopology. destruct (requireAdmin req) as [u|] eqn:Hu; [|by left]. right. left. by eapply Hadmin.
Qed.

(** No response shows an agent's secret. *)
Theorem responses_hide_secrets now revision req s :
  Forall (fun a => Secret a = "") (shownAgents (Content (ServeHTTP now revision req s).1)).
Proof.
  unfold ServeHTTP. destruct (route (Method req) (Path req)); try constructor.
  - unfold agentTopology, requireAgent. destruct (AgentBySecret _ s); [|constructor].
    destruct (Store_Topology _ s); [|constructor]. destruct (bool_decide _); constructor.
  - unfold agentTraffic, requireAgent. destruct (AgentBySecret _ s); [|constructor].
    destruct (decodeTraffic (MaxBytesReader (Body req) maxBody)); [|constructor]. cbv zeta. destruct (_ && _); [constructor|].
    destruct (ApplyTraffic _ _ _ _) as [[? [e|]] ?]; constructor.
  - unfold adminAgents, requireAdmin, reject_if. destruct (negb _); [constructor|]. simpl. apply Forall_fmap.
    apply Forall_forall. done.
  - unfold adminPutAgent, requireAdmin, reject_if. destruct (negb _); [constructor|].
    destruct (decodeAgent (MaxBytesReader (Body req) maxBody)); [|constructor]. destruct (PutAgent _ _ _) as [[e|] ?]; repeat constructor.
  - unfold adminPutTopology, requireAdmin, reject_if. destruct (negb _); [constructor|].
    destruct (decodeTopology (MaxBytesReader (Body req) maxBody)); [|constructor]. destruct (PutTopology _ _ _ _ _ _) as [[e|] ?]; constructor.
Qed.
End Server.
