(* ===== verification/ControlPlane.v ===== *)
(** * The control-plane client (src/panelapi/control_plane.go)

    The client is written over an arbitrary transport [do]; the end of the file connects it to
    the panel of [Server] through a network that may lose requests and responses, the way a header
    and a body reach its handlers included. *)

From S2P Require Import Prelude GoStrings Topology Counter Client Store Server.

#[local] Open Scope Z_scope.

Record ControlPlaneClient := mkControlPlane {
  CP_BaseURL : string;
  CP_Token : string;
  AgentID : string
}.

Definition NewControlPlaneClient (baseURL token agentID : string) : ControlPlaneClient :=
  mkControlPlane (TrimRightCut isSlash baseURL) token agentID.

Section Client.
Context `{UnicodeTables} {S Bdy Resp : Type}
  (** One HTTP exchange: method, URL, headers and body. *)
  (do : string -> string -> gmap string string -> option Bdy -> S -> res error Resp * S)
  (statusCode : Resp -> Z)
  (marshal : TrafficPushRequest -> res error Bdy)
  (unmarshalTopology : Resp -> res error TopologyResponse).
Implicit Types (c : ControlPlaneClient) (s : S).

Definition setUnlessEmpty (key cond value : string) (m : gmap string string) : gmap string string :=
  if bool_decide (cond <> "") then <[key := value]> m else m.

Definition requestHeaders c (extra : gmap string string) : res error (gmap string string) :=
  reject_if (bool_decide (CP_BaseURL c = "")) (New "control plane base url is empty") ;;
  mret (setUnlessEmpty "X-Agent-ID" (AgentID c) (AgentID c)
    (setUnlessEmpty "Authorization" (CP_Token c) ("Bearer " +:+ CP_Token c) extra)).

(** [Ok None] is "not changed". *)
Definition FetchTopology c (etag : string) s : res error (option TopologyResponse) * S :=
  match requestHeaders c ∅ with
  | Err e => (Err e, s)
  | Ok headers =>
      let headers := setUnlessEmpty "If-None-Match" etag etag headers in
      let (resp, s) := do "GET" (CP_BaseURL c +:+ "/api/v2/agent/topology") headers None s in
      (resp ← resp;
       if statusCode resp =? 304 then mret None else
       reject_if (negb (is2xx (statusCode resp)))
         (New ("control plane topology status " +:+ Itoa (statusCode resp))) ;;
       out ← unmarshalTopology resp;
       reject_if (negb (SchemaVersion out =? 1))
         (New ("unsupported topology schema version " +:+ Itoa (SchemaVersion out))) ;;
       reject_if (bool_decide (TrimSpace (Response_Revision out) = ""))
         (New "control plane topology revision is empty") ;;
       match Validate (Response_Topology out) with
       | Err e => Err (Error "invalid control plane topology" [e])
       | Ok _ => mret (Some out)
       end, s)
  end.

Fixpoint checkItems (items : list TrafficItem) : res error unit :=
  match items with
  | [] => Ok tt
  | item :: items =>
      reject_if (bool_decide (TrimSpace (Item_NodeID item) = "") ||
                 bool_decide (TrimSpace (Item_NodeType item) = ""))
        (New ("traffic item for user " +:+ Itoa (UserID item) +:+ " requires node_id and node_type")) ;;
      checkItems items
  end.

Definition CP_PushTraffic c (payload : TrafficPushRequest) s : option error * S :=
  if bool_decide (TrimSpace (BatchID payload) = "") then (Some (New "traffic batch_id is empty"), s) else
  if bool_decide (Items payload = []) then (None, s) else
  match (checkItems (Items payload) ;; body ← marshal payload;
         headers ← requestHeaders c
           {[ "Content-Type" := "application/json"; "Idempotency-Key" := BatchID payload ]};
         mret (body, headers)) with
  | Err e => (Some e, s)
  | Ok (body, headers) =>
      let (resp, s) := do "POST" (CP_BaseURL c +:+ "/api/v2/agent/traffic") headers (Some body) s in
      match resp with
      | Err e => (Some e, s)
      | Ok resp =>
          if negb (is2xx (statusCode resp))
          then (Some (New ("control plane traffic status " +:+ Itoa (statusCode resp))), s)
          else (None, s)
      end
  end.

(** A topology is handed to the caller only if it is valid and of the known schema. *)
Theorem fetched_topology_is_valid c etag s out s' :
  FetchTopology c etag s = (Ok (Some out), s') ->
  SchemaVersion out = 1 /\ TrimSpace (Response_Revision out) <> "" /\
  Nodes (Response_Topology out) <> [] /\ Forall node_ok (Nodes (Response_Topology out)) /\
  distinct_nodes (Nodes (Response_Topology out)).
Proof.
  unfold FetchTopology. destruct (requestHeaders c ∅) as [headers|e]; [|done]. cbv zeta.
  destruct (do _ _ _ _ s) as [resp s1]. intros [= Hr <-]. res_inv.
  destruct (statusCode _ =? 304); [done|]. res_inv. bool_inv.
  destruct (Validate (Response_Topology _)) as [[]|] eqn:Hv; [|done]. res_inv.
  apply Validate_Ok in Hv. by destruct Hv as (? & ? & ?).
Qed.
End Client.

(** ** Over a lossy network *)

(** What becomes of one exchange with the panel at time [now]. *)
Inductive delivery :=
| RequestLost
| ResponseLost (now : Z)
| Delivered (now : Z).

(** The panel reads a header value without the spaces and tabs around it. *)
Definition isLWS (c : ascii) : bool := in_range 32 32 c || in_range 9 9 c.
Definition headerValue (v : string) : string := TrimCut isLWS v.

(** A value without control characters; one with a line break would be several lines. *)
Definition isCTL (c : ascii) : bool := (code c <? 32)%N || in_range 127 127 c.
Definition plainValue (v : string) : bool := forallb (fun c => negb (isCTL c) || isLWS c) (bytes v).

(** ** What JSON carries *)

Definition continuation (c : ascii) : bool := in_range 128 191 c.

(** [utf8.ValidString]. *)
Fixpoint validUTF8 (l : list ascii) : bool :=
  match l with
  | [] => true
  | a :: l =>
      if isASCII a then validUTF8 l else
      match l with
      | [] => false
      | b :: l =>
          if in_range 194 223 a then continuation b && validUTF8 l else
          match l with
          | [] => false
          | c :: l =>
              if in_range 224 239 a then
                in_range (if in_range 224 224 a then 160 else 128) (if in_range 237 237 a then 159 else 191) b &&
                continuation c && validUTF8 l
              else
              match l with
              | [] => false
              | d :: l =>
                  in_range 240 244 a &&
                  in_range (if in_range 240 240 a then 144 else 128) (if in_range 244 244 a then 143 else 191) b &&
                  continuation c && continuation d && validUTF8 l
              end
          end
      end
  end.

(** Strings that are text and numbers of their types. *)
Definition itemSendable (i : TrafficItem) : Prop :=
  validUTF8 (bytes (Item_NodeID i)) = true /\ validUTF8 (bytes (Item_NodeType i)) = true /\
  in_int64 (UserID i) /\ in_int64 (Upload i) /\ in_int64 (Download i).
Definition sendable (p : TrafficPushRequest) : Prop := validUTF8 (bytes (BatchID p)) = true /\ Forall itemSendable (Items p).

Section Lossy.
Context `{UnicodeTables} `{MapOrder}
  (encodeTraffic : TrafficPushRequest -> string)
  (decodeTraffic : stream -> option TrafficPushRequest)
  (decodeAgent : stream -> option Agent) (decodeTopology : stream -> option Topology)
  (etagOf : string -> string) (adminToken : string)
  (** What the panel does with a request whose header lines are not plain. *)
  (oddRequest : gmap string string -> string -> Store -> Response * Store).
(** The JSON of a batch of text and numbers, read to the end of the body, is the batch. *)
Hypothesis decode_encode : forall p, sendable p -> decodeTraffic (encodeTraffic p, true) = Some p.
Implicit Types (s : Store) (payload : TrafficPushRequest).

Definition header (headers : gmap string string) (key : string) : string := headerValue (default "" (headers !! key)).

Definition panelRequest (headers : gmap string string) (body : string) : Request :=
  mkRequest "POST" ["api"; "v2"; "agent"; "traffic"]
    (header headers "Authorization") (header headers "If-None-Match") (header headers "Idempotency-Key") body.

Definition connectionError : error := New "connection lost".

(** The transport of the client: only its POST requests matter here. *)
Definition lossyDo (d : delivery) (method url : string) (headers : gmap string string)
    (body : option string) s : res error Response * Store :=
  match body with
  | None => (Err connectionError, s)
  | Some b =>
      let serve now :=
        if forallb plainValue (map_to_list headers).*2
        then ServeHTTP decodeTraffic decodeAgent decodeTopology etagOf adminToken now "" (panelRequest headers b) s
        else oddRequest headers b s in
      match d with
      | RequestLost => (Err connectionError, s)
      | ResponseLost now => (Err connectionError, (serve now).2)
      | Delivered now => let (r, s) := serve now in (Ok r, s)
      end
  end.

Definition pushOnce (c : ControlPlaneClient) payload (d : delivery) s : option error * Store :=
  CP_PushTraffic (lossyDo d) Status (fun p => Ok (encodeTraffic p)) c payload s.

(** The agent repeats a batch until a push returns no error. *)
Fixpoint pushUntilDone (c : ControlPlaneClient) payload (ds : list delivery) s : bool * Store :=
  match ds with
  | [] => (false, s)
  | d :: ds =>
      let (err, s) := pushOnce c payload d s in
      match err with
      | None => (true, s)
      | Some _ => pushUntilDone c payload ds s
      end
  end.

(** A value that reaches the panel as it is. *)
Definition survives (v : string) : Prop := plainValue v = true /\ headerValue v = v.

(** The client is an agent of the panel, with a secret that survives the header. *)
Record registered (c : ControlPlaneClient) (id : string) s : Prop := {
  rg_url : CP_BaseURL c <> "";
  rg_token : CP_Token c <> "" /\ TrimSpace (CP_Token c) = CP_Token c /\ survives ("Bearer " +:+ CP_Token c);
  rg_id : plainValue (AgentID c) = true;
  rg_agents : agents_ok s;
  rg_unique : unique_secrets s;
  rg_agent : exists a, agents s !! id = Some a /\ Secret a = CP_Token c
}.

(** A batch the client sends, that fits in the panel's limit. *)
Definition well_formed payload : Prop :=
  TrimSpace (BatchID payload) <> "" /\ Items payload <> [] /\ checkItems (Items payload) = Ok tt /\ 
  survives (BatchID payload) /\ sendable payload /\ Z.of_nat (String.length (encodeTraffic payload)) <= maxBody.

Lemma TrimSpace_empty : TrimSpace "" = "".
Proof. reflexivity. Qed.

Lemma registered_ApplyTraffic c id now payload s :
  registered c id s -> registered c id (ApplyTraffic now id payload s).2.
Proof.
  intros Hr. pose proof (exec_agents_ok etagOf (OpTraffic now id payload) s (rg_agents _ _ _ Hr)) as Hok.
  simpl in Hok. destruct (ApplyTraffic_cases now id payload s)
    as [[err E]|(agent & record & Ha & _ & _ & _ & _ & E)]; rewrite E in *; [done|]. simpl in *.
  destruct Hr as [? ? ? _ Hu (a & Ha' & Hs)]. assert (a = agent) as -> by congruence.
  split; [done | done | done | done | |].
  - intros i j x y. simpl. rewrite !lookup_insert_Some. intros [[<- <-]|[? Hx]] [[<- <-]|[? Hy]]; simpl; try done.
    + intros E'. by apply (Hu id j agent y).
    + intros E'. by apply (Hu i id x agent).
    + by apply Hu.
  - exists (see now agent). simpl. by rewrite lookup_insert_eq.
Qed.

Lemma all_plain (m : gmap string string) : map_Forall (fun _ v => plainValue v = true) m -> forallb plainValue (map_to_list m).*2 = true.
Proof.
  intros Hm. apply forallb_forall. intros v Hv%list_elem_of_In. apply list_elem_of_fmap in Hv as ([k w] & -> & Hin%elem_of_map_to_list).
  by apply (Hm k).
Qed.

(** What the panel reads of the headers the client sends. *)
Lemma sent_headers c id payload s :
  registered c id s -> survives (BatchID payload) ->
  exists headers,
    requestHeaders c {[ "Content-Type" := "application/json"; "Idempotency-Key" := BatchID payload ]} = Ok headers /\
    header headers "Authorization" = "Bearer " +:+ CP_Token c /\ header headers "Idempotency-Key" = BatchID payload /\
    forallb plainValue (map_to_list headers).*2 = true.
Proof.
  intros Hr [Hpb Hkb]. destruct Hr as [Hurl (Htok & Htrim & Hpt & Hkt) Hid _ _ _].
  unfold requestHeaders. rewrite bool_decide_eq_false_2 by done. eexists. split; [reflexivity|].
  unfold setUnlessEmpty. rewrite (bool_decide_eq_true_2 _ Htok).
  assert (forall (m : gmap string string) k, k <> "X-Agent-ID" ->
    (if bool_decide (AgentID c <> "") then <["X-Agent-ID" := AgentID c]> m else m) !! k = m !! k) as E.
  { intros m k Hk. case_bool_decide; [by rewrite lookup_insert_ne | done]. }
  unfold header. rewrite !E by done. rewrite lookup_insert_eq, lookup_insert_ne by done. split_and!; [done|done|].
  apply all_plain. assert (forall m, map_Forall (fun _ v => plainValue v = true) m ->
    map_Forall (fun _ v => plainValue v = true) (<["Authorization" := "Bearer " +:+ CP_Token c]> (m : gmap string string))) as Ha
    by (intros m Hm; by apply map_Forall_insert_2).
  case_bool_decide; [apply map_Forall_insert_2; [done|]|]; apply Ha; apply map_Forall_insert_2; try done; by apply map_Forall_singleton.
Qed.

(** One push of a registered client is one [ApplyTraffic], if the request arrives. *)
Lemma pushOnce_spec c id payload d s :
  registered c id s -> well_formed payload ->
  exists e, pushOnce c payload d s =
    match d with
    | RequestLost => (Some connectionError, s)
    | ResponseLost now => (Some connectionError, (ApplyTraffic now id payload s).2)
    | Delivered now =>
        (match (ApplyTraffic now id payload s).1.2 with Some _ => Some e | None => None end,
         (ApplyTraffic now id payload s).2)
    end.
Proof using decode_encode.
  intros Hr (Hb & Hi & Hc & Hkey & Htext & Hlen). destruct (sent_headers c id payload s Hr Hkey) as (headers & Hh & Hauth & Hik & Hplain).
  destruct Hr as [_ (Htok & Htrim & _) _ Hok Hu (a & Ha & Hs)].
  unfold pushOnce, CP_PushTraffic. rewrite bool_decide_eq_false_2 by done.
  rewrite bool_decide_eq_false_2 by done. rewrite Hc. cbn. rewrite Hh. cbn. unfold lossyDo. rewrite Hplain.
  assert (forall now, exists e, ServeHTTP decodeTraffic decodeAgent decodeTopology etagOf adminToken now "" (panelRequest headers (encodeTraffic payload)) s =
    (match (ApplyTraffic now id payload s).1.2 with
     | Some _ => writeError 400 e
     | None => writeJSON 202 (JSONApplied (ApplyTraffic now id payload s).1.1) end,
     (ApplyTraffic now id payload s).2)) as Hserve.
  { intros now. set (req := panelRequest _ _). change (ServeHTTP _ _ _ _ _ now "" req s) with (agentTraffic decodeTraffic now req s).
    assert (bearer req = CP_Token c) as Hbear by (unfold bearer, req; cbn [Authorization panelRequest]; by rewrite Hauth, TrimPrefix_app).
    unfold agentTraffic, requireAgent. rewrite Hbear.
    rewrite (AgentBySecret_unique (CP_Token c) s id a Hu Ha Hs). destruct (Hok id a Ha) as (-> & _).
    unfold MaxBytesReader. cbn [Body req panelRequest]. rewrite (proj2 (Z.leb_le _ _) Hlen), decode_encode by done.
    cbv zeta. change (IdempotencyKey req) with (header headers "Idempotency-Key"). rewrite Hik.
    rewrite (bool_decide_eq_false_2 (BatchID payload <> BatchID payload)) by tauto. rewrite andb_false_r.
    destruct (ApplyTraffic now id payload s) as [[applied [e|]] s']; by eexists. }
  destruct d as [|now|now].
  - by exists connectionError.
  - exists connectionError. destruct (Hserve now) as [e ->]. done.
  - destruct (Hserve now) as [e ->].
    exists (New ("control plane traffic status " +:+ Itoa 400)).
    by destruct (ApplyTraffic now id payload s) as [[applied [e'|]] s'].
Unshelve. exact "".
Qed.

(** The batch has been booked once on top of [s0]. *)
Definition bookedOnce (id : string) payload s0 s : Prop :=
  (id, BatchID payload) ∈ batches s /\ usage s = foldl (bookItem id) (usage s0) (Items payload).

Lemma ApplyTraffic_again now id payload s0 s :
  BatchID payload <> "" -> is_Some (agents s !! id) -> bookedOnce id payload s0 s ->
  ApplyTraffic now id payload s = ((false, None), s).
Proof.
  intros Hb [a Ha] [Hin _]. unfold ApplyTraffic. rewrite bool_decide_eq_false_2 by done.
  by rewrite Ha, bool_decide_eq_true_2.
Qed.

Lemma ApplyTraffic_first now id payload s :
  (ApplyTraffic now id payload s).1 = (true, None) -> bookedOnce id payload s (ApplyTraffic now id payload s).2.
Proof.
  destruct (ApplyTraffic_cases now id payload s)
    as [[err ->]|(agent & record & _ & _ & _ & _ & _ & ->)]; [done|].
  intros _. split; simpl; [set_solver | done].
Qed.

End Lossy.

(** ** Examples *)

Module Sample.
#[export] Instance tables : UnicodeTables := ascii_tables.
#[export] Instance order : MapOrder := canonical_order.

Definition edgeTopology : Topology :=
  mkTopology [mkNode "42" "vless" "" (mkOutbound "direct" "" 0 "" "" "" "")].
Definition edge : Agent := mkAgent "edge" "" "secret" (Some 0) None.
Definition panel : Store :=
  mkStore {[ "edge" := edge ]} {[ "edge" := mkRecord "rev" "etag" edgeTopology 0 ]} ∅ ∅.
Definition batch : TrafficPushRequest := mkPush "b1" [mkItem "42" "vless" 7 100 200].
Definition client : ControlPlaneClient := NewControlPlaneClient "http://panel/" "secret" "edge".

Lemma panel_agents_ok : agents_ok panel.
Proof. intros id a Ha. simpl in Ha. apply lookup_singleton_Some in Ha as [<- <-]. done. Qed.

Lemma client_registered : registered client "edge" panel.
Proof.
  split; [done | done | done | apply panel_agents_ok | | by exists edge].
  intros i j a b Hi Hj _. simpl in Hi, Hj. apply lookup_singleton_Some in Hi as [<- _], Hj as [<- _]. done.
Qed.

(** A code of batches, as a string of the bits of a number. *)
#[local] Instance item_eq_dec : EqDecision TrafficItem.
Proof. solve_decision. Defined.
#[local] Instance push_eq_dec : EqDecision TrafficPushRequest.
Proof. solve_decision. Defined.
#[local] Instance item_countable : Countable TrafficItem.
Proof.
  refine (inj_countable' (fun i => (Item_NodeID i, Item_NodeType i, (UserID i, Upload i, Download i)))
    (fun '(n, t, (u, up, down)) => mkItem n t u up down) _). by intros [].
Defined.
#[local] Instance push_countable : Countable TrafficPushRequest.
Proof. refine (inj_countable' (fun p => (BatchID p, Items p)) (fun '(b, l) => mkPush b l) _). by intros []. Defined.

Fixpoint bits (p : positive) : string :=
  match p with xH => "" | xO p => String "0" (bits p) | xI p => String "1" (bits p) end.
Fixpoint ofBits (s : string) : positive :=
  match s with EmptyString => xH | String c s => if bool_decide (c = "0"%char) then xO (ofBits s) else xI (ofBits s) end.
Lemma ofBits_bits p : ofBits (bits p) = p.
Proof. induction p as [p IH|p IH|]; cbn; by rewrite ?IH. Qed.

Definition toText (p : TrafficPushRequest) : string := bits (encode p).
Definition ofText (r : stream) : option TrafficPushRequest := if r.2 then decode (ofBits r.1) else None.
Lemma ofText_toText p : ofText (toText p, true) = Some p.
Proof. unfold ofText, toText. cbn. by rewrite ofBits_bits, decode_encode. Qed.

Definition refuseOdd (headers : gmap string string) (body : string) (s : Store) : Response * Store := (mkResponse 400 "" Empty, s).

Lemma batch_well_formed : well_formed toText batch.
Proof.
  split_and!; [by vm_compute|done|by vm_compute|by vm_compute|split; [by vm_compute|]|by vm_compute].
  apply Forall_singleton. by vm_compute.
Qed.


(** The same agent without the administrator's token. *)
Lemma changes_need_credentials_witness :
  let req := mkRequest "POST" ["api"; "v2"; "agent"; "traffic"] "Bearer secret" "" "b1" (toText batch) in
  let s' := (ServeHTTP ofText (fun _ => None) (fun _ => None) (fun x => x) "admin" 1 "" req panel).2 in
  s' = panel \/ (bearer req = "admin" /\ "admin" <> "") \/
  exists a payload, agents panel !! Agent_ID a = Some a /\ Secret a = bearer req /\ bearer req <> "" /\
    s' = (ApplyTraffic 1 (Agent_ID a) payload panel).2.
Proof.
  intros req s'. apply (changes_need_credentials ofText (fun _ => None) (fun _ => None) (fun x => x) "admin" 1 ""
    req panel panel_agents_ok).
Defined.

(** A batch whose id ends in a space is never booked: the panel reads the key without it. *)
Example padded_batch_is_refused :
  let padded := mkPush "b1 " (Items batch) in
  pushUntilDone toText ofText (fun _ => None) (fun _ => None) (fun x => x) "admin" refuseOdd client padded [Delivered 1; Delivered 2] panel =
  (false, panel).
Proof. by vm_compute. Qed.

Lemma fetched_topology_is_valid_witness :
  let out := mkTopologyResponse 1 "rev" edgeTopology in
  let fetch := FetchTopology (S := unit) (Bdy := unit) (fun _ _ _ _ s => (Ok 200, s)) (fun c => c)
    (fun _ => Ok out) client "" tt in
  fetch = (Ok (Some out), tt) /\ Forall node_ok (Nodes (Response_Topology out)).
Proof.
  intros out fetch. split; [vm_compute; reflexivity|].
  eapply (fetched_topology_is_valid (S := unit) (Bdy := unit) (fun _ _ _ _ s => (Ok 200, s)) (fun c => c)
    (fun _ => Ok out) client "" tt out tt). vm_compute. reflexivity.
Defined.
End Sample.
