(* ===== verification/NodeConfig.v ===== *)
(** * Node configuration from the panel (src/panelapi/node_config.go) *)

From S2P Require Import Prelude GoStrings Topology PanelTypes Client.

#[local] Open Scope Z_scope.

(** [StringInt]: a JSON string or an integer; [asString] and [asInt] are the two attempts to
    decode the value. *)
Definition StringInt_UnmarshalJSON (asString : option string) (asInt : option Z) : res error string :=
  match asString with
  | Some text => Ok text
  | None =>
      match asInt with
      | Some n => Ok (Itoa n)
      | None => Err (New "expected string or integer")
      end
  end.

Record BaseConfig := mkBaseConfig { PushInterval : Z; PullInterval : Z }.

Record TLSSettings := mkTLSSettings {
  TLS_ServerName : string;
  TLS_ServerPort : string;
  PublicKey : string;
  PrivateKey : string;
  ShortID : string;
  AllowInsecure : bool
}.

(** The fields the agent reads, and the ones it decodes and keeps. *)
Record NodeConfig := mkNodeConfig {
  Protocol : string;
  ListenIP : string;
  Config_ServerPort : Z;
  Network : string;
  TLS : Z;
  Flow : string;
  Config_TLSSettings : TLSSettings;
  Version : Z;
  Host : string;
  Config_ServerName : string;
  UpMbps : Z;
  DownMbps : Z;
  Obfs : string;
  ObfsPassword : string;
  Config_Base : BaseConfig
}.

Definition emptyTLS : TLSSettings := mkTLSSettings "" "" "" "" "" false.
Definition emptyNodeConfig : NodeConfig :=
  mkNodeConfig "" "" 0 "" 0 "" emptyTLS 0 "" "" 0 0 "" "" (mkBaseConfig 0 0).

(** Decoding of a response body: as a configuration, as one wrapped in [data], and as an error
    object with [message] and [error]. *)
Class NodeConfigJSON := {
  unmarshalConfig : string -> res error NodeConfig;
  unmarshalWrapped : string -> res error NodeConfig;
  unmarshalMessage : string -> string * string
}.

Definition hasConfig (cfg : NodeConfig) : bool :=
  bool_decide (Protocol cfg <> "") || negb (Config_ServerPort cfg =? 0).

Section NodeConfig.
Context `{NodeConfigJSON} `{UnicodeTables} {R : Type} `{Net R}.

Definition decodeNodeConfig (raw : string) : res error NodeConfig :=
  let wrapped :=
    cfg ← unmarshalWrapped raw;
    reject_if (negb (hasConfig cfg)) (New "panel api config response missing node config") ;;
    mret cfg in
  match unmarshalConfig raw with
  | Ok cfg => if hasConfig cfg then Ok cfg else wrapped
  | Err _ => wrapped
  end.

Definition configStatusError (resp : response) : error :=
  let (message, err) := unmarshalMessage (Body resp) in
  let text := TrimSpace message in
  let text := if bool_decide (text = "") then TrimSpace err else text in
  if bool_decide (text <> "")
  then New ("panel api config status " +:+ Status resp +:+ ": " +:+ text)
  else New ("panel api config status " +:+ Status resp).

Definition FetchNodeConfig (c : Client) (r : R) : res error NodeConfig * R :=
  match endpoint c "/api/v1/server/UniProxy/config" with
  | Err e => (Err e, r)
  | Ok ep =>
      let (resp, r) := http_do "GET" ep None r in
      (resp ← resp;
       if negb (is2xx (StatusCode resp)) then Err (configStatusError resp)
       else decodeNodeConfig (Body resp), r)
  end.

(** [ProbeNodeConfig]: the first node type the panel knows. *)
Fixpoint probeTypes (types : list string) (baseURL token nodeID : string) (lastErr : option error) (r : R)
  : res error (string * NodeConfig) * R :=
  match types with
  | [] => (Err (Error "probe node config failed" (option_list lastErr)), r)
  | t :: types =>
      let (cfg, r) := FetchNodeConfig (NewClient baseURL token nodeID t) r in
      match cfg with
      | Ok cfg => (Ok (t, cfg), r)
      | Err e => probeTypes types baseURL token nodeID (Some e) r
      end
  end.

Definition ProbeNodeConfig (baseURL token nodeID : string) (r : R) : res error (string * NodeConfig) * R :=
  probeTypes ["vless"; "hysteria2"; "hysteria"] baseURL token nodeID None r.

(** A configuration that is returned is never the empty one. *)
Lemma FetchNodeConfig_hasConfig c r cfg r' :
  FetchNodeConfig c r = (Ok cfg, r') -> hasConfig cfg = true.
Proof.
  unfold FetchNodeConfig. destruct (endpoint c _) as [ep|]; [|done].
  destruct (http_do "GET" ep None r) as [resp r1]. intros [= Hr _]. res_inv.
  destruct (negb (is2xx _)); [done|]. unfold decodeNodeConfig in *.
  destruct (unmarshalConfig _) as [cfg'|]; [destruct (hasConfig cfg') eqn:E; [by res_inv|]|];
    res_inv; by bool_inv.
Qed.
End NodeConfig.
