(* ===== verification/Config.v ===== *)
(** * Generating the sing-box configuration (src/cmd/mini-sb-agent/xboard_config.go,
    capabilities.go)

    The JSON documents are given by the values they encode: an inbound, an outbound and a
    route rule are records, a configuration the four top-level parts.  The panel, the file
    system and certificate generation are the parameter [Host] over a state [S]. *)

From S2P Require Import Prelude GoStrings Topology PanelTypes Client UserManager NodeConfig.

#[local] Open Scope Z_scope.

(** ** Paths (path/filepath on Unix) *)

Definition slash : ascii := "/"%char.

Fixpoint splitSlash (acc l : list ascii) : list (list ascii) :=
  match l with
  | [] => [rev acc]
  | c :: t => if bool_decide (c = slash) then rev acc :: splitSlash [] t else splitSlash (c :: acc) t
  end.

Definition dot : list ascii := ["."%char].
Definition dotdot : list ascii := ["."%char; "."%char].

(** Process the components left to right; [out] is reversed. *)
Fixpoint cleanComps (rooted : bool) (out comps : list (list ascii)) : list (list ascii) :=
  match comps with
  | [] => rev out
  | c :: comps =>
      if bool_decide (c = []) || bool_decide (c = dot) then cleanComps rooted out comps
      else if bool_decide (c = dotdot) then
        match out with
        | o :: out' =>
            if bool_decide (o = dotdot) then cleanComps rooted (c :: out) comps
            else cleanComps rooted out' comps
        | [] => cleanComps rooted (if rooted then [] else [c]) comps
        end
      else cleanComps rooted (c :: out) comps
  end.

Fixpoint joinComps (comps : list (list ascii)) : list ascii :=
  match comps with
  | [] => []
  | [c] => c
  | c :: comps => c ++ slash :: joinComps comps
  end.

Definition isRooted (l : list ascii) : bool :=
  match l with c :: _ => bool_decide (c = slash) | [] => false end.

Definition Clean (path : string) : string :=
  let l := bytes path in
  let body := joinComps (cleanComps (isRooted l) [] (splitSlash [] l)) in
  ofBytes (if isRooted l then slash :: body else if bool_decide (body = []) then dot else body).

(** The part before the last slash, that slash included. *)
Definition dirPart (l : list ascii) : list ascii := rev (dropIn (fun c => negb (bool_decide (c = slash))) (rev l)).

Definition Dir (path : string) : string := Clean (ofBytes (dirPart (bytes path))).

Definition Join (a b : string) : string :=
  if bool_decide (a = "") then (if bool_decide (b = "") then "" else Clean b)
  else if bool_decide (b = "") then Clean a else Clean (a +:+ "/" +:+ b).

(** *** A file in a directory *)

Lemma splitSlash_plain acc x : slash ∉ x -> splitSlash acc x = [rev acc ++ x].
Proof.
  revert acc. induction x as [|c x IH]; intros acc; [by rewrite app_nil_r|].
  intros [Hc Hx]%not_elem_of_cons. simpl. rewrite bool_decide_eq_false_2 by congruence.
  rewrite IH by done. simpl. by rewrite <- app_assoc.
Qed.

Lemma splitSlash_file acc d x : slash ∉ x -> splitSlash acc (d ++ slash :: x) = splitSlash acc d ++ [x].
Proof.
  intros Hx. revert acc. induction d as [|c d IH]; intros acc; simpl.
  - by rewrite splitSlash_plain.
  - case_bool_decide; by rewrite IH.
Qed.

(** A component that [Clean] leaves alone. *)
Definition fileName (x : list ascii) : Prop := slash ∉ x /\ x <> [] /\ x <> dot /\ x <> dotdot.

Lemma cleanComps_file rooted out comps x :
  fileName x -> cleanComps rooted out (comps ++ [x]) = cleanComps rooted out comps ++ [x].
Proof.
  intros (_ & H1 & H2 & H3). revert out. induction comps as [|c comps IH]; intros out; cbn [app cleanComps].
  - by rewrite !bool_decide_eq_false_2 by done.
  - destruct (_ || _); [apply IH|]. case_bool_decide; [|apply IH].
    destruct out as [|o out]; [apply IH|]. case_bool_decide; apply IH.
Qed.

Lemma joinComps_file comps x :
  joinComps (comps ++ [x]) = (if bool_decide (comps = []) then [] else joinComps comps ++ [slash]) ++ x.
Proof.
  induction comps as [|c comps IH]; [done|]. rewrite bool_decide_eq_false_2 by done.
  destruct comps as [|c' comps]; [by simpl; rewrite <- app_assoc|].
  change (c ++ slash :: joinComps ((c' :: comps) ++ [x]) = ((c ++ slash :: joinComps (c' :: comps)) ++ [slash]) ++ x).
  rewrite IH. rewrite bool_decide_eq_false_2 by done. simplify_list_eq. done.
Qed.

(** Everything of a joined path but the file name. *)
Definition dirPrefix (d : list ascii) : list ascii :=
  let comps := cleanComps (isRooted d) [] (splitSlash [] d) in
  (if isRooted d then [slash] else []) ++ (if bool_decide (comps = []) then [] else joinComps comps ++ [slash]).

Lemma Join_file d x :
  d <> "" -> fileName (bytes x) -> bytes (Join d x) = dirPrefix (bytes d) ++ bytes x.
Proof.
  intros Hd Hf. pose proof Hf as (Hs & Hne & _). unfold Join.
  rewrite !bool_decide_eq_false_2 by (done || by intros ->). unfold Clean. cbv zeta. rewrite bytes_ofBytes.
  rewrite !bytes_app. change (bytes "/" ++ bytes x) with (slash :: bytes x).
  destruct (bytes d) as [|c l] eqn:E; [by destruct d|].
  change (isRooted ((c :: l) ++ slash :: bytes x)) with (isRooted (c :: l)).
  rewrite splitSlash_file, cleanComps_file, joinComps_file by done. unfold dirPrefix.
  destruct (isRooted (c :: l)); [by rewrite <- app_assoc|].
  rewrite bool_decide_eq_false_2; [done|]. by intros [_ ?]%app_eq_nil.
Qed.

Lemma Clean_nonempty p : Clean p <> "".
Proof.
  unfold Clean. cbv zeta. intros E. apply (f_equal bytes) in E. rewrite bytes_ofBytes in E.
  destruct (isRooted _); [done|]. case_bool_decide as Hb; [done|]. by apply Hb.
Qed.

Lemma Join_nonempty d x : x <> "" -> Join d x <> "".
Proof. intros Hx. unfold Join. repeat case_bool_decide; try done; apply Clean_nonempty. Qed.

(** ** The documents *)

Record vlessInbound := mkVlessInbound {
  V_Tag : string;
  V_Listen : string;
  V_ListenPort : Z;
  V_ServerName : string;
  V_HandshakePort : Z;
  V_PrivateKey : string;
  V_ShortID : list string
}.

Record hy2Inbound := mkHy2Inbound {
  H_Tag : string;
  H_Listen : string;
  H_ListenPort : Z;
  H_ServerName : string;
  H_CertPath : string;
  H_KeyPath : string;
  H_UpMbps : option Z;
  H_DownMbps : option Z;
  H_Obfs : option (string * string)
}.

(** Both kinds are written with an empty user list. *)
Inductive inboundDoc := DocVLESS (i : vlessInbound) | DocHy2 (i : hy2Inbound).

Inductive outboundDoc :=
| DocDirect (tag : string)
| DocBlock (tag : string)
| DocDNS (tag : string)
| DocShadowsocks (tag : string) (o : OutboundSpec).

Record ruleDoc := mkRule { Rule_Inbound : list string; Rule_Outbound : string }.

Record configDoc := mkConfig {
  Inbounds : list inboundDoc;
  Outbounds : list outboundDoc;
  Rules : list ruleDoc;
  Final : string
}.

Definition docTag (i : inboundDoc) : string := match i with DocVLESS i => V_Tag i | DocHy2 i => H_Tag i end.

Definition outTag (o : outboundDoc) : string :=
  match o with DocDirect t | DocBlock t | DocDNS t | DocShadowsocks t _ => t end.

(** [inbound["tag"] = tag] *)
Definition setTag (tag : string) (i : inboundDoc) : inboundDoc :=
  match i with
  | DocVLESS i => DocVLESS (mkVlessInbound tag (V_Listen i) (V_ListenPort i) (V_ServerName i)
      (V_HandshakePort i) (V_PrivateKey i) (V_ShortID i))
  | DocHy2 i => DocHy2 (mkHy2Inbound tag (H_Listen i) (H_ListenPort i) (H_ServerName i)
      (H_CertPath i) (H_KeyPath i) (H_UpMbps i) (H_DownMbps i) (H_Obfs i))
  end.

Record xboardGenerateOptions := mkOptions {
  PanelURL : string;
  PanelToken : string;
  PanelNodeID : string;
  Opt_PanelNodeType : string;
  NodeMode : string;
  VLESSNodeID : string;
  HY2NodeID : string;
  Out : string;
  NodeTypeOutPath : string;
  CertPath : string;
  KeyPath : string
}.

(** The rest of the machine: the panel, files and certificates. *)
Class Host (S : Type) := {
  host_net :: Net S;
  exists_file : string -> S -> bool;
  mkdirAll : string -> S -> option error * S;
  writeFile : string -> string -> S -> option error * S;
  (** A key pair and a self-signed certificate for a server name, in PEM. *)
  makeCertificate : string -> S -> res error (string * string) * S;
  (** [json.MarshalIndent] of a configuration. *)
  marshalConfig : configDoc -> res error string
}.

Definition firstNonEmpty (vals : list string) : string :=
  match list_find (fun v => v <> "") vals with Some (_, v) => v | None => "" end.

Definition defaultListen (listen : string) : string := if bool_decide (listen = "") then "::" else listen.

Definition baseOutbounds : list outboundDoc := [DocDirect "direct"; DocBlock "block"; DocDNS "dns-out"].

Definition buildSingBoxConfigFromInbounds (inbounds : list inboundDoc) : configDoc :=
  mkConfig inbounds baseOutbounds [] "direct".

Definition vlessInboundFromNodeConfig (cfg : NodeConfig) (listen : string) : res error inboundDoc :=
  let tls := Config_TLSSettings cfg in
  reject_if (Config_ServerPort cfg <=? 0) (New "vless server_port is missing") ;;
  reject_if (bool_decide (PrivateKey tls = "")) (New "vless reality private_key is missing") ;;
  let serverName := firstNonEmpty [TLS_ServerName tls; "www.microsoft.com"] in
  let handshakePort :=
    match Atoi (TLS_ServerPort tls) with
    | Some p => if bool_decide (TLS_ServerPort tls <> "") && (0 <? p) then p else 443
    | None => 443
    end in
  let shortIDs := if bool_decide (ShortID tls <> "") then [ShortID tls] else [] in
  mret (DocVLESS (mkVlessInbound "vless-in" listen (Config_ServerPort cfg) serverName handshakePort
    (PrivateKey tls) shortIDs)).

Section Generate.
Context `{UnicodeTables} `{NodeConfigJSON} {S : Type} `{Host S}.
Implicit Types (s : S) (opts : xboardGenerateOptions) (cfg : NodeConfig).

(** Sequencing of operations that may fail and always pass on the state. *)
Definition andThen {A B} (m : S -> res error A * S) (f : A -> S -> res error B * S) : S -> res error B * S :=
  fun s => let (r, s) := m s in match r with Ok a => f a s | Err e => (Err e, s) end.
Definition liftE {A} (f : S -> option error * S) (a : A) : S -> res error A * S :=
  fun s => let (e, s) := f s in (match e with Some e => Err e | None => Ok a end, s).
Definition pureE {A} (r : res error A) : S -> res error A * S := fun s => (r, s).

#[local] Notation "x <~ m ; f" := (andThen m (fun x => f)) (at level 100, m at level 90, right associativity).

Definition ensureSelfSignedCert (certPath keyPath serverName : string) : S -> res error unit * S :=
  if bool_decide (certPath = "") || bool_decide (keyPath = "")
  then pureE (Err (New "cert/key path is empty"))
  else fun s =>
    if exists_file certPath s && exists_file keyPath s then (Ok tt, s)
    else (_ <~ liftE (mkdirAll (Dir certPath)) tt;
          _ <~ liftE (mkdirAll (Dir keyPath)) tt;
          pem <~ makeCertificate serverName;
          _ <~ liftE (writeFile certPath pem.1) tt;
          liftE (writeFile keyPath pem.2) tt) s.

Definition hy2InboundFromNodeConfig cfg opts (listen : string) : S -> res error inboundDoc * S :=
  if Config_ServerPort cfg <=? 0 then pureE (Err (New "hysteria2 server_port is missing")) else
  let outDir := Dir (Out opts) in
  let certPath := if bool_decide (CertPath opts = "") then Join outDir "cert.pem" else CertPath opts in
  let keyPath := if bool_decide (KeyPath opts = "") then Join outDir "key.pem" else KeyPath opts in
  let serverName := firstNonEmpty [Config_ServerName cfg; TLS_ServerName (Config_TLSSettings cfg); "bing.com"] in
  _ <~ ensureSelfSignedCert certPath keyPath serverName;
  pureE (Ok (DocHy2 (mkHy2Inbound "hy2-in" listen (Config_ServerPort cfg) serverName certPath keyPath
    (if 0 <? UpMbps cfg then Some (UpMbps cfg) else None)
    (if 0 <? DownMbps cfg then Some (DownMbps cfg) else None)
    (if bool_decide (Obfs cfg <> "") && bool_decide (ObfsPassword cfg <> "")
     then Some (Obfs cfg, ObfsPassword cfg) else None)))).

Definition inboundFromNodeConfig cfg opts (listen : string) : S -> res error inboundDoc * S :=
  let protocol := ToLower (Protocol cfg) in
  if bool_decide (protocol = "vless") then pureE (vlessInboundFromNodeConfig cfg listen)
  else if bool_decide (protocol ∈ ["hysteria"; "hysteria2"]) then
    if negb (Version cfg =? 0) && negb (Version cfg =? 2)
    then pureE (Err (New ("unsupported hysteria version " +:+ Itoa (Version cfg))))
    else hy2InboundFromNodeConfig cfg opts listen
  else pureE (Err (New ("unsupported node protocol " +:+ Protocol cfg))).

Definition buildSingBoxConfigFromNode cfg opts : S -> res error configDoc * S :=
  inbound <~ inboundFromNodeConfig cfg opts (defaultListen (ListenIP cfg));
  pureE (Ok (buildSingBoxConfigFromInbounds [inbound])).

Definition normalizeNodeMode (v : string) : string :=
  let t := ToLower (TrimSpace v) in
  if bool_decide (t ∈ ["vless"; "vless-reality"; "reality"]) then "vless"
  else if bool_decide (t ∈ ["hy2"; "hysteria"; "hysteria2"]) then "hy2"
  else if bool_decide (t ∈ ["both"; "dual"; "all"]) then "both"
  else t.

Definition prefixErr {A} (prefix : string) (m : S -> res error A * S) : S -> res error A * S :=
  fun s => let (r, s) := m s in (match r with Ok a => Ok a | Err e => Err (wrapErr prefix e) end, s).

(** Fetch one node's configuration and build its inbound. *)
Definition fetchConfig opts (id nodeType : string) : S -> res error NodeConfig * S :=
  FetchNodeConfig (NewClient (PanelURL opts) (PanelToken opts) id nodeType).

Definition inboundOf cfg opts : S -> res error inboundDoc * S :=
  inboundFromNodeConfig cfg opts (defaultListen (ListenIP cfg)).

Definition modeInbounds opts (mode : string) : S -> res error (list inboundDoc) * S :=
  if bool_decide (mode = "vless") then
    let id := firstNonEmpty [VLESSNodeID opts; PanelNodeID opts] in
    if bool_decide (id = "")
    then pureE (Err (New "vless mode requires --panel-node-id or --vless-node-id"))
    else cfg <~ fetchConfig opts id "vless"; i <~ inboundOf cfg opts; pureE (Ok [i])
  else if bool_decide (mode = "hy2") then
    let id := firstNonEmpty [HY2NodeID opts; PanelNodeID opts] in
    if bool_decide (id = "")
    then pureE (Err (New "hy2 mode requires --panel-node-id or --hy2-node-id"))
    else cfg <~ fetchConfig opts id "hysteria"; i <~ inboundOf cfg opts; pureE (Ok [i])
  else if bool_decide (mode = "both") then
    let vlessID := firstNonEmpty [VLESSNodeID opts; PanelNodeID opts] in
    if bool_decide (vlessID = "") || bool_decide (HY2NodeID opts = "")
    then pureE (Err (New "both mode requires --vless-node-id and --hy2-node-id"))
    else
      vlessCfg <~ prefixErr "fetch vless node config" (fetchConfig opts vlessID "vless");
      hy2Cfg <~ prefixErr "fetch hy2 node config" (fetchConfig opts (HY2NodeID opts) "hysteria");
      v <~ inboundOf vlessCfg opts; h <~ inboundOf hy2Cfg opts; pureE (Ok [v; h])
  else pureE (Err (New "--node-mode must be vless, hy2, or both")).

Definition selectMode opts : string :=
  let mode := normalizeNodeMode (NodeMode opts) in
  let unset m := bool_decide (m = "") || bool_decide (m = "auto") in
  let mode := if unset mode then normalizeNodeMode (Opt_PanelNodeType opts) else mode in
  if unset mode then "vless" else mode.

Definition saveFile (path data : string) : S -> res error unit * S :=
  _ <~ liftE (mkdirAll (Dir path)) tt; liftE (writeFile path data) tt.

Definition generateXboardConfig opts : S -> res error string * S :=
  let mode := selectMode opts in
  inbounds <~ modeInbounds opts mode;
  data <~ pureE (marshalConfig (buildSingBoxConfigFromInbounds inbounds));
  _ <~ saveFile (Out opts) data;
  _ <~ (if bool_decide (NodeTypeOutPath opts <> "")
        then saveFile (NodeTypeOutPath opts) (mode +:+ String "010"%char "") else pureE (Ok tt));
  pureE (Ok mode).

(** ** Topology mode *)

Definition outboundFromNodeSpec (n : NodeSpec) : outboundDoc := DocShadowsocks (OutboundTag n) (Outbound n).

Definition normProtocol (p : string) : string :=
  let t := ToLower (TrimSpace p) in
  if bool_decide (t ∈ ["vless"; "vless-reality"; "reality"]) then "vless"
  else if bool_decide (t ∈ ["hy2"; "hysteria"; "hysteria2"]) then "hysteria"
  else t.

Definition validateNodeProtocol (n : NodeSpec) cfg : res error unit :=
  reject_if (negb (bool_decide (normProtocol (NodeType n) = normProtocol (Protocol cfg))))
    (New ("node " +:+ NodeID n +:+ " protocol mismatch: topology specifies " +:+ NodeType n +:+
          " but panel returned " +:+ Protocol cfg)).

(** Certificate paths: with several nodes, each Hysteria2 node has its own. *)
Definition nodeOptions (several : bool) (out certPath keyPath : string) (n : NodeSpec) : xboardGenerateOptions :=
  let own := several && bool_decide (normalizeNodeMode (NodeType n) = "hy2") in
  mkOptions "" "" "" "" "" "" "" out ""
    (if own then Join (Dir out) ("cert-" +:+ NodeID n +:+ ".pem") else certPath)
    (if own then Join (Dir out) ("key-" +:+ NodeID n +:+ ".pem") else keyPath).

(** The outbound tag of a node's rule, and the outbound added for it. *)
Definition nodeOutbound (n : NodeSpec) : string * list outboundDoc :=
  let t := ToLower (TrimSpace (Outbound_Type (Outbound n))) in
  if bool_decide (t = "direct") then ("direct", [])
  else if bool_decide (t ∈ ["shadowsocks"; "ss"]) then (OutboundTag n, [outboundFromNodeSpec n])
  else (OutboundTag n, []).

Definition generateNode (panelURL panelToken : string) (several : bool) (out certPath keyPath : string)
    (n : NodeSpec) : S -> res error inboundDoc * S :=
  cfg <~ prefixErr ("fetch node " +:+ Key n)
    (FetchNodeConfig (NewClient panelURL panelToken (NodeID n) (PanelNodeType n)));
  _ <~ pureE (validateNodeProtocol n cfg);
  i <~ prefixErr ("build node " +:+ Key n +:+ " inbound")
    (inboundFromNodeConfig cfg (nodeOptions several out certPath keyPath n) (defaultListen (ListenIP cfg)));
  pureE (Ok (setTag (InboundTag n) i)).

Fixpoint generateNodes (panelURL panelToken : string) (several : bool) (out certPath keyPath : string)
    (ns : list NodeSpec) (c : configDoc) : S -> res error configDoc * S :=
  match ns with
  | [] => pureE (Ok c)
  | n :: ns =>
      i <~ generateNode panelURL panelToken several out certPath keyPath n;
      let (tag, outs) := nodeOutbound n in
      generateNodes panelURL panelToken several out certPath keyPath ns
        (mkConfig (Inbounds c ++ [i]) (Outbounds c ++ outs) (Rules c ++ [mkRule [InboundTag n] tag]) (Final c))
  end.

Definition topologyConfig (panelURL panelToken : string) (t : Topology) (out certPath keyPath : string)
  : S -> res error configDoc * S :=
  generateNodes panelURL panelToken (bool_decide (1 < length (Nodes t))%nat) out certPath keyPath (Nodes t)
    (mkConfig [] baseOutbounds [] "block").

Definition generateTopologyConfig (panelURL panelToken : string) (t : Topology) (out certPath keyPath : string)
  : S -> res error unit * S :=
  _ <~ pureE (Validate t);
  c <~ topologyConfig panelURL panelToken t out certPath keyPath;
  data <~ pureE (marshalConfig c);
  saveFile out data.
End Generate.

(** ** Build capabilities (capabilities.go) *)

Record BuildCapabilities := mkCapabilities {
  BuildID : string;
  VLESSInbound : bool;
  Hysteria2Inbound : bool;
  ShadowsocksOutbound : bool;
  DirectOutbound : bool;
  UserRateLimit : bool;
  TunInbound : bool
}.

Fixpoint joinDash (parts : list string) : string :=
  match parts with
  | [] => ""
  | [p] => p
  | p :: parts => p +:+ "-" +:+ joinDash parts
  end.

Definition currentBuildCapabilities `{Build} : BuildCapabilities :=
  let parts := (if with_vless then ["vless"] else []) ++ (if with_hysteria2 then ["hy2"] else []) ++
               ["direct"] ++ (if with_shadowsocks then ["ss"] else []) in
  mkCapabilities (joinDash parts) with_vless with_hysteria2 with_shadowsocks true
    userRateLimitBuildEnabled with_tun.

Section Capabilities.
Context `{UnicodeTables}.

Definition checkNodeCapabilities (caps : BuildCapabilities) (n : NodeSpec) : res error unit :=
  let missing what := New ("build " +:+ BuildID caps +:+ " does not include " +:+ what) in
  (if bool_decide (PanelNodeType n = "vless")
   then reject_if (negb (VLESSInbound caps)) (missing "vless inbound")
   else if bool_decide (PanelNodeType n = "hysteria")
   then reject_if (negb (Hysteria2Inbound caps)) (missing "hysteria2 inbound")
   else Ok tt) ;;
  let t := Outbound_Type (Outbound n) in
  reject_if ((EqualFold t "shadowsocks" || EqualFold t "ss") && negb (ShadowsocksOutbound caps))
    (missing "shadowsocks outbound").

Fixpoint validateCapabilities (caps : BuildCapabilities) (ns : list NodeSpec) : res error unit :=
  match ns with
  | [] => Ok tt
  | n :: ns => checkNodeCapabilities caps n ;; validateCapabilities caps ns
  end.

Definition validateTopologyCapabilities (t : Topology) (caps : BuildCapabilities) : res error unit :=
  validateCapabilities caps (Nodes t).

Lemma validateCapabilities_Ok caps ns n :
  validateCapabilities caps ns = Ok tt -> n ∈ ns -> checkNodeCapabilities caps n = Ok tt.
Proof.
  induction ns as [|m ns IH]; simpl; intros Hv Hn; [set_solver|]. res_inv.
  apply elem_of_cons in Hn as [->|Hn]; [|by apply IH]. by match goal with x : unit |- _ => destruct x end.
Qed.

(** The outbound type is written without padding, in ASCII. *)
Definition plainType (n : NodeSpec) : Prop :=
  TrimSpace (Outbound_Type (Outbound n)) = Outbound_Type (Outbound n) /\
  forallb isASCII (bytes (Outbound_Type (Outbound n))) = true.

(** What a node needs from the build. *)
Definition needsShadowsocks (n : NodeSpec) : Prop :=
  ToLower (TrimSpace (Outbound_Type (Outbound n))) ∈ ["shadowsocks"; "ss"].

(** A topology that passes both checks can be run by the build: every node's protocol and
    outbound are compiled in.  For outbound types written without padding. *)
Theorem capabilities_cover_topology t caps n :
  Validate t = Ok tt -> validateTopologyCapabilities t caps = Ok tt -> n ∈ Nodes t -> plainType n ->
  (normalizeNodeType (NodeType n) = "vless" -> VLESSInbound caps = true) /\
  (normalizeNodeType (NodeType n) = "hysteria" -> Hysteria2Inbound caps = true) /\
  (needsShadowsocks n -> ShadowsocksOutbound caps = true).
Proof.
  intros Hv Hc Hn [Htrim Hascii]. pose proof (validateCapabilities_Ok caps _ n Hc Hn) as Hcheck.
  unfold checkNodeCapabilities in Hcheck. res_inv. split_and!.
  - intros E. unfold PanelNodeType in *. rewrite E in *. simpl in *.
    by match goal with Hx : reject_if _ _ = Ok _ |- _ => apply reject_if_Ok in Hx; bool_inv end.
  - intros E. unfold PanelNodeType in *. rewrite E in *. simpl in *.
    by match goal with Hx : reject_if _ _ = Ok _ |- _ => apply reject_if_Ok in Hx; bool_inv end.
  - unfold needsShadowsocks. rewrite Htrim. unfold ToLower. rewrite Hascii. intros Hss.
    match goal with Hx : _ && _ = false |- _ => rename Hx into Hf end.
    destruct (ShadowsocksOutbound caps); [done|]. rewrite andb_true_r in Hf.
    apply orb_false_iff in Hf as [Hf1 Hf2]. unfold EqualFold in Hf1, Hf2. rewrite Hascii in Hf1, Hf2.
    simpl in Hf1, Hf2. bool_inv. rewrite !elem_of_cons in Hss.
    destruct Hss as [E|[E|Hss]]; [by rewrite E in Hf1 | by rewrite E in Hf2 | by apply not_elem_of_nil in Hss].
Qed.

(** With padding around the type, a build without Shadowsocks accepts a topology that needs it:
    [Validate] trims the type, the capability check does not. *)
Theorem padded_type_escapes_capability_check :
  let ss := mkOutbound " ss " "host" 8388 "aes-256-gcm" "pw" "" "" in
  let t := mkTopology [mkNode "1" "vless" "" ss] in
  let caps := mkCapabilities "vless-direct" true false false true true false in
  Validate t = Ok tt /\ validateTopologyCapabilities t caps = Ok tt /\
  Forall needsShadowsocks (Nodes t).
Proof.
  split_and!; [vm_compute; reflexivity | vm_compute; reflexivity |].
  by repeat constructor.
Qed.
End Capabilities.

(** ** The generated configuration *)

Section Routing.
Context `{UnicodeLaws} `{NodeConfigJSON} {S : Type} `{Host S}.
Implicit Types (s : S) (n : NodeSpec) (c : configDoc).

(** The rule that applies to an inbound: the first one that names it, or the final outbound. *)
Definition routeOf c (tag : string) : string :=
  match list_find (fun r => tag ∈ Rule_Inbound r) (Rules c) with
  | Some (_, r) => Rule_Outbound r
  | None => Final c
  end.

(** The inbound serves the node's protocol on the node's tag. *)
Definition docProtocol (i : inboundDoc) : string := match i with DocVLESS _ => "vless" | DocHy2 _ => "hysteria" end.

Definition docFor n (i : inboundDoc) : Prop :=
  docTag i = InboundTag n /\ docProtocol i = normalizeNodeType (NodeType n).

Lemma andThen_Ok {A B} (m : S -> res error A * S) (f : A -> S -> res error B * S) s b s' :
  andThen m f s = (Ok b, s') <-> exists a s1, m s = (Ok a, s1) /\ f a s1 = (Ok b, s').
Proof.
  unfold andThen. destruct (m s) as [[a|e] s1]; [naive_solver|]. split; [done | naive_solver].
Qed.

Lemma prefixErr_Ok {A} p (m : S -> res error A * S) s a s' :
  prefixErr p m s = (Ok a, s') <-> m s = (Ok a, s').
Proof. unfold prefixErr. destruct (m s) as [[x|e] s1]; naive_solver. Qed.

Lemma normProtocol_eq p : normProtocol p = normalizeNodeType p.
Proof. done. Qed.

Lemma inboundFromNodeConfig_protocol cfg opts listen s i s' :
  inboundFromNodeConfig cfg opts listen s = (Ok i, s') ->
  docProtocol i = (if bool_decide (ToLower (Protocol cfg) = "vless") then "vless" else "hysteria") /\
  ToLower (Protocol cfg) ∈ ["vless"; "hysteria"; "hysteria2"].
Proof.
  unfold inboundFromNodeConfig. cbv zeta. case_bool_decide as E.
  - unfold pureE, vlessInboundFromNodeConfig. intros [= Hi _]. res_inv. rewrite E. split; [done|]. set_solver.
  - case_bool_decide as E'; [|done]. destruct (_ && _); [done|]. unfold hy2InboundFromNodeConfig.
    destruct (_ <=? 0); [done|]. cbv zeta. intros (u & s1 & _ & Hp)%andThen_Ok.
    injection Hp as <- _. split; [done|]. set_solver.
Qed.

(** A protocol name that the inbound builder accepts needs no trimming. *)
Lemma known_protocol_trimmed p :
  ToLower p ∈ ["vless"; "hysteria"; "hysteria2"] -> ToLower (TrimSpace p) = ToLower p.
Proof.
  intros Hin. rewrite ToLower_TrimSpace. rewrite !elem_of_cons in Hin.
  destruct Hin as [E|[E|[E|E]]]; [rewrite E; reflexivity.. | by apply not_elem_of_nil in E].
Qed.

Lemma known_protocol_normal p :
  ToLower p ∈ ["vless"; "hysteria"; "hysteria2"] ->
  normProtocol p = if bool_decide (ToLower p = "vless") then "vless" else "hysteria".
Proof.
  intros Hin. unfold normProtocol. rewrite known_protocol_trimmed by done. rewrite !elem_of_cons in Hin.
  destruct Hin as [E|[E|[E|E]]]; [rewrite E; reflexivity.. | by apply not_elem_of_nil in E].
Qed.

Lemma docTag_setTag tag i : docTag (setTag tag i) = tag.
Proof. by destruct i. Qed.

Lemma docProtocol_setTag tag i : docProtocol (setTag tag i) = docProtocol i.
Proof. by destruct i. Qed.

(** How a node's inbound comes about. *)
Lemma generateNode_inv url tok several out cert key n s i s' :
  generateNode url tok several out cert key n s = (Ok i, s') ->
  exists cfg j s1 s2, i = setTag (InboundTag n) j /\ normProtocol (NodeType n) = normProtocol (Protocol cfg) /\
    inboundFromNodeConfig cfg (nodeOptions several out cert key n) (defaultListen (ListenIP cfg)) s1 = (Ok j, s2).
Proof.
  unfold generateNode. intros Hg.
  apply andThen_Ok in Hg as (cfg & s1 & Hcfg & Hg). apply andThen_Ok in Hg as (u & s2 & Hval & Hg).
  apply andThen_Ok in Hg as (j & s3 & Hj & Hg). injection Hg as <- _. apply prefixErr_Ok in Hj.
  injection Hval as Hval ->. unfold validateNodeProtocol in Hval. apply reject_if_Ok in Hval. bool_inv.
  eauto 10.
Qed.

Lemma generateNode_doc url tok several out cert key n s i s' :
  generateNode url tok several out cert key n s = (Ok i, s') -> docFor n i.
Proof.
  intros (cfg & j & s1 & s2 & -> & Hval & Hj)%generateNode_inv.
  apply inboundFromNodeConfig_protocol in Hj as [Hp Hin]. split; [apply docTag_setTag|].
  by rewrite docProtocol_setTag, Hp, <- normProtocol_eq, Hval, known_protocol_normal.
Qed.

(** The configuration parts added for a list of nodes. *)
Definition ruleFor n : ruleDoc := mkRule [InboundTag n] (nodeOutbound n).1.

Lemma generateNodes_Ok url tok several out cert key ns c s c' s' :
  generateNodes url tok several out cert key ns c s = (Ok c', s') ->
  exists docs, Forall2 (fun n i => exists s1 s2,
      generateNode url tok several out cert key n s1 = (Ok i, s2)) ns docs /\
    c' = mkConfig (Inbounds c ++ docs) (Outbounds c ++ concat ((fun n => (nodeOutbound n).2) <$> ns))
           (Rules c ++ (ruleFor <$> ns)) (Final c).
Proof.
  revert c s. induction ns as [|n ns IH]; intros c s; simpl.
  - intros [= <- _]. exists []. split; [constructor|]. destruct c; simpl. by rewrite !app_nil_r.
  - intros (i & s1 & Hi & Hg)%andThen_Ok. destruct (nodeOutbound n) as [tag outs] eqn:E.
    apply IH in Hg as (docs & Hdocs & ->). exists (i :: docs). split; [constructor; eauto|]. simpl.
    rewrite <- !app_assoc. unfold ruleFor. by rewrite E.
Qed.

(** ** Routing by the generated rules *)

Lemma routeOf_rules ins os fin ns n :
  NoDup (InboundTag <$> ns) -> n ∈ ns ->
  routeOf (mkConfig ins os (ruleFor <$> ns) fin) (InboundTag n) = (nodeOutbound n).1.
Proof.
  unfold routeOf; simpl. induction ns as [|m ns IH]; intros Hnd Hn; [by apply not_elem_of_nil in Hn|].
  rewrite fmap_cons in Hnd. apply NoDup_cons in Hnd as [Hm Hnd].
  apply elem_of_cons in Hn as [->|Hn]; simpl.
  - rewrite decide_True; [done|]. by apply list_elem_of_singleton.
  - rewrite decide_False.
    + specialize (IH Hnd Hn). change (list_fmap _ _ ruleFor ns) with (ruleFor <$> ns).
      by destruct (list_find _ (ruleFor <$> ns)) as [[? ?]|].
    + intros E%list_elem_of_singleton. apply Hm. rewrite <- E. by apply list_elem_of_fmap_2.
Qed.

Lemma routeOf_final ins os fin ns tag :
  tag ∉ InboundTag <$> ns -> routeOf (mkConfig ins os (ruleFor <$> ns) fin) tag = fin.
Proof.
  intros Hn. unfold routeOf; simpl. destruct (list_find _ _) as [[k r]|] eqn:E; [|done].
  apply list_find_Some in E as (Hk & Hr & _). apply list_lookup_fmap_Some in Hk as (m & -> & Hm).
  apply list_elem_of_singleton in Hr. destruct Hn. rewrite Hr. apply list_elem_of_fmap_2.
  by eapply list_elem_of_lookup_2.
Qed.

(** The outbound through which a node's traffic leaves. *)
Definition exitFor n (o : outboundDoc) : Prop :=
  if bool_decide (ToLower (TrimSpace (Outbound_Type (Outbound n))) = "direct")
  then o = DocDirect "direct" else o = DocShadowsocks (OutboundTag n) (Outbound n).

Lemma nodeOutbound_exit n :
  node_ok n -> exists o, o ∈ baseOutbounds ++ (nodeOutbound n).2 /\ outTag o = (nodeOutbound n).1 /\ exitFor n o.
Proof.
  intros (_ & _ & Ho). unfold nodeOutbound, exitFor. cbv zeta.
  destruct Ho as [-> | [E _]].
  - rewrite !bool_decide_eq_true_2 by done. exists (DocDirect "direct"). split_and!; [|done..].
    apply elem_of_app; left. by left.
  - rewrite bool_decide_eq_false_2 by (by destruct E as [-> | ->]).
    rewrite bool_decide_eq_true_2 by (destruct E as [-> | ->]; decide_vm).
    exists (outboundFromNodeSpec n). split_and!; [|done..]. apply elem_of_app; right. by left.
Qed.

Lemma nodeOutbound_tags n o : o ∈ (nodeOutbound n).2 -> outTag o = OutboundTag n /\ (nodeOutbound n).2 = [o].
Proof.
  unfold nodeOutbound. cbv zeta. destruct (bool_decide _); [by intros ?%not_elem_of_nil|].
  destruct (bool_decide _); [|by intros ?%not_elem_of_nil]. by intros ->%list_elem_of_singleton.
Qed.

Lemma node_outbounds_NoDup ns :
  NoDup (OutboundTag <$> ns) -> NoDup (outTag <$> concat ((fun n => (nodeOutbound n).2) <$> ns)).
Proof.
  induction ns as [|n ns IH]; rewrite ?fmap_cons; intros Hnd; [constructor|].
  apply NoDup_cons in Hnd as [Hn Hnd]. simpl. rewrite fmap_app. apply NoDup_app. split_and!; [| |by apply IH].
  - destruct (nodeOutbound n).2 as [|o os] eqn:E; [constructor|].
    pose proof (nodeOutbound_tags n o) as Ho. rewrite E in Ho. destruct Ho as [_ ->]; [by left|].
    apply NoDup_singleton.
  - intros x (o & -> & Ho)%list_elem_of_fmap (o' & Heq & (os & Ho' & Hos)%list_elem_of_In%in_concat)%list_elem_of_fmap.
    apply list_elem_of_In in Ho', Hos. apply list_elem_of_fmap in Ho' as (m & -> & Hm).
    apply nodeOutbound_tags in Ho as [Ho _]. apply nodeOutbound_tags in Hos as [Hos _].
    apply Hn. rewrite <- Ho, Heq, Hos. by apply list_elem_of_fmap_2.
Qed.

Lemma base_tags_fresh ns x :
  x ∈ outTag <$> baseOutbounds -> x ∉ outTag <$> concat ((fun n => (nodeOutbound n).2) <$> ns).
Proof.
  intros Hx (o & -> & (os & Ho & Hos)%list_elem_of_In%in_concat)%list_elem_of_fmap.
  apply list_elem_of_In in Ho, Hos. apply list_elem_of_fmap in Ho as (m & -> & Hm).
  apply nodeOutbound_tags in Hos as [E _]. rewrite E in Hx.
  unfold baseOutbounds, OutboundTag in Hx. simpl in Hx. rewrite !elem_of_cons in Hx.
  destruct Hx as [Hx|[Hx|[Hx|Hx]]]; [discriminate Hx.. | by apply not_elem_of_nil in Hx].
Qed.

(** What the generator puts into the configuration of a valid topology. *)
Lemma topologyConfig_routes url tok t out cert key s c s1 :
  Validate t = Ok tt -> topologyConfig url tok t out cert key s = (Ok c, s1) ->
  Rules c = ruleFor <$> Nodes t /\ Final c = "block" /\ DocBlock "block" ∈ Outbounds c /\
  Forall2 docFor (Nodes t) (Inbounds c) /\ NoDup (docTag <$> Inbounds c) /\ NoDup (outTag <$> Outbounds c) /\
  Forall (fun n => exists o, o ∈ Outbounds c /\ outTag o = routeOf c (InboundTag n) /\ exitFor n o) (Nodes t) /\
  (forall tag, tag ∉ docTag <$> Inbounds c -> routeOf c tag = "block").
Proof.
  intros (_ & Hok & _ & Hin & Hout)%Validate_Ok Hc. apply generateNodes_Ok in Hc as (docs & Hdocs & ->).
  cbn [Inbounds Outbounds Rules Final]. rewrite !app_nil_l.
  assert (Forall2 docFor (Nodes t) docs) as Hdoc
    by (eapply Forall2_impl; [exact Hdocs|]; intros n i (? & ? & Hi); by eapply generateNode_doc).
  assert (docTag <$> docs = InboundTag <$> Nodes t) as Htags.
  { clear -Hdoc. induction Hdoc as [|n i ns docs [E _] _ IH]; [done|]. by rewrite !fmap_cons, E, IH. }
  rewrite Htags. split_and!; [done | done | apply elem_of_app; left; do 2 constructor | done | done | | |].
  - rewrite fmap_app. apply NoDup_app.
    split_and!; [decide_vm | apply base_tags_fresh | by apply node_outbounds_NoDup].
  - apply Forall_forall. intros n Hn. destruct (nodeOutbound_exit n) as (o & Ho & Ht & He);
      [by eapply Forall_forall in Hok|]. exists o. split_and!; [|by rewrite Ht, routeOf_rules|done].
    apply elem_of_app in Ho as [Ho|Ho]; apply elem_of_app; [by left|right].
    apply list_elem_of_In, in_concat. exists (nodeOutbound n).2. rewrite <- !list_elem_of_In. split; [|done].
    apply (list_elem_of_fmap_2 (fun n => (nodeOutbound n).2)), Hn.
  - intros tag Hn. by apply routeOf_final.
Qed.

(** C3. A generated topology configuration keeps every node's traffic apart: one inbound per
    node, of the node's protocol and under its own tag; one outbound per tag; the rules send
    a node's inbound to the node's own exit, which is among the outbounds, and every other
    inbound to the blocking one.  The file that is written holds this configuration. *)
Theorem generated_topology_routes url tok t out cert key s s' :
  generateTopologyConfig url tok t out cert key s = (Ok tt, s') ->
  exists c data s1,
    topologyConfig url tok t out cert key s = (Ok c, s1) /\
    marshalConfig c = Ok data /\ saveFile out data s1 = (Ok tt, s') /\
    Forall2 docFor (Nodes t) (Inbounds c) /\ NoDup (docTag <$> Inbounds c) /\ NoDup (outTag <$> Outbounds c) /\
    Forall (fun n => exists o, o ∈ Outbounds c /\ outTag o = routeOf c (InboundTag n) /\ exitFor n o) (Nodes t) /\
    (forall tag, tag ∉ docTag <$> Inbounds c -> routeOf c tag = "block").
Proof.
  unfold generateTopologyConfig. intros ([] & s0 & [= Hv <-] & (c & s1 & Hc & (data & s2 & [= Hm <-] & Hsave)
    %andThen_Ok)%andThen_Ok)%andThen_Ok.
  exists c, data, s1. do 3 (split; [done|]). by destruct (topologyConfig_routes _ _ _ _ _ _ _ _ _ Hv Hc) as (_ & _ & _ & ?).
Qed.

(** ** Certificate files *)

(** The files an inbound takes its certificate and key from. *)
Definition docPaths (i : inboundDoc) : list string :=
  match i with DocVLESS _ => [] | DocHy2 i => [H_CertPath i; H_KeyPath i] end.

Definition certFile n : string := "cert-" +:+ NodeID n +:+ ".pem".
Definition keyFile n : string := "key-" +:+ NodeID n +:+ ".pem".

Lemma hy2_mode n : normalizeNodeMode (NodeType n) = "hy2" <-> normalizeNodeType (NodeType n) = "hysteria".
Proof.
  unfold normalizeNodeMode, normalizeNodeType. cbv zeta. case_bool_decide as E1; [naive_solver|].
  case_bool_decide as E2; [naive_solver|].
  split; [|intros E; destruct E2; set_solver]. case_bool_decide; [done|]. intros E; destruct E2; set_solver.
Qed.

Lemma docPaths_setTag tag i : docPaths (setTag tag i) = docPaths i.
Proof. by destruct i. Qed.

Lemma node_id_no_slash id : node_id_ok id -> slash ∉ bytes id.
Proof.
  intros (_ & Hc & _) Hin. rewrite Contains_byte in Hc. apply bool_decide_eq_false in Hc.
  by apply Hc, TrimSpace_keeps.
Qed.

Lemma certFile_name n : node_ok n -> fileName (bytes (certFile n)) /\ fileName (bytes (keyFile n)).
Proof.
  intros (Hid%node_id_no_slash & _). unfold certFile, keyFile, fileName. rewrite !bytes_app.
  assert (slash ∉ bytes "cert-" /\ slash ∉ bytes "key-" /\ slash ∉ bytes ".pem") as (? & ? & ?) by decide_vm.
  rewrite !not_elem_of_app. split_and!; done.
Qed.

(** Where the inbound of one of several nodes keeps its files. *)
Lemma generateNode_paths url tok out cert key n s i s' :
  generateNode url tok true out cert key n s = (Ok i, s') ->
  docPaths i = if bool_decide (normalizeNodeType (NodeType n) = "hysteria")
               then [Join (Dir out) (certFile n); Join (Dir out) (keyFile n)] else [].
Proof.
  intros Hg. pose proof (generateNode_doc _ _ _ _ _ _ _ _ _ _ Hg) as [_ Hp].
  apply generateNode_inv in Hg as (cfg & j & s1 & s2 & -> & _ & Hj).
  rewrite docProtocol_setTag in Hp. rewrite docPaths_setTag. rewrite <- Hp.
  destruct j as [j|j]; [done|]. rewrite bool_decide_eq_true_2 by done.
  unfold inboundFromNodeConfig in Hj. cbv zeta in Hj. case_bool_decide.
  { injection Hj as Hj _. unfold vlessInboundFromNodeConfig in Hj. res_inv; done. }
  case_bool_decide; [|done]. destruct (_ && _); [done|]. unfold hy2InboundFromNodeConfig in Hj.
  destruct (_ <=? 0); [done|]. cbv zeta in Hj. apply andThen_Ok in Hj as (u & s3 & _ & Hp').
  injection Hp' as <- _. simpl in *. unfold nodeOptions; simpl.
  rewrite !(bool_decide_eq_true_2 (normalizeNodeMode (NodeType n) = "hy2")) by (by apply hy2_mode).
  fold (certFile n) (keyFile n). by rewrite !bool_decide_eq_false_2 by (by apply Join_nonempty).
Qed.

Lemma Join_file_inj d x y :
  d <> "" -> fileName (bytes x) -> fileName (bytes y) -> Join d x = Join d y -> x = y.
Proof.
  intros Hd Hx Hy E. apply (f_equal bytes) in E. rewrite !Join_file in E by done. simplify_list_eq.
  by rewrite <- (ofBytes_bytes x), <- (ofBytes_bytes y), E.
Qed.

Lemma pem_names n m :
  (certFile n = certFile m -> NodeID n = NodeID m) /\ (keyFile n = keyFile m -> NodeID n = NodeID m) /\
  certFile n <> keyFile m.
Proof.
  assert (forall a b : string, a +:+ ".pem" = b +:+ ".pem" -> a = b) as Hsuf.
  { intros a b E. apply (f_equal bytes) in E. rewrite !bytes_app in E. apply app_inv_tail in E.
    by rewrite <- (ofBytes_bytes a), <- (ofBytes_bytes b), E. }
  unfold certFile, keyFile. split_and!; [intros [= E]; by apply Hsuf .. | done].
Qed.

(** The files of one node. *)
Definition nodePaths (out : string) n : list string :=
  if bool_decide (normalizeNodeType (NodeType n) = "hysteria")
  then [Join (Dir out) (certFile n); Join (Dir out) (keyFile n)] else [].

Lemma nodePaths_NoDup out n : node_ok n -> NoDup (nodePaths out n).
Proof.
  intros [Hc Hk]%certFile_name. unfold nodePaths. case_bool_decide; [|constructor].
  apply NoDup_cons. split; [|apply NoDup_singleton].
  intros E%list_elem_of_singleton%Join_file_inj; [|apply Clean_nonempty|done..]. by eapply (pem_names n n).
Qed.

Lemma nodePaths_disjoint out n m x :
  node_ok n -> node_ok m -> Key n <> Key m -> x ∈ nodePaths out n -> x ∉ nodePaths out m.
Proof.
  intros [Hc Hk]%certFile_name [Hc' Hk']%certFile_name Hkey. unfold nodePaths.
  case_bool_decide as En; [|by intros ?%not_elem_of_nil]. case_bool_decide as Em; [|by intros _ ?%not_elem_of_nil].
  assert (NodeID n <> NodeID m) as Hid by (intros E; apply Hkey; unfold Key, NodeKey; congruence).
  pose proof (pem_names n m) as (H1' & H2' & H3'). pose proof (pem_names m n) as (_ & _ & H4').
  rewrite !elem_of_cons, !elem_of_nil.
  intros [->|[->|[]]] [E|[E|[]]]; apply Join_file_inj in E; try done; try apply Clean_nonempty; naive_solver.
Qed.

Lemma paths_NoDup out ns :
  Forall node_ok ns -> NoDup (Key <$> ns) -> NoDup (concat (nodePaths out <$> ns)).
Proof.
  induction 1 as [|n ns Hn Hns IH]; rewrite ?fmap_cons; intros Hnd; [constructor|].
  apply NoDup_cons in Hnd as [Hk Hnd]. simpl. apply NoDup_app. split_and!; [by apply nodePaths_NoDup| |by apply IH].
  intros x Hx (ps & Hps & Hin)%list_elem_of_In%in_concat. apply list_elem_of_In in Hps, Hin.
  apply list_elem_of_fmap in Hps as (m & -> & Hm). eapply nodePaths_disjoint; [exact Hn| | |exact Hx|exact Hin].
  - by eapply Forall_forall in Hns.
  - intros E. apply Hk. rewrite E. by apply list_elem_of_fmap_2.
Qed.

(** With more than one node, no two Hysteria2 inbounds of the generated configuration share a
    certificate or key file, and none uses one file for both. *)
Theorem hysteria2_certificates_distinct url tok t out cert key s s' c s1 :
  generateTopologyConfig url tok t out cert key s = (Ok tt, s') -> (1 < length (Nodes t))%nat ->
  topologyConfig url tok t out cert key s = (Ok c, s1) ->
  NoDup (concat (docPaths <$> Inbounds c)).
Proof.
  intros Hg Hlen Hc. unfold generateTopologyConfig in Hg. apply andThen_Ok in Hg as ([] & s0 & [= Hv <-] & _).
  apply Validate_Ok in Hv as (_ & Hok & Hkey & _). unfold topologyConfig in Hc.
  rewrite bool_decide_eq_true_2 in Hc by done.
  apply generateNodes_Ok in Hc as (docs & Hdocs & ->). cbn [Inbounds]. rewrite app_nil_l.
  assert (docPaths <$> docs = nodePaths out <$> Nodes t) as ->; [|by apply paths_NoDup].
  clear -Hdocs H0. induction Hdocs as [|n i ns docs (? & ? & Hi) _ IH]; [done|].
  apply generateNode_paths in Hi. by rewrite !fmap_cons, Hi, IH.
Qed.
End Routing.

(** ** A panel with three nodes *)

Module Deployment.
#[local] Existing Instance ascii_tables.

Definition vlessCfg : NodeConfig :=
  mkNodeConfig "vless" "" 443 "tcp" 2 "" (mkTLSSettings "example.com" "443" "pub" "priv" "ab" false) 0 "" "" 0 0 "" ""
    (mkBaseConfig 60 60).
Definition hy2Cfg : NodeConfig :=
  mkNodeConfig "hysteria2" "0.0.0.0" 8443 "" 1 "" emptyTLS 2 "" "example.org" 100 200 "salamander" "pw" (mkBaseConfig 60 60).

#[local] Instance json : NodeConfigJSON :=
  {| unmarshalConfig body := if bool_decide (body = "1") then Ok vlessCfg else Ok hy2Cfg;
     unmarshalWrapped _ := Err (New "no data");
     unmarshalMessage _ := ("", "") |}.

(** The file system as a map from paths to contents; the panel answers with the node's id. *)
#[local] Instance net : Net (gmap string string) :=
  {| urlParse base := Ok (mkURL base ∅);
     http_do _ u _ fs := (Ok (mkResponse 200 "200 OK" (default "" (url_query u !! "node_id"))), fs);
     unmarshalUsers _ := Err (New "not a user list") |}.

#[local] Instance host : Host (gmap string string) :=
  {| exists_file p fs := bool_decide (is_Some (fs !! p));
     mkdirAll _ fs := (None, fs);
     writeFile p data fs := (None, <[p := data]> fs);
     makeCertificate name fs := (Ok ("certificate of " +:+ name, "key of " +:+ name), fs);
     marshalConfig c := Ok (joinDash (docTag <$> Inbounds c)) |}.

Definition fleet : Topology :=
  let direct := mkOutbound "direct" "" 0 "" "" "" "" in
  mkTopology [mkNode "1" "vless" "" direct;
              mkNode "2" "hy2" "" (mkOutbound "ss" "relay.example" 8388 "aes-256-gcm" "pw" "" "");
              mkNode "3" "hysteria2" "home" direct].

Definition written : gmap string string :=
  (generateTopologyConfig "http://panel" "token" fleet "/etc/agent/config.json" "" "" ∅).2.

Lemma generated : generateTopologyConfig "http://panel" "token" fleet "/etc/agent/config.json" "" "" ∅ = (Ok tt, written).
Proof. vm_compute. reflexivity. Qed.

Lemma files_written :
  fst <$> map_to_list written ≡ₚ
  ["/etc/agent/cert-2.pem"; "/etc/agent/key-2.pem"; "/etc/agent/cert-3.pem"; "/etc/agent/key-3.pem"; "/etc/agent/config.json"].
Proof. decide_vm. Qed.

Lemma generated_topology_routes_witness :
  exists c data s1,
    topologyConfig "http://panel" "token" fleet "/etc/agent/config.json" "" "" ∅ = (Ok c, s1) /\
    marshalConfig c = Ok data /\ saveFile "/etc/agent/config.json" data s1 = (Ok tt, written) /\
    Forall2 docFor (Nodes fleet) (Inbounds c) /\ NoDup (docTag <$> Inbounds c) /\ NoDup (outTag <$> Outbounds c) /\
    Forall (fun n => exists o, o ∈ Outbounds c /\ outTag o = routeOf c (InboundTag n) /\ exitFor n o) (Nodes fleet) /\
    (forall tag, tag ∉ docTag <$> Inbounds c -> routeOf c tag = "block").
Proof.
  exact (generated_topology_routes "http://panel" "token" fleet "/etc/agent/config.json" "" "" ∅ written generated).
Defined.

Lemma hysteria2_certificates_distinct_witness :
  exists c s1, topologyConfig "http://panel" "token" fleet "/etc/agent/config.json" "" "" ∅ = (Ok c, s1) /\
    length (concat (docPaths <$> Inbounds c)) = 4%nat /\ NoDup (concat (docPaths <$> Inbounds c)).
Proof.
  destruct (topologyConfig "http://panel" "token" fleet "/etc/agent/config.json" "" "" ∅) as [r s1] eqn:E.
  destruct r as [c|e]; [|exfalso; apply (f_equal fst) in E; vm_compute in E; discriminate E].
  exists c, s1. split; [done|]. split.
  - assert (c = match (topologyConfig "http://panel" "token" fleet "/etc/agent/config.json" "" "" ∅).1 with
                | Ok c => c | Err _ => c end) as -> by (rewrite E; done). vm_compute. reflexivity.
  - apply (hysteria2_certificates_distinct "http://panel" "token" fleet "/etc/agent/config.json" "" "" ∅ written c s1);
      [exact generated | vm_compute; lia | exact E].
Defined.

Lemma capabilities_cover_topology_witness :
  let caps := mkCapabilities "vless-hy2-direct-ss" true true true true true false in
  let n := mkNode "2" "hy2" "" (mkOutbound "ss" "relay.example" 8388 "aes-256-gcm" "pw" "" "") in
  needsShadowsocks n /\
  (normalizeNodeType (NodeType n) = "vless" -> VLESSInbound caps = true) /\
  (normalizeNodeType (NodeType n) = "hysteria" -> Hysteria2Inbound caps = true) /\
  (needsShadowsocks n -> ShadowsocksOutbound caps = true).
Proof.
  split; [by vm_compute; right; left|].
  apply (capabilities_cover_topology fleet); [vm_compute; reflexivity | vm_compute; reflexivity | by right; left |].
  split; vm_compute; reflexivity.
Defined.
End Deployment.
