(* ===== verification/Exits.v ===== *)
(** * A generated configuration at work

    The box of src/fork/sing-box/box.go that runs a generated configuration: its outbounds are
    created in order under the final tag as the default, its rules are built, and the router sends
    every connection of a node's inbound to the node's own exit.  This joins the generator
    ([Config]) with the router ([Router]). *)

From S2P Require Import Prelude GoStrings Topology PanelTypes Client UserManager NodeConfig Rules RuleBuild Outbounds Router Config.

#[local] Open Scope Z_scope.

(** ** Creating the outbounds *)

(** The type field of an outbound document. *)
Definition docType (d : outboundDoc) : string :=
  match d with DocDirect _ => "direct" | DocBlock _ => "block" | DocDNS _ => "dns" | DocShadowsocks _ _ => "shadowsocks" end.

Section Box.
Context `{OutboundLibs outboundDoc}.
Implicit Types (m : Manager) (d : outboundDoc).

(** The loop of [box.New]: an outbound without a tag is named by its position. *)
Fixpoint createOutbounds (i : Z) (docs : list outboundDoc) m : option error * Manager :=
  match docs with
  | [] => (None, m)
  | d :: docs =>
      let tag := if bool_decide (outTag d = "") then Itoa i else outTag d in
      match Create tag (docType d) d m with
      | (Some e, m) => (Some (Error ("initialize outbound[" +:+ Itoa i +:+ "]") [e]), m)
      | (None, m) => createOutbounds (i + 1) docs m
      end
  end.

(** The outbound [o] was created from the document [d]. *)
Definition madeFrom d (o : Outbounds.Outbound) : Prop :=
  ob_tag o = outTag d /\ ob_type o = docType d /\
  CreateOutbound (outTag d) (docType d) d = Ok (ob_network o, ob_dependencies o).

Lemma createOutbounds_spec i docs m m' :
  manager_ok m -> NoDup (outTag <$> docs) -> "" ∉ outTag <$> docs -> createOutbounds i docs m = (None, m') ->
  manager_ok m' /\ defaultTag m' = defaultTag m /\
  (forall t, t ∉ outTag <$> docs -> outboundByTag m' !! t = outboundByTag m !! t) /\
  (forall d, d ∈ docs -> exists o, outboundByTag m' !! outTag d = Some o /\ madeFrom d o /\
     (outTag d = defaultTag m -> defaultOutbound m' = Some o)) /\
  (defaultTag m <> "" -> defaultTag m ∉ outTag <$> docs -> defaultOutbound m' = defaultOutbound m).
Proof using Type.
  revert i m. induction docs as [|d docs IH]; intros i m Hm Hnd Hne; cbn [createOutbounds].
  { intros [= <-]. split_and!; try done. by intros d ?%not_elem_of_nil. }
  rewrite fmap_cons in *. apply NoDup_cons in Hnd as [Hd Hnd]. apply not_elem_of_cons in Hne as [Hne1 Hne].
  rewrite bool_decide_eq_false_2 by done. destruct (Create _ _ _ m) as [[er|] m1] eqn:E; [done|]. intros Hc.
  apply Create_ok in E as (Hm1 & network & deps & Hmk & Hby & Hdt & Hdf); [|done].
  destruct (IH _ m1 Hm1 Hnd Hne Hc) as (Hm' & Hdt' & Hother & Hmade & Hdef). rewrite Hdt in *.
  split_and!; [done | done | | |].
  - intros t [Ht1 Ht2]%not_elem_of_cons. by rewrite Hother, Hby, lookup_insert_ne by done.
  - intros d' [->|Hd']%elem_of_cons; [|by apply Hmade].
    eexists. split_and!; [rewrite Hother, Hby by done; apply lookup_insert_eq | done |]. intros Et.
    rewrite Hdef; [|by rewrite <- Et | by rewrite <- Et]. rewrite Hdf, bool_decide_eq_true_2 by done. done.
  - intros Hn [Ht1 Ht2]%not_elem_of_cons. rewrite Hdef, Hdf by done.
    rewrite !bool_decide_eq_false_2 by done. done.
Qed.
End Box.

(** ** Every node leaves by its own exit *)

(** The options a rule document decodes to, as inbounds and outbound. *)
Definition rulePair (r : ruleDoc) : list string * string := (Rule_Inbound r, Rule_Outbound r).

Lemma exitTag_routeOf c inbound : exitTag (rulePair <$> Config.Rules c) (Final c) inbound = routeOf c inbound.
Proof.
  unfold exitTag, routeOf. induction (Config.Rules c) as [|r rules IH]; [done|]. cbn [fmap list_fmap list_find].
  change ((rulePair r).1) with (Rule_Inbound r). destruct (decide (inbound ∈ Rule_Inbound r)); [done|].
  destruct (list_find _ (rulePair <$> rules)) as [[? ?]|], (list_find _ rules) as [[? ?]|]; done.
Qed.

Section Fleet.
Context `{UnicodeLaws} `{NodeConfigJSON} {S : Type} `{Host S}.
Context `{MapOrder} `{RuleLibs} `{ActionLibs} `{Registry} `{RouterLibs} `{OutboundLibs outboundDoc}.
Context {C : Type}.

(** What is assumed of the outbounds the registry makes: they carry both networks. *)
Definition dualNetworks : Prop :=
  forall tag type d network deps, CreateOutbound tag type d = Ok (network, deps) -> "tcp" ∈ network /\ "udp" ∈ network.

(** An ordinary connection: no detour, no deprecated inbound options, no reserved destination. *)
Definition ordinary (x : Context) : Prop :=
  inboundOptions x = noInboundOptions /\ InboundDetour x = "" /\ magicDestination (sa_fqdn (f_Destination (facts x))) = None.

Lemma outTag_nonempty url tok t out cert key s c s1 :
  topologyConfig url tok t out cert key s = (Ok c, s1) -> "" ∉ outTag <$> Config.Outbounds c.
Proof.
  intros (docs & _ & ->)%generateNodes_Ok. cbn [Config.Outbounds]. rewrite fmap_app, not_elem_of_app. split; [decide_vm|].
  intros (o & E & (os & Ho & Hos)%list_elem_of_In%in_concat)%list_elem_of_fmap.
  apply list_elem_of_In in Ho, Hos. apply list_elem_of_fmap in Ho as (n & -> & _).
  apply nodeOutbound_tags in Hos as [Ht _]. rewrite Ht in E. discriminate E.
Qed.

Lemma generated_exits_ready url tok t out cert key s c s1 mgr network :
  Validate t = Ok tt -> topologyConfig url tok t out cert key s = (Ok c, s1) ->
  createOutbounds 0 (Config.Outbounds c) (NewManager (Final c)) = (None, mgr) ->
  (forall d o, madeFrom d o -> network ∈ ob_network o) ->
  exitsReady network (rulePair <$> Config.Rules c) (Final c) mgr /\
  (forall o, Manager_Outbound (ob_tag o) mgr = Some o \/ Default mgr = Some o -> forall d, d ∈ Config.Outbounds c -> outTag d = ob_tag o -> madeFrom d o).
Proof.
  intros Hv Hc Hmgr Hnet. pose proof (outTag_nonempty _ _ _ _ _ _ _ _ _ Hc) as Hne.
  destruct (topologyConfig_routes _ _ _ _ _ _ _ _ _ Hv Hc) as (Hrules & Hfinal & Hblock & _ & _ & Hnd & Hexit & _).
  destruct (createOutbounds_spec _ _ _ _ (NewManager_ok _) Hnd Hne Hmgr) as (Hok & Hdt & _ & Hmade & _).
  simpl in Hdt, Hmade. assert (exists o, defaultOutbound mgr = Some o /\ madeFrom (DocBlock "block") o /\ outboundByTag mgr !! "block" = Some o) as (ob & Hob & Hbm & Hbt).
  { destruct (Hmade _ Hblock) as (o & Ho & Hm & Hd). exists o. split_and!; [by apply Hd | done | done]. }
  split.
  - split.
    + intros p (r & -> & Hr)%list_elem_of_fmap. rewrite Hrules in Hr. apply list_elem_of_fmap in Hr as (n & -> & Hn).
      rewrite Forall_forall in Hexit. destruct (Hexit n Hn) as (d & Hd & Ht & _).
      assert (routeOf c (InboundTag n) = (nodeOutbound n).1) as Hro.
      { apply Validate_Ok in Hv as (_ & _ & _ & Hin & _). destruct c as [ins os rs fin]. simpl in Hrules. subst rs. by apply routeOf_rules. }
      rewrite Hro in Ht. destruct (Hmade d Hd) as (o & Ho & Hm & _). exists o. unfold Manager_Outbound. simpl.
      rewrite <- Ht, Ho. split_and!; [done | apply Hm | by eapply Hnet].
    + exists ob. split_and!; [done | rewrite Hfinal; apply Hbm | by eapply Hnet].
  - intros o Ho d Hd Ht. destruct (Hmade d Hd) as (o' & Ho' & Hm & _). destruct Ho as [Ho|Ho].
    + unfold Manager_Outbound in Ho. rewrite <- Ht, Ho' in Ho. by injection Ho as <-.
    + unfold Default in Ho. rewrite Hob in Ho. injection Ho as <-. destruct Hbm as (Hbg & _). rewrite Hbg in Ht. simpl in Ht.
      rewrite Ht, Hbt in Ho'. by injection Ho' as <-.
Qed.

(** C4. In a box that runs the configuration generated for a valid topology, every ordinary connection
    and packet connection of a node's inbound is routed to the outbound made from the node's own
    exit, and one of any other inbound to the blocking outbound. *)
Theorem node_traffic_leaves_by_own_exit (e : Surroundings) (trackers : list (C -> Context -> option ruleAction -> Outbounds.Outbound -> C))
    (injectable : string -> option bool) (nat : C -> Context -> C)
    url tok t out cert key s c s1 mgr rules (conn : C) (x : Context) :
  Validate t = Ok tt -> topologyConfig url tok t out cert key s = (Ok c, s1) ->
  createOutbounds 0 (Config.Outbounds c) (NewManager (Final c)) = (None, mgr) ->
  InitializeRules 0 ((fun r => inboundSpec (rulePair r)) <$> Config.Rules c) = Ok rules ->
  fakeIPStore = None -> dualNetworks -> ordinary x ->
  exists d,
    (if bool_decide (f_Inbound (facts x) ∈ InboundTag <$> Nodes t)
     then exists n, n ∈ Nodes t /\ InboundTag n = f_Inbound (facts x) /\ exitFor n d
     else d = DocBlock "block") /\
    (exists o conn' x', routeConnection e rules trackers mgr injectable conn x = Ok (Routed o conn' x') /\ madeFrom d o) /\
    (exists o conn' x', routePacketConnection e rules trackers mgr injectable nat conn x = Ok (Routed o conn' x') /\ madeFrom d o).
Proof.
  intros Hv Hc Hmgr Hrules Hfake Hnet (Hopt & Hdet & Hmagic).
  assert (forall d o, madeFrom d o -> "tcp" ∈ ob_network o) as Htcp by (intros d o (_ & _ & Hm); by apply Hnet in Hm as [? _]).
  assert (forall d o, madeFrom d o -> "udp" ∈ ob_network o) as Hudp by (intros d o (_ & _ & Hm); by apply Hnet in Hm as [_ ?]).
  destruct (generated_exits_ready _ _ _ _ _ _ _ _ _ _ "tcp" Hv Hc Hmgr Htcp) as [Rt Hfrom].
  destruct (generated_exits_ready _ _ _ _ _ _ _ _ _ _ "udp" Hv Hc Hmgr Hudp) as [Ru _].
  destruct (topologyConfig_routes _ _ _ _ _ _ _ _ _ Hv Hc) as (Hr & Hfinal & Hblock & Hdocs & _ & _ & Hexit & Hother).
  assert (rules = inboundRule <$> (rulePair <$> Config.Rules c)) as ->.
  { rewrite (list_fmap_compose rulePair inboundSpec) in Hrules.
    rewrite InitializeRules_inbound in Hrules; [by injection Hrules as <-|].
    rewrite Hr. apply Forall_fmap, Forall_fmap, Forall_true. done. }
  destruct (routed_by_inbound e trackers mgr injectable nat (rulePair <$> Config.Rules c) (Final c) conn x Hfake Hopt Hdet Hmagic Rt Ru)
    as [(o1 & c1 & x1 & E1 & T1 & M1) (o2 & c2 & x2 & E2 & T2 & M2)].
  rewrite exitTag_routeOf in T1, T2.
  assert (exists d, d ∈ Config.Outbounds c /\ outTag d = routeOf c (f_Inbound (facts x)) /\
    (if bool_decide (f_Inbound (facts x) ∈ InboundTag <$> Nodes t)
     then exists n, n ∈ Nodes t /\ InboundTag n = f_Inbound (facts x) /\ exitFor n d else d = DocBlock "block")) as (d & Hd & Htag & Hwhich).
  { case_bool_decide as Hin.
    - apply list_elem_of_fmap in Hin as (n & En & Hn). rewrite Forall_forall in Hexit. destruct (Hexit n Hn) as (d & Hd & Ht & He).
      exists d. rewrite En. split_and!; [done | done | by exists n].
    - exists (DocBlock "block"). split_and!; [done | | done]. rewrite Hother; [done|].
      assert (docTag <$> Config.Inbounds c = InboundTag <$> Nodes t) as ->; [|done].
      clear -Hdocs. induction Hdocs as [|n i ns docs [E _] _ IH]; [done|]. by rewrite !fmap_cons, E, IH. }
  exists d. split_and!; [done | |].
  - exists o1, c1, x1. split; [done|]. apply Hfrom; [done | done | by rewrite T1].
  - exists o2, c2, x2. split; [done|]. apply Hfrom; [done | done | by rewrite T2].
Qed.
End Fleet.

(** ** Example: the fleet of [Config.Deployment] *)

Module FleetSample.
Import RuleSample BuildSample.
#[local] Existing Instances Deployment.json Deployment.net Deployment.host ascii_tables ascii_laws.

#[export] Instance routerLibs : RouterLibs :=
  {| findProcess := None; fakeIPStore := None; LookupReverseMapping _ := None;
     actionSniff _ _ _ _ _ x := (None, x); actionResolve _ x := (None, x); magicDestination _ := None |}.
#[export] Instance outboundLibs : OutboundLibs outboundDoc :=
  {| CreateOutbound _ _ _ := Ok (["tcp"; "udp"], []); LegacyStart _ _ := None; startOutbound _ := None; closeOutbound _ := None; Endpoints := [] |}.

Definition fleetConfig : configDoc :=
  match (topologyConfig "http://panel" "token" Deployment.fleet "/etc/agent/config.json" "" "" (∅ : gmap string string)).1 with
  | Ok c => c | Err _ => mkConfig [] [] [] ""
  end.
Definition files : gmap string string :=
  (topologyConfig "http://panel" "token" Deployment.fleet "/etc/agent/config.json" "" "" (∅ : gmap string string)).2.
Definition fleetManager : Manager := (createOutbounds 0 (Config.Outbounds fleetConfig) (NewManager (Final fleetConfig))).2.
Definition fleetRules : list (rule * ruleAction) := (fun r => inboundRule (rulePair r)) <$> Config.Rules fleetConfig.

Definition incoming (inbound : string) : Context :=
  mkContext (connection inbound "example.com" 1 443) (mkDialOptions None None [] [] 0 false false 0 false 0 false) (fresh false)
    noInboundOptions "" "" None false.

(** A connection of the second node, whose exit is a Shadowsocks relay. *)
Definition relayed : Context := incoming "hy2-2-in".

Lemma node_traffic_leaves_by_own_exit_witness :
  exists d,
    (if bool_decide (f_Inbound (facts relayed) ∈ InboundTag <$> Nodes Deployment.fleet)
     then exists n, n ∈ Nodes Deployment.fleet /\ InboundTag n = f_Inbound (facts relayed) /\ exitFor n d
     else d = DocBlock "block") /\
    (exists o conn' x', routeConnection quietNetwork fleetRules [] fleetManager (fun _ => None) tt relayed = Ok (Routed o conn' x') /\ madeFrom d o) /\
    (exists o conn' x', routePacketConnection quietNetwork fleetRules [] fleetManager (fun _ => None) (fun c _ => c) tt relayed = Ok (Routed o conn' x') /\ madeFrom d o).
Proof.
  apply (node_traffic_leaves_by_own_exit quietNetwork [] (fun _ => None) (fun c _ => c) "http://panel" "token" Deployment.fleet
    "/etc/agent/config.json" "" "" (∅ : gmap string string) fleetConfig files fleetManager fleetRules tt relayed).
  - vm_compute. reflexivity.
  - vm_compute. reflexivity.
  - vm_compute. reflexivity.
  - vm_compute. reflexivity.
  - reflexivity.
  - intros tag type d network deps [= <- <-]. split; decide_vm.
  - repeat split.
Defined.

Lemma relay_is_an_inbound : bool_decide (f_Inbound (facts relayed) ∈ InboundTag <$> Nodes Deployment.fleet) = true.
Proof. vm_compute. reflexivity. Qed.
End FleetSample.
