(* ===== verification/Startup.v ===== *)
(** * Start-up of the agent (src/cmd/mini-sb-agent/main.go, xboard_config.go)

    The subcommand that generates a configuration, the Hysteria2 tuning of loaded options, and
    what [main] settles before the box is created: the topology stage and the choice of the panel.
    Flag parsing and the decoding of files are arguments; [log.Fatal] is [Err]. *)

From S2P Require Import Prelude GoStrings Topology PanelTypes Client UserManager NodeConfig Config.

#[local] Open Scope Z_scope.

(** ** Loaded options *)

Record hy2Tuning := mkTuning {
  Enabled : bool;
  Tune_UpMbps : Z;
  Tune_DownMbps : Z;
  Tune_IgnoreClientBandwidth : bool;
  Tune_BrutalDebug : bool
}.

Record Hysteria2InboundOptions := mkHy2Options {
  UpMbps : Z;
  DownMbps : Z;
  IgnoreClientBandwidth : bool;
  BrutalDebug : bool;
  (** The fields start-up does not touch. *)
  Hy2_rest : string
}.

(** The options of an inbound: a pointer to Hysteria2 options, which may be nil, or another type. *)
Inductive inboundOpts := Hy2Options (o : option Hysteria2InboundOptions) | OtherOptions (raw : string).

Record LogOptions := mkLog { Level : string; Timestamp : bool; Log_rest : string }.

Record Options := mkBoxOptions { Log : option LogOptions; BoxInbounds : list (string * inboundOpts) }.

(** The assignments of the loop body of [applyHY2Tuning]. *)
Definition tune (t : hy2Tuning) (o : Hysteria2InboundOptions) : Hysteria2InboundOptions :=
  mkHy2Options (if 0 <? Tune_UpMbps t then Tune_UpMbps t else UpMbps o)
    (if 0 <? Tune_DownMbps t then Tune_DownMbps t else DownMbps o)
    (Tune_IgnoreClientBandwidth t || IgnoreClientBandwidth o) (Tune_BrutalDebug t || BrutalDebug o) (Hy2_rest o).

Definition tuneInbound (t : hy2Tuning) (i : string * inboundOpts) : string * inboundOpts :=
  if bool_decide (i.1 = "hysteria2") then
    match i.2 with Hy2Options (Some o) => (i.1, Hy2Options (Some (tune t o))) | _ => i end
  else i.

Definition applyHY2Tuning (t : hy2Tuning) (opts : Options) : Options :=
  if Enabled t then mkBoxOptions (Log opts) (tuneInbound t <$> BoxInbounds opts) else opts.

(** The log level of the agent: warnings, unless the file says otherwise. *)
Definition defaultLog (l : option LogOptions) : option LogOptions :=
  match l with
  | None => Some (mkLog "warn" true "")
  | Some l => Some (if bool_decide (Level l = "") then mkLog "warn" (Timestamp l) (Log_rest l) else l)
  end.

Definition loadOptionsWithHY2Tuning (decoded : res error Options) (t : hy2Tuning) : res error Options :=
  opts ← decoded; Ok (applyHY2Tuning t (mkBoxOptions (defaultLog (Log opts)) (BoxInbounds opts))).

Definition noTuning : hy2Tuning := mkTuning false 0 0 false false.
Definition loadOptions (decoded : res error Options) : res error Options := loadOptionsWithHY2Tuning decoded noTuning.

(** [loadLocalUsers]: no path, no users. *)
Definition loadLocalUsers `{MapOrder} (path : string) (file : res error localUserFile) : res error (list User) :=
  if bool_decide (path = "") then Ok [] else ParseUsers file.

(** Tuning changes the four fields of Hysteria2 inbounds only, and tuning twice is tuning once. *)
Lemma applyHY2Tuning_spec t opts :
  Log (applyHY2Tuning t opts) = Log opts /\
  (BoxInbounds (applyHY2Tuning t opts)).*1 = (BoxInbounds opts).*1 /\
  (forall i, i ∈ BoxInbounds opts -> i.1 <> "hysteria2" -> i ∈ BoxInbounds (applyHY2Tuning t opts)) /\
  applyHY2Tuning t (applyHY2Tuning t opts) = applyHY2Tuning t opts.
Proof.
  unfold applyHY2Tuning. destruct (Enabled t); [|done]. cbn [Log BoxInbounds]. split_and!; [done | | |].
  - rewrite <- list_fmap_compose. apply list_fmap_ext. intros _ [ty o] _. unfold tuneInbound. simpl. by repeat case_match.
  - intros i Hi Hne. apply list_elem_of_fmap. exists i. split; [|done]. unfold tuneInbound. by rewrite bool_decide_eq_false_2.
  - f_equal. rewrite <- list_fmap_compose. apply list_fmap_ext. intros _ [ty o] _. unfold tuneInbound. simpl.
    destruct (decide (ty = "hysteria2")) as [->|Hne]; [|by rewrite !(bool_decide_eq_false_2 (ty = "hysteria2")) by done].
    destruct o as [[o|]|raw]; simpl; [|done|done].
    unfold tune. simpl. by destruct (0 <? Tune_UpMbps t), (0 <? Tune_DownMbps t), (Tune_IgnoreClientBandwidth t), (Tune_BrutalDebug t).
Qed.

(** ** What [main] settles *)

Record Flags := mkFlags {
  fl_config : string;
  fl_users : string;
  fl_panelURL : string;
  fl_panelToken : string;
  fl_panelHY2NodeID : string;
  fl_topology : string;
  fl_cert : string;
  fl_key : string;
  fl_hy2UpMbps : Z;
  fl_hy2DownMbps : Z;
  fl_hy2IgnoreClientBandwidth : bool;
  fl_hy2BrutalDebug : bool
}.

(** The tuning the flags ask for. *)
Definition flagTuning (f : Flags) : hy2Tuning :=
  mkTuning ((0 <? fl_hy2UpMbps f) || (0 <? fl_hy2DownMbps f) || fl_hy2IgnoreClientBandwidth f || fl_hy2BrutalDebug f)
    (fl_hy2UpMbps f) (fl_hy2DownMbps f) (fl_hy2IgnoreClientBandwidth f) (fl_hy2BrutalDebug f).

Inductive panelChoice := TopologyPanelChoice | DualPanel | SinglePanel | LocalPanel | NoPanel.

Definition choosePanel (f : Flags) : panelChoice :=
  if bool_decide (fl_topology f <> "") then TopologyPanelChoice
  else if bool_decide (fl_panelURL f <> "")
  then (if bool_decide (fl_panelHY2NodeID f <> "") then DualPanel else SinglePanel)
  else if bool_decide (fl_users f <> "") then LocalPanel else NoPanel.

Section Main.
Context `{UnicodeTables} `{Build} `{NodeConfigJSON} {S : Type} `{Host S}.

(** The topology stage: load, check the build, require the panel, generate. *)
Definition topologyStage (f : Flags) (decoded : S -> res error Topology) (s : S) : res error (option Topology) * S :=
  if bool_decide (fl_topology f = "") then (Ok None, s) else
  match LoadTopology (decoded s) with
  | Err e => (Err e, s)
  | Ok t =>
      match validateTopologyCapabilities t currentBuildCapabilities with
      | Err e => (Err e, s)
      | Ok _ =>
          if bool_decide (fl_panelURL f = "") || bool_decide (fl_panelToken f = "")
          then (Err (New "-topology requires -panel-url and -panel-token"), s) else
          match generateTopologyConfig (fl_panelURL f) (fl_panelToken f) t (fl_config f) (fl_cert f) (fl_key f) s with
          | (Err e, s) => (Err e, s)
          | (Ok _, s) => (Ok (Some t), s)
          end
      end
  end.

(** The exit code of [xboard-generate-config]; the flags are parsed or not. *)
Definition runXboardGenerateConfig (parsed : option xboardGenerateOptions) (s : S) : Z * S :=
  match parsed with
  | None => (2, s)
  | Some o =>
      if bool_decide (PanelURL o = "") || bool_decide (PanelToken o = "") || bool_decide (Out o = "") then (2, s) else
      let mode := if bool_decide (NodeMode o = "") && bool_decide (Opt_PanelNodeType o <> "")
                  then normalizeNodeMode (Opt_PanelNodeType o) else NodeMode o in
      let mode := if bool_decide (mode = "") then "vless" else mode in
      let o := mkOptions (PanelURL o) (PanelToken o) (PanelNodeID o) (Opt_PanelNodeType o) mode (VLESSNodeID o) (HY2NodeID o)
                 (Out o) (NodeTypeOutPath o) (CertPath o) (KeyPath o) in
      match generateXboardConfig o s with (Ok _, s) => (0, s) | (Err _, s) => (1, s) end
  end.

(** Nothing is fetched or written for a topology that is invalid, that the build cannot serve or
    that has no panel: a stage that touched the machine had passed every check. *)
Lemma topology_stage_checks_first (f : Flags) (decoded : S -> res error Topology) (s s' : S) r :
  topologyStage f decoded s = (r, s') -> s' <> s ->
  exists t, decoded s = Ok t /\ Validate t = Ok tt /\ validateTopologyCapabilities t currentBuildCapabilities = Ok tt /\
    fl_panelURL f <> "" /\ fl_panelToken f <> "" /\
    generateTopologyConfig (fl_panelURL f) (fl_panelToken f) t (fl_config f) (fl_cert f) (fl_key f) s =
      ((fun _ => tt) <$> r, s').
Proof.
  unfold topologyStage. case_bool_decide as Ht; [by intros [= _ <-]|].
  destruct (LoadTopology (decoded s)) as [t|er] eqn:El; [|by intros [= _ <-]].
  unfold LoadTopology in El. destruct (decoded s) as [t0|]; [|done]. cbn [mbind res_bind] in El.
  destruct (Validate t0) as [[]|] eqn:Ev; [|done]. injection El as <-.
  destruct (validateTopologyCapabilities t0 currentBuildCapabilities) as [[]|] eqn:Ec; [|by intros [= _ <-]].
  destruct (bool_decide (fl_panelURL f = "")) eqn:E1; [by intros [= _ <-]|].
  destruct (bool_decide (fl_panelToken f = "")) eqn:E2; [by intros [= _ <-]|]. cbn [orb].
  apply bool_decide_eq_false in E1, E2.
  destruct (generateTopologyConfig _ _ t0 _ _ _ s) as [[[]|er] s1] eqn:Eg; intros [= <- <-] _; by exists t0.
Qed.
End Main.
