(* ===== verification/DNSLock.v ===== *)
(** * Queries that wait for each other (src/fork/sing-box/dns/client.go)

    A query that may be answered from the cache first takes the lock of its question: the channel it
    stores in [cacheLock] (or [transportCacheLock]), which it deletes and closes when it returns.  A
    query that finds one there waits for it to be closed, without a time limit and without taking the
    lock itself, and then goes on.  While a query runs, its transport may make queries of its own,
    for the addresses it dials; it returns after they have.

    [State] is the queries made so far, each with the one that made it, and the lock table; the steps
    of the queries interleave.  What a query does while it runs is in [DNSClient]. *)

From S2P Require Import Prelude DNSClient.

Inductive phase :=
| Calling
| Waiting (on : nat)
| Running (holds : bool)
| Returned.

#[export] Instance phase_eq_dec : EqDecision phase.
Proof. solve_decision. Defined.

Record Query := mkQuery { question : Question; caller : option nat; at_ : phase }.
Record State := mkState { queries : list Query; cacheLock : gmap Question nat }.

Definition noQueries : State := mkState [] ∅.
Definition moved (p : phase) (x : Query) : Query := mkQuery (question x) (caller x) p.
Definition isRunning (x : Query) : bool := match at_ x with Running _ => true | _ => false end.
Definition isReturned (x : Query) : bool := bool_decide (at_ x = Returned).

(** The queries a query made have returned. *)
Definition calleesReturned (i : nat) (l : list Query) : bool := forallb (fun x => bool_decide (caller x <> Some i) || isReturned x) l.

Inductive event :=
| Call (by_ : option nat) (q : Question)
| Enter (i : nat)
| Wake (i : nat)
| Return (i : nat).

(** The caller of a query is running. *)
Definition mayCall (by_ : option nat) (l : list Query) : bool :=
  match by_ with
  | None => true
  | Some i => from_option isRunning false (l !! i)
  end.

(** [None] where the event cannot happen. *)
Definition perform (e : event) (s : State) : option State :=
  let l := queries s in
  match e with
  | Call by_ q => if mayCall by_ l then Some (mkState (l ++ [mkQuery q by_ Calling]) (cacheLock s)) else None
  | Enter i =>
      x ← l !! i;
      match at_ x, cacheLock s !! question x with
      | Calling, Some cond => Some (mkState (<[i := moved (Waiting cond) x]> l) (cacheLock s))
      | Calling, None => Some (mkState (<[i := moved (Running true) x]> l) (<[question x := i]> (cacheLock s)))
      | _, _ => None
      end
  | Wake i =>
      x ← l !! i;
      match at_ x with
      | Waiting j => if from_option isReturned false (l !! j) then Some (mkState (<[i := moved (Running false) x]> l) (cacheLock s)) else None
      | _ => None
      end
  | Return i =>
      x ← l !! i;
      match at_ x with
      | Running holds =>
          if calleesReturned i l
          then Some (mkState (<[i := moved Returned x]> l) (if holds then delete (question x) (cacheLock s) else cacheLock s))
          else None
      | _ => None
      end
  end.

Inductive reached : State -> Prop :=
| reached_new : reached noQueries
| reached_event e s s' : reached s -> perform e s = Some s' -> reached s'.

(** ** The lock table *)

Implicit Types (l : list Query) (x y : Query) (s : State).

(** A lock is held by a running query of its question, and a query waits for one that held it. *)
Record lock_ok (s : State) : Prop := {
  lk_held q i : cacheLock s !! q = Some i <-> exists x, queries s !! i = Some x /\ question x = q /\ at_ x = Running true;
  lk_waits i x j : queries s !! i = Some x -> at_ x = Waiting j ->
    exists y, queries s !! j = Some y /\ question y = question x /\ (at_ y = Running true \/ at_ y = Returned)
}.

(** A query that changes its phase, with what is known of the others. *)
Lemma moved_lookup l i x p j y :
  l !! i = Some x -> <[i := moved p x]> l !! j = Some y ->
  (j = i /\ y = moved p x) \/ (j <> i /\ l !! j = Some y).
Proof.
  intros Hi [(<- & <- & _)|[Hne Hj]]%list_lookup_insert_Some; [by left|]. by right.
Qed.
Lemma moved_here l i x p : l !! i = Some x -> <[i := moved p x]> l !! i = Some (moved p x).
Proof. intros Hi. apply list_lookup_insert_eq. by eapply lookup_lt_Some. Qed.
Lemma moved_other l i x p j : j <> i -> <[i := moved p x]> l !! j = l !! j.
Proof. intros Hne. by apply list_lookup_insert_ne. Qed.

(** Phases of a query whose question and standing as a holder of the lock do not matter to others. *)
Lemma moved_waits l i x p :
  l !! i = Some x -> (at_ x = Running true \/ at_ x = Returned -> p = Running true \/ p = Returned) ->
  forall j y, l !! j = Some y -> at_ y = Running true \/ at_ y = Returned ->
  exists y', <[i := moved p x]> l !! j = Some y' /\ question y' = question y /\ (at_ y' = Running true \/ at_ y' = Returned).
Proof.
  intros Hi Hp j y Hj Hy. destruct (decide (j = i)) as [->|Hne].
  - rewrite Hi in Hj. injection Hj as <-. exists (moved p x). split; [by apply moved_here|]. split; [done|]. by apply Hp.
  - exists y. by rewrite moved_other.
Qed.

Lemma lock_ok_moved s i x p m :
  lock_ok s -> queries s !! i = Some x ->
  (at_ x = Running true \/ at_ x = Returned -> p = Running true \/ p = Returned) ->
  (forall j, p = Waiting j -> exists y, queries s !! j = Some y /\ question y = question x /\ (at_ y = Running true \/ at_ y = Returned)) ->
  (forall q j, m !! q = Some j <-> if bool_decide (j = i) then question x = q /\ p = Running true else cacheLock s !! q = Some j) ->
  lock_ok (mkState (<[i := moved p x]> (queries s)) m).
Proof.
  intros [Hh Hw] Hi Hp Hpw Hm. pose proof (moved_waits _ _ _ p Hi Hp) as Hstill. split; cbn.
  - intros q j. rewrite Hm. case_bool_decide as Hj; [subst j; rewrite moved_here by done|rewrite moved_other by done; apply Hh].
    split; [intros [<- ->]; eexists; done|]. intros (y & [= <-] & <- & Hy). done.
  - intros k y j Hk Hy. apply (moved_lookup _ _ _ _ _ _ Hi) in Hk as [[-> ->]|[Hne Hk]].
    + destruct (Hpw j Hy) as (z & Hz & Hq & Hzp). destruct (Hstill _ _ Hz Hzp) as (z' & ? & Hq' & ?). exists z'. rewrite Hq'. done.
    + destruct (Hw k y j Hk Hy) as (z & Hz & Hq & Hzp). destruct (Hstill _ _ Hz Hzp) as (z' & ? & Hq' & ?). exists z'. by rewrite Hq'.
Qed.

Lemma perform_keeps_locks e s s' : lock_ok s -> perform e s = Some s' -> lock_ok s'.
Proof.
  intros Hok. destruct e as [by_ q|i|i|i]; cbn.
  - destruct (mayCall by_ (queries s)); [|done]. intros [= <-]. destruct Hok as [Hh Hw].
    assert (forall j y, (queries s ++ [mkQuery q by_ Calling]) !! j = Some y -> at_ y <> Calling -> queries s !! j = Some y) as Hold.
    { intros j y [Hj|[_ Hj]]%lookup_app_Some Hy; [done|]. destruct (j - length (queries s)) as [|[|n]]; cbn in Hj; try done. by injection Hj as <-. }
    split; cbn.
    + intros q' j. rewrite Hh. split; intros (y & Hy & Hq & Hp); exists y; split_and!; try done; [by apply lookup_app_l_Some|].
      apply Hold; [done|by rewrite Hp].
    + intros k y j Hk Hy. apply Hold in Hk; [|by rewrite Hy]. destruct (Hw k y j Hk Hy) as (z & Hz & ?). exists z. split; [by apply lookup_app_l_Some|done].
  - destruct (queries s !! i) as [x|] eqn:Hi; [|done]. cbn. destruct (at_ x) eqn:Hx; try done.
    assert (forall q, cacheLock s !! q <> Some i) as Hnot.
    { intros q (y & Hy & _ & Hp)%(lk_held _ Hok). rewrite Hi in Hy. injection Hy as <-. by rewrite Hx in Hp. }
    destruct (cacheLock s !! question x) as [cond|] eqn:Hc; intros [= <-]; apply lock_ok_moved; try done; try (rewrite Hx; by intros [|]).
    + intros j [= <-]. apply (lk_held _ Hok) in Hc as (y & ? & ? & ?). eauto.
    + intros q j. case_bool_decide as Hj; [subst j|done]. split; [by intros ?%Hnot|by intros [_ ?]].
    + intros q j. rewrite lookup_insert_Some. case_bool_decide as Hj; [subst j|].
      * split; [intros [[-> _]|[_ ?%Hnot]]; done|]. intros [-> _]. by left.
      * split; [intros [[_ ?]|[_ ?]]; by subst|]. intros Hq. right. split; [|done]. intros E. rewrite E in Hc. congruence.
  - destruct (queries s !! i) as [x|] eqn:Hi; [|done]. cbn. destruct (at_ x) as [|j| |] eqn:Hx; try done.
    destruct (from_option _ _ _); [|done]. intros [= <-]. apply lock_ok_moved; try done; [rewrite Hx; by intros [|]|].
    intros q k. case_bool_decide as Hk; [subst k|done]. split; [|by intros [_ ?]].
    intros (y & Hy & _ & Hp)%(lk_held _ Hok). rewrite Hi in Hy. injection Hy as <-. by rewrite Hx in Hp.
  - destruct (queries s !! i) as [x|] eqn:Hi; [|done]. cbn. destruct (at_ x) as [| |holds|] eqn:Hx; try done.
    destruct (calleesReturned i (queries s)); [|done]. intros [= <-]. apply lock_ok_moved; try done; [by right|].
    assert (forall q, cacheLock s !! q = Some i <-> question x = q /\ holds = true) as Hmine.
    { intros q. rewrite (lk_held _ Hok). split; [intros (y & Hy & <- & Hp); rewrite Hi in Hy; injection Hy as <-; rewrite Hx in Hp; by injection Hp as ->|].
      intros [<- ->]. by exists x. }
    intros q j. case_bool_decide as Hj; [subst j; split; [|by intros [_ ?]]|].
    + destruct holds; [rewrite lookup_delete_Some; intros [Hne [Hq _]%Hmine]; done|]. by intros [_ ?]%Hmine.
    + destruct holds; [|done]. rewrite lookup_delete_Some. split; [by intros [_ ?]|]. intros Hq. split; [|done]. intros E.
      assert (cacheLock s !! question x = Some i) as Hm by (by apply Hmine). rewrite E in Hm. congruence.
Qed.

Lemma reached_ok s : reached s -> lock_ok s.
Proof.
  induction 1 as [|e s s' _ IH Hp]; [|by eapply perform_keeps_locks]. split; [|intros i x j; cbn; by rewrite lookup_nil]. intros q i. cbn.
  rewrite lookup_empty. split; [done|]. by intros (x & ? & _).
Qed.

(** ** Every query returns *)

(** The steps of the queries that were made, and what is left of them. *)
Definition isStep (e : event) : Prop := match e with Call _ _ => False | _ => True end.
Definition left_ (p : phase) : nat := match p with Calling => 3 | Waiting _ => 2 | Running _ => 1 | Returned => 0 end.
Definition work (s : State) : nat := sum_list ((fun x => left_ (at_ x)) <$> queries s).

Fixpoint run (es : list event) (s : State) : option State :=
  match es with
  | [] => Some s
  | e :: es => s ← perform e s; run es s
  end.

(** Nested queries are for questions further down in some order, such as that of names resolved
    to dial the server of a name. *)
Definition nested (rank : Question -> nat) s : Prop :=
  forall k x i y, queries s !! k = Some x -> caller x = Some i -> queries s !! i = Some y -> rank (question x) < rank (question y).

Lemma sum_list_insert (ns : list nat) i a b : ns !! i = Some a -> b < a -> sum_list (<[i := b]> ns) < sum_list ns.
Proof.
  intros Hi Hb. revert i Hi. induction ns as [|n ns IH]; intros [|i] Hi; try done.
  - injection Hi as ->. cbn. lia.
  - apply IH in Hi. cbn. by apply Nat.add_lt_mono_l.
Qed.

Lemma work_moved l i x p :
  l !! i = Some x -> left_ p < left_ (at_ x) ->
  sum_list ((fun x => left_ (at_ x)) <$> <[i := moved p x]> l) < sum_list ((fun x => left_ (at_ x)) <$> l).
Proof.
  intros Hi Hp. rewrite list_fmap_insert. apply (sum_list_insert _ _ (left_ (at_ x))); [|done]. by rewrite list_lookup_fmap, Hi.
Qed.

Lemma nested_moved rank s i x p m : nested rank s -> queries s !! i = Some x -> nested rank (mkState (<[i := moved p x]> (queries s)) m).
Proof.
  intros Hn Hi k y j z Hk Hc Hj. cbn in *.
  assert (exists y0, queries s !! k = Some y0 /\ question y0 = question y /\ caller y0 = caller y) as (y0 & Hk0 & <- & Hc0)
    by (apply (moved_lookup _ _ _ _ _ _ Hi) in Hk as [[-> ->]|[_ Hk]]; by eexists).
  assert (exists z0, queries s !! j = Some z0 /\ question z0 = question z) as (z0 & Hj0 & <-)
    by (apply (moved_lookup _ _ _ _ _ _ Hi) in Hj as [[-> ->]|[_ Hj]]; by eexists).
  apply (Hn k y0 j z0); congruence.
Qed.

Lemma step_moves e s s' :
  isStep e -> perform e s = Some s' ->
  exists i x p m, queries s !! i = Some x /\ s' = mkState (<[i := moved p x]> (queries s)) m /\ left_ p < left_ (at_ x).
Proof.
  intros He. destruct e as [by_ q|i|i|i]; [done|..]; cbn; (destruct (queries s !! i) as [x|] eqn:Hi; [|done]); cbn;
    destruct (at_ x) eqn:Hx; try done; case_match; try done; intros [= <-]; eexists i, x, _, _; rewrite Hx; cbn; split_and!; try done; cbn; lia.
Qed.

(** Of the running queries one is for the question furthest down. *)
Lemma lowest_running rank l i x h :
  l !! i = Some x -> at_ x = Running h ->
  exists j y h', l !! j = Some y /\ at_ y = Running h' /\ forall k z h'', l !! k = Some z -> at_ z = Running h'' -> rank (question y) <= rank (question z).
Proof.
  remember (rank (question x)) as n eqn:Hn. revert i x h Hn. induction n as [n IH] using lt_wf_ind. intros i x h -> Hi Hx.
  destruct (decide (Exists (fun z => isRunning z = true /\ rank (question z) < rank (question x)) l)) as [He|He].
  - apply Exists_exists in He as (z & [k Hk]%list_elem_of_lookup & Hz & Hlt). unfold isRunning in Hz. destruct (at_ z) as [| |hz|] eqn:Hp; try done.
    by apply (IH _ Hlt k z hz).
  - exists i, x, h. split_and!; try done. intros k z h'' Hk Hz. apply Nat.nlt_ge. intros Hlt. apply He, Exists_exists.
    exists z. split; [by eapply list_elem_of_lookup_2|]. unfold isRunning. by rewrite Hz.
Qed.

(** Some query can go on as long as not all have returned. *)
Lemma some_step rank s k x :
  lock_ok s -> nested rank s -> queries s !! k = Some x -> at_ x <> Returned -> exists e s', isStep e /\ perform e s = Some s'.
Proof.
  intros Hok Hn Hk Hx.
  assert (forall i y, queries s !! i = Some y -> at_ y = Calling -> exists e s', isStep e /\ perform e s = Some s') as Hcalling.
  { intros i y Hi Hy. exists (Enter i). cbn. rewrite Hi. cbn. rewrite Hy. destruct (cacheLock s !! question y); by eexists. }
  assert (forall i y j, queries s !! i = Some y -> at_ y = Waiting j ->
    (exists e s', isStep e /\ perform e s = Some s') \/ exists z, queries s !! j = Some z /\ question z = question y /\ at_ z = Running true) as Hwaiting.
  { intros i y j Hi Hy. destruct (lk_waits _ Hok i y j Hi Hy) as (z & Hz & Hq & [Hp|Hp]); [right; by exists z|]. left. exists (Wake i). cbn. rewrite Hi. cbn.
    rewrite Hy, Hz. cbn. unfold isReturned. rewrite bool_decide_eq_true_2 by done. by eexists. }
  assert (forall i y h, queries s !! i = Some y -> at_ y = Running h -> exists e s', isStep e /\ perform e s = Some s') as Hrunning.
  { intros i0 y0 h0 Hi0 Hy0. destruct (lowest_running rank _ _ _ _ Hi0 Hy0) as (i & y & h & Hi & Hy & Hlow).
    destruct (calleesReturned i (queries s)) eqn:Hc.
    { exists (Return i). cbn. rewrite Hi. cbn. rewrite Hy, Hc. by eexists. }
    apply not_true_iff_false in Hc. unfold calleesReturned in Hc. rewrite forallb_forall in Hc.
    destruct (decide (Forall (fun z => bool_decide (caller z <> Some i) || isReturned z = true) (queries s))) as [Hall|Hall].
    { destruct Hc. intros z Hz%list_elem_of_In. rewrite Forall_forall in Hall. by apply Hall. }
    apply not_Forall_Exists in Hall; [|apply _]. apply Exists_exists in Hall as (z & [j Hj]%list_elem_of_lookup & Hz).
    apply not_true_iff_false, orb_false_iff in Hz as [Hz1 Hz2]. unfold isReturned in Hz2. apply bool_decide_eq_false in Hz1, Hz2. apply dec_stable in Hz1.
    pose proof (Hn j z i y Hj Hz1 Hi) as Hlt. destruct (at_ z) as [|w|hz|] eqn:Hp; [by eapply Hcalling| | |done].
    - destruct (Hwaiting j z w Hj Hp) as [Hs|(v & Hv & Hq & Hvp)]; [done|]. pose proof (Hlow _ _ _ Hv Hvp). rewrite Hq in *. lia.
    - pose proof (Hlow _ _ _ Hj Hp). lia. }
  destruct (at_ x) as [|j|h|] eqn:Hp; [by eapply Hcalling| |by eapply Hrunning|done].
  destruct (Hwaiting k x j Hk Hp) as [?|(z & Hz & _ & Hzp)]; [done|]. by eapply Hrunning.
Qed.

(** C26. Queries that wait for each other return: where the queries a transport makes are for
    questions further down in some order, then however the steps of the queries made so far are
    scheduled, there are at most three for each query, and when no query can take another step all
    of them have returned and no question is locked. *)
Theorem waiting_queries_return rank s es s' :
  reached s -> nested rank s -> Forall isStep es -> run es s = Some s' ->
  length es <= work s <= 3 * length (queries s) /\
  ((forall e, isStep e -> perform e s' = None) -> Forall (fun x => at_ x = Returned) (queries s') /\ cacheLock s' = ∅).
Proof.
  intros Hr Hn Hes Hrun. split; [split|].
  - clear Hr. revert s Hn Hrun. induction Hes as [|e es He _ IH]; intros s Hn Hrun; cbn in *; [lia|].
    destruct (perform e s) as [s1|] eqn:Hp; [|done]. cbn in Hrun.
    destruct (step_moves _ _ _ He Hp) as (i & x & p & m & Hi & -> & Hlt). apply IH in Hrun; [|by apply nested_moved].
    pose proof (work_moved _ _ _ _ Hi Hlt). unfold work in *. cbn in *. lia.
  - unfold work. induction (queries s) as [|x l IH]; cbn; [lia|]. destruct (at_ x); cbn; lia.
  - assert (reached s' /\ nested rank s') as [Hr' Hn'].
    { revert s Hr Hn Hrun. induction Hes as [|e es He _ IH]; intros s Hr Hn Hrun; cbn in Hrun; [by injection Hrun as <-|].
      destruct (perform e s) as [s1|] eqn:Hp; [|done]. cbn in Hrun. apply (IH s1); [by eapply reached_event| |done].
      destruct (step_moves _ _ _ He Hp) as (i & x & p & m & Hi & -> & Hlt). by apply nested_moved. }
    intros Hstuck. assert (Forall (fun x => at_ x = Returned) (queries s')) as Hall.
    { apply Forall_lookup_2. intros k x Hk. destruct (decide (at_ x = Returned)) as [|Hx]; [done|].
      destruct (some_step rank s' k x (reached_ok _ Hr') Hn' Hk Hx) as (e & s1 & He & Hp). by rewrite (Hstuck e He) in Hp. }
    split; [done|]. apply map_empty. intros q. destruct (cacheLock s' !! q) as [i|] eqn:Hq; [|done].
    apply (lk_held _ (reached_ok _ Hr')) in Hq as (x & Hx & _ & Hp). apply (Forall_lookup_1 _ _ _ _ Hall) in Hx. cbn in Hx. congruence.
Qed.

(** ** A query for its own question *)

(** The transport of [i] has asked the question of [i] again, as [k]. *)
Definition blocked (i k : nat) s : Prop :=
  exists x y h, queries s !! i = Some x /\ at_ x = Running h /\ queries s !! k = Some y /\ caller y = Some i /\ at_ y = Waiting i.

Lemma blocked_moved i k s j z p m :
  blocked i k s -> queries s !! j = Some z -> j <> i -> j <> k -> blocked i k (mkState (<[j := moved p z]> (queries s)) m).
Proof.
  intros (x & y & h & Hi & Hx & Hk & Hc & Hy) Hj Hji Hjk. exists x, y, h. cbn. by rewrite !moved_other.
Qed.

Lemma blocked_stays i k e s s' : blocked i k s -> perform e s = Some s' -> blocked i k s'.
Proof.
  intros Hb. pose proof Hb as (x & y & h & Hi & Hx & Hk & Hc & Hy).
  destruct e as [by_ q|j|j|j]; cbn.
  { destruct (mayCall by_ (queries s)); [|done]. intros [= <-]. exists x, y, h. cbn. by rewrite !(lookup_app_l_Some _ _ _ _) by done. }
  all: destruct (queries s !! j) as [z|] eqn:Hj; [|done]; cbn.
  all: assert (j = i -> z = x) as Hzi by (intros ->; congruence); assert (j = k -> z = y) as Hzk by (intros ->; congruence).
  - destruct (at_ z) eqn:Hz; try done. destruct (cacheLock s !! question z); intros [= <-]; apply blocked_moved; try done; naive_solver congruence.
  - destruct (at_ z) as [|w| |] eqn:Hz; try done. destruct (from_option _ _ _) eqn:Hw; [|done]. intros [= <-].
    apply blocked_moved; try done; [naive_solver congruence|]. intros E. specialize (Hzk E) as ->. rewrite Hy in Hz. injection Hz as <-.
    rewrite Hi in Hw. cbn in Hw. unfold isReturned in Hw. apply bool_decide_eq_true in Hw. congruence.
  - destruct (at_ z) as [| |hz|] eqn:Hz; try done. destruct (calleesReturned j (queries s)) eqn:Hr; [|done]. intros [= <-].
    apply blocked_moved; try done; [|naive_solver congruence]. intros ->. unfold calleesReturned in Hr. rewrite forallb_forall in Hr.
    specialize (Hr y). rewrite <- list_elem_of_In in Hr. specialize (Hr (list_elem_of_lookup_2 _ _ _ Hk)).
    apply orb_true_iff in Hr as [Hr|Hr]; [by apply bool_decide_eq_true in Hr|]. unfold isReturned in Hr. apply bool_decide_eq_true in Hr. congruence.
Qed.

(** A query whose transport asks the same question again waits for itself: whatever happens after
    that, neither of the two returns, and the check for such loops, which [Exchange] makes later, is
    not reached. *)
Lemma own_question_blocks i x s es s' :
  queries s !! i = Some x -> at_ x = Running true -> lock_ok s ->
  run (Call (Some i) (question x) :: Enter (length (queries s)) :: es) s = Some s' ->
  blocked i (length (queries s)) s'.
Proof.
  intros Hi Hx Hok. cbn [run perform]. unfold mayCall. rewrite Hi. cbn [from_option]. unfold isRunning. rewrite Hx. cbn [mbind option_bind queries cacheLock].
  rewrite lookup_app_r, Nat.sub_diag by lia. cbn.
  assert (cacheLock s !! question x = Some i) as -> by (apply (lk_held _ Hok); by exists x). cbn.
  set (s1 := mkState _ _). assert (blocked i (length (queries s)) s1) as Hb.
  { assert (i < length (queries s)) by by eapply lookup_lt_Some. eexists x, _, true. cbn. rewrite list_lookup_insert_ne by lia.
    rewrite lookup_app_l by lia. split_and!; try done; [apply list_lookup_insert_eq; rewrite length_app; cbn; lia|done|done]. }
  clearbody s1. revert s1 Hb. induction es as [|e es IH]; cbn; intros s1 Hb; [by intros [= <-]|].
  destruct (perform e s1) as [s2|] eqn:Hp; [|done]. cbn. apply IH. by eapply blocked_stays.
Qed.

(** ** A name, the server it is asked of, and a second query *)

Module LockSample.
Definition site : Question := mkQuestion "go.dev." TypeA ClassINET.
Definition server : Question := mkQuestion "dns.example." TypeA ClassINET.
Definition rank (q : Question) : nat := if bool_decide (q = site) then 1 else 0.

(** The transport of the first query looks its server up while a second one waits. *)
Definition begun : option State :=
  run [Call None site; Enter 0; Call None site; Call (Some 0) server; Enter 1] noQueries.
Definition rest : list event := [Enter 2; Return 2; Return 0; Wake 1; Return 1].

Lemma run_reached es s s' : reached s -> run es s = Some s' -> reached s'.
Proof.
  revert s. induction es as [|e es IH]; cbn; intros s Hr; [by intros [= <-]|]. destruct (perform e s) as [s1|] eqn:Hp; [|done].
  apply IH. by eapply reached_event.
Qed.

Lemma waiting_queries_return_witness :
  exists s s', begun = Some s /\ run rest s = Some s' /\ work s = 6 /\ length rest <= 6 /\
    Forall (fun x => at_ x = Returned) (queries s') /\ cacheLock s' = ∅.
Proof.
  destruct begun as [s|] eqn:Hb; [|by vm_compute in Hb]. destruct (run rest s) as [s'|] eqn:Hs'; [|vm_compute in Hb; injection Hb as <-; by vm_compute in Hs'].
  exists s, s'. split; [done|]. split; [done|].
  assert (work s = 6) as Hw by (vm_compute in Hb; by injection Hb as <-).
  assert (nested rank s) as Hn.
  { vm_compute in Hb. injection Hb as <-. intros [|[|[|k]]] x i y; cbn; intros [= <-]; cbn; try done. intros [= <-]. cbn. intros [= <-]. vm_compute. lia. }
  destruct (waiting_queries_return rank s rest s' (run_reached _ _ _ reached_new Hb) Hn ltac:(repeat constructor) Hs') as [[Hlen _] Hend].
  split; [done|]. split; [by rewrite Hw in Hlen|]. apply Hend. vm_compute in Hb. injection Hb as <-. vm_compute in Hs'. injection Hs' as <-.
  intros [by_ q|[|[|[|i]]]|[|[|[|i]]]|[|[|[|i]]]] He; done.
Defined.

(** The name of the server itself, asked of that server. *)
Example server_by_itself : run [Call None server; Enter 0; Call (Some 0) server; Enter 1; Return 0] noQueries = None /\
  run [Call None server; Enter 0; Call (Some 0) server; Enter 1; Wake 1] noQueries = None.
Proof. by vm_compute. Qed.
End LockSample.
